(** * Obsidian_to_Anki: the scanning / rewriting core of [src/file.ts] and the
    bulk deletion of [src/bulk-delete.ts], embedded in Rocq.

    JavaScript strings are modelled as lists of characters ([list ascii], one
    element per code unit; the development covers code units below 256),
    numbers that hold offsets and identifiers as [Z], [null]/[undefined] as
    [None].  Regular-expression literals of the source are embedded as terms of
    a small regular-expression syntax and run by a backtracking matcher with
    the priorities of the JavaScript engine. *)

From Stdlib Require Import Ascii String.
From Stdlib Require Import DecimalString.
From Stdlib Require DecimalPos.
From Stdlib Require Import List ZArith Lia Bool Permutation Sorted.
Import ListNotations.
Open Scope Z_scope.

(** ** JavaScript string primitives *)

Module JS.

Definition jstring := list ascii.

Definition str (s : string) : jstring := list_ascii_of_string s.

(** Relative index resolution of [String.prototype.slice]: a negative index
    counts from the end, everything is clamped to [0, len]. *)
Definition clamp_index (len i : Z) : Z :=
  if i <? 0 then Z.max (len + i) 0 else Z.min i len.

(** [t.slice(b, e)] *)
Definition slice (t : jstring) (b e : Z) : jstring :=
  let len := Z.of_nat (length t) in
  let from := clamp_index len b in
  let to := clamp_index len e in
  firstn (Z.to_nat (to - from)) (skipn (Z.to_nat from) t).

(** [t.slice(b)] *)
Definition slice_from (t : jstring) (b : Z) : jstring :=
  skipn (Z.to_nat (clamp_index (Z.of_nat (length t)) b)) t.

Definition LF : ascii := ascii_of_nat 10.
Definition CR : ascii := ascii_of_nat 13.

Definition is_line_terminator (c : ascii) : bool :=
  Ascii.eqb c LF || Ascii.eqb c CR.

(** White space and line terminators below code unit 256. *)
Definition is_space (c : ascii) : bool :=
  let n := nat_of_ascii c in
  ((9 <=? n) && (n <=? 13) || (n =? 32) || (n =? 160))%nat.

Definition is_digit (c : ascii) : bool :=
  let n := nat_of_ascii c in ((48 <=? n) && (n <=? 57))%nat.

Fixpoint jstring_eqb (a b : jstring) : bool :=
  match a, b with
  | [], [] => true
  | x :: a', y :: b' => Ascii.eqb x y && jstring_eqb a' b'
  | _, _ => false
  end.

(** [t.startsWith(p)] *)
Fixpoint starts_with (p t : jstring) : bool :=
  match p, t with
  | [], _ => true
  | x :: p', y :: t' => Ascii.eqb x y && starts_with p' t'
  | _ :: _, [] => false
  end.

(** [t.indexOf(p)] and [t.lastIndexOf(p)]; [-1] when [p] does not occur. *)
Fixpoint indexOf_from (p t : jstring) (i : Z) : Z :=
  if starts_with p t then i
  else match t with
       | [] => -1
       | _ :: t' => indexOf_from p t' (i + 1)
       end.

Definition indexOf (t p : jstring) : Z := indexOf_from p t 0.

Fixpoint lastIndexOf_from (p t : jstring) (i : Z) (found : Z) : Z :=
  let found' := if starts_with p t then i else found in
  match t with
  | [] => found'
  | _ :: t' => lastIndexOf_from p t' (i + 1) found'
  end.

Definition lastIndexOf (t p : jstring) : Z := lastIndexOf_from p t 0 (-1).

(** [t.trim()] *)
Fixpoint trimStart (t : jstring) : jstring :=
  match t with
  | c :: r => if is_space c then trimStart r else t
  | [] => []
  end.

Definition trim (t : jstring) : jstring := rev (trimStart (rev (trimStart t))).

(** [t.split(sep)] for a non-empty separator: [skip] counts the characters of
    a separator still to be passed over, [cur] holds the current piece in
    reverse. *)
Fixpoint split_aux (sep t : jstring) (skip : nat) (cur : jstring) : list jstring :=
  match t with
  | [] => [rev cur]
  | c :: t' =>
      match skip with
      | S n => split_aux sep t' n cur
      | O => if starts_with sep t
             then rev cur :: split_aux sep t' (length sep - 1) []
             else split_aux sep t' 0 (c :: cur)
      end
  end.

Definition split (t sep : jstring) : list jstring :=
  match sep with
  | [] => map (fun c => [c]) t
  | _ => split_aux sep t 0 []
  end.

(** [a.join(sep)] *)
Fixpoint join (a : list jstring) (sep : jstring) : jstring :=
  match a with
  | [] => []
  | [x] => x
  | x :: r => x ++ sep ++ join r sep
  end.

(** [Number.MAX_SAFE_INTEGER].  The code's numbers are doubles, the numbers
    here are integers: up to this bound in absolute value every integer is a
    double, [parseInt] is exact and [toString] writes plain decimal digits,
    and the definitions below are the code's.  Beyond it the code rounds what
    it parses, and from 1e21 on it writes an exponent. *)
Definition MAX_SAFE_INTEGER : Z := 9007199254740991.

(** [parseInt]: leading white space, an optional sign, then the longest run
    of digits, hexadecimal after a [0x] prefix and decimal otherwise; [None]
    stands for [NaN].  The value is the code's when it is at most
    [MAX_SAFE_INTEGER] in absolute value. *)
Definition digit_value (c : ascii) : Z :=
  let n := nat_of_ascii c in
  if ((48 <=? n) && (n <=? 57))%nat then Z.of_nat n - 48
  else if ((97 <=? n) && (n <=? 102))%nat then Z.of_nat n - 87
  else Z.of_nat n - 55.

Definition is_hex_digit (c : ascii) : bool :=
  let n := nat_of_ascii c in
  ((48 <=? n) && (n <=? 57) || (97 <=? n) && (n <=? 102) || (65 <=? n) && (n <=? 70))%nat.

Definition parse_digits (radix : Z) (t : jstring) : Z :=
  fold_left (fun acc c => radix * acc + digit_value c) t 0.

Fixpoint take_while (p : ascii -> bool) (t : jstring) : jstring :=
  match t with
  | c :: r => if p c then c :: take_while p r else []
  | [] => []
  end.

Definition parse_run (radix : Z) (p : ascii -> bool) (t : jstring) : option Z :=
  match take_while p t with
  | [] => None
  | ds => Some (parse_digits radix ds)
  end.

Definition parse_unsigned (t : jstring) : option Z :=
  match t with
  | z :: x :: r =>
      if Ascii.eqb z "0"%char && (Ascii.eqb x "x"%char || Ascii.eqb x "X"%char)
      then parse_run 16 is_hex_digit r
      else parse_run 10 is_digit t
  | _ => parse_run 10 is_digit t
  end.

Definition parseInt (t : jstring) : option Z :=
  match trimStart t with
  | c :: r =>
      if Ascii.eqb c "-"%char then option_map Z.opp (parse_unsigned r)
      else if Ascii.eqb c "+"%char then parse_unsigned r
      else parse_unsigned (c :: r)
  | [] => None
  end.

(** [n.toString()], and [n] in a template literal, for an integer of at
    most [MAX_SAFE_INTEGER] in absolute value. *)
Definition number_to_string (n : Z) : jstring :=
  str (NilZero.string_of_int (Z.to_int n)).

(** Truthiness of a number-or-null: [null], [NaN] (both [None]) and [0] are
    falsy. *)
Definition truthy (n : option Z) : bool :=
  match n with
  | Some z => negb (z =? 0)
  | None => false
  end.

End JS.
Import JS.

(** ** Regular expressions

    The regular-expression literals of the source use characters, classes,
    sequence, alternation, greedy and lazy repetition, capturing groups and
    the anchors [^] and [$].  The matcher is the backtracking matcher of the
    language definition written with continuations: alternatives are tried
    left to right, a greedy repetition tries one more iteration before it
    tries to stop, and an iteration that consumes nothing is rejected. *)

Module Regex.

Inductive cclass : Type :=
| Lit (c : ascii)             (* a character *)
| Dot                         (* [.]: anything but a line terminator *)
| Space                       (* [\s] *)
| Digit                       (* [\d] *)
| AnyChar                     (* [[\s\S]] *)
| NoneOf (cs : list ascii).   (* [[^...]] *)

Inductive regex : Type :=
| Eps
| Chr (c : cclass)
| Seq (r1 r2 : regex)
| Alt (r1 r2 : regex)
| Star (greedy : bool) (r : regex)
| Group (n : nat) (r : regex)
| Bol                         (* [^] *)
| Eol.                        (* [$] *)

(** Derived forms. *)
Definition Opt (r : regex) : regex := Alt r Eps.            (* [r?] *)
Definition Plus (r : regex) : regex := Seq r (Star true r). (* [r+] *)
Fixpoint Str (s : jstring) : regex :=                        (* a literal string *)
  match s with
  | [] => Eps
  | c :: r => Seq (Chr (Lit c)) (Str r)
  end.

Definition cmatch (cl : cclass) (c : ascii) : bool :=
  match cl with
  | Lit a => Ascii.eqb a c
  | Dot => negb (is_line_terminator c)
  | Space => is_space c
  | Digit => is_digit c
  | AnyChar => true
  | NoneOf cs => negb (existsb (Ascii.eqb c) cs)
  end.

(** The matcher's position in the input: the offset, the character before
    it, the text from it on, and the groups captured so far. *)
Record cursor := mkCursor {
  pos : nat;
  prev : option ascii;
  rest : jstring;
  caps : list (nat * (nat * nat))
}.

Definition at_bol (multiline : bool) (s : cursor) : bool :=
  match prev s with
  | None => true
  | Some c => multiline && is_line_terminator c
  end.

Definition at_eol (multiline : bool) (s : cursor) : bool :=
  match rest s with
  | [] => true
  | c :: _ => multiline && is_line_terminator c
  end.

Definition orelse {A} (x y : option A) : option A :=
  match x with Some _ => x | None => y end.

Fixpoint run (multiline : bool) (r : regex) (s : cursor)
             (k : cursor -> option cursor) {struct r} : option cursor :=
  match r with
  | Eps => k s
  | Chr cl =>
      match rest s with
      | c :: r' =>
          if cmatch cl c then k (mkCursor (S (pos s)) (Some c) r' (caps s)) else None
      | [] => None
      end
  | Seq r1 r2 => run multiline r1 s (fun s' => run multiline r2 s' k)
  | Alt r1 r2 => orelse (run multiline r1 s k) (run multiline r2 s k)
  | Star greedy r1 =>
      (fix loop (fuel : nat) (s : cursor) {struct fuel} : option cursor :=
         match fuel with
         | O => k s
         | S fuel' =>
             let again :=
               run multiline r1 s
                 (fun s' => if (pos s <? pos s')%nat then loop fuel' s' else None) in
             if greedy then orelse again (k s) else orelse (k s) again
         end) (length (rest s)) s
  | Group n r1 =>
      run multiline r1 s
        (fun s' => k (mkCursor (pos s') (prev s') (rest s') ((n, (pos s, pos s')) :: caps s')))
  | Bol => if at_bol multiline s then k s else None
  | Eol => if at_eol multiline s then k s else None
  end.

(** A successful match: [index], the offset after it, and its groups. *)
Record rmatch := mkMatch {
  index : nat;
  stop : nat;
  groups : list (nat * (nat * nat));
  after : cursor   (* where the match ended in the input *)
}.

Definition match_here (multiline : bool) (r : regex) (s : cursor) : option rmatch :=
  match run multiline r s Some with
  | Some s' => Some (mkMatch (pos s) (pos s') (caps s') s')
  | None => None
  end.

(** First match at or after the cursor. *)
Fixpoint search (multiline : bool) (r : regex) (p : nat) (pv : option ascii)
                (t : jstring) : option rmatch :=
  match match_here multiline r (mkCursor p pv t []) with
  | Some m => Some m
  | None =>
      match t with
      | [] => None
      | c :: t' => search multiline r (S p) (Some c) t'
      end
  end.

(** [regex.exec(t)] / [t.match(regex)] without the [g] flag. *)
Definition exec (multiline : bool) (r : regex) (t : jstring) : option rmatch :=
  search multiline r 0 None t.

(** [regex.test(t)] *)
Definition test (multiline : bool) (r : regex) (t : jstring) : bool :=
  match exec multiline r t with Some _ => true | None => false end.

(** Successive matches with the [g] flag: the search resumes where the last
    match ended, one character further after an empty match. *)
Fixpoint matches_from (fuel : nat) (multiline : bool) (r : regex)
                      (p : nat) (pv : option ascii) (t : jstring) : list rmatch :=
  match fuel with
  | O => []
  | S fuel' =>
      match search multiline r p pv t with
      | None => []
      | Some m =>
          let s := after m in
          m :: (if (index m <? stop m)%nat
                then matches_from fuel' multiline r (pos s) (prev s) (rest s)
                else match rest s with
                     | [] => []
                     | c :: t' => matches_from fuel' multiline r (S (pos s)) (Some c) t'
                     end)
      end
  end.

(** [t.matchAll(regex)] *)
Definition matchAll (multiline : bool) (r : regex) (t : jstring) : list rmatch :=
  matches_from (S (length t)) multiline r 0 None t.

(** The text of the whole match, [m[0]], and of group [n], [m[n]]. *)
Definition substring (t : jstring) (a b : nat) : jstring :=
  firstn (b - a) (skipn a t).

Definition matched (t : jstring) (m : rmatch) : jstring :=
  substring t (index m) (stop m).

Fixpoint lookup_group (n : nat) (g : list (nat * (nat * nat))) : option (nat * nat) :=
  match g with
  | [] => None
  | (k, sp) :: g' => if (k =? n)%nat then Some sp else lookup_group n g'
  end.

Definition group (t : jstring) (m : rmatch) (n : nat) : option jstring :=
  match lookup_group n (groups m) with
  | Some (a, b) => Some (substring t a b)
  | None => None
  end.

Definition group_text (t : jstring) (m : rmatch) (n : nat) : jstring :=
  match group t m n with Some s => s | None => [] end.

(** [t.replace(regex, f)] without the [g] flag: the first match only. *)
Definition replace (multiline : bool) (r : regex) (f : rmatch -> jstring)
                   (t : jstring) : jstring :=
  match exec multiline r t with
  | None => t
  | Some m => firstn (index m) t ++ f m ++ skipn (stop m) t
  end.

(** [t.replace(regex, f)] with the [g] flag: every match, the text between
    the matches kept. *)
Fixpoint stitch (t : jstring) (from : nat) (f : rmatch -> jstring)
                (ms : list rmatch) : jstring :=
  match ms with
  | [] => skipn from t
  | m :: ms' => substring t from (index m) ++ f m ++ stitch t (stop m) f ms'
  end.

Definition replaceAll (multiline : bool) (r : regex) (f : rmatch -> jstring)
                      (t : jstring) : jstring :=
  stitch t 0 f (matchAll multiline r t).

End Regex.

(** ** The edit engine: [apply_edits] *)

Module EditEngine.

Record edit := mkEdit { start : Z; end_ : Z; text : jstring }.

(** [edits.sort((a, b) => b.start - a.start)]: [Array.prototype.sort] is a
    stable sort; the comparator puts the larger [start] first.  Insertion
    from the right keeps edits of equal [start] in their list order. *)
Fixpoint insert_desc (e : edit) (l : list edit) : list edit :=
  match l with
  | [] => [e]
  | x :: r => if start e <? start x then x :: insert_desc e r else e :: x :: r
  end.

Fixpoint sort_desc (l : list edit) : list edit :=
  match l with
  | [] => []
  | e :: r => insert_desc e (sort_desc r)
  end.

(** Loop body: [text = text.slice(0, edit.start) + edit.text + text.slice(edit.end)] *)
Definition splice (t : jstring) (e : edit) : jstring :=
  slice t 0 (start e) ++ text e ++ slice_from t (end_ e).

Definition apply_edits (t : jstring) (edits : list edit) : jstring :=
  fold_left splice (sort_desc edits) t.

(** How a JavaScript call completes: it returns a value or throws. *)
Inductive completion (A : Type) : Type :=
| Returned (a : A)
| Thrown (msg : string).
Arguments Returned {A} a.
Arguments Thrown {A} msg.

(** [apply_edits] has no [throw] statement and [sort], [slice] and [+] do not
    throw on an array of edits and a string: the call always returns. *)
Definition apply_edits_call (t : jstring) (edits : list edit) : completion jstring :=
  Returned (apply_edits t edits).

(** Preconditions the callers are meant to establish. *)
Definition in_range (t : jstring) (e : edit) : Prop :=
  0 <= start e /\ start e <= end_ e /\ end_ e <= Z.of_nat (length t).

(** Two half-open spans [start, end) are disjoint when one ends before the
    other starts; a zero-length span is disjoint from a span it touches. *)
Definition disjoint (a b : edit) : Prop :=
  end_ a <= start b \/ end_ b <= start a.

Definition overlap (a b : edit) : Prop := ~ disjoint a b.

Definition non_overlapping (es : list edit) : Prop := ForallOrdPairs disjoint es.

Definition distinct_starts (es : list edit) : Prop := NoDup (map start es).

Definition starts_descending (es : list edit) : Prop :=
  StronglySorted (fun a b => start b <= start a) es.

Definition starts_strictly_descending (es : list edit) : Prop :=
  StronglySorted (fun a b => start b < start a) es.

(** The buffer read left to right: the original text with every span replaced
    by its edit's text.  [cur] is the offset of the original text reached so
    far, [es] the edits by ascending offset. *)
Fixpoint replace_spans (t : jstring) (cur : Z) (es : list edit) : jstring :=
  match es with
  | [] => slice_from t cur
  | e :: r => slice t cur (start e) ++ text e ++ replace_spans t (end_ e) r
  end.

(** Edits laid out left to right from offset [b]: each starts at or after the
    end of the one before it and the last one ends inside the text. *)
Fixpoint ascending_from (t : jstring) (b : Z) (es : list edit) : Prop :=
  match es with
  | [] => b <= Z.of_nat (length t)
  | e :: r => b <= start e /\ start e <= end_ e /\ ascending_from t (end_ e) r
  end.

End EditEngine.


Import Regex.

(** ** The document scan and the identifier reconciliation: class [AllFile] *)

Module Scanner.

Definition span := (Z * Z)%type.

(** A [RegExp] object: its pattern and its [m] flag.  Every pattern given to
    [matchAll] carries the [g] flag. *)
Record RegExp := mkRegExp { pattern : regex; multiline : bool }.

Record AnkiConnectNote := mkNote {
  deckName : jstring;
  modelName : jstring;
  fields : list (jstring * jstring);
  tags : list jstring
}.

Record AnkiConnectNoteAndID := mkParsed {
  note : AnkiConnectNote;
  identifier : option Z
}.

(** Front-matter values as the metadata cache holds them. *)
Inductive yaml_scalar : Type :=
| YNum (n : Z)
| YStr (s : jstring).

Inductive yaml_tags : Type :=
| TagArray (a : list jstring)
| TagString (s : jstring).

Record FrontMatterCache := mkFrontMatter {
  fm_tags : option yaml_tags;
  fm_nid : option yaml_scalar
}.

Record CachedMetadata := mkCache {
  frontmatter : option FrontMatterCache;
  cache_tags : option (list jstring)      (* [file_cache.tags], each [tagCache.tag] *)
}.

(** The settings the scan reads ([FileData]). *)
Record FileData := mkFileData {
  EXISTING_IDS : list Z;
  saveIDToFrontmatter : bool;
  comment : bool;
  yaml_tags_setting : bool;                            (* [data.yaml_tags] *)
  regex_required_tags : bool;
  regexp_tags : option (list (jstring * jstring));
  custom_regexps : list (jstring * jstring);           (* in [Object.keys] order *)
  NOTE_REGEXP : RegExp;
  INLINE_REGEXP : RegExp;
  EMPTY_REGEXP : RegExp;
  FROZEN_REGEXP : RegExp;
  DECK_REGEXP : RegExp;
  TAG_REGEXP : RegExp
}.

(** What [file.ts] imports from modules that are not part of the sources:
    the constants of [note.ts] and [constants.ts], the parsers of the three
    note classes (each closed over the settings, the deck, the frozen fields
    and the heading context of the match offset it is given), and the
    compilation of a pattern source by [new RegExp(source, 'gm')]. *)
Record imports := mkImports {
  CLOZE_ERROR : Z;
  NOTE_TYPE_ERROR : Z;
  TAG_SEP : jstring;
  TAG_REGEXP_STR : jstring;
  InlineNote_ID_REGEXP : RegExp;
  OBS_INLINE_MATH_REGEXP : RegExp;
  OBS_DISPLAY_MATH_REGEXP : RegExp;
  OBS_CODE_REGEXP : RegExp;
  OBS_DISPLAY_CODE_REGEXP : RegExp;
  compile : jstring -> regex;
  Note_parse : jstring -> Z -> AnkiConnectNoteAndID;
  InlineNote_parse : jstring -> Z -> AnkiConnectNoteAndID;
  (* file, match, note type, search_tags, search_id *)
  RegexNote_parse : jstring -> rmatch -> jstring -> bool -> bool -> AnkiConnectNoteAndID
}.

(** [ID_REGEXP_STR], as a comment of [scanNotes] quotes it: an optional line
    feed, an optional comment opener, then "ID: ", the digits (group 1) and
    the rest of the line. *)
Definition ID_REGEXP_STR : jstring := str "\n?(?:<!--)?(?:ID: (\d+).*" ++ str ")".

Definition ID_REGEXP : regex :=
  Seq (Opt (Chr (Lit LF)))
      (Seq (Opt (Str (str "<!--")))
           (Seq (Str (str "ID: ")) (Seq (Group 1 (Plus (Chr Digit))) (Star true (Chr Dot))))).

(** [new RegExp(ID_REGEXP_STR + "$")] *)
Definition ID_REGEXP_END : RegExp := mkRegExp (Seq ID_REGEXP Eol) false.

(** [const double_regexp = /(?:\r\n|\r|\n)((?:\r\n|\r|\n)(?:<!--)?ID: \d+)/g] *)
Definition newline : regex :=
  Alt (Str [CR; LF]) (Alt (Chr (Lit CR)) (Chr (Lit LF))).

Definition double_regexp : RegExp :=
  mkRegExp
    (Seq newline
         (Group 1 (Seq newline
                       (Seq (Opt (Str (str "<!--")))
                            (Seq (Str (str "ID: ")) (Plus (Chr Digit)))))))
    false.

Inductive warning : Type :=
| UnknownNoteType (model : jstring)     (* "Did not recognise note type ..." *)
| UnknownIdentifier (id : option Z).    (* "Note with id ... does not exist in Anki!" *)

(** The fields of [AllFile] (and of [AbstractFile]) that the scan, the
    reconciliation and the write pass read or assign.  [console] records the
    calls of [console.warn], oldest first; in [notes_to_delete] and
    [note_ids], [None] stands for [NaN] and for [null]. *)
Record AllFile := mkAllFile {
  file : jstring;
  ignore_spans : list span;
  notes_to_add : list AnkiConnectNote;
  id_indexes : list Z;
  inline_notes_to_add : list AnkiConnectNote;
  inline_id_indexes : list Z;
  regex_notes_to_add : list AnkiConnectNote;
  regex_id_indexes : list Z;
  notes_to_edit : list AnkiConnectNoteAndID;
  notes_to_delete : list (option Z);
  all_notes_to_add : list AnkiConnectNote;
  note_ids : list (option Z);
  global_tags : jstring;
  useFrontmatterID : bool;
  frontmatterID : option Z;
  existingIDSpans : list span;
  notesToWriteInline : list (Z * Z);
  console : list warning
}.

(** Field assignment, one function per field that the scan or the write pass
    assigns or pushes to. *)
Definition set_file (v : jstring) (st : AllFile) : AllFile :=
  mkAllFile v (ignore_spans st) (notes_to_add st) (id_indexes st) (inline_notes_to_add st) (inline_id_indexes st) (regex_notes_to_add st) (regex_id_indexes st) (notes_to_edit st) (notes_to_delete st) (all_notes_to_add st) (note_ids st) (global_tags st) (useFrontmatterID st) (frontmatterID st) (existingIDSpans st) (notesToWriteInline st) (console st).
Definition set_ignore_spans (v : list span) (st : AllFile) : AllFile :=
  mkAllFile (file st) v (notes_to_add st) (id_indexes st) (inline_notes_to_add st) (inline_id_indexes st) (regex_notes_to_add st) (regex_id_indexes st) (notes_to_edit st) (notes_to_delete st) (all_notes_to_add st) (note_ids st) (global_tags st) (useFrontmatterID st) (frontmatterID st) (existingIDSpans st) (notesToWriteInline st) (console st).
Definition set_notes_to_add (v : list AnkiConnectNote) (st : AllFile) : AllFile :=
  mkAllFile (file st) (ignore_spans st) v (id_indexes st) (inline_notes_to_add st) (inline_id_indexes st) (regex_notes_to_add st) (regex_id_indexes st) (notes_to_edit st) (notes_to_delete st) (all_notes_to_add st) (note_ids st) (global_tags st) (useFrontmatterID st) (frontmatterID st) (existingIDSpans st) (notesToWriteInline st) (console st).
Definition set_id_indexes (v : list Z) (st : AllFile) : AllFile :=
  mkAllFile (file st) (ignore_spans st) (notes_to_add st) v (inline_notes_to_add st) (inline_id_indexes st) (regex_notes_to_add st) (regex_id_indexes st) (notes_to_edit st) (notes_to_delete st) (all_notes_to_add st) (note_ids st) (global_tags st) (useFrontmatterID st) (frontmatterID st) (existingIDSpans st) (notesToWriteInline st) (console st).
Definition set_inline_notes_to_add (v : list AnkiConnectNote) (st : AllFile) : AllFile :=
  mkAllFile (file st) (ignore_spans st) (notes_to_add st) (id_indexes st) v (inline_id_indexes st) (regex_notes_to_add st) (regex_id_indexes st) (notes_to_edit st) (notes_to_delete st) (all_notes_to_add st) (note_ids st) (global_tags st) (useFrontmatterID st) (frontmatterID st) (existingIDSpans st) (notesToWriteInline st) (console st).
Definition set_inline_id_indexes (v : list Z) (st : AllFile) : AllFile :=
  mkAllFile (file st) (ignore_spans st) (notes_to_add st) (id_indexes st) (inline_notes_to_add st) v (regex_notes_to_add st) (regex_id_indexes st) (notes_to_edit st) (notes_to_delete st) (all_notes_to_add st) (note_ids st) (global_tags st) (useFrontmatterID st) (frontmatterID st) (existingIDSpans st) (notesToWriteInline st) (console st).
Definition set_regex_notes_to_add (v : list AnkiConnectNote) (st : AllFile) : AllFile :=
  mkAllFile (file st) (ignore_spans st) (notes_to_add st) (id_indexes st) (inline_notes_to_add st) (inline_id_indexes st) v (regex_id_indexes st) (notes_to_edit st) (notes_to_delete st) (all_notes_to_add st) (note_ids st) (global_tags st) (useFrontmatterID st) (frontmatterID st) (existingIDSpans st) (notesToWriteInline st) (console st).
Definition set_regex_id_indexes (v : list Z) (st : AllFile) : AllFile :=
  mkAllFile (file st) (ignore_spans st) (notes_to_add st) (id_indexes st) (inline_notes_to_add st) (inline_id_indexes st) (regex_notes_to_add st) v (notes_to_edit st) (notes_to_delete st) (all_notes_to_add st) (note_ids st) (global_tags st) (useFrontmatterID st) (frontmatterID st) (existingIDSpans st) (notesToWriteInline st) (console st).
Definition set_notes_to_edit (v : list AnkiConnectNoteAndID) (st : AllFile) : AllFile :=
  mkAllFile (file st) (ignore_spans st) (notes_to_add st) (id_indexes st) (inline_notes_to_add st) (inline_id_indexes st) (regex_notes_to_add st) (regex_id_indexes st) v (notes_to_delete st) (all_notes_to_add st) (note_ids st) (global_tags st) (useFrontmatterID st) (frontmatterID st) (existingIDSpans st) (notesToWriteInline st) (console st).
Definition set_notes_to_delete (v : list (option Z)) (st : AllFile) : AllFile :=
  mkAllFile (file st) (ignore_spans st) (notes_to_add st) (id_indexes st) (inline_notes_to_add st) (inline_id_indexes st) (regex_notes_to_add st) (regex_id_indexes st) (notes_to_edit st) v (all_notes_to_add st) (note_ids st) (global_tags st) (useFrontmatterID st) (frontmatterID st) (existingIDSpans st) (notesToWriteInline st) (console st).
Definition set_all_notes_to_add (v : list AnkiConnectNote) (st : AllFile) : AllFile :=
  mkAllFile (file st) (ignore_spans st) (notes_to_add st) (id_indexes st) (inline_notes_to_add st) (inline_id_indexes st) (regex_notes_to_add st) (regex_id_indexes st) (notes_to_edit st) (notes_to_delete st) v (note_ids st) (global_tags st) (useFrontmatterID st) (frontmatterID st) (existingIDSpans st) (notesToWriteInline st) (console st).
Definition set_note_ids (v : list (option Z)) (st : AllFile) : AllFile :=
  mkAllFile (file st) (ignore_spans st) (notes_to_add st) (id_indexes st) (inline_notes_to_add st) (inline_id_indexes st) (regex_notes_to_add st) (regex_id_indexes st) (notes_to_edit st) (notes_to_delete st) (all_notes_to_add st) v (global_tags st) (useFrontmatterID st) (frontmatterID st) (existingIDSpans st) (notesToWriteInline st) (console st).
Definition set_global_tags (v : jstring) (st : AllFile) : AllFile :=
  mkAllFile (file st) (ignore_spans st) (notes_to_add st) (id_indexes st) (inline_notes_to_add st) (inline_id_indexes st) (regex_notes_to_add st) (regex_id_indexes st) (notes_to_edit st) (notes_to_delete st) (all_notes_to_add st) (note_ids st) v (useFrontmatterID st) (frontmatterID st) (existingIDSpans st) (notesToWriteInline st) (console st).
Definition set_useFrontmatterID (v : bool) (st : AllFile) : AllFile :=
  mkAllFile (file st) (ignore_spans st) (notes_to_add st) (id_indexes st) (inline_notes_to_add st) (inline_id_indexes st) (regex_notes_to_add st) (regex_id_indexes st) (notes_to_edit st) (notes_to_delete st) (all_notes_to_add st) (note_ids st) (global_tags st) v (frontmatterID st) (existingIDSpans st) (notesToWriteInline st) (console st).
Definition set_frontmatterID (v : option Z) (st : AllFile) : AllFile :=
  mkAllFile (file st) (ignore_spans st) (notes_to_add st) (id_indexes st) (inline_notes_to_add st) (inline_id_indexes st) (regex_notes_to_add st) (regex_id_indexes st) (notes_to_edit st) (notes_to_delete st) (all_notes_to_add st) (note_ids st) (global_tags st) (useFrontmatterID st) v (existingIDSpans st) (notesToWriteInline st) (console st).
Definition set_existingIDSpans (v : list span) (st : AllFile) : AllFile :=
  mkAllFile (file st) (ignore_spans st) (notes_to_add st) (id_indexes st) (inline_notes_to_add st) (inline_id_indexes st) (regex_notes_to_add st) (regex_id_indexes st) (notes_to_edit st) (notes_to_delete st) (all_notes_to_add st) (note_ids st) (global_tags st) (useFrontmatterID st) (frontmatterID st) v (notesToWriteInline st) (console st).
Definition set_notesToWriteInline (v : list (Z * Z)) (st : AllFile) : AllFile :=
  mkAllFile (file st) (ignore_spans st) (notes_to_add st) (id_indexes st) (inline_notes_to_add st) (inline_id_indexes st) (regex_notes_to_add st) (regex_id_indexes st) (notes_to_edit st) (notes_to_delete st) (all_notes_to_add st) (note_ids st) (global_tags st) (useFrontmatterID st) (frontmatterID st) (existingIDSpans st) v (console st).
Definition set_console (v : list warning) (st : AllFile) : AllFile :=
  mkAllFile (file st) (ignore_spans st) (notes_to_add st) (id_indexes st) (inline_notes_to_add st) (inline_id_indexes st) (regex_notes_to_add st) (regex_id_indexes st) (notes_to_edit st) (notes_to_delete st) (all_notes_to_add st) (note_ids st) (global_tags st) (useFrontmatterID st) (frontmatterID st) (existingIDSpans st) (notesToWriteInline st) v.

(** The fields as the class initialisers and the first [setupScan] leave them.
    [note_ids] has no initialiser in the class: it is assigned by the caller,
    from the answer of the remote store, between the scan and [writeIDs]
    ([set_note_ids]).  The empty list here stands for the field before that
    assignment, when the code has [undefined]: [writeIDs] is stated on states
    where the caller has assigned it, or where the write pass does not read
    it, and [writeIDs_call] is the call with the field assigned or not. *)
Definition new_AllFile (file_contents : jstring) : AllFile :=
  mkAllFile file_contents [] [] [] [] [] [] [] [] [] [] [] [] false None [] [] [].

(** *** Helpers at the top of [file.ts] *)

Definition id_to_str (identifier : Z) (inline comment : bool) : jstring :=
  let result := str "ID: " ++ number_to_string identifier in
  let result := if comment then str "<!--" ++ result ++ str "-->" else result in
  if inline then result ++ str " " else result ++ [LF].

Definition matches (re : RegExp) (t : jstring) : list rmatch :=
  matchAll (multiline re) (pattern re) t.

Definition first_match (re : RegExp) (t : jstring) : option rmatch :=
  exec (multiline re) (pattern re) t.

Definition match_span (m : rmatch) : span :=
  (Z.of_nat (index m), Z.of_nat (index m) + Z.of_nat (stop m - index m)).

Definition spans (re : RegExp) (t : jstring) : list span :=
  map match_span (matches re t).

Definition contained_in (sp : span) (sps : list span) : bool :=
  existsb (fun element =>
             (fst element - 1 <=? fst sp) && (snd sp <=? snd element + 1)) sps.

(** [array.includes(identifier)] for a number-or-null. *)
Definition includes (ids : list Z) (identifier : option Z) : bool :=
  match identifier with
  | Some n => existsb (Z.eqb n) ids
  | None => false
  end.

(** [identifier == SENTINEL] *)
Definition is_sentinel (identifier : option Z) (sentinel : Z) : bool :=
  match identifier with
  | Some n => n =? sentinel
  | None => false
  end.

(** [record[key]] on a [Record<string, string>] *)
Fixpoint lookup (key : jstring) (rec : list (jstring * jstring)) : option jstring :=
  match rec with
  | [] => None
  | (k, v) :: r => if jstring_eqb k key then Some v else lookup key r
  end.

Definition nonempty (s : jstring) : bool :=
  match s with [] => false | _ => true end.

(** [a.push(x)]; [a.pop()] and [a.shift()], each as the value it returns
    ([None] for [undefined]) and the array it leaves. *)
Definition push {A} (a : list A) (x : A) : list A := a ++ [x].

Definition pop {A} (a : list A) : option A := hd_error (rev a).

Definition after_pop {A} (a : list A) : list A := removelast a.

Definition shift {A} (a : list A) : option A := hd_error a.

Definition after_shift {A} (a : list A) : list A := tl a.

Definition warn (w : warning) (st : AllFile) : AllFile :=
  set_console (push (console st) w) st.

(** [parsed.note.tags.push(...more)] *)
Definition push_tags (n : AnkiConnectNote) (more : list jstring) : AnkiConnectNote :=
  mkNote (deckName n) (modelName n) (fields n) (tags n ++ more).

Definition opt_span (m : option rmatch) : list span :=
  match m with
  | Some m => [match_span m]
  | None => []
  end.

Definition yaml_truthy (v : yaml_scalar) : bool :=
  match v with
  | YNum n => negb (n =? 0)
  | YStr s => nonempty s
  end.

Definition yaml_parseInt (v : yaml_scalar) : option Z :=
  match v with
  | YNum n => Some n
  | YStr s => parseInt s
  end.

Section AllFile.

Variable X : imports.
Variable data : FileData.
Variable file_cache : CachedMetadata.

(** *** [setupScan]

    [setup_frozen_fields_dict], [setup_target_deck] and [setup_aliases] only
    prepare what the note parsers read; the parsers of [imports] are closed
    over their results. *)

Definition setup_global_tags (st : AllFile) : AllFile :=
  let f := file st in
  let from_line :=
    match first_match (TAG_REGEXP data) f with
    | Some m => group_text f m 1
    | None => []
    end in
  let tags_str :=
    if yaml_tags_setting data then
      match frontmatter file_cache with
      | Some fm =>
          match fm_tags fm with
          | Some (TagArray a) => join a (str " ")
          | Some (TagString s) =>
              map (fun c => if Ascii.eqb c ","%char then " "%char else c) s
          | None => []
          end
      | None => []
      end
    else [] in
  set_global_tags
    (if nonempty tags_str
     then if nonempty from_line then from_line ++ str " " ++ tags_str else tags_str
     else from_line) st.

Definition add_spans_to_ignore (st : AllFile) : AllFile :=
  let f := file st in
  set_ignore_spans
    (spans (FROZEN_REGEXP data) f
     ++ opt_span (first_match (DECK_REGEXP data) f)
     ++ opt_span (first_match (TAG_REGEXP data) f)
     ++ spans (NOTE_REGEXP data) f
     ++ spans (INLINE_REGEXP data) f
     ++ spans (OBS_INLINE_MATH_REGEXP X) f
     ++ spans (OBS_DISPLAY_MATH_REGEXP X) f
     ++ spans (OBS_CODE_REGEXP X) f
     ++ spans (OBS_DISPLAY_CODE_REGEXP X) f) st.

Definition read_frontmatterID (st : AllFile) : AllFile :=
  if saveIDToFrontmatter data then
    match frontmatter file_cache with
    | Some fm =>
        match fm_nid fm with
        | Some nid => if yaml_truthy nid then set_frontmatterID (yaml_parseInt nid) st else st
        | None => st
        end
    | None => st
    end
  else st.

Definition setupScan (st : AllFile) : AllFile :=
  let st := setup_global_tags st in
  let st := add_spans_to_ignore st in
  let st := set_existingIDSpans [] st in
  let st := set_notesToWriteInline [] st in
  let st := read_frontmatterID st in
  let st := set_notes_to_add [] st in
  let st := set_inline_notes_to_add [] st in
  let st := set_regex_notes_to_add [] st in
  let st := set_id_indexes [] st in
  let st := set_inline_id_indexes [] st in
  let st := set_regex_id_indexes [] st in
  let st := set_notes_to_edit [] st in
  set_notes_to_delete [] st.

(** *** [scanNotes] and [scanInlineNotes] *)

(** [note_match.index + note_match[0].indexOf(note_match[1]) + note_match[1].length] *)
Definition capture_end (f : jstring) (m : rmatch) : Z :=
  Z.of_nat (index m) + indexOf (matched f m) (group_text f m 1)
  + Z.of_nat (length (group_text f m 1)).

(** The identifier marker found again at the end of [t], as a span of the
    file: [t.match(new RegExp(ID_REGEXP_STR + "$"))], then [lastIndexOf]. *)
Definition id_span_at_end (base : Z) (t : jstring) : list span :=
  match first_match ID_REGEXP_END t with
  | Some idMatch =>
      let matchIndex := lastIndexOf t (matched t idMatch) in
      if matchIndex =? -1 then []
      else [(base + matchIndex, base + matchIndex + Z.of_nat (length (matched t idMatch)))]
  | None => []
  end.

Definition global_tag_list (st : AllFile) : list jstring :=
  split (global_tags st) (TAG_SEP X).

Definition scanNotes_step (st : AllFile) (note_match : rmatch) : AllFile :=
  let f := file st in
  let note_text := group_text f note_match 1 in
  let position := capture_end f note_match in
  let parsed := Note_parse X note_text (Z.of_nat (index note_match)) in
  match identifier parsed with
  | None =>
      let st := set_notes_to_add
                  (push (notes_to_add st) (push_tags (note parsed) (global_tag_list st))) st in
      set_id_indexes (push (id_indexes st) position) st
  | Some _ =>
      let st := set_existingIDSpans
                  (existingIDSpans st
                   ++ id_span_at_end (Z.of_nat (index note_match)) note_text) st in
      if negb (includes (EXISTING_IDS data) (identifier parsed)) then
        if is_sentinel (identifier parsed) (CLOZE_ERROR X) then st
        else if is_sentinel (identifier parsed) (NOTE_TYPE_ERROR X)
             then warn (UnknownNoteType (modelName (note parsed))) st
             else warn (UnknownIdentifier (identifier parsed)) st
      else set_notes_to_edit (push (notes_to_edit st) parsed) st
  end.

Definition scanNotes (st : AllFile) : AllFile :=
  fold_left scanNotes_step (matches (NOTE_REGEXP data) (file st)) st.

Definition scanInlineNotes_step (st : AllFile) (note_match : rmatch) : AllFile :=
  let f := file st in
  let note_text := group_text f note_match 1 in
  let position := capture_end f note_match in
  let parsed := InlineNote_parse X note_text (Z.of_nat (index note_match)) in
  match identifier parsed with
  | None =>
      let st := set_inline_notes_to_add
                  (push (inline_notes_to_add st)
                        (push_tags (note parsed) (global_tag_list st))) st in
      set_inline_id_indexes (push (inline_id_indexes st) position) st
  | Some _ =>
      let st :=
        match first_match (InlineNote_ID_REGEXP X) note_text with
        | Some idMatch =>
            set_existingIDSpans
              (push (existingIDSpans st)
                    (Z.of_nat (index note_match) + Z.of_nat (index idMatch),
                     Z.of_nat (index note_match) + Z.of_nat (index idMatch)
                     + Z.of_nat (length (matched note_text idMatch)))) st
        | None => st
        end in
      if negb (includes (EXISTING_IDS data) (identifier parsed)) then
        if is_sentinel (identifier parsed) (CLOZE_ERROR X) then st
        else warn (UnknownIdentifier (identifier parsed)) st
      else set_notes_to_edit (push (notes_to_edit st) parsed) st
  end.

Definition scanInlineNotes (st : AllFile) : AllFile :=
  fold_left scanInlineNotes_step (matches (INLINE_REGEXP data) (file st)) st.

(** *** [search]: one custom-regex note type *)

(** The body of the innermost loop, for a match that [findignore] yields. *)
Definition search_body (note_type : jstring) (search_id search_tags : bool)
                       (st : AllFile) (m : rmatch) : AllFile :=
  let f := file st in
  let st := set_ignore_spans (push (ignore_spans st) (match_span m)) st in
  let parsed := RegexNote_parse X f m note_type search_tags search_id in
  let retract st := set_ignore_spans (after_pop (ignore_spans st)) st in
  let record_id_span st :=
    if search_id && truthy (identifier parsed)
    then set_existingIDSpans
           (existingIDSpans st ++ id_span_at_end (Z.of_nat (index m)) (matched f m)) st
    else st in
  if search_id then
    if negb (includes (EXISTING_IDS data) (identifier parsed)) then
      if is_sentinel (identifier parsed) (CLOZE_ERROR X) then retract st
      else record_id_span (warn (UnknownIdentifier (identifier parsed)) st)
    else record_id_span (set_notes_to_edit (push (notes_to_edit st) parsed) st)
  else
    if is_sentinel (identifier parsed) (CLOZE_ERROR X) then retract st
    else
      let st := set_regex_notes_to_add
                  (push (regex_notes_to_add st)
                        (push_tags (note parsed) (global_tag_list st))) st in
      let st := set_regex_id_indexes
                  (push (regex_id_indexes st)
                        (Z.of_nat (index m) + Z.of_nat (length (matched f m)))) st in
      record_id_span st.

(** [findignore] is a generator: each match is tested against [ignore_spans]
    as the loop body has left it for the matches before. *)
Definition search_step (note_type : jstring) (search_id search_tags : bool)
                       (st : AllFile) (m : rmatch) : AllFile :=
  if contained_in (match_span m) (ignore_spans st) then st
  else search_body note_type search_id search_tags st m.

Definition variant_regexp (regexp_str : jstring) (search_id search_tags : bool) : RegExp :=
  let id_str := if search_id then ID_REGEXP_STR else [] in
  let tag_str := if search_tags then TAG_REGEXP_STR X else [] in
  mkRegExp (compile X (regexp_str ++ tag_str ++ id_str)) true.

Definition search_variant (note_type regexp_str : jstring) (st : AllFile)
                          (v : bool * bool) : AllFile :=
  let '(search_id, search_tags) := v in
  fold_left (search_step note_type search_id search_tags)
            (matches (variant_regexp regexp_str search_id search_tags) (file st)) st.

Definition variants : list (bool * bool) :=
  [(true, true); (true, false); (false, true); (false, false)].

Definition search (note_type regexp_str : jstring) (st : AllFile) : AllFile :=
  fold_left (search_variant note_type regexp_str) variants st.

(** *** [hasRequiredTag] *)

(** [tag.replace('#', '')] *)
Fixpoint remove_first_hash (t : jstring) : jstring :=
  match t with
  | [] => []
  | c :: r => if Ascii.eqb c "#"%char then r else c :: remove_first_hash r
  end.

Definition string_includes (a : list jstring) (x : jstring) : bool :=
  existsb (jstring_eqb x) a.

Definition required_tag_list (tags_str : jstring) : list jstring :=
  filter nonempty (map trim (split tags_str (str ","))).

Definition hasRequiredTag (tags_str : option jstring) : bool :=
  match tags_str with
  | None => true
  | Some tags_str =>
      if negb (nonempty tags_str) || (length (trim tags_str) =? 0)%nat then true
      else
        let requiredTags := required_tag_list tags_str in
        if (length requiredTags =? 0)%nat then true
        else
          let in_frontmatter :=
            match frontmatter file_cache with
            | Some fm =>
                match fm_tags fm with
                | Some (TagArray a) => existsb (string_includes requiredTags) a
                | Some (TagString s) =>
                    nonempty s
                    && existsb (string_includes requiredTags) (map trim (split s (str ",")))
                | None => false
                end
            | None => false
            end in
          if in_frontmatter then true
          else
            match cache_tags file_cache with
            | Some inlineTags =>
                existsb (fun tag => string_includes requiredTags (remove_first_hash tag))
                        inlineTags
            | None => false
            end
  end.

(** *** [scanFile] *)

(** [regexp_tags && regexp_tags[a] ? regexp_tags[a].trim() : ""], as a truth
    value. *)
Definition has_tags (note_type : jstring) : bool :=
  match regexp_tags data with
  | Some rt =>
      match lookup note_type rt with
      | Some t => nonempty t && nonempty (trim t)
      | None => false
      end
  | None => false
  end.

(** The comparator says [a] before [b] when [a] has tags and [b] has none;
    the sort is stable. *)
Fixpoint insert_type (a : jstring) (l : list jstring) : list jstring :=
  match l with
  | [] => [a]
  | b :: r =>
      if has_tags b && negb (has_tags a) then b :: insert_type a r else a :: b :: r
  end.

Fixpoint sort_types (l : list jstring) : list jstring :=
  match l with
  | [] => []
  | a :: r => insert_type a (sort_types r)
  end.

Definition note_types : list jstring :=
  let keys := map fst (custom_regexps data) in
  if regex_required_tags data then sort_types keys else keys.

(** [this.data.regexp_tags ? this.data.regexp_tags[note_type] : ""] *)
Definition required_tags_for (note_type : jstring) : option jstring :=
  match regexp_tags data with
  | Some rt => lookup note_type rt
  | None => Some []
  end.

(** The body of the loop over the note types. *)
Definition scan_type (st : AllFile) (note_type : jstring) : AllFile :=
  match lookup note_type (custom_regexps data) with
  | Some regexp_str =>
      if nonempty regexp_str then
        let requiredTags := required_tags_for note_type in
        if regex_required_tags data && negb (hasRequiredTag requiredTags) then st
        else search note_type regexp_str st
      else st
  | None => st
  end.

Definition scanDeletions (st : AllFile) : AllFile :=
  let f := file st in
  set_notes_to_delete
    (notes_to_delete st
     ++ map (fun m => parseInt (group_text f m 1)) (matches (EMPTY_REGEXP data) f)) st.

(** *** [postProcessFrontmatterID] *)

(** [this.notes_to_edit.push({ note: note, identifier: this.frontmatterID })];
    the popped note is never [undefined] there, the list it is popped from has
    just been found non-empty. *)
Definition promote (st : AllFile) (n : option AnkiConnectNote) : AllFile :=
  match n with
  | Some n => set_notes_to_edit (push (notes_to_edit st) (mkParsed n (frontmatterID st))) st
  | None => st
  end.

Definition set_first_identifier (id : option Z) (l : list AnkiConnectNoteAndID)
  : list AnkiConnectNoteAndID :=
  match l with
  | [] => []
  | p :: r => mkParsed (note p) id :: r
  end.

Definition option_Z_eqb (a b : option Z) : bool :=
  match a, b with
  | Some x, Some y => x =? y
  | None, None => true
  | _, _ => false
  end.

Definition totalNotes (st : AllFile) : nat :=
  (length (notes_to_add st) + length (inline_notes_to_add st)
   + length (regex_notes_to_add st) + length (notes_to_edit st))%nat.

Definition postProcessFrontmatterID (st : AllFile) : AllFile :=
  let totalNotes := totalNotes st in
  let known := includes (EXISTING_IDS data) (frontmatterID st) in
  if saveIDToFrontmatter data && (totalNotes =? 1)%nat then
    let st := set_useFrontmatterID true st in
    if truthy (frontmatterID st) then
      if (length (notes_to_add st) =? 1)%nat then
        if known then
          let n := pop (notes_to_add st) in
          let st := set_notes_to_add (after_pop (notes_to_add st)) st in
          let st := set_id_indexes (after_pop (id_indexes st)) st in
          promote st n
        else st
      else if (length (inline_notes_to_add st) =? 1)%nat
              || (length (regex_notes_to_add st) =? 1)%nat then
        if negb (length (inline_notes_to_add st) =? 0)%nat then
          if known then
            let n := pop (inline_notes_to_add st) in
            let st := set_inline_notes_to_add (after_pop (inline_notes_to_add st)) st in
            let st := set_inline_id_indexes (after_pop (inline_id_indexes st)) st in
            promote st n
          else st
        else
          if known then
            let n := pop (regex_notes_to_add st) in
            let st := set_regex_notes_to_add (after_pop (regex_notes_to_add st)) st in
            let st := set_regex_id_indexes (after_pop (regex_id_indexes st)) st in
            promote st n
          else st
      else if (length (notes_to_edit st) =? 1)%nat then
        match notes_to_edit st with
        | parsed :: _ =>
            if negb (option_Z_eqb (identifier parsed) (frontmatterID st)) && known
            then set_notes_to_edit (set_first_identifier (frontmatterID st) (notes_to_edit st)) st
            else st
        | [] => st
        end
      else st
    else st
  else
    let st := set_useFrontmatterID false st in
    if truthy (frontmatterID st) && known then
      if (0 <? length (notes_to_add st))%nat then
        let n := shift (notes_to_add st) in
        let position := shift (id_indexes st) in
        let st := set_notes_to_add (after_shift (notes_to_add st)) st in
        let st := set_id_indexes (after_shift (id_indexes st)) st in
        match n, position, frontmatterID st with
        | Some n, Some position, Some id =>
            let st := set_notes_to_edit
                        (push (notes_to_edit st) (mkParsed n (frontmatterID st))) st in
            set_notesToWriteInline (push (notesToWriteInline st) (position, id)) st
        | _, _, _ => st
        end
      else st
    else st.

(** The statements of [scanFile] before its last one. *)
Definition scan_passes (st : AllFile) : AllFile :=
  let st := setupScan st in
  let st := scanNotes st in
  let st := scanInlineNotes st in
  let st := fold_left scan_type note_types st in
  let st := set_all_notes_to_add
              (notes_to_add st ++ inline_notes_to_add st ++ regex_notes_to_add st) st in
  scanDeletions st.

Definition scanFile (st : AllFile) : AllFile :=
  postProcessFrontmatterID (scan_passes st).

End AllFile.

(** *** [writeIDs] *)

(** [/^---\n([\s\S]*?)\n---/] *)
Definition frontmatterRegex : RegExp :=
  mkRegExp
    (Seq Bol (Seq (Str (str "---" ++ [LF]))
                  (Seq (Group 1 (Star false (Chr AnyChar))) (Str (LF :: str "---")))))
    false.

(** [/^nid:.*$/m] *)
Definition nid_line : RegExp :=
  mkRegExp (Seq Bol (Seq (Str (str "nid:")) (Seq (Star true (Chr Dot)) Eol))) true.

(** [/^nid:.*\n?/m] *)
Definition nid_line_feed : RegExp :=
  mkRegExp (Seq Bol (Seq (Str (str "nid:"))
                         (Seq (Star true (Chr Dot)) (Opt (Chr (Lit LF)))))) true.

(** [/nid:[^\n]*$/] *)
Definition nid_last : RegExp :=
  mkRegExp (Seq (Str (str "nid:")) (Seq (Star true (Chr (NoneOf [LF]))) Eol)) false.

(** The pattern of the removal: an optional group of a line feed and white
    space, then [nid:], the rest of the line, white space, and the end of the
    text. *)
Definition nid_last_line : RegExp :=
  mkRegExp
    (Seq (Opt (Group 1 (Seq (Chr (Lit LF)) (Star true (Chr Space)))))
         (Seq (Str (str "nid:"))
              (Seq (Star true (Chr (NoneOf [LF]))) (Seq (Star true (Chr Space)) Eol))))
    false.

(** [/^nid:[^\n]*/m] *)
Definition nid_value : RegExp :=
  mkRegExp (Seq Bol (Seq (Str (str "nid:")) (Star true (Chr (NoneOf [LF]))))) true.

Definition re_test (re : RegExp) (t : jstring) : bool :=
  test (multiline re) (pattern re) t.

Definition re_replace (re : RegExp) (f : rmatch -> jstring) (t : jstring) : jstring :=
  replace (multiline re) (pattern re) f t.

Definition re_replaceAll (re : RegExp) (f : rmatch -> jstring) (t : jstring) : jstring :=
  replaceAll (multiline re) (pattern re) f t.

Import EditEngine.

Definition getTargetID (st : AllFile) : option Z :=
  match notes_to_edit st with
  | parsed :: _ => identifier parsed
  | [] =>
      match note_ids st with
      | id :: _ => id
      | [] => None
      end
  end.

Definition len (t : jstring) : Z := Z.of_nat (length t).

(** Front-matter mode: the edit that writes [nid: <targetID>]. *)
Definition write_frontmatter_nid (f : jstring) (targetID : Z) : edit :=
  let nid := str "nid: " ++ number_to_string targetID in
  match first_match frontmatterRegex f with
  | Some m =>
      let frontmatter := group_text f m 1 in
      let newFrontmatter :=
        if re_test nid_line frontmatter
        then re_replace nid_line (fun _ => nid) frontmatter
        else frontmatter ++ [LF] ++ nid in
      mkEdit 0 (len (matched f m))
             (str "---" ++ [LF] ++ trim newFrontmatter ++ [LF] ++ str "---")
  | None =>
      mkEdit 0 0 (str "---" ++ [LF] ++ nid ++ [LF] ++ str "---" ++ [LF])
  end.

(** Inline mode: the front matter without its [nid] line (last property) or
    with the value of [nid] cleared (any other place). *)
Definition demote_frontmatter (frontmatter : jstring) : jstring :=
  if re_test nid_last (trim frontmatter)
  then re_replace nid_last_line (fun _ => []) frontmatter
  else re_replace nid_value (fun _ => str "nid:") frontmatter.

Definition remove_frontmatter_nid (f : jstring) : list edit :=
  match first_match frontmatterRegex f with
  | Some m =>
      let frontmatter := group_text f m 1 in
      if re_test nid_line_feed frontmatter
      then [mkEdit 0 (len (matched f m))
                   (str "---" ++ [LF] ++ demote_frontmatter frontmatter ++ [LF] ++ str "---")]
      else []
  | None => []
  end.

(** [positions.forEach((id_position, index) => ...)] with the identifier read
    at [note_ids[index + offset]]. *)
Fixpoint id_edits (ids : list (option Z)) (offset : nat) (positions : list Z)
                  (render : Z -> jstring) : list edit :=
  match positions with
  | [] => []
  | id_position :: r =>
      let identifier :=
        match nth_error ids offset with
        | Some id => id
        | None => None
        end in
      (if truthy identifier
       then match identifier with
            | Some id => [mkEdit id_position id_position (render id)]
            | None => []
            end
       else [])
      ++ id_edits ids (S offset) r render
  end.

Section WriteIDs.

Variable data : FileData.

Definition writeIDs_edits (st : AllFile) : list edit :=
  if useFrontmatterID st then
    map (fun sp : span => mkEdit (fst sp) (snd sp) []) (existingIDSpans st)
    ++ (let targetID := getTargetID st in
        if truthy targetID
        then match targetID with
             | Some id => [write_frontmatter_nid (file st) id]
             | None => []
             end
        else [])
  else
    (if truthy (frontmatterID st) then remove_frontmatter_nid (file st) else [])
    ++ map (fun item : Z * Z =>
              mkEdit (fst item) (fst item) (id_to_str (snd item) false (comment data)))
           (notesToWriteInline st)
    ++ id_edits (note_ids st) 0 (id_indexes st)
         (fun id => id_to_str id false (comment data))
    ++ id_edits (note_ids st) (length (notes_to_add st)) (inline_id_indexes st)
         (fun id => id_to_str id true (comment data))
    ++ id_edits (note_ids st)
         (length (notes_to_add st) + length (inline_notes_to_add st))
         (regex_id_indexes st)
         (fun id => LF :: trim (id_to_str id false (comment data))).

(** [this.file.replace(double_regexp, "$1")] *)
Definition fix_newline_ids (st : AllFile) : AllFile :=
  let f := file st in
  set_file (re_replaceAll double_regexp (fun m => group_text f m 1) f) st.

Definition writeIDs (st : AllFile) : AllFile :=
  let edits := writeIDs_edits st in
  let st := set_file (apply_edits (file st) edits) st in
  if negb (useFrontmatterID st) then fix_newline_ids st else st.

(** Whether [writeIDs] reads [this.note_ids].  In front-matter mode
    [getTargetID] reads its length when [notes_to_edit] is empty; in inline
    mode the callbacks of the three [forEach] loops read it, once for each
    insertion point. *)
Definition reads_note_ids (st : AllFile) : bool :=
  if useFrontmatterID st
  then (length (notes_to_edit st) =? 0)%nat
  else negb ((length (id_indexes st) =? 0)%nat
             && (length (inline_id_indexes st) =? 0)%nat
             && (length (regex_id_indexes st) =? 0)%nat).

(** The call [file.writeIDs()] on an object whose [note_ids] the caller has
    assigned ([Some ids]) or not ([None]).  The class declares [note_ids]
    without an initialiser: until the caller assigns it the field is
    [undefined], and reading its length or one of its elements throws a
    [TypeError] (the result [None]; the text is as it was). *)
Definition writeIDs_call (assigned : option (list (option Z))) (st : AllFile)
  : option AllFile :=
  match assigned with
  | Some ids => Some (writeIDs (set_note_ids ids st))
  | None => if reads_note_ids st then None else Some (writeIDs st)
  end.

End WriteIDs.

End Scanner.


(** ** Bulk deletion: [checkAndBulkDelete] of [src/bulk-delete.ts] *)

Module BulkDelete.
Import Scanner.

(** What the operation does to the outside world. *)
Inductive effect : Type :=
| Notice (message : jstring)
| ConsoleError
| DeleteNotes (notes : list Z)         (* [AnkiConnect.invoke('deleteNotes', { notes })] *)
| VaultModify (content : jstring).     (* [app.vault.modify(file, content)] *)

(** How the request to the remote store ends. *)
Inductive reply : Type :=
| Rejected                              (* the promise rejects *)
| Resolved (error : option jstring).    (* [response.error], when there is one *)

(** How the operation ends: at once, or with the confirmation dialog open
    and the callback it will run on the user's confirmation. *)
Inductive outcome : Type :=
| Finished (effects : list effect)
| AwaitConfirmation (file_count : nat) (onConfirm : reply -> bool -> list effect).

(** [new RegExp(ID_REGEXP_STR, 'g')] *)
Definition regex : RegExp := mkRegExp ID_REGEXP false.

(** [/^nid:\s*(\d+)/m] *)
Definition nid_number : RegExp :=
  mkRegExp (Seq Bol (Seq (Str (str "nid:"))
                         (Seq (Star true (Chr Space)) (Group 1 (Plus (Chr Digit)))))) true.

(** At the start of a line, [nid:] (group 1) and the rest of the line. *)
Definition nid_rest : RegExp :=
  mkRegExp (Seq Bol (Seq (Group 1 (Str (str "nid:"))) (Star true (Chr Dot)))) true.

(** [matches.map(m => parseInt(m[1])).filter(id => !isNaN(id))] *)
Fixpoint numbers (l : list (option Z)) : list Z :=
  match l with
  | [] => []
  | Some n :: r => n :: numbers r
  | None :: r => numbers r
  end.

Definition inline_ids (content : jstring) : list Z :=
  numbers (map (fun m => parseInt (group_text content m 1)) (matches regex content)).

(** The front-matter identifier: [None] when there is no front matter or no
    [nid] line with digits, otherwise the parsed number-or-NaN. *)
Definition frontmatter_nid (content : jstring) : option (option Z) :=
  match first_match frontmatterRegex content with
  | Some fmMatch =>
      let frontmatter := group_text content fmMatch 1 in
      match first_match nid_number frontmatter with
      | Some nidMatch => Some (parseInt (group_text frontmatter nidMatch 1))
      | None => None
      end
  | None => None
  end.

Definition frontmatterID (content : jstring) : option Z :=
  match frontmatter_nid content with
  | Some id => id
  | None => None
  end.

Definition ids (content : jstring) : list Z :=
  inline_ids content
  ++ match frontmatter_nid content with
     | Some (Some id) => [id]
     | _ => []
     end.

(** The callback of [replace(frontmatterRegex, (match, fmContent) => ...)] *)
Definition strip_nid (fmContent : jstring) : jstring :=
  let newFm :=
    if re_test nid_last (trim fmContent)
    then re_replace nid_last_line (fun _ => []) fmContent
    else re_replace nid_rest (fun m => group_text fmContent m 1) fmContent in
  str "---" ++ [LF] ++ newFm ++ [LF] ++ str "---".

Definition newContent (content : jstring) : jstring :=
  let c1 := re_replaceAll regex (fun _ => []) content in
  if truthy (frontmatterID content)
  then re_replace frontmatterRegex (fun m => strip_nid (group_text c1 m 1)) c1
  else c1.

(** The callback given to the confirmation dialog; [modify_ok] tells whether
    [vault.modify] succeeds. *)
Definition onConfirm (content : jstring) (r : reply) (modify_ok : bool) : list effect :=
  DeleteNotes (ids content)
  :: match r with
     | Rejected => [ConsoleError; Notice (str "Failed to connect to Anki.")]
     | Resolved (Some error) => [Notice (str "Error deleting notes from Anki: " ++ error)]
     | Resolved None =>
         VaultModify (newContent content)
         :: (if modify_ok
             then [Notice (str "Deleted "
                           ++ number_to_string (Z.of_nat (length (ids content)))
                           ++ str " notes from Anki and removed IDs from file.")]
             else [Notice (str "Error updating file."); ConsoleError])
     end.

Definition checkAndBulkDelete (content : jstring) : outcome :=
  if (length (ids content) =? 0)%nat
  then Finished [Notice (str "No IDs found in this file.")]
  else AwaitConfirmation (length (ids content)) (onConfirm content).


End BulkDelete.

(** ** The other methods of [AbstractFile]: heading context, clean-up of
    deleted notes, and the requests sent to the remote store *)

Module AbstractFile.
Import Scanner.

(** A [HeadingCache]: its text, its level, and
    [position.start.offset]. *)
Record HeadingCache := mkHeading {
  heading : jstring;
  level : Z;
  offset : Z
}.

(** [getShouldAddContext]: [context_fields[note_type]] is [None] when the
    record has no such key. *)
Definition getShouldAddContext (add_context : bool)
                               (context_fields : list (jstring * jstring))
                               (note_type : jstring) : bool :=
  if add_context then
    match lookup note_type context_fields with
    | Some contextField => nonempty contextField
    | None => false
    end
  else false.

(** The inner loop of [getContextAtIndex]: the number of leading headings
    of the context that [currentHeading] is deeper than. *)
Fixpoint insert_index (currentHeading : HeadingCache) (currentContext : list HeadingCache)
  : nat :=
  match currentContext with
  | [] => 0
  | contextHeading :: r =>
      if level contextHeading <? level currentHeading
      then S (insert_index currentHeading r)
      else 0
  end.

(** [currentContext = currentContext.slice(0, insert_index)] and
    [currentContext.push(currentHeading)] *)
Definition enter_heading (currentContext : list HeadingCache) (currentHeading : HeadingCache)
  : list HeadingCache :=
  firstn (insert_index currentHeading currentContext) currentContext ++ [currentHeading].

(** The outer loop, which stops at the first heading that starts after
    [position]. *)
Fixpoint context_loop (position : Z) (headings : list HeadingCache)
                      (currentContext : list HeadingCache) : list HeadingCache :=
  match headings with
  | [] => currentContext
  | currentHeading :: r =>
      if position <? offset currentHeading then currentContext
      else context_loop position r (enter_heading currentContext currentHeading)
  end.

(** [getContextAtIndex]: [headings] is [None] when the metadata cache has no
    [headings] property. *)
Definition getContextAtIndex (path : jstring) (headings : option (list HeadingCache))
                             (position : Z) : jstring :=
  match headings with
  | None => path
  | Some hs => join (path :: map heading (context_loop position hs [])) (str " > ")
  end.

(** [removeEmpties] *)
Definition removeEmpties (data : FileData) (st : AllFile) : AllFile :=
  set_file (re_replaceAll (EMPTY_REGEXP data) (fun _ => []) (file st)) st.

(** *** The request builders

    The constructors of [anki.ts] are not part of the sources; the builders
    are written over any implementation of them. *)
Section Requests.

Variable AnkiConnectRequest : Type.
Variable createDeck : jstring -> AnkiConnectRequest.
Variable addNote : AnkiConnectNote -> AnkiConnectRequest.
Variable deleteNotes : list (option Z) -> AnkiConnectRequest.
Variable updateNoteFields : option Z -> list (jstring * jstring) -> AnkiConnectRequest.
Variable notesInfo : list (option Z) -> AnkiConnectRequest.
Variable removeTags : list (option Z) -> jstring -> AnkiConnectRequest.
Variable addTags : list (option Z) -> jstring -> AnkiConnectRequest.
Variable multi : list AnkiConnectRequest -> AnkiConnectRequest.

Definition getCreateDecks (st : AllFile) : AnkiConnectRequest :=
  multi (map (fun n => createDeck (deckName n)) (all_notes_to_add st)).

Definition getAddNotes (st : AllFile) : AnkiConnectRequest :=
  multi (map addNote (all_notes_to_add st)).

Definition getDeleteNotes (st : AllFile) : AnkiConnectRequest :=
  deleteNotes (notes_to_delete st).

Definition getUpdateFields (st : AllFile) : AnkiConnectRequest :=
  multi (map (fun parsed => updateNoteFields (identifier parsed) (fields (note parsed)))
             (notes_to_edit st)).

Definition getNoteInfo (st : AllFile) : AnkiConnectRequest :=
  notesInfo (map identifier (notes_to_edit st)).

(** [tags] is the field [this.tags] of the file object. *)
Definition getClearTags (tags : list jstring) (st : AllFile) : AnkiConnectRequest :=
  removeTags (map identifier (notes_to_edit st)) (join tags (str " ")).

Definition getAddTags (st : AllFile) : AnkiConnectRequest :=
  multi (map (fun parsed =>
                addTags [identifier parsed]
                        (join (tags (note parsed)) (str " ") ++ str " " ++ global_tags st))
             (notes_to_edit st)).

End Requests.

End AbstractFile.

(** ** The plugin class of [main.ts]: settings upkeep, the folder walk, the
    Scan Tags filter and the cloze command *)

Module Plugin.
Import Scanner.

(** *** JavaScript objects used as string-keyed records

    An object is the list of its own properties in insertion order;
    [None] stands for [undefined].  [get] reads own properties: it is the
    code's [o[key]] for a key that is an own property or no name of
    [Object.prototype] (for such a name the code reads the inherited
    member).  [set] creates or updates an own property; the calls and
    assignments that meet the prototype in [regenerateSettingsRegexps] are
    [call_hasOwnProperty] and [assign].  (The functions below never depend
    on the order of [Object.keys].) *)
Section Records.

Context {V : Type}.

(** [o[key]], own properties *)
Fixpoint get (key : jstring) (o : list (jstring * V)) : option V :=
  match o with
  | [] => None
  | (k, v) :: r => if jstring_eqb k key then Some v else get key r
  end.

(** [Object.prototype.hasOwnProperty] applied to [o] and [key]. *)
Definition hasOwnProperty (o : list (jstring * V)) (key : jstring) : bool :=
  match get key o with Some _ => true | None => false end.

(** The call [o.hasOwnProperty(key)]: the method is looked up on [o] first.
    An own property named [hasOwnProperty] shadows the method of
    [Object.prototype]; in the tables below it holds a string, which is not
    callable, and the call throws a [TypeError] ([None]). *)
Definition call_hasOwnProperty (o : list (jstring * V)) (key : jstring) : option bool :=
  if hasOwnProperty o (str "hasOwnProperty") then None
  else Some (hasOwnProperty o key).

(** [o[key] = v] *)
Fixpoint set (key : jstring) (v : V) (o : list (jstring * V)) : list (jstring * V) :=
  match o with
  | [] => [(key, v)]
  | (k, x) :: r => if jstring_eqb k key then (k, v) :: r else (k, x) :: set key v r
  end.

(** The assignment [o[key] = v] of a string [v].  On an object without an
    own property [__proto__], an assignment under that key reaches the setter
    of [Object.prototype], which ignores a string: no property is created. *)
Definition assign (key : jstring) (v : V) (o : list (jstring * V)) : list (jstring * V) :=
  if jstring_eqb key (str "__proto__") && negb (hasOwnProperty o key) then o
  else set key v o.

(** [delete o[key]] *)
Fixpoint delete (key : jstring) (o : list (jstring * V)) : list (jstring * V) :=
  match o with
  | [] => []
  | (k, x) :: r => if jstring_eqb k key then delete key r else (k, x) :: delete key r
  end.

(** [Object.keys(o)] *)
Definition keys (o : list (jstring * V)) : list jstring := map fst o.

End Records.

Definition record (V : Type) := list (jstring * V).

(** The parts of [PluginSettings] that the functions below read or assign;
    a table that old saved settings may lack is an [option]. *)
Record PluginSettings := mkSettings {
  CUSTOM_REGEXPS : record jstring;
  REGEXP_TAGS : option (record jstring);
  FILE_LINK_FIELDS : option (record jstring);
  CONTEXT_FIELDS : option (record jstring);
  ALIAS_FIELDS : option (record jstring);
  Scan_Tags : option jstring                 (* [Defaults["Scan Tags"]] *)
}.

Definition set_CUSTOM_REGEXPS (v : record jstring) (s : PluginSettings) : PluginSettings :=
  mkSettings v (REGEXP_TAGS s) (FILE_LINK_FIELDS s) (CONTEXT_FIELDS s) (ALIAS_FIELDS s)
             (Scan_Tags s).
Definition set_REGEXP_TAGS (v : option (record jstring)) (s : PluginSettings)
  : PluginSettings :=
  mkSettings (CUSTOM_REGEXPS s) v (FILE_LINK_FIELDS s) (CONTEXT_FIELDS s) (ALIAS_FIELDS s)
             (Scan_Tags s).
Definition set_FILE_LINK_FIELDS (v : option (record jstring)) (s : PluginSettings)
  : PluginSettings :=
  mkSettings (CUSTOM_REGEXPS s) (REGEXP_TAGS s) v (CONTEXT_FIELDS s) (ALIAS_FIELDS s)
             (Scan_Tags s).
Definition set_CONTEXT_FIELDS (v : option (record jstring)) (s : PluginSettings)
  : PluginSettings :=
  mkSettings (CUSTOM_REGEXPS s) (REGEXP_TAGS s) (FILE_LINK_FIELDS s) v (ALIAS_FIELDS s)
             (Scan_Tags s).
Definition set_ALIAS_FIELDS (v : option (record jstring)) (s : PluginSettings)
  : PluginSettings :=
  mkSettings (CUSTOM_REGEXPS s) (REGEXP_TAGS s) (FILE_LINK_FIELDS s) (CONTEXT_FIELDS s) v
             (Scan_Tags s).

(** A method of the plugin returns, or it throws a [TypeError]; either way
    the settings are left as assigned so far. *)
Inductive outcome : Type :=
| Done (s : PluginSettings)
| TypeError (s : PluginSettings).

(** *** [regenerateSettingsRegexps] *)

(** [section[note_type] = section.hasOwnProperty(note_type) ? section[note_type] : ""];
    the right-hand side is evaluated before the assignment, so a call that
    throws leaves the table as it was ([None]). *)
Definition keep_or_empty (section : record jstring) (note_type : jstring)
  : option (record jstring) :=
  match call_hasOwnProperty section note_type with
  | None => None
  | Some own =>
      Some (assign note_type
                   (if own
                    then match get note_type section with Some v => v | None => [] end
                    else [])
                   section)
  end.

(** The body of the first loop, "for new note types". *)
Definition regenerate_step (s : PluginSettings) (note_type : jstring) : outcome :=
  match keep_or_empty (CUSTOM_REGEXPS s) note_type with
  | None => TypeError s
  | Some regexp_section =>
      let s := set_CUSTOM_REGEXPS regexp_section s in
      match REGEXP_TAGS s with
      | Some regexp_tags_section =>
          match keep_or_empty regexp_tags_section note_type with
          | None => TypeError s
          | Some tags => Done (set_REGEXP_TAGS (Some tags) s)
          end
      | None => Done s
      end
  end.

Fixpoint regenerate_loop (note_types : list jstring) (s : PluginSettings) : outcome :=
  match note_types with
  | [] => Done s
  | note_type :: r =>
      match regenerate_step s note_type with
      | Done s' => regenerate_loop r s'
      | TypeError s' => TypeError s'
      end
  end.

(** [for (let note_type of Object.keys(section))
       if (!note_types.includes(note_type)) delete section[note_type]] *)
Definition remove_old (note_types : list jstring) (section : record jstring)
  : record jstring :=
  fold_left (fun o note_type =>
               if negb (string_includes note_types note_type) then delete note_type o else o)
            (keys section) section.

Definition regenerateSettingsRegexps (note_types : list jstring) (s : PluginSettings)
  : outcome :=
  match regenerate_loop note_types s with
  | TypeError s => TypeError s
  | Done s =>
      let s := set_CUSTOM_REGEXPS (remove_old note_types (CUSTOM_REGEXPS s)) s in
      let s := set_REGEXP_TAGS (option_map (remove_old note_types) (REGEXP_TAGS s)) s in
      let s := set_FILE_LINK_FIELDS
                 (option_map (remove_old note_types) (FILE_LINK_FIELDS s)) s in
      let s := set_CONTEXT_FIELDS (option_map (remove_old note_types) (CONTEXT_FIELDS s)) s in
      Done (set_ALIAS_FIELDS (option_map (remove_old note_types) (ALIAS_FIELDS s)) s)
  end.

(** *** [validateSelectedFields] *)

(** One of the three checks of the loop body: the selected field of
    [note_type] in [table] is reset to the first available field when it is
    set but not available. *)
Definition check_field (availableFields : list jstring) (first : jstring)
                       (note_type : jstring) (table : record jstring) : record jstring :=
  match get note_type table with
  | Some current =>
      if nonempty current && negb (string_includes availableFields current)
      then if negb (jstring_eqb current []) then set note_type first table else table
      else table
  | None => table
  end.

(** The check of the link field has no inner test. *)
Definition check_link_field (availableFields : list jstring) (first : jstring)
                            (note_type : jstring) (table : record jstring)
  : record jstring :=
  match get note_type table with
  | Some current =>
      if nonempty current && negb (string_includes availableFields current)
      then set note_type first table
      else table
  | None => table
  end.

(** The loop body; it throws on reading a property of an undefined
    table. *)
Definition validate_step (fields_dict : record (list jstring))
                         (s : PluginSettings) (note_type : jstring) : outcome :=
  match get note_type fields_dict with
  | None => Done s
  | Some [] => Done s
  | Some ((first :: _) as availableFields) =>
      match FILE_LINK_FIELDS s with
      | None => TypeError s
      | Some table =>
          let s := set_FILE_LINK_FIELDS
                     (Some (check_link_field availableFields first note_type table)) s in
          match CONTEXT_FIELDS s with
          | None => TypeError s
          | Some table =>
              let s := set_CONTEXT_FIELDS
                         (Some (check_field availableFields first note_type table)) s in
              match ALIAS_FIELDS s with
              | None => TypeError s
              | Some table =>
                  Done (set_ALIAS_FIELDS
                          (Some (check_field availableFields first note_type table)) s)
              end
          end
      end
  end.

Fixpoint validate_loop (fields_dict : record (list jstring)) (note_types : list jstring)
                       (s : PluginSettings) : outcome :=
  match note_types with
  | [] => Done s
  | note_type :: r =>
      match validate_step fields_dict s note_type with
      | Done s' => validate_loop fields_dict r s'
      | TypeError s' => TypeError s'
      end
  end.

Definition validateSelectedFields (note_types : list jstring)
                                  (fields_dict : record (list jstring))
                                  (s : PluginSettings) : outcome :=
  validate_loop fields_dict note_types s.

(** *** [getAllTFilesInFolder] *)

(** What the vault holds: files, folders with their children, and anything
    else. *)
#[warnings="-register-all"]
Inductive TAbstractFile : Type :=
| TFile (path : jstring)
| TFolder (children : list TAbstractFile)
| OtherFile.

Fixpoint getAllTFilesInFolder (tfolder : TAbstractFile) : list TAbstractFile :=
  match tfolder with
  | TFolder children =>
      flat_map (fun child =>
                  match child with
                  | TFile _ => [child]
                  | TFolder _ => getAllTFilesInFolder child
                  | OtherFile => []
                  end) children
  | _ => []
  end.

(** *** The Scan Tags filter of [syncFiles] *)

(** The callback of [filesToSync.filter]; [cache] is what
    [metadataCache.getFileCache(file)] returns. *)
Definition has_scan_tag (scanTags : list jstring) (cache : option CachedMetadata) : bool :=
  match cache with
  | None => false
  | Some cache =>
      let in_frontmatter :=
        match frontmatter cache with
        | Some fm =>
            match fm_tags fm with
            | Some (TagArray a) => existsb (fun tag => string_includes scanTags tag) a
            | Some (TagString s) =>
                if nonempty s
                then existsb (fun tag => string_includes scanTags tag)
                             (map trim (split s (str ",")))
                else false
            | None => false
            end
        | None => false
        end in
      if in_frontmatter then true
      else
        match cache_tags cache with
        | Some inlineTags =>
            existsb (fun tag => string_includes scanTags (remove_first_hash tag)) inlineTags
        | None => false
        end
  end.

Definition filter_by_scan_tags {F : Type} (scanTagsSetting : option jstring)
                               (getFileCache : F -> option CachedMetadata)
                               (filesToSync : list F) : list F :=
  match scanTagsSetting with
  | Some scanTagsSetting =>
      if nonempty scanTagsSetting && (0 <? length (trim scanTagsSetting))%nat then
        let scanTags := filter nonempty (map trim (split scanTagsSetting (str ","))) in
        if (0 <? length scanTags)%nat
        then filter (fun file => has_scan_tag scanTags (getFileCache file)) filesToSync
        else filesToSync
      else filesToSync
  | None => filesToSync
  end.

(** *** [applyCloze] *)

(** The pattern of the cloze opener: two braces, [c], the digits (group 1)
    and two colons. *)
Definition cloze_opener : RegExp :=
  mkRegExp (Seq (Str (str "{{c")) (Seq (Group 1 (Plus (Chr Digit))) (Str (str "::")))) false.

(** [parseInt(t, 10)] *)
Definition parseInt10 (t : jstring) : option Z :=
  match trimStart t with
  | c :: r =>
      if Ascii.eqb c "-"%char then option_map Z.opp (parse_run 10 is_digit r)
      else if Ascii.eqb c "+"%char then parse_run 10 is_digit r
      else parse_run 10 is_digit (c :: r)
  | [] => None
  end.

(** The lines [startLine .. endLine] of the editor, each followed by a line
    feed; [editor.getLine] is [nth] on the lines of the document. *)
Definition contextContent (lines : list jstring) (startLine endLine : nat) : jstring :=
  fold_left (fun acc i => acc ++ nth i lines [] ++ [LF])
            (seq startLine (S endLine - startLine)) [].

(** The set [existingNumbers], as the list of the numbers added to it. *)
Definition existingNumbers (content : jstring) : list (option Z) :=
  map (fun m => parseInt10 (group_text content m 1)) (matches cloze_opener content).

(** [existingNumbers.has(n)] *)
Definition has (existing : list (option Z)) (n : Z) : bool :=
  existsb (fun x => match x with Some k => k =? n | None => false end) existing.

(** [while (existingNumbers.has(nextNumber)) nextNumber++], for at most
    [fuel] rounds. *)
Fixpoint count_up (fuel : nat) (existing : list (option Z)) (nextNumber : Z) : Z :=
  match fuel with
  | O => nextNumber
  | S fuel' =>
      if has existing nextNumber then count_up fuel' existing (nextNumber + 1)
      else nextNumber
  end.

Definition nextNumber (existing : list (option Z)) : Z :=
  count_up (S (length existing)) existing 1.

(** The text given to [editor.replaceSelection]. *)
Definition applyCloze (lines : list jstring) (startLine endLine : nat)
                      (selection : jstring) : jstring :=
  let existing := existingNumbers (contextContent lines startLine endLine) in
  str "{{c" ++ number_to_string (nextNumber existing) ++ str "::" ++ selection ++ str "}}".

End Plugin.

(** ** The reading-view renderer: [clozeRenderer] of [src/renderer.ts] *)

Module Renderer.
Import Scanner.

(** The document tree as the renderer sees it: text nodes, elements with
    their child nodes, and nodes of any other type. *)
#[warnings="-register-all"]
Inductive node : Type :=
| Text (nodeValue : jstring)
| Element (tagName : jstring) (childNodes : list node)
| OtherNode.

(** [node.textContent] *)
Fixpoint textContent (n : node) : jstring :=
  match n with
  | Text t => t
  | Element _ children => flat_map textContent children
  | OtherNode => []
  end.

(** The cloze pattern: two braces, [c], digits, two colons, the answer
    (group 1, lazy), optionally two colons and the hint (group 2, lazy), two
    closing braces. *)
Definition cloze : RegExp :=
  mkRegExp
    (Seq (Str (str "{{c"))
         (Seq (Plus (Chr Digit))
              (Seq (Str (str "::"))
                   (Seq (Group 1 (Star false (Chr Dot)))
                        (Seq (Opt (Seq (Str (str "::")) (Group 2 (Star false (Chr Dot)))))
                             (Str (str "}}")))))))
    false.

(** [while ((match = regex.exec(text)) !== null)] with the [g] flag: each
    search starts at [regex.lastIndex], where the match before ended; [fuel]
    bounds the number of rounds. *)
Fixpoint exec_loop (fuel : nat) (re : RegExp) (p : nat) (pv : option ascii) (t : jstring)
  : list rmatch :=
  match fuel with
  | O => []
  | S fuel' =>
      match Regex.search (multiline re) (pattern re) p pv t with
      | None => []
      | Some m =>
          m :: exec_loop fuel' re (pos (after m)) (prev (after m)) (rest (after m))
      end
  end.

(** [document.createElement('mark')] with [textContent] set to [s]. *)
Definition mark (s : jstring) : node :=
  Element (str "mark") (if nonempty s then [Text s] else []).

(** The children appended to the fragment, [lastIndex] being the end of the
    match before. *)
Fixpoint fragment (text : jstring) (lastIndex : nat) (ms : list rmatch) : list node :=
  match ms with
  | [] =>
      if (lastIndex <? length text)%nat
      then [Text (substring text lastIndex (length text))]
      else []
  | m :: ms' =>
      (if (lastIndex <? index m)%nat then [Text (substring text lastIndex (index m))] else [])
      ++ mark (group_text text m 1)
      :: fragment text (index m + length (matched text m)) ms'
  end.

(** [replaceText] on a node with a parent: the nodes that stand in its place
    afterwards. *)
Fixpoint replaceText (highlight : bool) (n : node) : list node :=
  match n with
  | Text text =>
      if negb (nonempty text) then [n]
      else if negb highlight then
        if re_test cloze text
        then [Text (re_replaceAll cloze (fun m => group_text text m 1) text)]
        else [n]
      else
        match exec_loop (S (length text)) cloze 0 None text with
        | [] => [n]
        | ms => fragment text 0 ms
        end
  | Element tag children => [Element tag (flat_map (replaceText highlight) children)]
  | OtherNode => [n]
  end.

(** [clozeRenderer(el, ctx, enabled, highlight)]: the tree under [el]
    afterwards.  [el] is an [HTMLElement]; were it a text node, a fragment
    would take its place in its parent, outside the tree under [el]. *)
Definition clozeRenderer (el : node) (enabled highlight : bool) : node :=
  if negb enabled then el
  else
    match el with
    | Text text =>
        if nonempty text && negb highlight && re_test cloze text
        then Text (re_replaceAll cloze (fun m => group_text text m 1) text)
        else el
    | Element tag children => Element tag (flat_map (replaceText highlight) children)
    | OtherNode => el
    end.

End Renderer.

(** ** A configuration to run the scan on

    The patterns that the settings give for the default syntax of the plugin
    ([START]/[END], [STARTI]/[ENDI], [DELETE], ...), and stand-ins for what
    [file.ts] imports: sentinels 42 and 69, patterns for math and code spans
    (without look-around; the documents below hold neither), a compiler that
    knows the patterns of a table and their four variants, and parsers that
    read the note type from the first line or the table, take an identifier
    from an [ID: n] marker, and give the cloze sentinel for a cloze note
    type without a cloze. *)

Module Example.
Import Scanner.

Definition digits : regex := Plus (Chr Digit).
Definition lazy_any : regex := Star false (Chr AnyChar).
Definition rest_of_line : regex := Star true (Chr Dot).

(** At the start of a line: START, a line feed, group 1 (lazy, up to a line
    feed), END; flags [gm]. *)
Definition NOTE_REGEXP : RegExp :=
  mkRegExp (Seq Bol (Seq (Str (str "START" ++ [LF]))
                         (Seq (Group 1 (Seq lazy_any (Chr (Lit LF)))) (Str (str "END")))))
           true.

(** STARTI, group 1 (lazy, within the line), ENDI; flag [g]. *)
Definition INLINE_REGEXP : RegExp :=
  mkRegExp (Seq (Str (str "STARTI"))
                (Seq (Group 1 (Star false (Chr Dot))) (Str (str "ENDI"))))
           false.

(** DELETE followed by [ID_REGEXP_STR]; flag [g]. *)
Definition EMPTY_REGEXP : RegExp :=
  mkRegExp (Seq (Str (str "DELETE")) ID_REGEXP) false.

(** FROZEN - , group 1 (lazy), a colon and a line feed, group 2 (the lines
    that follow); flag [g]. *)
Definition FROZEN_REGEXP : RegExp :=
  mkRegExp (Seq (Str (str "FROZEN - "))
                (Seq (Group 1 (Star false (Chr Dot)))
                     (Seq (Str (str ":" ++ [LF]))
                          (Group 2 (Plus (Seq (Chr (NoneOf [LF]))
                                              (Opt (Chr (Lit LF)))))))))
           false.

(** At the start of a line: TARGET DECK, a line feed or a colon and a space,
    group 1 (the rest of the line); flag [m]. *)
Definition DECK_REGEXP : RegExp :=
  mkRegExp (Seq Bol (Seq (Str (str "TARGET DECK"))
                         (Seq (Alt (Chr (Lit LF)) (Str (str ": "))) (Group 1 rest_of_line))))
           true.

Definition TAG_REGEXP : RegExp :=
  mkRegExp (Seq Bol (Seq (Str (str "FILE TAGS"))
                         (Seq (Alt (Chr (Lit LF)) (Str (str ": "))) (Group 1 rest_of_line))))
           true.

Definition delimited (d : jstring) (body : regex) : RegExp :=
  mkRegExp (Seq (Str d) (Seq body (Str d))) false.

Definition data (ids : list Z) (save gating : bool)
                (tags : option (list (jstring * jstring)))
                (customs : list (jstring * jstring)) : FileData :=
  mkFileData ids save true false gating tags customs
             NOTE_REGEXP INLINE_REGEXP EMPTY_REGEXP FROZEN_REGEXP DECK_REGEXP TAG_REGEXP.

(** The suffixes of the pattern variants; their groups are numbered 98 and 99
    to stay clear of the groups of the patterns of the table. *)
Definition TAG_REGEXP_STR : jstring := str "(Tags: .*" ++ str ")".

Definition tag_suffix : regex := Group 98 (Seq (Str (str "Tags: ")) rest_of_line).

Definition id_suffix : regex :=
  Seq (Opt (Chr (Lit LF)))
      (Seq (Opt (Str (str "<!--")))
           (Seq (Str (str "ID: ")) (Seq (Group 99 digits) rest_of_line))).

Definition no_match : regex := Seq (Chr AnyChar) Bol.

Fixpoint compile (table : list (jstring * regex)) (source : jstring) : regex :=
  match table with
  | [] => no_match
  | (src, re) :: r =>
      if jstring_eqb source (src ++ TAG_REGEXP_STR ++ ID_REGEXP_STR)
      then Seq re (Seq tag_suffix id_suffix)
      else if jstring_eqb source (src ++ ID_REGEXP_STR) then Seq re id_suffix
      else if jstring_eqb source (src ++ TAG_REGEXP_STR) then Seq re tag_suffix
      else if jstring_eqb source src then re
      else compile r source
  end.

Definition has_cloze (t : jstring) : bool :=
  test false (Seq (Str (str "{{c")) (Seq digits (Str (str "::")))) t.

Definition is_cloze_type (model : jstring) : bool :=
  test false (Str (str "Cloze")) model.

Definition marker : RegExp :=
  mkRegExp (Seq (Opt (Str (str "<!--"))) (Seq (Str (str "ID: ")) (Group 1 digits))) false.

Definition marker_line : RegExp :=
  mkRegExp (Seq Bol (pattern marker)) false.

Definition last_line (t : jstring) : jstring := last (split (trim t) [LF]) [].

Definition first_line (t : jstring) : jstring := hd [] (split (trim t) [LF]).

Definition read_marker (re : RegExp) (t : jstring) : option Z :=
  match first_match re t with
  | Some m => parseInt (group_text t m 1)
  | None => None
  end.

Definition Note_parse (note_text : jstring) (_ : Z) : AnkiConnectNoteAndID :=
  let model := first_line note_text in
  mkParsed (mkNote (str "Default") model [(str "Text", trim note_text)] [])
           (if is_cloze_type model && negb (has_cloze note_text) then Some 42
            else read_marker marker_line (last_line note_text)).

Definition InlineNote_parse (note_text : jstring) (_ : Z) : AnkiConnectNoteAndID :=
  mkParsed (mkNote (str "Default") (str "Basic") [(str "Text", trim note_text)] [])
           (read_marker marker note_text).

Definition RegexNote_parse (f : jstring) (m : rmatch) (note_type : jstring)
                           (search_tags search_id : bool) : AnkiConnectNoteAndID :=
  mkParsed (mkNote (str "Default") note_type [(str "Text", matched f m)] [])
           (if is_cloze_type note_type && negb (has_cloze (matched f m)) then Some 42
            else if search_id then parseInt (group_text f m 99) else None).

Definition X (table : list (jstring * regex)) : imports :=
  mkImports 42 69 (str " ") TAG_REGEXP_STR marker
            (delimited (str "$") (Plus (Chr (NoneOf [LF; "$"%char]))))
            (delimited (str "$$") lazy_any)
            (delimited (str "`") (Plus (Chr (NoneOf [LF; "`"%char]))))
            (delimited (str "```") lazy_any)
            (compile table) Note_parse InlineNote_parse RegexNote_parse.

Definition no_cache : CachedMetadata := mkCache None None.

(** A text given line by line. *)
Fixpoint lines (l : list string) : jstring :=
  match l with
  | [] => []
  | [x] => str x
  | x :: r => str x ++ [LF] ++ lines r
  end.

(** Scenario B of the specification, in the block syntax: a note marked
    [ID: 12] that the remote store does not know. *)
Definition scenario_B : jstring :=
  lines ["START"; "Basic"; "Q"; "A"; "ID: 12"; "END"; ""]%string.

Definition nth_match (re : RegExp) (t : jstring) (n : nat) : rmatch :=
  nth n (matches re t) (mkMatch 0 0 [] (mkCursor 0 None t [])).

(** Two custom note types, the second with a pattern that spans more text. *)
Definition say_hello : jstring := str "say hello world today".

Definition hello_table : list (jstring * regex) :=
  [(str "hello", Str (str "hello"));
   (str "say.*today", Seq (Str (str "say")) (Seq rest_of_line (Str (str "today"))))].

Definition hello_types : list (jstring * jstring) :=
  [(str "Basic", str "hello"); (str "Other", str "say.*today")].

(** A cloze note type whose pattern claims a line and the identifier marker
    on the line after it; the line holds no cloze, so the parser answers with
    the sentinel (42) whatever the marker says. *)
Definition no_cloze : jstring := lines ["No cloze here"; "ID: 7"]%string.

Definition line_table : list (jstring * regex) :=
  [(str "^No.*$", Seq Bol (Seq (Str (str "No")) (Seq rest_of_line Eol)))].

Definition line_types : list (jstring * jstring) := [(str "Cloze", str "^No.*$")].

(** Documents with a front-matter identifier. *)
Definition cache_nid (n : Z) : CachedMetadata :=
  mkCache (Some (mkFrontMatter None (Some (YNum n)))) None.

Definition one_new_note : jstring :=
  lines ["---"; "nid: 500"; "---"; "START"; "Basic"; "Q"; "A"; "END"; ""]%string.

Definition two_new_inline_notes : jstring :=
  lines ["---"; "title: x"; "nid: 12"; "---";
         "STARTI [Basic] q1 Back: a1 ENDI";
         "STARTI [Basic] q2 Back: a2 ENDI"; ""]%string.

(** Documents left over from a single-note state: the front matter holds
    the identifier [known_nid], and the document now holds two new notes. *)
Definition known_nid : Z := 1700000000012.

Definition nid_first_two_notes : jstring :=
  lines ["---"; "nid: 1700000000012"; "title: x"; "---";
         "START"; "Basic"; "Q1"; "A1"; "END";
         "START"; "Basic"; "Q2"; "A2"; "END"; ""]%string.

Definition nid_last_two_notes : jstring :=
  lines ["---"; "title: x"; "nid: 1700000000012"; "---";
         "START"; "Basic"; "Q1"; "A1"; "END";
         "START"; "Basic"; "Q2"; "A2"; "END"; ""]%string.

Definition nid_last_two_inline_notes : jstring :=
  lines ["---"; "title: x"; "nid: 1700000000012"; "---";
         "STARTI [Basic] q1 Back: a1 ENDI";
         "STARTI [Basic] q2 Back: a2 ENDI"; ""]%string.

(** A note that carries its identifier, with a blank line before the marker. *)
Definition note_with_blank_line : jstring :=
  lines ["START"; "Basic"; "Q"; "A"; ""; "ID: 12"; "END"; ""]%string.

(** Scenario A of the specification, in the block syntax. *)
Definition scenario_A : jstring :=
  lines ["START"; "Basic"; "Q"; "A"; "ID: 12"; "END"; ""]%string.

End Example.

(** ** The properties the theorems are stated with *)

Module RegexProps.

(** [s'] lies [w] further in the input than [s]. *)
Definition reaches (s s' : cursor) : Prop :=
  exists w, rest s = w ++ rest s' /\ pos s' = (pos s + length w)%nat.

(** The repetition loop of [run], by itself. *)
Section StarLoop.

Variables (multiline greedy : bool) (r1 : regex) (k : cursor -> option cursor).

Fixpoint star_loop (fuel : nat) (s : cursor) {struct fuel} : option cursor :=
  match fuel with
  | O => k s
  | S fuel' =>
      let again :=
        run multiline r1 s
          (fun s' => if (pos s <? pos s')%nat then star_loop fuel' s' else None) in
      if greedy then orelse again (k s) else orelse (k s) again
  end.

End StarLoop.

End RegexProps.

Module ScannerProps.
Import Scanner.

(** The lists of the SyncPlan and the insertion points kept with them. *)
Definition same_plan (st st' : AllFile) : Prop :=
  notes_to_add st' = notes_to_add st /\
  id_indexes st' = id_indexes st /\
  inline_notes_to_add st' = inline_notes_to_add st /\
  inline_id_indexes st' = inline_id_indexes st /\
  regex_notes_to_add st' = regex_notes_to_add st /\
  regex_id_indexes st' = regex_id_indexes st /\
  notes_to_edit st' = notes_to_edit st.

(** One more warning on the console. *)
Definition reported (st st' : AllFile) (w : warning) : Prop :=
  console st' = console st ++ [w].

(** The parser of a pattern variant without identifier suffix reads no
    identifier marker: the identifier of its record is none or a sentinel. *)
Definition no_marker_no_identifier (X : imports) : Prop :=
  forall f m note_type search_tags n,
    identifier (RegexNote_parse X f m note_type search_tags false) = Some n ->
    n = CLOZE_ERROR X \/ n = NOTE_TYPE_ERROR X.

(** Every span of [acc], taken in order, is not contained (one character of
    leeway on each side) in any span of [seen] or of [acc] before it. *)
Fixpoint each_new (seen acc : list span) : Prop :=
  match acc with
  | [] => True
  | s :: r => contained_in s seen = false /\ each_new (seen ++ [s]) r
  end.

Definition accepted_onto (base l : list span) : Prop :=
  exists acc, l = base ++ acc /\ each_new base acc.

(** [b] lies inside [a] widened by one character on each side. *)
Definition within (a b : span) : Prop :=
  fst a - 1 <= fst b /\ snd b <= snd a + 1.

(** The three dialects and, for each, the step of its scan loop and the
    identifier its parser reads from a match. *)
Inductive dialect : Type :=
| Block
| Inline
| Regex (note_type : jstring) (search_id search_tags : bool).

Definition scan_step (X : imports) (data : FileData) (d : dialect)
                     (st : AllFile) (m : rmatch) : AllFile :=
  match d with
  | Block => scanNotes_step X data st m
  | Inline => scanInlineNotes_step X data st m
  | Regex note_type search_id search_tags =>
      search_step X data note_type search_id search_tags st m
  end.

Definition parsed_identifier (X : imports) (d : dialect) (st : AllFile) (m : rmatch)
  : option Z :=
  match d with
  | Block => identifier (Note_parse X (group_text (file st) m 1) (Z.of_nat (index m)))
  | Inline => identifier (InlineNote_parse X (group_text (file st) m 1) (Z.of_nat (index m)))
  | Regex note_type search_id search_tags =>
      identifier (RegexNote_parse X (file st) m note_type search_tags search_id)
  end.

(** A match that reaches the parser: every match of the built-in patterns,
    and the custom-regex matches that [findignore] yields. *)
Definition scanned (d : dialect) (st : AllFile) (m : rmatch) : Prop :=
  match d with
  | Regex _ _ _ => contained_in (match_span m) (ignore_spans st) = false
  | _ => True
  end.

(** Two spans share at most one character. *)
Definition non_overlapping_tol (a b : span) : Prop :=
  snd a <= fst b + 1 \/ snd b <= fst a + 1.



Definition lockstep (st : AllFile) : Prop :=
  length (id_indexes st) = length (notes_to_add st) /\
  length (inline_id_indexes st) = length (inline_notes_to_add st) /\
  length (regex_id_indexes st) = length (regex_notes_to_add st).

(** The text is [f], the insertion points are in step with the notes to add,
    and no inline write of a front-matter identifier is scheduled. *)
Definition scan_invariant (f : jstring) (st : AllFile) : Prop :=
  file st = f /\ lockstep st /\ notesToWriteInline st = [].

End ScannerProps.


(** ** Further properties: what a pattern consumes, heading contexts,
    the notes of a plan *)

Module RegexSemantics.

(** What a pattern can consume: [matches_to m r s s'] holds when [r] can
    take the cursor from [s] to [s']. *)
Inductive matches_to (multiline : bool) : regex -> cursor -> cursor -> Prop :=
| M_Eps s : matches_to multiline Eps s s
| M_Chr cl s c r' :
    rest s = c :: r' -> cmatch cl c = true ->
    matches_to multiline (Chr cl) s (mkCursor (S (pos s)) (Some c) r' (caps s))
| M_Seq r1 r2 s s1 s2 :
    matches_to multiline r1 s s1 -> matches_to multiline r2 s1 s2 ->
    matches_to multiline (Seq r1 r2) s s2
| M_AltL r1 r2 s s' :
    matches_to multiline r1 s s' -> matches_to multiline (Alt r1 r2) s s'
| M_AltR r1 r2 s s' :
    matches_to multiline r2 s s' -> matches_to multiline (Alt r1 r2) s s'
| M_StarStop greedy r s : matches_to multiline (Star greedy r) s s
| M_StarStep greedy r s s1 s2 :
    matches_to multiline r s s1 -> (pos s < pos s1)%nat ->
    matches_to multiline (Star greedy r) s1 s2 ->
    matches_to multiline (Star greedy r) s s2
| M_Group n r s s1 :
    matches_to multiline r s s1 ->
    matches_to multiline (Group n r) s
      (mkCursor (pos s1) (prev s1) (rest s1) ((n, (pos s, pos s1)) :: caps s1))
| M_Bol s : at_bol multiline s = true -> matches_to multiline Bol s s
| M_Eol s : at_eol multiline s = true -> matches_to multiline Eol s s.

(** The cursor [s] is a position in the text [t]. *)
Definition cursor_in (t : jstring) (s : cursor) : Prop :=
  (pos s <= length t)%nat /\ rest s = skipn (pos s) t.

End RegexSemantics.

Module ContextProps.
Import AbstractFile.

(** The headings the loop of [getContextAtIndex] visits: those before the
    first heading that starts after [position]. *)
Fixpoint visited (position : Z) (headings : list HeadingCache) : list HeadingCache :=
  match headings with
  | [] => []
  | h :: r => if position <? offset h then [] else h :: visited position r
  end.

(** Each heading is deeper than the ones before it. *)
Definition nested (ctx : list HeadingCache) : Prop :=
  StronglySorted (fun a b => level a < level b) ctx.

(** [g] is visited and every heading visited after it is deeper. *)
Definition encloses (position : Z) (headings : list HeadingCache) (g : HeadingCache)
  : Prop :=
  exists before after,
    visited position headings = before ++ g :: after /\
    Forall (fun h => level g < level h) after.

End ContextProps.

Module ScanMoreProps.
Import Scanner ScannerProps.

(** Every note to edit carries an identifier of the known set. *)
Definition edits_known (data : FileData) (st : AllFile) : Prop :=
  Forall (fun p => includes (EXISTING_IDS data) (identifier p) = true) (notes_to_edit st).

(** The notes of the plan: those to add, by dialect, and those to edit. *)
Definition notes_of (st : AllFile) : list AnkiConnectNote :=
  notes_to_add st ++ inline_notes_to_add st ++ regex_notes_to_add st
  ++ map note (notes_to_edit st).

End ScanMoreProps.

Module ReplaceProps.
Import Scanner EditEngine.

(** The edit that replaces the text of match [m] by [f m]. *)
Definition edit_of_match (f : rmatch -> jstring) (m : rmatch) : edit :=
  mkEdit (Z.of_nat (index m)) (Z.of_nat (stop m)) (f m).

(** Spans from left to right: each starts after the start of the one before
    and not before its end. *)
Definition left_to_right (sps : list span) : Prop :=
  StronglySorted (fun a b => snd a <= fst b /\ fst a < fst b) sps.

(** Match [b] comes after match [a]. *)
Definition follows (a b : rmatch) : Prop :=
  (stop a <= index b)%nat /\ (index a < index b)%nat.

End ReplaceProps.

Module PluginProps.
Import Scanner Plugin.

(** [section[note_type]], or the empty string when there is none. *)
Definition or_empty (v : option jstring) : jstring :=
  match v with Some s => s | None => [] end.

(** The table has no own property that shadows the method
    [hasOwnProperty]. *)
Definition no_shadow (o : record jstring) : Prop :=
  hasOwnProperty o (str "hasOwnProperty") = false.

(** What the first loop of [regenerateSettingsRegexps] leaves under the key
    of a note type [t], [entry] being what the table held: the entry, or the
    empty string when there was none; under [__proto__] no entry is
    created. *)
Definition kept_entry (t : jstring) (entry : option jstring) : option jstring :=
  if jstring_eqb t (str "__proto__") then entry else Some (or_empty entry).

(** What a table holds after the first loop. *)
Definition after_loop (note_types : list jstring) (old new : record jstring) : Prop :=
  forall t, get t new
            = if string_includes note_types t then kept_entry t (get t old) else get t old.


(** What a check makes of the selected field [current]. *)
Definition checked (availableFields : list jstring) (first : jstring) (current : jstring)
  : jstring :=
  if nonempty current && negb (string_includes availableFields current)
  then first else current.

(** What the loop makes of the entry of [t] in a table. *)
Definition validated (fields_dict : record (list jstring)) (note_types : list jstring)
                     (t : jstring) (entry : option jstring) : option jstring :=
  if string_includes note_types t then
    match get t fields_dict with
    | Some (first :: r) => option_map (checked (first :: r) first) entry
    | _ => entry
    end
  else entry.

(** [f] is a file somewhere under the folder [t]. *)
Inductive file_under : TAbstractFile -> TAbstractFile -> Prop :=
| under_child children path :
    In (TFile path) children -> file_under (TFolder children) (TFile path)
| under_folder children sub f :
    In (TFolder sub) children -> file_under (TFolder sub) f ->
    file_under (TFolder children) f.

(** The nesting depth of a folder. *)
Fixpoint depth (t : TAbstractFile) : nat :=
  match t with
  | TFolder children => S (fold_right (fun c acc => Nat.max (depth c) acc) 0%nat children)
  | _ => 0%nat
  end.

End PluginProps.

Module MatcherProps.

(** The cursor after the characters [w] have been consumed from [s]. *)
Fixpoint advance (s : cursor) (w : jstring) : cursor :=
  match w with
  | [] => s
  | c :: w' => advance (mkCursor (S (pos s)) (Some c) (tl (rest s)) (caps s)) w'
  end.

End MatcherProps.

Module RemovalProps.
Import JS.

(** The text holds no carriage return. *)
Definition no_CR (t : jstring) : Prop := Forall (fun c => Ascii.eqb c CR = false) t.

End RemovalProps.

Module OverlapProps.
Import Scanner.

(** The match is retracted as a cloze error: its record carries the
    ClozeError sentinel and, in the variants with identifier suffix, the
    known identifiers do not hold that number. *)
Definition retracted (X : imports) (data : FileData) (note_type : jstring)
                     (search_id search_tags : bool) (f : jstring) (m : rmatch) : bool :=
  let id := identifier (RegexNote_parse X f m note_type search_tags search_id) in
  is_sentinel id (CLOZE_ERROR X)
  && (negb search_id || negb (includes (EXISTING_IDS data) id)).

(** First come, first served: the candidates are taken in order, each with
    its span and whether it is retracted; a candidate is accepted when its
    span is not contained in a span seen so far and it is not retracted, and
    an accepted span counts as seen from then on. *)
Fixpoint accept (seen : list span) (candidates : list (span * bool)) : list span :=
  match candidates with
  | [] => []
  | (sp, retract) :: r =>
      if contained_in sp seen then accept seen r
      else if retract then accept seen r
      else sp :: accept (seen ++ [sp]) r
  end.

(** The candidates of a document [f] in the order in which [scanFile] meets
    them: note type by note type, for each the four pattern variants, for each
    variant its matches from left to right. *)
Definition candidates_of_variant (X : imports) (data : FileData) (f : jstring)
                                 (note_type regexp_str : jstring) (v : bool * bool)
  : list (span * bool) :=
  map (fun m => (match_span m, retracted X data note_type (fst v) (snd v) f m))
      (matches (variant_regexp X regexp_str (fst v) (snd v)) f).

Definition candidates_of_type (X : imports) (data : FileData) (file_cache : CachedMetadata)
                              (f : jstring) (note_type : jstring) : list (span * bool) :=
  match lookup note_type (custom_regexps data) with
  | Some regexp_str =>
      if nonempty regexp_str then
        if regex_required_tags data
           && negb (hasRequiredTag file_cache (required_tags_for data note_type))
        then []
        else flat_map (candidates_of_variant X data f note_type regexp_str) variants
      else []
  | None => []
  end.

Definition candidates (X : imports) (data : FileData) (file_cache : CachedMetadata)
                      (f : jstring) : list (span * bool) :=
  flat_map (candidates_of_type X data file_cache f) (note_types data).

End OverlapProps.

Module SearchProps.
Import JS.

(** The literal [lit] occurs in [t]. *)
Definition occurs (lit t : jstring) : Prop := exists a b, t = a ++ lit ++ b.

Fixpoint occursb (lit t : jstring) : bool :=
  starts_with lit t || match t with [] => false | _ :: t' => occursb lit t' end.

(** The character before the position that follows [pre], [pv] being the one
    before [pre]. *)
Definition prev_after (pre : jstring) (pv : option ascii) : option ascii :=
  match rev pre with
  | c :: _ => Some c
  | [] => pv
  end.

(** [pre] is empty or ends with a line terminator: a line starts after it. *)
Definition ends_line (pre : jstring) : Prop :=
  pre = [] \/ exists b c, pre = b ++ [c] /\ is_line_terminator c = true.

(** [body] is empty or ends with a character that is no white space. *)
Definition no_blank_end (body : jstring) : Prop :=
  body = [] \/ exists b c, body = b ++ [c] /\ is_space c = false.

(** A front-matter block: [fm] between a line of three dashes at the start
    and a closing fence, a line feed and three dashes. *)
Definition fenced (fm : jstring) : jstring := str "---" ++ [LF] ++ fm ++ LF :: str "---".

(** The closing fence after [fm] is the first one: no line feed followed by
    three dashes starts inside [fm]. *)
Definition first_fence (fm rest : jstring) : Prop :=
  forall w1 c w2, fm = w1 ++ c :: w2 ->
    starts_with (LF :: str "---") (c :: w2 ++ LF :: str "---" ++ rest) = false.

Fixpoint no_fence_in (fm rest : jstring) : bool :=
  match fm with
  | [] => true
  | c :: w2 =>
      negb (starts_with (LF :: str "---") (c :: w2 ++ LF :: str "---" ++ rest))
      && no_fence_in w2 rest
  end.

(** A marker is the text [ID: ] before a digit.  No marker begins in
    [line], a piece of text that is followed by [ID: ]. *)
Definition no_marker_in (line : jstring) : Prop :=
  forall x e y, line ++ str "ID: " = x ++ str "ID: " ++ e :: y -> is_digit e = false.

Fixpoint markerb (t : jstring) : bool :=
  match t with
  | [] => false
  | _ :: t' =>
      (starts_with (str "ID: ") t
       && match skipn 4 t with e :: _ => is_digit e | [] => false end)
      || markerb t'
  end.

End SearchProps.
(** * Theorems *)

(** ** The matcher: cursors only move forward, and the fuel is enough *)

Module RegexFacts.
Import RegexProps.

Lemma reaches_refl s : reaches s s.
Proof. exists []. split; [reflexivity|simpl; lia]. Qed.

Lemma reaches_trans s1 s2 s3 : reaches s1 s2 -> reaches s2 s3 -> reaches s1 s3.
Proof.
  intros (w1 & E1 & P1) (w2 & E2 & P2). exists (w1 ++ w2). split.
  - now rewrite E1, E2, app_assoc.
  - rewrite length_app. lia.
Qed.

Lemma reaches_length s s' : reaches s s' -> (length (rest s') <= length (rest s))%nat.
Proof. intros (w & E & _). rewrite E, length_app. lia. Qed.

Lemma reaches_progress s s' :
  reaches s s' -> (pos s < pos s')%nat -> (length (rest s') < length (rest s))%nat.
Proof. intros (w & E & P) H. rewrite E, length_app. lia. Qed.

(** Whatever the matcher answers, it is the answer of its continuation at a
    cursor further in the input. *)
Lemma run_reaches multiline r :
  forall s k res, run multiline r s k = Some res ->
  exists s', reaches s s' /\ k s' = Some res.
Proof.
  induction r as [|cl|r1 IH1 r2 IH2|r1 IH1 r2 IH2|greedy r1 IH1|n r1 IH1| |];
    intros s k res H; simpl in H.
  - exists s. split; [apply reaches_refl|exact H].
  - destruct (rest s) as [|c r'] eqn:E; [discriminate|].
    destruct (cmatch cl c); [|discriminate].
    eexists. split; [|exact H]. exists [c]. simpl. split; [exact E|lia].
  - apply IH1 in H. destruct H as (s1 & R1 & H). apply IH2 in H.
    destruct H as (s2 & R2 & H). exists s2. split; [|exact H].
    now apply reaches_trans with s1.
  - unfold orelse in H. destruct (run multiline r1 s k) eqn:E.
    + injection H as <-. now apply IH1 in E.
    + now apply IH2 in H.
  - revert H. generalize (length (rest s)) as fuel. intros fuel. revert s res.
    induction fuel as [|fuel IHf]; intros s res H.
    + exists s. split; [apply reaches_refl|exact H].
    + assert (Hagain : forall res',
                run multiline r1 s
                    (fun s' => if (pos s <? pos s')%nat
                               then (fix loop (fuel : nat) (s : cursor) {struct fuel} :=
                                       match fuel with
                                       | O => k s
                                       | S fuel' =>
                                           let again :=
                                             run multiline r1 s
                                               (fun s' => if (pos s <? pos s')%nat
                                                          then loop fuel' s' else None) in
                                           if greedy then orelse again (k s)
                                           else orelse (k s) again
                                       end) fuel s'
                               else None) = Some res' ->
                exists s', reaches s s' /\ k s' = Some res').
      { intros res' Hr. apply IH1 in Hr. destruct Hr as (s1 & R1 & Hr).
        destruct (pos s <? pos s1)%nat; [|discriminate].
        apply IHf in Hr. destruct Hr as (s2 & R2 & Hr).
        exists s2. split; [now apply reaches_trans with s1|exact Hr]. }
      cbv zeta in H. unfold orelse in H.
      destruct greedy.
      * match type of H with
        | match ?x with _ => _ end = _ => destruct x eqn:E
        end.
        -- injection H as <-. now apply Hagain.
        -- exists s. split; [apply reaches_refl|exact H].
      * destruct (k s) eqn:E.
        -- injection H as <-. exists s. split; [apply reaches_refl|exact E].
        -- now apply Hagain.
  - apply IH1 in H. destruct H as (s1 & (w & E & P) & H).
    eexists. split; [|exact H]. exists w. simpl. split; [exact E|exact P].
  - destruct (at_bol multiline s); [|discriminate].
    exists s. split; [apply reaches_refl|exact H].
  - destruct (at_eol multiline s); [|discriminate].
    exists s. split; [apply reaches_refl|exact H].
Qed.

(** A match found from cursor [(p, pv, t)] lies inside [t]. *)
Lemma match_here_inside multiline r s m :
  match_here multiline r s = Some m ->
  index m = pos s /\ reaches s (after m) /\ stop m = pos (after m).
Proof.
  unfold match_here. destruct (run multiline r s Some) as [s'|] eqn:E; [|discriminate].
  intros H. injection H as <-. simpl.
  apply run_reaches in E. destruct E as (s1 & R & E). injection E as ->.
  repeat split. exact R.
Qed.

Lemma search_inside multiline r t :
  forall p pv m, search multiline r p pv t = Some m ->
  (p <= index m)%nat /\ (index m <= stop m)%nat /\
  (stop m + length (rest (after m)) = p + length t)%nat /\
  stop m = pos (after m).
Proof.
  induction t as [|c t IH]; intros p pv m H; simpl in H.
  - destruct (match_here multiline r (mkCursor p pv [] [])) as [m'|] eqn:E; [|discriminate].
    injection H as ->. apply match_here_inside in E.
    destruct E as (Ei & (w & Er & Ep) & Es). simpl in *.
    apply (f_equal (@length ascii)) in Er. rewrite length_app in Er. simpl in Er.
    repeat split; lia.
  - destruct (match_here multiline r (mkCursor p pv (c :: t) [])) as [m'|] eqn:E.
    + injection H as ->. apply match_here_inside in E.
      destruct E as (Ei & (w & Er & Ep) & Es). simpl in *.
      apply (f_equal (@length ascii)) in Er. rewrite length_app in Er. simpl in Er.
      repeat split; lia.
    + apply IH in H. simpl. destruct H as (H1 & H2 & H3 & H4).
      repeat split; lia.
Qed.

(** Every match of [matchAll] lies inside the text. *)
Lemma matches_from_inside multiline r fuel :
  forall p pv t m, In m (matches_from fuel multiline r p pv t) ->
  (p <= index m)%nat /\ (index m <= stop m)%nat /\ (stop m <= p + length t)%nat.
Proof.
  induction fuel as [|fuel IH]; intros p pv t m H; simpl in H; [contradiction|].
  destruct (search multiline r p pv t) as [m0|] eqn:E; [|contradiction].
  apply search_inside in E. destruct E as (E1 & E2 & E3 & E4).
  destruct H as [<-|H].
  - repeat split; lia.
  - destruct (index m0 <? stop m0)%nat.
    + apply IH in H. lia.
    + destruct (rest (after m0)) as [|c t'] eqn:Er; [contradiction|].
      apply IH in H. simpl in E3. lia.
Qed.

Lemma matchAll_inside multiline r t m :
  In m (matchAll multiline r t) ->
  (index m <= stop m)%nat /\ (stop m <= length t)%nat.
Proof.
  intros H. apply matches_from_inside in H. lia.
Qed.

(** The fuel of [matchAll] is enough: with any larger fuel the matches are
    the same. *)
Lemma matches_from_fuel multiline r fuel1 :
  forall fuel2 p pv t,
    (length t < fuel1)%nat -> (length t < fuel2)%nat ->
    matches_from fuel1 multiline r p pv t = matches_from fuel2 multiline r p pv t.
Proof.
  induction fuel1 as [|fuel1 IH]; intros fuel2 p pv t H1 H2; [lia|].
  destruct fuel2 as [|fuel2]; [lia|]. simpl.
  destruct (search multiline r p pv t) as [m|] eqn:E; [|reflexivity].
  apply search_inside in E. destruct E as (E1 & E2 & E3 & E4).
  f_equal. destruct (Nat.ltb_spec (index m) (stop m)).
  - apply IH; lia.
  - destruct (rest (after m)) as [|c t'] eqn:Er; [reflexivity|].
    simpl in E3. apply IH; lia.
Qed.

Lemma matchAll_fuel multiline r t fuel :
  (length t < fuel)%nat ->
  matches_from fuel multiline r 0 None t = matchAll multiline r t.
Proof.
  intros H. unfold matchAll. apply matches_from_fuel; lia.
Qed.

Lemma run_Star multiline greedy r1 s k :
  run multiline (Star greedy r1) s k
  = star_loop multiline greedy r1 k (length (rest s)) s.
Proof. reflexivity. Qed.

(** The matcher consults its continuation only at cursors further in the
    input. *)
Lemma star_loop_ext multiline greedy r1 :
  (forall s k1 k2, (forall s', reaches s s' -> k1 s' = k2 s') ->
                   run multiline r1 s k1 = run multiline r1 s k2) ->
  forall fuel s k1 k2,
    (forall s', reaches s s' -> k1 s' = k2 s') ->
    star_loop multiline greedy r1 k1 fuel s = star_loop multiline greedy r1 k2 fuel s.
Proof.
  intros IH1 fuel. induction fuel as [|fuel IHf]; intros s k1 k2 Hk; simpl.
  - apply Hk, reaches_refl.
  - rewrite (Hk s (reaches_refl s)).
    rewrite (IH1 s _ (fun s' => if (pos s <? pos s')%nat
                                then star_loop multiline greedy r1 k2 fuel s' else None)).
    + reflexivity.
    + intros s' R. destruct (pos s <? pos s')%nat; [|reflexivity].
      apply IHf. intros s'' R'. apply Hk. now apply reaches_trans with s'.
Qed.

Lemma run_ext multiline r :
  forall s k1 k2, (forall s', reaches s s' -> k1 s' = k2 s') ->
                  run multiline r s k1 = run multiline r s k2.
Proof.
  induction r as [|cl|r1 IH1 r2 IH2|r1 IH1 r2 IH2|greedy r1 IH1|n r1 IH1| |];
    intros s k1 k2 Hk.
  - simpl. apply Hk, reaches_refl.
  - simpl. destruct (rest s) as [|c r'] eqn:E; [reflexivity|].
    destruct (cmatch cl c); [|reflexivity].
    apply Hk. exists [c]. simpl. split; [exact E|lia].
  - simpl. apply IH1. intros s1 R1. apply IH2. intros s2 R2.
    apply Hk. now apply reaches_trans with s1.
  - simpl. now rewrite (IH1 s k1 k2 Hk), (IH2 s k1 k2 Hk).
  - rewrite !run_Star. now apply star_loop_ext.
  - simpl. apply IH1. intros s1 (w & E & P). apply Hk. exists w. simpl. now split.
  - simpl. now rewrite (Hk s (reaches_refl s)).
  - simpl. now rewrite (Hk s (reaches_refl s)).
Qed.

(** The fuel of a repetition is enough: with any larger fuel the answer is
    the same. *)
Lemma star_loop_fuel multiline greedy r1 k fuel1 :
  forall fuel2 s,
    (length (rest s) <= fuel1)%nat -> (length (rest s) <= fuel2)%nat ->
    star_loop multiline greedy r1 k fuel1 s = star_loop multiline greedy r1 k fuel2 s.
Proof.
  assert (Hstuck : forall s f, length (rest s) = 0%nat ->
            run multiline r1 s (fun s' => if (pos s <? pos s')%nat then f s' else None) = None).
  { intros s f Hz.
    destruct (run multiline r1 s
                  (fun s' => if (pos s <? pos s')%nat then f s' else None)) eqn:E;
      [|reflexivity].
    apply run_reaches in E. destruct E as (s' & R & E).
    destruct (Nat.ltb_spec (pos s) (pos s')); [|discriminate].
    apply (reaches_progress _ _ R) in H. lia. }
  assert (Hzero : forall fuel s, length (rest s) = 0%nat ->
            star_loop multiline greedy r1 k fuel s = k s).
  { intros [|fuel] s Hz; simpl; [reflexivity|].
    rewrite Hstuck by exact Hz. unfold orelse. destruct greedy; [reflexivity|].
    now destruct (k s). }
  induction fuel1 as [|fuel1 IH]; intros fuel2 s H1 H2.
  - rewrite !Hzero by lia. reflexivity.
  - destruct fuel2 as [|fuel2]; [rewrite !Hzero by lia; reflexivity|].
    simpl.
    rewrite (run_ext multiline r1 s _
               (fun s' => if (pos s <? pos s')%nat
                          then star_loop multiline greedy r1 k fuel2 s' else None)).
    + reflexivity.
    + intros s' R. destruct (Nat.ltb_spec (pos s) (pos s')); [|reflexivity].
      apply (reaches_progress _ _ R) in H. apply IH; lia.
Qed.

Lemma run_Star_fuel multiline greedy r1 s k fuel :
  (length (rest s) <= fuel)%nat ->
  run multiline (Star greedy r1) s k = star_loop multiline greedy r1 k fuel s.
Proof.
  intros H. rewrite run_Star. apply star_loop_fuel; lia.
Qed.

End RegexFacts.


(** ** The matcher is sound for what a pattern can consume *)

Module RegexSemanticsFacts.
Import RegexProps RegexFacts RegexSemantics.

Lemma star_loop_sound multiline greedy r1 :
  (forall s k res, run multiline r1 s k = Some res ->
                   exists s', matches_to multiline r1 s s' /\ k s' = Some res) ->
  forall fuel s k res,
    star_loop multiline greedy r1 k fuel s = Some res ->
    exists s', matches_to multiline (Star greedy r1) s s' /\ k s' = Some res.
Proof.
  intros IH1 fuel. induction fuel as [|fuel IHf]; intros s k res H; simpl in H.
  - exists s. split; [constructor|exact H].
  - assert (Hagain : forall res',
              run multiline r1 s
                  (fun s' => if (pos s <? pos s')%nat
                             then star_loop multiline greedy r1 k fuel s' else None)
              = Some res' ->
              exists s', matches_to multiline (Star greedy r1) s s' /\ k s' = Some res').
    { intros res' Hr. apply IH1 in Hr. destruct Hr as (s1 & M1 & Hr).
      destruct (Nat.ltb_spec (pos s) (pos s1)); [|discriminate].
      apply IHf in Hr. destruct Hr as (s2 & M2 & Hr).
      exists s2. split; [|exact Hr]. now apply M_StarStep with s1. }
    unfold orelse in H. destruct greedy.
    + match type of H with
      | match ?x with _ => _ end = _ => destruct x eqn:E
      end.
      * injection H as <-. now apply Hagain.
      * exists s. split; [constructor|exact H].
    + destruct (k s) eqn:E.
      * injection H as <-. exists s. split; [constructor|exact E].
      * now apply Hagain.
Qed.

(** Whatever the matcher answers is the answer of its continuation at a
    cursor the pattern can reach. *)
Lemma run_sound multiline r :
  forall s k res, run multiline r s k = Some res ->
  exists s', matches_to multiline r s s' /\ k s' = Some res.
Proof.
  induction r as [|cl|r1 IH1 r2 IH2|r1 IH1 r2 IH2|greedy r1 IH1|n r1 IH1| |];
    intros s k res H.
  - exists s. split; [constructor|exact H].
  - simpl in H. destruct (rest s) as [|c r'] eqn:E; [discriminate|].
    destruct (cmatch cl c) eqn:Ec; [|discriminate].
    eexists. split; [|exact H]. now constructor.
  - simpl in H. apply IH1 in H. destruct H as (s1 & M1 & H). apply IH2 in H.
    destruct H as (s2 & M2 & H). exists s2. split; [|exact H].
    now apply M_Seq with s1.
  - simpl in H. unfold orelse in H. destruct (run multiline r1 s k) eqn:E.
    + injection H as <-. apply IH1 in E. destruct E as (s' & M & E').
      exists s'. split; [now apply M_AltL|exact E'].
    + apply IH2 in H. destruct H as (s' & M & E').
      exists s'. split; [now apply M_AltR|exact E'].
  - rewrite run_Star in H. now apply (star_loop_sound multiline greedy r1 IH1) in H.
  - simpl in H. apply IH1 in H. destruct H as (s1 & M1 & H).
    eexists. split; [|exact H]. now constructor.
  - simpl in H. destruct (at_bol multiline s) eqn:E; [|discriminate].
    exists s. split; [now constructor|exact H].
  - simpl in H. destruct (at_eol multiline s) eqn:E; [|discriminate].
    exists s. split; [now constructor|exact H].
Qed.

Lemma reaches_cursor_in t s s' : cursor_in t s -> reaches s s' -> cursor_in t s'.
Proof.
  intros (Hp & Hr) (w & E & P).
  assert (El : length (rest s) = (length t - pos s)%nat) by (rewrite Hr; apply length_skipn).
  rewrite E, length_app in El. split; [lia|].
  rewrite P, Nat.add_comm, <- skipn_skipn, <- Hr, E.
  rewrite skipn_app, Nat.sub_diag, skipn_all. reflexivity.
Qed.

Lemma matches_to_reaches multiline r s s' : matches_to multiline r s s' -> reaches s s'.
Proof.
  induction 1.
  - apply reaches_refl.
  - exists [c]. simpl. split; [assumption|lia].
  - eapply reaches_trans; eassumption.
  - assumption.
  - assumption.
  - apply reaches_refl.
  - eapply reaches_trans; eassumption.
  - destruct IHmatches_to as (w & E & P). exists w. simpl. now split.
  - apply reaches_refl.
  - apply reaches_refl.
Qed.

Lemma matches_to_Chr multiline cl s s' :
  matches_to multiline (Chr cl) s s' ->
  exists c r', rest s = c :: r' /\ cmatch cl c = true /\
               s' = mkCursor (S (pos s)) (Some c) r' (caps s).
Proof. intros H. inversion H; subst. eauto. Qed.

Lemma matches_to_Seq multiline r1 r2 s s' :
  matches_to multiline (Seq r1 r2) s s' ->
  exists s1, matches_to multiline r1 s s1 /\ matches_to multiline r2 s1 s'.
Proof. intros H. inversion H; subst. eauto. Qed.

Lemma matches_to_Eps multiline s s' : matches_to multiline Eps s s' -> s' = s.
Proof. intros H. now inversion H. Qed.

Lemma matches_to_Str multiline lit : forall s s',
  matches_to multiline (Str lit) s s' ->
  rest s = lit ++ rest s' /\ pos s' = (pos s + length lit)%nat /\ caps s' = caps s.
Proof.
  induction lit as [|c lit IH]; intros s s' H; simpl in H.
  - apply matches_to_Eps in H. subst s'. simpl. repeat split. lia.
  - apply matches_to_Seq in H. destruct H as (s1 & H1 & H2).
    apply matches_to_Chr in H1. destruct H1 as (c0 & r' & Hr & Hc & ->).
    apply IH in H2. destruct H2 as (E & P & C). simpl in E, P, C, Hc.
    apply Ascii.eqb_eq in Hc. subst c0. repeat split.
    + rewrite Hr, E. reflexivity.
    + simpl. lia.
    + exact C.
Qed.

Lemma matches_to_class_star multiline greedy cl s s' :
  matches_to multiline (Star greedy (Chr cl)) s s' ->
  exists w, rest s = w ++ rest s' /\ forallb (cmatch cl) w = true /\
            pos s' = (pos s + length w)%nat /\ caps s' = caps s.
Proof.
  remember (Star greedy (Chr cl)) as r eqn:Er. intros H. revert Er.
  induction H as [| | | | |g r0 s0|g r0 s0 s1 s2 H1 _ Hlt H2 IH2| | |];
    intros Er; try discriminate.
  - exists []. simpl. repeat split. lia.
  - injection Er as -> ->. destruct (IH2 eq_refl) as (w & E & F & P & C).
    apply matches_to_Chr in H1. destruct H1 as (c & r' & Hr & Hc & ->).
    simpl in E, P, C. exists (c :: w). simpl. repeat split.
    + rewrite Hr, E. reflexivity.
    + rewrite Hc. exact F.
    + lia.
    + exact C.
Qed.

Lemma matches_to_class_plus multiline cl s s' :
  matches_to multiline (Plus (Chr cl)) s s' ->
  exists c w, rest s = c :: w ++ rest s' /\ forallb (cmatch cl) (c :: w) = true /\
              pos s' = (pos s + S (length w))%nat /\ caps s' = caps s.
Proof.
  unfold Plus. intros H. apply matches_to_Seq in H. destruct H as (s1 & H1 & H2).
  apply matches_to_Chr in H1. destruct H1 as (c & r' & Hr & Hc & ->).
  apply matches_to_class_star in H2.
  destruct H2 as (w & E & F & P & C). simpl in E, P, C. exists c, w. simpl. repeat split.
  - rewrite Hr, E. reflexivity.
  - rewrite Hc. exact F.
  - lia.
  - exact C.
Qed.

Lemma matches_to_Opt multiline r s s' :
  matches_to multiline (Opt r) s s' -> matches_to multiline r s s' \/ s' = s.
Proof.
  unfold Opt. intros H. inversion H as [| | |? ? ? ? H1|? ? ? ? H1| | | | |]; subst; [now left|].
  apply matches_to_Eps in H1. now right.
Qed.


Lemma matches_to_Group multiline n r s s' :
  matches_to multiline (Group n r) s s' ->
  exists s1, matches_to multiline r s s1 /\
             pos s' = pos s1 /\ rest s' = rest s1 /\ prev s' = prev s1 /\
             caps s' = (n, (pos s, pos s1)) :: caps s1.
Proof. intros H. inversion H; subst. eexists. split; [eassumption|]. simpl. auto. Qed.

(** Where a search finds its match. *)
Lemma search_Some multiline r t : forall p pv m,
  search multiline r p pv t = Some m ->
  exists pre suf pv',
    t = pre ++ suf /\
    match_here multiline r (mkCursor (p + length pre) pv' suf []) = Some m.
Proof.
  induction t as [|c t IH]; intros p pv m H; simpl in H.
  - destruct (match_here _ _ _) eqn:E; [|discriminate]. injection H as ->.
    exists [], [], pv. simpl. rewrite Nat.add_0_r. now split.
  - destruct (match_here _ _ _) eqn:E.
    + injection H as ->. exists [], (c :: t), pv. simpl. rewrite Nat.add_0_r. now split.
    + apply IH in H. destruct H as (pre & suf & pv' & -> & H).
      exists (c :: pre), suf, pv'. simpl. split; [reflexivity|].
      now rewrite Nat.add_succ_r.
Qed.

Lemma cursor_in_suffix pre suf pv :
  cursor_in (pre ++ suf) (mkCursor (length pre) pv suf []).
Proof.
  split; simpl.
  - rewrite length_app. lia.
  - rewrite skipn_app, Nat.sub_diag, skipn_all. reflexivity.
Qed.

(** A match of [exec] starts at a cursor of the text and is what the pattern
    can consume from there. *)
Lemma exec_Some multiline r t m :
  exec multiline r t = Some m ->
  exists s, cursor_in t s /\ caps s = [] /\ index m = pos s /\
            matches_to multiline r s (after m) /\
            stop m = pos (after m) /\ groups m = caps (after m).
Proof.
  unfold exec. intros H. apply search_Some in H.
  destruct H as (pre & suf & pv' & -> & H). simpl in H.
  eexists. split; [apply cursor_in_suffix|]. simpl.
  unfold match_here in H.
  destruct (run _ _ _ Some) as [s'|] eqn:E; [|discriminate]. injection H as <-. simpl.
  apply run_sound in E. destruct E as (s1 & M & E). injection E as ->.
  repeat split. exact M.
Qed.

Lemma matches_from_In multiline r t0 fuel : forall p pv t m,
  (p <= length t0)%nat -> t = skipn p t0 ->
  In m (matches_from fuel multiline r p pv t) ->
  exists s, cursor_in t0 s /\ caps s = [] /\ index m = pos s /\
            matches_to multiline r s (after m) /\
            stop m = pos (after m) /\ groups m = caps (after m).
Proof.
  induction fuel as [|fuel IH]; intros p pv t m Hp Ht H; simpl in H; [contradiction|].
  destruct (search multiline r p pv t) as [m0|] eqn:E; [|contradiction].
  assert (E' := E). apply search_Some in E'.
  destruct E' as (pre & suf & pv' & Et & Hm).
  assert (Hc : cursor_in t0 (mkCursor (p + length pre) pv' suf [])).
  { assert (El : length t = (length t0 - p)%nat) by (rewrite Ht; apply length_skipn).
    rewrite Et, length_app in El. split; simpl; [lia|].
    rewrite Nat.add_comm, <- skipn_skipn, <- Ht, Et.
    rewrite skipn_app, Nat.sub_diag, skipn_all. reflexivity. }
  unfold match_here in Hm.
  destruct (run _ _ _ Some) as [s'|] eqn:Er; [|discriminate]. injection Hm as <-.
  apply run_sound in Er. destruct Er as (s1 & M & Er). injection Er as ->.
  assert (Hc' : cursor_in t0 s').
  { eapply reaches_cursor_in; [exact Hc|]. now apply matches_to_reaches in M. }
  destruct H as [<-|H].
  - eexists. split; [exact Hc|]. simpl. repeat split. exact M.
  - simpl in H. destruct (_ <? _)%nat.
    + destruct Hc' as (Hp' & Hr'). now apply (IH _ _ _ _ Hp' Hr') in H.
    + destruct (rest s') as [|c t'] eqn:Es; [contradiction|].
      destruct Hc' as (Hp' & Hr'). rewrite Es in Hr'.
      assert (Hlen : (pos s' < length t0)%nat).
      { apply (f_equal (@length ascii)) in Hr'. rewrite length_skipn in Hr'. simpl in Hr'. lia. }
      apply (IH (S (pos s')) (Some c) t' m) in H; [exact H|lia|].
      change (S (pos s')) with (1 + pos s')%nat. rewrite <- skipn_skipn, <- Hr'. reflexivity.
Qed.

Lemma matchAll_In multiline r t m :
  In m (matchAll multiline r t) ->
  exists s, cursor_in t s /\ caps s = [] /\ index m = pos s /\
            matches_to multiline r s (after m) /\
            stop m = pos (after m) /\ groups m = caps (after m).
Proof.
  unfold matchAll. apply matches_from_In; [lia|reflexivity].
Qed.

End RegexSemanticsFacts.
Module EditEngineFacts.
Import EditEngine.

(** *** [slice] on offsets inside the text *)

Lemma clamp_index_inside len i : 0 <= i <= len -> clamp_index len i = i.
Proof.
  intros H. unfold clamp_index.
  destruct (Z.ltb_spec i 0); lia.
Qed.

Lemma slice_inside t b e :
  0 <= b -> b <= e -> e <= Z.of_nat (length t) ->
  slice t b e = firstn (Z.to_nat (e - b)) (skipn (Z.to_nat b) t).
Proof.
  intros Hb Hbe He. unfold slice.
  rewrite !clamp_index_inside by lia. reflexivity.
Qed.

Lemma slice_prefix t e :
  0 <= e -> e <= Z.of_nat (length t) -> slice t 0 e = firstn (Z.to_nat e) t.
Proof.
  intros H0 He. rewrite slice_inside by lia.
  rewrite Z.sub_0_r. reflexivity.
Qed.

Lemma slice_from_inside t b :
  0 <= b -> b <= Z.of_nat (length t) -> slice_from t b = skipn (Z.to_nat b) t.
Proof.
  intros H0 Hb. unfold slice_from. rewrite clamp_index_inside by lia. reflexivity.
Qed.

Lemma slice_empty t b : 0 <= b -> b <= Z.of_nat (length t) -> slice t b b = [].
Proof.
  intros H0 Hb. rewrite slice_inside by lia.
  rewrite Z.sub_diag. reflexivity.
Qed.

Lemma slice_app t a b c :
  0 <= a -> a <= b -> b <= c -> c <= Z.of_nat (length t) ->
  slice t a b ++ slice t b c = slice t a c.
Proof.
  intros Ha Hab Hbc Hc. rewrite !slice_inside by lia.
  replace (Z.to_nat (c - a)) with (Z.to_nat (b - a) + Z.to_nat (c - b))%nat by lia.
  replace (Z.to_nat b) with (Z.to_nat (b - a) + Z.to_nat a)%nat by lia.
  rewrite <- skipn_skipn.
  generalize (skipn (Z.to_nat a) t) as u.
  generalize (Z.to_nat (b - a)) as n. generalize (Z.to_nat (c - b)) as m.
  intros m n. induction n as [|n IH]; intros u.
  - reflexivity.
  - destruct u as [|x u]; simpl.
    + rewrite firstn_nil. reflexivity.
    + f_equal. apply IH.
Qed.

Lemma slice_app_from t a b :
  0 <= a -> a <= b -> b <= Z.of_nat (length t) ->
  slice t a b ++ slice_from t b = slice_from t a.
Proof.
  intros Ha Hab Hb. rewrite slice_inside, !slice_from_inside by lia.
  replace (Z.to_nat b) with (Z.to_nat (b - a) + Z.to_nat a)%nat by lia.
  rewrite <- skipn_skipn. apply firstn_skipn.
Qed.

(** *** The sort is a stable, descending rearrangement *)

Lemma insert_desc_perm e l : Permutation (insert_desc e l) (e :: l).
Proof.
  induction l as [|x r IH]; simpl.
  - reflexivity.
  - destruct (start e <? start x).
    + rewrite IH. apply perm_swap.
    + reflexivity.
Qed.

Lemma sort_desc_perm l : Permutation (sort_desc l) l.
Proof.
  induction l as [|e r IH]; simpl.
  - reflexivity.
  - rewrite insert_desc_perm. now constructor.
Qed.

Lemma insert_desc_sorted e l :
  starts_descending l -> starts_descending (insert_desc e l).
Proof.
  unfold starts_descending. induction 1 as [|x r Hr IH Hx]; simpl.
  - repeat constructor.
  - destruct (Z.ltb_spec (start e) (start x)).
    + constructor; [exact IH|].
      apply Forall_forall. intros y Hy.
      apply (Permutation_in _ (insert_desc_perm e r)) in Hy.
      destruct Hy as [<-|Hy]; [lia|].
      rewrite Forall_forall in Hx. now apply Hx.
    + constructor; [now constructor|].
      constructor; [lia|].
      rewrite Forall_forall in Hx |- *. intros y Hy. specialize (Hx y Hy). lia.
Qed.

Lemma sort_desc_sorted l : starts_descending (sort_desc l).
Proof.
  induction l as [|e r IH]; simpl.
  - constructor.
  - now apply insert_desc_sorted.
Qed.

(** Stability: an edit keeps its place before later edits of the same start. *)
Lemma sort_desc_stable_pair a b :
  start a = start b -> sort_desc [a; b] = [a; b].
Proof.
  intros H. simpl. rewrite H, Z.ltb_irrefl. reflexivity.
Qed.

(** *** One descending arrangement when the starts differ *)

Lemma descending_strict es :
  distinct_starts es -> starts_descending es -> starts_strictly_descending es.
Proof.
  unfold distinct_starts, starts_descending, starts_strictly_descending.
  induction es as [|a r IH]; intros Hd Hs.
  - constructor.
  - inversion Hd as [|? ? Hna Hr]; subst. inversion Hs as [|? ? Hsr Ha]; subst.
    constructor; [now apply IH|].
    rewrite Forall_forall in Ha |- *. intros y Hy. specialize (Ha y Hy).
    assert (start y <> start a).
    { intros E. apply Hna. rewrite <- E. now apply in_map. }
    lia.
Qed.

Lemma strictly_descending_unique l1 :
  forall l2, Permutation l1 l2 ->
  starts_strictly_descending l1 -> starts_strictly_descending l2 -> l1 = l2.
Proof.
  unfold starts_strictly_descending.
  induction l1 as [|a r1 IH]; intros l2 Hp H1 H2.
  - apply Permutation_nil in Hp. now subst.
  - destruct l2 as [|b r2].
    + symmetry in Hp. now apply Permutation_nil in Hp.
    + inversion H1 as [|? ? H1r H1a]; subst. inversion H2 as [|? ? H2r H2b]; subst.
      rewrite Forall_forall in H1a, H2b.
      assert (a = b) as ->.
      { assert (Ha : In a (b :: r2)) by (apply (Permutation_in _ Hp); now left).
        assert (Hb : In b (a :: r1)) by (apply (Permutation_in _ (Permutation_sym Hp)); now left).
        destruct Ha as [Ha|Ha]; [now symmetry|].
        destruct Hb as [Hb|Hb]; [exact Hb|].
        specialize (H1a b Hb). specialize (H2b a Ha). lia. }
      f_equal. apply IH; auto. now apply Permutation_cons_inv in Hp.
Qed.

Lemma distinct_starts_perm es es' :
  Permutation es es' -> distinct_starts es -> distinct_starts es'.
Proof.
  unfold distinct_starts. intros Hp Hd.
  apply (Permutation_NoDup (l := map start es)); [now apply Permutation_map|exact Hd].
Qed.

Lemma sort_desc_perm_eq es es' :
  distinct_starts es -> Permutation es es' -> sort_desc es' = sort_desc es.
Proof.
  intros Hd Hp. apply strictly_descending_unique.
  - rewrite !sort_desc_perm. now symmetry.
  - apply descending_strict; [|apply sort_desc_sorted].
    apply (distinct_starts_perm es); [|exact Hd].
    rewrite sort_desc_perm. exact Hp.
  - apply descending_strict; [|apply sort_desc_sorted].
    apply (distinct_starts_perm es); [|exact Hd].
    now rewrite sort_desc_perm.
Qed.

Lemma sorted_is_sort_desc es l :
  distinct_starts es -> Permutation es l -> starts_descending l -> l = sort_desc es.
Proof.
  intros Hd Hp Hs. apply strictly_descending_unique.
  - rewrite sort_desc_perm. now symmetry.
  - apply descending_strict; [|exact Hs]. now apply (distinct_starts_perm es).
  - apply descending_strict; [|apply sort_desc_sorted].
    apply (distinct_starts_perm es); [|exact Hd]. now rewrite sort_desc_perm.
Qed.

(** *** Back-to-front splicing is replacement of the spans *)

Lemma splice_in_range t e :
  in_range t e ->
  splice t e = firstn (Z.to_nat (start e)) t ++ text e ++ skipn (Z.to_nat (end_ e)) t.
Proof.
  intros (H0 & H1 & H2). unfold splice.
  rewrite slice_prefix, slice_from_inside by lia. reflexivity.
Qed.

Lemma fold_right_ascending t es :
  forall b, 0 <= b -> ascending_from t b es ->
  fold_right (fun e u => splice u e) t es = slice t 0 b ++ replace_spans t b es.
Proof.
  induction es as [|e r IH]; simpl; intros b Hb Hc.
  - symmetry. rewrite slice_app_from by lia.
    unfold slice_from. now rewrite clamp_index_inside by lia.
  - destruct Hc as (Hbs & Hse & Hr).
    assert (Hlen : end_ e <= Z.of_nat (length t)).
    { clear - Hr. revert Hr. generalize (end_ e). induction r as [|x r IHr]; simpl; intros c H.
      - exact H.
      - destruct H as (H1 & H2 & H3). apply IHr in H3. lia. }
    rewrite (IH (end_ e)) by (auto; lia).
    set (u := slice t 0 (end_ e) ++ replace_spans t (end_ e) r).
    assert (Hpre : length (slice t 0 (end_ e)) = Z.to_nat (end_ e)).
    { rewrite slice_prefix by lia. rewrite length_firstn. lia. }
    unfold splice.
    assert (Hu : Z.of_nat (length u) >= end_ e).
    { unfold u. rewrite length_app, Hpre. lia. }
    rewrite slice_prefix, slice_from_inside by lia.
    unfold u.
    rewrite firstn_app, Hpre.
    replace (Z.to_nat (start e) - Z.to_nat (end_ e))%nat with 0%nat by lia.
    rewrite firstn_O, app_nil_r.
    rewrite skipn_app, Hpre, Nat.sub_diag. simpl skipn at 2.
    rewrite <- Hpre at 1. rewrite skipn_all, app_nil_l.
    rewrite (slice_prefix t (end_ e)) by lia. rewrite firstn_firstn.
    replace (Nat.min (Z.to_nat (start e)) (Z.to_nat (end_ e))) with (Z.to_nat (start e)) by lia.
    rewrite (app_assoc (slice t 0 b)), (slice_app t 0 b (start e)) by lia.
    rewrite (slice_prefix t (start e)) by lia. reflexivity.
Qed.

Lemma ForallOrdPairs_perm {A} (R : A -> A -> Prop) (l l' : list A) :
  (forall x y, R x y -> R y x) ->
  Permutation l l' -> ForallOrdPairs R l -> ForallOrdPairs R l'.
Proof.
  intros Hsym Hp. induction Hp as [|x l l' Hp IH|x y l|l l' l'' Hp1 IH1 Hp2 IH2]; intros H.
  - constructor.
  - inversion H; subst. constructor.
    + eapply Permutation_Forall; eauto.
    + auto.
  - inversion H as [|? ? Hy Hr]; subst. inversion Hr as [|? ? Hx Hl]; subst.
    inversion Hy; subst.
    repeat constructor; auto.
  - auto.
Qed.

Lemma disjoint_sym a b : disjoint a b -> disjoint b a.
Proof. unfold disjoint. tauto. Qed.

Lemma StronglySorted_snoc {A} (R : A -> A -> Prop) l a :
  StronglySorted R l -> Forall (fun y => R y a) l -> StronglySorted R (l ++ [a]).
Proof.
  induction 1 as [|x r Hr IH Hx]; intros Hf; simpl.
  - repeat constructor.
  - inversion Hf; subst. constructor; [now apply IH|].
    apply Forall_app. split; [exact Hx|now constructor].
Qed.

Lemma StronglySorted_rev {A} (R : A -> A -> Prop) l :
  StronglySorted (fun a b => R b a) l -> StronglySorted R (rev l).
Proof.
  induction 1 as [|x r Hr IH Hx]; simpl.
  - constructor.
  - apply StronglySorted_snoc; [exact IH|].
    apply Forall_rev. exact Hx.
Qed.

Lemma ends_before_starts t l :
  Forall (in_range t) l -> non_overlapping l -> starts_strictly_descending l ->
  StronglySorted (fun a c => end_ c <= start a) l.
Proof.
  unfold non_overlapping, starts_strictly_descending.
  induction l as [|a r IH]; intros Hr Hn Hs.
  - constructor.
  - inversion Hr as [|? ? Ha Hrr]; subst. inversion Hn as [|? ? Hda Hnr]; subst.
    inversion Hs as [|? ? Hsr Hsa]; subst.
    constructor; [now apply IH|].
    rewrite Forall_forall in Hda, Hsa, Hrr |- *. intros y Hy.
    specialize (Hda y Hy). specialize (Hsa y Hy). specialize (Hrr y Hy).
    destruct Ha as (? & ? & ?). destruct Hrr as (? & ? & ?).
    destruct Hda; lia.
Qed.

Lemma ascending_of_sorted t l :
  forall b, b <= Z.of_nat (length t) ->
  Forall (in_range t) l -> Forall (fun e => b <= start e) l ->
  StronglySorted (fun a c => end_ a <= start c) l -> ascending_from t b l.
Proof.
  induction l as [|e r IH]; simpl; intros b Hb Hr Hlo Hs.
  - exact Hb.
  - inversion Hr as [|? ? (H0 & H1 & H2) Hrr]; subst. inversion Hlo; subst.
    inversion Hs; subst.
    repeat split; auto.
Qed.

Lemma apply_edits_replace_spans t es :
  Forall (in_range t) es -> non_overlapping es -> distinct_starts es ->
  apply_edits t es = replace_spans t 0 (rev (sort_desc es)).
Proof.
  intros Hr Hn Hd. unfold apply_edits.
  transitivity (fold_right (fun e u => splice u e) t (rev (sort_desc es))).
  { symmetry. apply (fold_left_rev_right (fun e u => splice u e)). }
  assert (Hp := sort_desc_perm es).
  assert (Hr' : Forall (in_range t) (sort_desc es)).
  { eapply Permutation_Forall; [symmetry; exact Hp|exact Hr]. }
  rewrite (fold_right_ascending t _ 0).
  - rewrite slice_empty by lia. reflexivity.
  - lia.
  - apply ascending_of_sorted.
    + lia.
    + apply Forall_rev. exact Hr'.
    + apply Forall_rev. eapply Forall_impl; [|exact Hr']. intros e (H & _). exact H.
    + apply StronglySorted_rev. apply (ends_before_starts t); auto.
      * eapply ForallOrdPairs_perm; [apply disjoint_sym|symmetry; exact Hp|exact Hn].
      * apply descending_strict; [|apply sort_desc_sorted].
        eapply distinct_starts_perm; [symmetry; exact Hp|exact Hd].
Qed.

(** *** Order of the edit list *)

(** C1, as stated, fails: two insertions at one offset are non-overlapping
    edits, and the stable sort leaves them in list order, so the two list
    orders give different buffers. *)
Lemma apply_edits_order_counterexample :
  let t := str "ab" in
  let es := [mkEdit 1 1 (str "X"); mkEdit 1 1 (str "Y")] in
  let es' := [mkEdit 1 1 (str "Y"); mkEdit 1 1 (str "X")] in
  Forall (in_range t) es /\ non_overlapping es /\ Permutation es es' /\
  apply_edits t es = str "aYXb" /\ apply_edits t es' = str "aXYb" /\
  apply_edits t es' <> apply_edits t es.
Proof.
  cbv zeta. repeat split.
  - repeat constructor; simpl; lia.
  - repeat constructor; simpl; unfold disjoint; simpl; lia.
  - apply perm_swap.
  - discriminate.
Qed.

(** C1 (amended): for every text and every list of in-range, pairwise
    non-overlapping edits whose start offsets are pairwise distinct, the
    buffer returned by [apply_edits] is the same for every order of the list,
    it is the result of splicing the edits one by one in any arrangement by
    descending start offset, and it is the original text with each span
    replaced by its edit's text. *)
Theorem apply_edits_order_independent (t : jstring) (es : list edit) :
  Forall (in_range t) es -> non_overlapping es -> distinct_starts es ->
  (forall es', Permutation es es' -> apply_edits t es' = apply_edits t es) /\
  (forall l, Permutation es l -> starts_descending l ->
             fold_left splice l t = apply_edits t es) /\
  apply_edits t es = replace_spans t 0 (rev (sort_desc es)).
Proof.
  intros Hr Hn Hd. repeat split.
  - intros es' Hp. unfold apply_edits. now rewrite (sort_desc_perm_eq es es').
  - intros l Hp Hs. unfold apply_edits. now rewrite (sorted_is_sort_desc es l).
  - now apply apply_edits_replace_spans.
Qed.

Lemma apply_edits_order_independent_witness :
  let t := str "hello world" in
  let es := [mkEdit 6 11 (str "there"); mkEdit 0 0 (str ">> "); mkEdit 5 5 (str ",")] in
  (Forall (in_range t) es /\ non_overlapping es /\ distinct_starts es) /\
  (forall es', Permutation es es' -> apply_edits t es' = apply_edits t es) /\
  (forall l, Permutation es l -> starts_descending l ->
             fold_left splice l t = apply_edits t es) /\
  apply_edits t es = replace_spans t 0 (rev (sort_desc es)).
Proof.
  cbv zeta.
  assert (Hr : Forall (in_range (str "hello world"))
                 [mkEdit 6 11 (str "there"); mkEdit 0 0 (str ">> "); mkEdit 5 5 (str ",")]).
  { repeat constructor; simpl; lia. }
  assert (Hn : non_overlapping
                 [mkEdit 6 11 (str "there"); mkEdit 0 0 (str ">> "); mkEdit 5 5 (str ",")]).
  { repeat constructor; unfold disjoint; simpl; lia. }
  assert (Hd : distinct_starts
                 [mkEdit 6 11 (str "there"); mkEdit 0 0 (str ">> "); mkEdit 5 5 (str ",")]).
  { unfold distinct_starts. simpl.
    repeat constructor; simpl; intuition discriminate. }
  split; [auto|].
  exact (apply_edits_order_independent _ _ Hr Hn Hd).
Defined.

Example apply_edits_hello :
  apply_edits (str "hello world")
    [mkEdit 6 11 (str "there"); mkEdit 0 0 (str ">> "); mkEdit 5 5 (str ",")]
  = str ">> hello, there".
Proof. reflexivity. Qed.

(** *** Overlapping edits *)

(** C2, as stated, fails: on two overlapping edits the call returns a buffer
    (here a garbled one) and throws nothing. *)
Lemma apply_edits_overlap_counterexample :
  let t := str "abcdef" in
  let a := mkEdit 0 4 (str "X") in
  let b := mkEdit 2 5 (str "YZ") in
  In a [a; b] /\ In b [a; b] /\ overlap a b /\
  apply_edits_call t [a; b] = Returned (str "Xf") /\
  (forall msg, apply_edits_call t [a; b] <> Thrown msg).
Proof.
  cbv zeta. repeat split.
  - now left.
  - right. now left.
  - unfold overlap, disjoint. simpl. lia.
  - discriminate.
Qed.

(** C2 (amended): [apply_edits] performs no overlap check.  For every edit
    list that contains two overlapping edits the call returns a buffer and
    signals nothing: the buffer obtained by splicing in descending start
    order.  For a list of just two in-range edits [a], [b] with
    [start b < start a < end b], in either order, that buffer is [b] spliced
    at its original offsets into the text already rewritten by [a]. *)
Theorem apply_edits_overlap_returns (t : jstring) (es : list edit) (a b : edit) :
  In a es -> In b es -> overlap a b ->
  exists buf,
    apply_edits_call t es = Returned buf /\
    buf = fold_left splice (sort_desc es) t /\
    (es = [a; b] \/ es = [b; a] ->
     in_range t a -> in_range t b -> start b < start a ->
     buf = firstn (Z.to_nat (start b)) t ++ text b ++ slice_from (splice t a) (end_ b)).
Proof.
  intros Ha Hb Ho. eexists. split; [reflexivity|]. split; [reflexivity|].
  intros Hes Hra Hrb Hlt.
  assert (Hs : sort_desc es = [a; b]).
  { destruct Hes as [-> | ->]; simpl.
    - destruct (Z.ltb_spec (start a) (start b)); [lia|reflexivity].
    - destruct (Z.ltb_spec (start b) (start a)); [reflexivity|lia]. }
  unfold apply_edits. rewrite Hs. simpl.
  unfold splice at 1. f_equal.
  destruct Hra as (A0 & A1 & A2). destruct Hrb as (B0 & B1 & B2).
  rewrite (splice_in_range t a) by (repeat split; lia).
  rewrite slice_prefix.
  - rewrite firstn_app, firstn_firstn, length_firstn.
    replace (Nat.min (Z.to_nat (start b)) (Z.to_nat (start a))) with (Z.to_nat (start b)) by lia.
    replace (Z.to_nat (start b) - Nat.min (Z.to_nat (start a)) (length t))%nat with 0%nat by lia.
    rewrite firstn_O, app_nil_r. reflexivity.
  - lia.
  - rewrite length_app, length_firstn. lia.
Qed.

Lemma apply_edits_overlap_returns_witness :
  let t := str "abcdef" in
  let a := mkEdit 2 5 (str "YZ") in
  let b := mkEdit 0 4 (str "X") in
  (In a [a; b] /\ In b [a; b] /\ overlap a b) /\
  exists buf,
    apply_edits_call t [a; b] = Returned buf /\
    buf = fold_left splice (sort_desc [a; b]) t /\
    ([a; b] = [a; b] \/ [a; b] = [b; a] ->
     in_range t a -> in_range t b -> start b < start a ->
     buf = firstn (Z.to_nat (start b)) t ++ text b ++ slice_from (splice t a) (end_ b)).
Proof.
  cbv zeta.
  assert (Ha : In (mkEdit 2 5 (str "YZ")) [mkEdit 2 5 (str "YZ"); mkEdit 0 4 (str "X")])
    by (now left).
  assert (Hb : In (mkEdit 0 4 (str "X")) [mkEdit 2 5 (str "YZ"); mkEdit 0 4 (str "X")])
    by (right; now left).
  assert (Ho : overlap (mkEdit 2 5 (str "YZ")) (mkEdit 0 4 (str "X"))).
  { unfold overlap, disjoint. simpl. lia. }
  split; [auto|].
  exact (apply_edits_overlap_returns (str "abcdef") _ _ _ Ha Hb Ho).
Defined.

End EditEngineFacts.


Module ScannerFacts.
Import Scanner ScannerProps.

(** *** Arrays *)

Lemma pop_push {A} (a : list A) (x : A) : pop (push a x) = Some x.
Proof. unfold pop, push. now rewrite rev_app_distr. Qed.

Lemma after_pop_push {A} (a : list A) (x : A) : after_pop (push a x) = a.
Proof. unfold after_pop, push. apply removelast_last. Qed.

Lemma after_pop_length {A} (a : list A) : length (after_pop a) = pred (length a).
Proof.
  unfold after_pop. destruct a as [|x a] using rev_ind; [reflexivity|].
  rewrite removelast_last, length_app. simpl. lia.
Qed.

Lemma after_shift_length {A} (a : list A) : length (after_shift a) = pred (length a).
Proof. now destruct a. Qed.

Lemma includes_In ids n : includes ids (Some n) = true <-> In n ids.
Proof.
  unfold includes. rewrite existsb_exists. split.
  - intros (x & Hx & E). apply Z.eqb_eq in E. now subst.
  - intros H. exists n. split; [exact H|apply Z.eqb_refl].
Qed.

Lemma includes_not_In ids n : ~ In n ids -> includes ids (Some n) = false.
Proof.
  intros H. destruct (includes ids (Some n)) eqn:E; [|reflexivity].
  apply includes_In in E. contradiction.
Qed.

Lemma is_sentinel_neq n s : n <> s -> is_sentinel (Some n) s = false.
Proof. intros H. simpl. now apply Z.eqb_neq. Qed.

Lemma set_ignore_spans_same st : set_ignore_spans (ignore_spans st) st = st.
Proof. now destruct st. Qed.

(** *** What a scan step leaves alone *)

Section Steps.

Variable X : imports.
Variable data : FileData.

Lemma scanNotes_step_unknown st m n :
  identifier (Note_parse X (group_text (file st) m 1) (Z.of_nat (index m))) = Some n ->
  ~ In n (EXISTING_IDS data) -> n <> CLOZE_ERROR X -> n <> NOTE_TYPE_ERROR X ->
  same_plan st (scanNotes_step X data st m) /\
  reported st (scanNotes_step X data st m) (UnknownIdentifier (Some n)).
Proof.
  intros Hid Hn Hc Ht. unfold scanNotes_step. rewrite Hid.
  rewrite (includes_not_In _ _ Hn), (is_sentinel_neq _ _ Hc), (is_sentinel_neq _ _ Ht).
  simpl. unfold same_plan, reported. simpl. repeat split; reflexivity.
Qed.

Lemma scanInlineNotes_step_unknown st m n :
  identifier (InlineNote_parse X (group_text (file st) m 1) (Z.of_nat (index m))) = Some n ->
  ~ In n (EXISTING_IDS data) -> n <> CLOZE_ERROR X ->
  same_plan st (scanInlineNotes_step X data st m) /\
  reported st (scanInlineNotes_step X data st m) (UnknownIdentifier (Some n)).
Proof.
  intros Hid Hn Hc. unfold scanInlineNotes_step. rewrite Hid.
  rewrite (includes_not_In _ _ Hn), (is_sentinel_neq _ _ Hc).
  simpl. unfold same_plan, reported.
  destruct (first_match (InlineNote_ID_REGEXP X) (group_text (file st) m 1));
    simpl; repeat split; reflexivity.
Qed.

Lemma search_step_unknown st m note_type search_id search_tags n :
  no_marker_no_identifier X ->
  contained_in (match_span m) (ignore_spans st) = false ->
  identifier (RegexNote_parse X (file st) m note_type search_tags search_id) = Some n ->
  ~ In n (EXISTING_IDS data) -> n <> CLOZE_ERROR X -> n <> NOTE_TYPE_ERROR X ->
  same_plan st (search_step X data note_type search_id search_tags st m) /\
  reported st (search_step X data note_type search_id search_tags st m)
           (UnknownIdentifier (Some n)).
Proof.
  intros HX Hc Hid Hn Hce Hte. unfold search_step. rewrite Hc.
  destruct search_id.
  - unfold search_body. simpl file. rewrite Hid.
    rewrite (includes_not_In _ _ Hn), (is_sentinel_neq _ _ Hce).
    simpl. unfold same_plan, reported.
    destruct (negb (n =? 0)); simpl; repeat split; reflexivity.
  - apply HX in Hid. tauto.
Qed.

End Steps.

(** *** The ignore set during the custom-regex passes *)

Lemma each_new_snoc acc : forall seen s,
  each_new seen acc -> contained_in s (seen ++ acc) = false -> each_new seen (acc ++ [s]).
Proof.
  induction acc as [|a r IH]; simpl; intros seen s H Hs.
  - rewrite app_nil_r in Hs. tauto.
  - destruct H as (Ha & Hr). split; [exact Ha|].
    apply IH; [exact Hr|]. now rewrite <- app_assoc.
Qed.

Lemma accepted_onto_refl base : accepted_onto base base.
Proof. exists []. split; [now rewrite app_nil_r|exact I]. Qed.

Lemma accepted_onto_push base l s :
  accepted_onto base l -> contained_in s l = false -> accepted_onto base (push l s).
Proof.
  intros (acc & -> & H) Hs. exists (acc ++ [s]). split.
  - unfold push. now rewrite app_assoc.
  - now apply each_new_snoc.
Qed.

Lemma contained_in_app s l1 l2 :
  contained_in s (l1 ++ l2) = contained_in s l1 || contained_in s l2.
Proof. unfold contained_in. apply existsb_app. Qed.

Lemma contained_in_false s l :
  contained_in s l = false <-> forall a, In a l -> ~ within a s.
Proof.
  unfold contained_in, within. split.
  - intros H a Ha (H1 & H2).
    assert (E : existsb (fun element => (fst element - 1 <=? fst s) && (snd s <=? snd element + 1)) l = true).
    { apply existsb_exists. exists a. split; [exact Ha|].
      apply andb_true_iff. split; now apply Z.leb_le. }
    congruence.
  - intros H.
    match goal with |- ?e = false => destruct e eqn:E; [|reflexivity] end.
    apply existsb_exists in E. destruct E as (a & Ha & E).
    apply andb_true_iff in E. destruct E as (E1 & E2).
    apply Z.leb_le in E1, E2. exfalso. now apply (H a Ha).
Qed.

Lemma each_new_later acc : forall seen a b,
  each_new seen acc -> In a seen -> In b acc -> ~ within a b.
Proof.
  induction acc as [|s r IH]; simpl; intros seen a b H Ha Hb.
  - contradiction.
  - destruct H as (Hs & Hr). destruct Hb as [<-|Hb].
    + rewrite contained_in_false in Hs. now apply Hs.
    + apply (IH (seen ++ [s])); auto. apply in_or_app. now left.
Qed.

Lemma each_new_app pre : forall seen rest,
  each_new seen (pre ++ rest) -> each_new (seen ++ pre) rest.
Proof.
  induction pre as [|p pre IH]; simpl; intros seen rest H.
  - now rewrite app_nil_r.
  - destruct H as (_ & H). apply IH in H. now rewrite <- app_assoc in H.
Qed.

Lemma each_new_pairwise seen acc pre a mid b post :
  each_new seen acc -> acc = pre ++ a :: mid ++ b :: post -> ~ within a b.
Proof.
  intros H ->.
  replace (pre ++ a :: mid ++ b :: post) with ((pre ++ [a]) ++ mid ++ b :: post) in H
    by (rewrite <- app_assoc; reflexivity).
  apply each_new_app in H.
  apply (each_new_later _ _ a b H).
  - apply in_or_app. right. apply in_or_app. right. now left.
  - apply in_or_app. right. now left.
Qed.

Section IgnoreSet.

Variable X : imports.
Variable data : FileData.
Variable file_cache : CachedMetadata.

Lemma search_body_ignore_spans note_type search_id search_tags st m :
  ignore_spans (search_body X data note_type search_id search_tags st m)
  = push (ignore_spans st) (match_span m)
  \/ ignore_spans (search_body X data note_type search_id search_tags st m)
     = ignore_spans st.
Proof.
  unfold search_body. simpl file.
  set (parsed := RegexNote_parse X (file st) m note_type search_tags search_id).
  destruct search_id; simpl.
  - destruct (includes (EXISTING_IDS data) (identifier parsed)); simpl.
    + left. destruct (truthy (identifier parsed)); reflexivity.
    + destruct (is_sentinel (identifier parsed) (CLOZE_ERROR X)); simpl.
      * right. now rewrite after_pop_push.
      * left. destruct (truthy (identifier parsed)); reflexivity.
  - destruct (is_sentinel (identifier parsed) (CLOZE_ERROR X)); simpl.
    + right. now rewrite after_pop_push.
    + left. reflexivity.
Qed.

Lemma search_step_accepted base note_type search_id search_tags st m :
  accepted_onto base (ignore_spans st) ->
  accepted_onto base (ignore_spans (search_step X data note_type search_id search_tags st m)).
Proof.
  intros H. unfold search_step.
  destruct (contained_in (match_span m) (ignore_spans st)) eqn:E; [exact H|].
  destruct (search_body_ignore_spans note_type search_id search_tags st m) as [-> | ->].
  - now apply accepted_onto_push.
  - exact H.
Qed.

Lemma fold_accepted {A} (step : AllFile -> A -> AllFile) base :
  (forall st a, accepted_onto base (ignore_spans st) ->
                accepted_onto base (ignore_spans (step st a))) ->
  forall l st, accepted_onto base (ignore_spans st) ->
               accepted_onto base (ignore_spans (fold_left step l st)).
Proof.
  intros Hstep l. induction l as [|a l IH]; simpl; intros st H.
  - exact H.
  - apply IH. now apply Hstep.
Qed.

Lemma search_accepted base note_type regexp_str st :
  accepted_onto base (ignore_spans st) ->
  accepted_onto base (ignore_spans (search X data note_type regexp_str st)).
Proof.
  unfold search. apply fold_accepted. intros st' [search_id search_tags] H.
  unfold search_variant. apply fold_accepted; [|exact H].
  intros. now apply search_step_accepted.
Qed.

Lemma scan_type_accepted base st note_type :
  accepted_onto base (ignore_spans st) ->
  accepted_onto base (ignore_spans (scan_type X data file_cache st note_type)).
Proof.
  intros H. unfold scan_type.
  destruct (lookup note_type (custom_regexps data)) as [regexp_str|]; [|exact H].
  destruct (nonempty regexp_str); [|exact H].
  destruct (regex_required_tags data && negb _); [exact H|].
  now apply search_accepted.
Qed.

Lemma fold_ignore_spans {A} (step : AllFile -> A -> AllFile) :
  (forall st a, ignore_spans (step st a) = ignore_spans st) ->
  forall l st, ignore_spans (fold_left step l st) = ignore_spans st.
Proof.
  intros Hstep l. induction l as [|a l IH]; simpl; intros st.
  - reflexivity.
  - now rewrite IH, Hstep.
Qed.

Lemma scanNotes_step_ignore_spans st m :
  ignore_spans (scanNotes_step X data st m) = ignore_spans st.
Proof.
  unfold scanNotes_step.
  destruct (identifier (Note_parse X _ _)); simpl; [|reflexivity].
  destruct (existsb _ _); simpl; [reflexivity|].
  destruct (_ =? CLOZE_ERROR X); simpl; [reflexivity|].
  destruct (_ =? NOTE_TYPE_ERROR X); reflexivity.
Qed.

Lemma scanInlineNotes_step_ignore_spans st m :
  ignore_spans (scanInlineNotes_step X data st m) = ignore_spans st.
Proof.
  unfold scanInlineNotes_step.
  destruct (identifier (InlineNote_parse X _ _)); simpl; [|reflexivity].
  destruct (first_match _ _); simpl;
    (destruct (existsb _ _); simpl; [reflexivity|]);
    destruct (_ =? CLOZE_ERROR X); reflexivity.
Qed.

Lemma postProcess_ignore_spans st :
  ignore_spans (postProcessFrontmatterID data st) = ignore_spans st.
Proof.
  unfold postProcessFrontmatterID, promote.
  repeat match goal with
         | |- context [if ?c then _ else _] => destruct c; simpl
         | |- context [match ?x with _ => _ end] => destruct x; simpl
         end; reflexivity.
Qed.

End IgnoreSet.

(** *** Notes whose identifier the remote store does not know *)

(** C4: for every scanned note (block, inline or custom-regex) whose parsed
    identifier is a number that is neither in [EXISTING_IDS] nor a sentinel,
    the step of the scan reports the note ("does not exist in Anki") and
    leaves the to-add lists, their insertion points and [notes_to_edit] as
    they were. *)
Theorem unknown_identifier_left_untouched
        (X : imports) (data : FileData) (d : dialect) (st : AllFile) (m : rmatch) (n : Z) :
  no_marker_no_identifier X ->
  scanned d st m ->
  parsed_identifier X d st m = Some n ->
  ~ In n (EXISTING_IDS data) -> n <> CLOZE_ERROR X -> n <> NOTE_TYPE_ERROR X ->
  same_plan st (scan_step X data d st m) /\
  reported st (scan_step X data d st m) (UnknownIdentifier (Some n)).
Proof.
  intros HX Hs Hid Hn Hc Ht. destruct d as [| |note_type search_id search_tags]; simpl in *.
  - now apply scanNotes_step_unknown.
  - now apply scanInlineNotes_step_unknown.
  - now apply search_step_unknown.
Qed.

Lemma no_marker_no_identifier_example table :
  no_marker_no_identifier (Example.X table).
Proof.
  intros f m note_type search_tags n. simpl. unfold Example.RegexNote_parse. simpl.
  destruct (Example.is_cloze_type note_type && negb (Example.has_cloze (matched f m)));
    [|discriminate].
  intros E. injection E as <-. now left.
Qed.

Lemma unknown_identifier_left_untouched_witness :
  let X := Example.X [] in
  let data := Example.data [] false false None [] in
  let st := setupScan X data Example.no_cache (new_AllFile Example.scenario_B) in
  let m := Example.nth_match Example.NOTE_REGEXP Example.scenario_B 0 in
  (no_marker_no_identifier X /\ scanned Block st m /\
   parsed_identifier X Block st m = Some 12 /\
   ~ In 12 (EXISTING_IDS data) /\ 12 <> CLOZE_ERROR X /\ 12 <> NOTE_TYPE_ERROR X) /\
  same_plan st (scan_step X data Block st m) /\
  reported st (scan_step X data Block st m) (UnknownIdentifier (Some 12)).
Proof.
  cbv zeta.
  assert (H1 := no_marker_no_identifier_example []).
  assert (H2 : scanned Block
                 (setupScan (Example.X []) (Example.data [] false false None [])
                            Example.no_cache (new_AllFile Example.scenario_B))
                 (Example.nth_match Example.NOTE_REGEXP Example.scenario_B 0)) by exact I.
  assert (H3 : parsed_identifier (Example.X []) Block
                 (setupScan (Example.X []) (Example.data [] false false None [])
                            Example.no_cache (new_AllFile Example.scenario_B))
                 (Example.nth_match Example.NOTE_REGEXP Example.scenario_B 0) = Some 12)
    by (vm_compute; reflexivity).
  assert (H4 : ~ In 12 (EXISTING_IDS (Example.data [] false false None []))) by (simpl; tauto).
  assert (H5 : 12 <> CLOZE_ERROR (Example.X [])) by (simpl; lia).
  assert (H6 : 12 <> NOTE_TYPE_ERROR (Example.X [])) by (simpl; lia).
  split; [auto 10|].
  exact (unknown_identifier_left_untouched _ _ _ _ _ _ H1 H2 H3 H4 H5 H6).
Defined.

(** Scenario B as a whole: the scan of the document yields no note to add, no
    note to edit, and one report. *)
Example scenario_B_scan :
  let st := scanFile (Example.X []) (Example.data [] false false None [])
                     Example.no_cache (new_AllFile Example.scenario_B) in
  notes_to_add st = [] /\ inline_notes_to_add st = [] /\ regex_notes_to_add st = [] /\
  all_notes_to_add st = [] /\ notes_to_edit st = [] /\
  console st = [UnknownIdentifier (Some 12)].
Proof. vm_compute. repeat split. Qed.

(** *** Overlap of the accepted spans *)

Lemma scanFile_ignore_spans X data file_cache st0 :
  ignore_spans (scanFile X data file_cache st0)
  = ignore_spans (fold_left (scan_type X data file_cache) (note_types data)
                            (scanInlineNotes X data (scanNotes X data
                               (setupScan X data file_cache st0)))).
Proof.
  unfold scanFile, scan_passes. cbv zeta. rewrite postProcess_ignore_spans. reflexivity.
Qed.

Lemma builtin_scans_ignore_spans X data st :
  ignore_spans (scanInlineNotes X data (scanNotes X data st)) = ignore_spans st.
Proof.
  unfold scanInlineNotes, scanNotes.
  rewrite fold_ignore_spans by apply scanInlineNotes_step_ignore_spans.
  rewrite fold_ignore_spans by apply scanNotes_step_ignore_spans.
  reflexivity.
Qed.

(** *** Cloze errors *)

(** The hypothesis on the sentinel at work.  [EXISTING_IDS] holds the
    identifiers that the remote store has handed out, which are millisecond
    time stamps; in the variants with identifier suffix membership in it is
    tested before the sentinel, so a list that held the sentinel's own number
    (here 42) would keep the match in the ignore set and in
    [notes_to_edit]. *)
Example sentinel_in_known_set :
  let X := Example.X Example.line_table in
  let data := Example.data [42] false false None Example.line_types in
  let st := setupScan X data Example.no_cache (new_AllFile Example.no_cloze) in
  let m := Example.nth_match (variant_regexp X (str "^No.*$") true false) Example.no_cloze 0 in
  let st' := search_step X data (str "Cloze") true false st m in
  identifier (RegexNote_parse X (file st) m (str "Cloze") false true) = Some (CLOZE_ERROR X) /\
  ignore_spans st = [] /\
  ignore_spans st' = [(0, 19)] /\
  map identifier (notes_to_edit st') = [Some 42].
Proof. cbv zeta. vm_compute. repeat split. Qed.

(** C7: for every custom-regex match that [findignore] yields and whose
    parse result is the ClozeError sentinel, the span just pushed to
    [ignore_spans] is popped again and nothing else changes: the step leaves
    the whole state, the ignore set and the lists of the plan included, as it
    was before the match.  The sentinel is a small constant of [note.ts] and
    no identifier of the remote store: [EXISTING_IDS], which the variants
    with identifier suffix consult first, does not hold it. *)
Theorem cloze_error_retracted
        (X : imports) (data : FileData) (note_type : jstring)
        (search_id search_tags : bool) (st : AllFile) (m : rmatch) :
  contained_in (match_span m) (ignore_spans st) = false ->
  identifier (RegexNote_parse X (file st) m note_type search_tags search_id)
  = Some (CLOZE_ERROR X) ->
  (search_id = true -> ~ In (CLOZE_ERROR X) (EXISTING_IDS data)) ->
  after_pop (push (ignore_spans st) (match_span m)) = ignore_spans st /\
  search_step X data note_type search_id search_tags st m = st.
Proof.
  intros Hc Hid Hk. split; [now rewrite after_pop_push|].
  unfold search_step. rewrite Hc. unfold search_body. simpl file. rewrite Hid.
  assert (Hs : is_sentinel (Some (CLOZE_ERROR X)) (CLOZE_ERROR X) = true)
    by (simpl; apply Z.eqb_refl).
  rewrite Hs. destruct search_id.
  - rewrite (includes_not_In _ _ (Hk eq_refl)). simpl.
    rewrite after_pop_push. now destruct st.
  - simpl. rewrite after_pop_push. now destruct st.
Qed.

Lemma cloze_error_retracted_witness :
  let X := Example.X Example.line_table in
  let data := Example.data [7; 500] false false None Example.line_types in
  let st := setupScan X data Example.no_cache (new_AllFile Example.no_cloze) in
  let m := Example.nth_match (variant_regexp X (str "^No.*$") true false) Example.no_cloze 0 in
  (contained_in (match_span m) (ignore_spans st) = false /\
   identifier (RegexNote_parse X (file st) m (str "Cloze") false true) = Some (CLOZE_ERROR X) /\
   (true = true -> ~ In (CLOZE_ERROR X) (EXISTING_IDS data))) /\
  after_pop (push (ignore_spans st) (match_span m)) = ignore_spans st /\
  search_step X data (str "Cloze") true false st m = st.
Proof.
  cbv zeta.
  assert (H1 : contained_in
                 (match_span (Example.nth_match
                                (variant_regexp (Example.X Example.line_table) (str "^No.*$") true false)
                                Example.no_cloze 0))
                 (ignore_spans (setupScan (Example.X Example.line_table)
                                          (Example.data [7; 500] false false None Example.line_types)
                                          Example.no_cache (new_AllFile Example.no_cloze))) = false)
    by (vm_compute; reflexivity).
  assert (H2 : identifier
                 (RegexNote_parse (Example.X Example.line_table)
                    (file (setupScan (Example.X Example.line_table)
                                     (Example.data [7; 500] false false None Example.line_types)
                                     Example.no_cache (new_AllFile Example.no_cloze)))
                    (Example.nth_match
                       (variant_regexp (Example.X Example.line_table) (str "^No.*$") true false)
                       Example.no_cloze 0)
                    (str "Cloze") false true)
               = Some (CLOZE_ERROR (Example.X Example.line_table)))
    by (vm_compute; reflexivity).
  assert (H3 : true = true ->
               ~ In (CLOZE_ERROR (Example.X Example.line_table))
                    (EXISTING_IDS (Example.data [7; 500] false false None Example.line_types))).
  { intros _. simpl. intros [H|[H|[]]]; discriminate H. }
  split; [auto|].
  exact (cloze_error_retracted _ _ _ _ _ _ _ H1 H2 H3).
Defined.

(** *** Required tags *)





(** A setting that names a tag the document does not carry keeps the note
    type from being searched when gating is on. *)
Example required_tag_missing :
  hasRequiredTag (mkCache (Some (mkFrontMatter (Some (TagArray [str "math"])) None))
                          (Some [str "#todo"]))
                 (Some (str "anki, cards")) = false /\
  hasRequiredTag (mkCache None (Some [str "#todo"; str "#anki"]))
                 (Some (str "anki, cards")) = true.
Proof. split; vm_compute; reflexivity. Qed.

(** *** The front-matter identifier *)

Lemma truthy_nonzero f : f <> 0 -> truthy (Some f) = true.
Proof. intros H. simpl. apply negb_true_iff. now apply Z.eqb_neq. Qed.

(** C5: with front-matter mode enabled, one note in the document in total,
    that note in [notes_to_add], and a front-matter identifier (a non-zero
    number, as every identifier is) that the remote store knows,
    [postProcessFrontmatterID] turns front-matter mode on for the document,
    moves the note from [notes_to_add] to [notes_to_edit] under the
    front-matter identifier and drops its insertion position from
    [id_indexes]. *)
Theorem frontmatter_id_promotes_single_note
        (data : FileData) (st : AllFile) (n : AnkiConnectNote) (f : Z) :
  saveIDToFrontmatter data = true ->
  notes_to_add st = [n] -> inline_notes_to_add st = [] ->
  regex_notes_to_add st = [] -> notes_to_edit st = [] ->
  frontmatterID st = Some f -> f <> 0 -> In f (EXISTING_IDS data) ->
  let st' := postProcessFrontmatterID data st in
  totalNotes st = 1%nat /\
  useFrontmatterID st' = true /\
  notes_to_add st' = [] /\
  notes_to_edit st' = [mkParsed n (Some f)] /\
  id_indexes st' = removelast (id_indexes st) /\
  (forall p, id_indexes st = [p] -> id_indexes st' = []) /\
  inline_notes_to_add st' = [] /\ regex_notes_to_add st' = [].
Proof.
  intros Hs Ha Hi Hr He Hf Hnz Hk. cbv zeta.
  apply includes_In in Hk. unfold includes in Hk.
  apply Z.eqb_neq in Hnz.
  destruct st; simpl in *; subst.
  unfold postProcessFrontmatterID, totalNotes. simpl.
  rewrite Hs, Hnz. simpl. rewrite Hk. simpl.
  repeat split; try reflexivity.
  intros p Hp. now rewrite Hp.
Qed.

Lemma frontmatter_id_promotes_single_note_witness :
  let data := Example.data [500] true false None [] in
  let st := scan_passes (Example.X []) data (Example.cache_nid 500)
                        (new_AllFile Example.one_new_note) in
  let n := hd (mkNote [] [] [] []) (notes_to_add st) in
  (saveIDToFrontmatter data = true /\
   notes_to_add st = [n] /\ inline_notes_to_add st = [] /\
   regex_notes_to_add st = [] /\ notes_to_edit st = [] /\
   frontmatterID st = Some 500 /\ 500 <> 0 /\ In 500 (EXISTING_IDS data)) /\
  let st' := postProcessFrontmatterID data st in
  totalNotes st = 1%nat /\
  useFrontmatterID st' = true /\
  notes_to_add st' = [] /\
  notes_to_edit st' = [mkParsed n (Some 500)] /\
  id_indexes st' = removelast (id_indexes st) /\
  (forall p, id_indexes st = [p] -> id_indexes st' = []) /\
  inline_notes_to_add st' = [] /\ regex_notes_to_add st' = [].
Proof.
  cbv zeta.
  set (data := Example.data [500] true false None []).
  set (st := scan_passes (Example.X []) data (Example.cache_nid 500)
                         (new_AllFile Example.one_new_note)).
  assert (H1 : saveIDToFrontmatter data = true) by reflexivity.
  assert (H2 : notes_to_add st = [hd (mkNote [] [] [] []) (notes_to_add st)])
    by (vm_compute; reflexivity).
  assert (H3 : inline_notes_to_add st = []) by (vm_compute; reflexivity).
  assert (H4 : regex_notes_to_add st = []) by (vm_compute; reflexivity).
  assert (H5 : notes_to_edit st = []) by (vm_compute; reflexivity).
  assert (H6 : frontmatterID st = Some 500) by (vm_compute; reflexivity).
  assert (H7 : 500 <> 0) by lia.
  assert (H8 : In 500 (EXISTING_IDS data)) by (now left).
  split; [auto 10|].
  exact (frontmatter_id_promotes_single_note data st _ 500 H1 H2 H3 H4 H5 H6 H7 H8).
Defined.

(** The promotion at the end of [scanFile]: the note is in [notes_to_edit]
    under identifier 500 and no longer in [notes_to_add]; [all_notes_to_add],
    which [scanFile] fills before the reconciliation, still holds it. *)
Example promotion_in_scanFile :
  let data := Example.data [500] true false None [] in
  let st := scanFile (Example.X []) data (Example.cache_nid 500)
                     (new_AllFile Example.one_new_note) in
  useFrontmatterID st = true /\ notes_to_add st = [] /\ id_indexes st = [] /\
  map identifier (notes_to_edit st) = [Some 500] /\
  length (all_notes_to_add st) = 1%nat.
Proof. cbv zeta. repeat split; vm_compute; reflexivity. Qed.

(** *** Fallback to an inline identifier *)

Lemma id_edits_nil ids offset render : id_edits ids offset [] render = [].
Proof. reflexivity. Qed.

Lemma writeIDs_edits_inline data st :
  useFrontmatterID st = false ->
  forall item, In item (notesToWriteInline st) ->
  In (EditEngine.mkEdit (fst item) (fst item) (id_to_str (snd item) false (comment data)))
     (writeIDs_edits data st).
Proof.
  intros Hu item Hi. unfold writeIDs_edits. rewrite Hu.
  apply in_or_app. right. apply in_or_app. left.
  now apply (in_map (fun item : Z * Z =>
                       EditEngine.mkEdit (fst item) (fst item)
                                         (id_to_str (snd item) false (comment data)))).
Qed.

Lemma writeIDs_edits_frontmatter data st :
  useFrontmatterID st = false -> truthy (frontmatterID st) = true ->
  forall e, In e (remove_frontmatter_nid (file st)) -> In e (writeIDs_edits data st).
Proof.
  intros Hu Ht e He. unfold writeIDs_edits. rewrite Hu, Ht.
  apply in_or_app. now left.
Qed.

(** *** What the scan keeps: the text, and the insertion points in step with
    the notes to add *)

Lemma fold_left_invariant {A S} (P : S -> Prop) (step : S -> A -> S) :
  (forall s a, P s -> P (step s a)) ->
  forall l s, P s -> P (fold_left step l s).
Proof.
  intros Hstep l. induction l as [|a l IH]; simpl; intros s H.
  - exact H.
  - apply IH. now apply Hstep.
Qed.

Ltac split_cases :=
  repeat match goal with
         | |- context [if ?c then _ else _] => destruct c; simpl
         | |- context [match ?x with _ => _ end] => destruct x; simpl
         end.

Section ScanInvariant.

Variable X : imports.
Variable data : FileData.
Variable file_cache : CachedMetadata.

Lemma setupScan_invariant st : scan_invariant (file st) (setupScan X data file_cache st).
Proof.
  unfold scan_invariant, lockstep, setupScan, read_frontmatterID. simpl.
  split_cases; repeat split; reflexivity.
Qed.

Lemma scanNotes_step_invariant f st m :
  scan_invariant f st -> scan_invariant f (scanNotes_step X data st m).
Proof.
  unfold scan_invariant, lockstep. intros (Hf & (H1 & H2 & H3) & Hw).
  unfold scanNotes_step, push, warn.
  split_cases; repeat split; simpl; auto; rewrite !length_app; simpl; lia.
Qed.

Lemma scanInlineNotes_step_invariant f st m :
  scan_invariant f st -> scan_invariant f (scanInlineNotes_step X data st m).
Proof.
  unfold scan_invariant, lockstep. intros (Hf & (H1 & H2 & H3) & Hw).
  unfold scanInlineNotes_step, push, warn.
  split_cases; repeat split; simpl; auto; rewrite !length_app; simpl; lia.
Qed.

Lemma search_step_invariant f note_type search_id search_tags st m :
  scan_invariant f st ->
  scan_invariant f (search_step X data note_type search_id search_tags st m).
Proof.
  unfold scan_invariant, lockstep. intros (Hf & (H1 & H2 & H3) & Hw).
  unfold search_step, search_body, push, warn.
  split_cases; repeat split; simpl; auto; rewrite !length_app; simpl; lia.
Qed.

Lemma scan_type_invariant f st note_type :
  scan_invariant f st -> scan_invariant f (scan_type X data file_cache st note_type).
Proof.
  intros H. unfold scan_type.
  destruct (lookup note_type (custom_regexps data)) as [regexp_str|]; [|exact H].
  destruct (nonempty regexp_str); [|exact H].
  destruct (regex_required_tags data && negb _); [exact H|].
  unfold search. apply fold_left_invariant; [|exact H].
  intros s [search_id search_tags] Hs. unfold search_variant.
  apply fold_left_invariant; [|exact Hs].
  intros. now apply search_step_invariant.
Qed.

Lemma scan_passes_invariant st :
  scan_invariant (file st) (scan_passes X data file_cache st).
Proof.
  unfold scan_passes. cbv zeta.
  match goal with
  | |- scan_invariant _ (scanDeletions _ (set_all_notes_to_add _ ?s)) =>
      assert (H : scan_invariant (file st) s)
  end.
  { apply fold_left_invariant; [intros; now apply scan_type_invariant|].
    unfold scanInlineNotes. apply fold_left_invariant;
      [intros; now apply scanInlineNotes_step_invariant|].
    unfold scanNotes. apply fold_left_invariant;
      [intros; now apply scanNotes_step_invariant|].
    apply setupScan_invariant. }
  destruct H as (Hf & (H1 & H2 & H3) & Hw).
  unfold scan_invariant, lockstep, scanDeletions. simpl. auto.
Qed.

Lemma postProcess_file st : file (postProcessFrontmatterID data st) = file st.
Proof.
  unfold postProcessFrontmatterID, promote. destruct st; simpl. split_cases; reflexivity.
Qed.

Lemma postProcess_frontmatterID st :
  frontmatterID (postProcessFrontmatterID data st) = frontmatterID st.
Proof.
  unfold postProcessFrontmatterID, promote. destruct st; simpl. split_cases; reflexivity.
Qed.

Lemma postProcess_lockstep st : lockstep st -> lockstep (postProcessFrontmatterID data st).
Proof.
  unfold lockstep. intros (H1 & H2 & H3).
  unfold postProcessFrontmatterID, promote. destruct st; simpl in *.
  split_cases; repeat split; simpl; auto;
    rewrite ?after_pop_length, ?after_shift_length; simpl in *; congruence.
Qed.

Lemma postProcess_no_inline_write st :
  notesToWriteInline st = [] -> truthy (frontmatterID st) = false ->
  notesToWriteInline (postProcessFrontmatterID data st) = [].
Proof.
  intros Hw Ht. unfold postProcessFrontmatterID, promote.
  destruct (saveIDToFrontmatter data && (totalNotes st =? 1)%nat).
  - destruct st; simpl in *. split_cases; simpl; exact Hw.
  - destruct st; simpl in *. rewrite Ht. simpl. exact Hw.
Qed.

Lemma scanFile_file st : file (scanFile X data file_cache st) = file st.
Proof.
  unfold scanFile. rewrite postProcess_file.
  now destruct (scan_passes_invariant st).
Qed.

Lemma scanFile_lockstep st : lockstep (scanFile X data file_cache st).
Proof.
  unfold scanFile. apply postProcess_lockstep.
  now destruct (scan_passes_invariant st) as (_ & H & _).
Qed.

Lemma scanFile_no_inline_write st :
  truthy (frontmatterID (scanFile X data file_cache st)) = false ->
  notesToWriteInline (scanFile X data file_cache st) = [].
Proof.
  unfold scanFile. rewrite postProcess_frontmatterID. intros Ht.
  apply postProcess_no_inline_write; [|exact Ht].
  now destruct (scan_passes_invariant st) as (_ & _ & H).
Qed.

End ScanInvariant.

(** *** The write pass on a document that needs no identifier *)

Lemma apply_edits_nil t : EditEngine.apply_edits t [] = t.
Proof. reflexivity. Qed.

Lemma replaceAll_no_match re f t : matches re t = [] -> re_replaceAll re f t = t.
Proof.
  unfold matches, re_replaceAll, replaceAll. intros H. rewrite H. reflexivity.
Qed.

Lemma apply_edits_same_prefix t k :
  (k <= length t)%nat ->
  EditEngine.apply_edits t [EditEngine.mkEdit 0 (Z.of_nat k) (firstn k t)] = t.
Proof.
  intros Hk. unfold EditEngine.apply_edits. simpl. unfold EditEngine.splice. simpl.
  rewrite EditEngineFacts.slice_empty by lia.
  rewrite EditEngineFacts.slice_from_inside by lia.
  rewrite Nat2Z.id. apply firstn_skipn.
Qed.

(** Front-matter mode: the pass always rewrites the front-matter block; the
    text stays as it is when no inline marker is to be removed and the block
    written is the block already there. *)
Lemma write_pass_frontmatter_mode data st id k :
  useFrontmatterID st = true -> existingIDSpans st = [] ->
  getTargetID st = Some id -> id <> 0 ->
  write_frontmatter_nid (file st) id = EditEngine.mkEdit 0 (Z.of_nat k) (firstn k (file st)) ->
  (k <= length (file st))%nat ->
  writeIDs_edits data st = [EditEngine.mkEdit 0 (Z.of_nat k) (firstn k (file st))] /\
  file (writeIDs data st) = file st.
Proof.
  intros Hu He Ht Hnz Hw Hk.
  assert (E : writeIDs_edits data st
              = [EditEngine.mkEdit 0 (Z.of_nat k) (firstn k (file st))]).
  { unfold writeIDs_edits. rewrite Hu, He, Ht, (truthy_nonzero id Hnz), Hw. reflexivity. }
  split; [exact E|].
  unfold writeIDs. rewrite E. simpl. rewrite Hu. simpl.
  now apply apply_edits_same_prefix.
Qed.

(** C8, as stated, fails.  (i) Inline mode: the note carries the known
    identifier 12 and nothing is pending, yet the cleanup after the write
    pass deletes the blank line before the marker.  (ii) Front-matter mode:
    the same holds for the note of scenario A, and the write pass adds a
    front-matter block for its identifier. *)
Lemma idempotence_counterexample :
  let X := Example.X [] in
  let st1 := scanFile X (Example.data [12] false false None []) Example.no_cache
                      (new_AllFile Example.note_with_blank_line) in
  let st2 := scanFile X (Example.data [12] true false None []) Example.no_cache
                      (new_AllFile Example.scenario_A) in
  (map identifier (notes_to_edit st1) = [Some 12] /\ all_notes_to_add st1 = [] /\
   notes_to_delete st1 = [] /\ console st1 = [] /\ frontmatterID st1 = None /\
   writeIDs_edits (Example.data [12] false false None []) st1 = [] /\
   file (writeIDs (Example.data [12] false false None []) st1)
   = Example.lines ["START"; "Basic"; "Q"; "A"; "ID: 12"; "END"; ""]%string /\
   file (writeIDs (Example.data [12] false false None []) st1)
   <> Example.note_with_blank_line) /\
  (map identifier (notes_to_edit st2) = [Some 12] /\ all_notes_to_add st2 = [] /\
   notes_to_delete st2 = [] /\ console st2 = [] /\ frontmatterID st2 = None /\
   length (writeIDs_edits (Example.data [12] true false None []) st2) = 1%nat /\
   file (writeIDs (Example.data [12] true false None []) st2)
   = Example.lines ["---"; "nid: 12"; "---";
                    "START"; "Basic"; "Q"; "A"; "ID: 12"; "END"; ""]%string).
Proof.
  cbv zeta. split.
  - repeat split; try (vm_compute; reflexivity). vm_compute. discriminate.
  - repeat split; vm_compute; reflexivity.
Qed.

(** C8 (amended): for every document whose scan leaves front-matter mode off,
    reads no front-matter identifier and finds no note to add, the write pass
    (whatever identifiers the remote store has returned) schedules zero edits,
    and its output is the document text after the cleanup of
    [fix_newline_ids], which drops a line break that directly precedes a line
    break and an identifier marker; the output equals the original text byte
    for byte when the text holds no such doubled line break. *)
Theorem write_pass_without_pending_ids
        (X : imports) (data : FileData) (file_cache : CachedMetadata)
        (st0 : AllFile) (ids : list (option Z)) :
  let st := scanFile X data file_cache st0 in
  useFrontmatterID st = false -> truthy (frontmatterID st) = false ->
  notes_to_add st = [] -> inline_notes_to_add st = [] -> regex_notes_to_add st = [] ->
  writeIDs_edits data (set_note_ids ids st) = [] /\
  file (writeIDs data (set_note_ids ids st))
  = re_replaceAll double_regexp (fun m => group_text (file st0) m 1) (file st0) /\
  (matches double_regexp (file st0) = [] ->
   file (writeIDs data (set_note_ids ids st)) = file st0).
Proof.
  intros st Hu Ht Ha Hi Hr.
  assert (Hf : file st = file st0) by apply scanFile_file.
  assert (Hw : notesToWriteInline st = []) by now apply scanFile_no_inline_write.
  destruct (scanFile_lockstep X data file_cache st0) as (L1 & L2 & L3).
  fold st in L1, L2, L3. rewrite Ha in L1. rewrite Hi in L2. rewrite Hr in L3.
  apply length_zero_iff_nil in L1, L2, L3.
  assert (E : writeIDs_edits data (set_note_ids ids st) = []).
  { unfold writeIDs_edits. simpl. rewrite Hu, Ht, Hw, L1, L2, L3. reflexivity. }
  assert (Ho : file (writeIDs data (set_note_ids ids st))
               = re_replaceAll double_regexp (fun m => group_text (file st0) m 1) (file st0)).
  { unfold writeIDs. rewrite E. simpl. rewrite Hu. simpl. now rewrite Hf. }
  split; [exact E|]. split; [exact Ho|].
  intros Hm. rewrite Ho. now apply replaceAll_no_match.
Qed.

Lemma write_pass_without_pending_ids_witness :
  let X := Example.X [] in
  let data := Example.data [12] false false None [] in
  let st0 := new_AllFile Example.scenario_A in
  let st := scanFile X data Example.no_cache st0 in
  (useFrontmatterID st = false /\ truthy (frontmatterID st) = false /\
   notes_to_add st = [] /\ inline_notes_to_add st = [] /\ regex_notes_to_add st = []) /\
  writeIDs_edits data (set_note_ids [] st) = [] /\
  file (writeIDs data (set_note_ids [] st))
  = re_replaceAll double_regexp (fun m => group_text (file st0) m 1) (file st0) /\
  (matches double_regexp (file st0) = [] ->
   file (writeIDs data (set_note_ids [] st)) = file st0).
Proof.
  cbv zeta.
  set (data := Example.data [12] false false None []).
  set (st0 := new_AllFile Example.scenario_A).
  assert (H1 : useFrontmatterID (scanFile (Example.X []) data Example.no_cache st0) = false)
    by (vm_compute; reflexivity).
  assert (H2 : truthy (frontmatterID (scanFile (Example.X []) data Example.no_cache st0)) = false)
    by (vm_compute; reflexivity).
  assert (H3 : notes_to_add (scanFile (Example.X []) data Example.no_cache st0) = [])
    by (vm_compute; reflexivity).
  assert (H4 : inline_notes_to_add (scanFile (Example.X []) data Example.no_cache st0) = [])
    by (vm_compute; reflexivity).
  assert (H5 : regex_notes_to_add (scanFile (Example.X []) data Example.no_cache st0) = [])
    by (vm_compute; reflexivity).
  split; [auto 10|].
  exact (write_pass_without_pending_ids (Example.X []) data Example.no_cache st0 []
                                        H1 H2 H3 H4 H5).
Defined.

(** Scenario A of the specification: one edit for identifier 12, no add, and
    the write pass leaves the buffer as it is.  In front-matter mode a
    document whose single note is known by its front-matter identifier is
    rewritten to itself by one edit. *)
Example scenario_A_unchanged :
  let data := Example.data [12] false false None [] in
  let st := scanFile (Example.X []) data Example.no_cache (new_AllFile Example.scenario_A) in
  map identifier (notes_to_edit st) = [Some 12] /\ all_notes_to_add st = [] /\
  matches double_regexp Example.scenario_A = [] /\
  file (writeIDs data st) = Example.scenario_A.
Proof. cbv zeta. repeat split; vm_compute; reflexivity. Qed.

Example frontmatter_mode_unchanged :
  let data := Example.data [500] true false None [] in
  let st := scanFile (Example.X []) data (Example.cache_nid 500)
                     (new_AllFile Example.one_new_note) in
  useFrontmatterID st = true /\
  writeIDs_edits data st
  = [EditEngine.mkEdit 0 16 (Example.lines ["---"; "nid: 500"; "---"]%string)] /\
  file (writeIDs data st) = Example.one_new_note.
Proof. cbv zeta. repeat split; vm_compute; reflexivity. Qed.



(** *** The accepted spans, first come, first served *)

Section Accepted.
Import OverlapProps.

Variable X : imports.
Variable data : FileData.
Variable file_cache : CachedMetadata.

Lemma search_body_spans note_type search_id search_tags st m :
  ignore_spans (search_body X data note_type search_id search_tags st m)
  = if retracted X data note_type search_id search_tags (file st) m
    then ignore_spans st
    else ignore_spans st ++ [match_span m].
Proof.
  unfold search_body, retracted. simpl file.
  set (parsed := RegexNote_parse X (file st) m note_type search_tags search_id).
  destruct search_id; simpl.
  - destruct (includes (EXISTING_IDS data) (identifier parsed)); simpl.
    + rewrite andb_false_r. destruct (truthy (identifier parsed)); reflexivity.
    + rewrite andb_true_r.
      destruct (is_sentinel (identifier parsed) (CLOZE_ERROR X)); simpl.
      * now rewrite after_pop_push.
      * destruct (truthy (identifier parsed)); reflexivity.
  - rewrite andb_true_r.
    destruct (is_sentinel (identifier parsed) (CLOZE_ERROR X)); simpl.
    + now rewrite after_pop_push.
    + reflexivity.
Qed.

Lemma search_step_spans note_type search_id search_tags st m :
  ignore_spans (search_step X data note_type search_id search_tags st m)
  = if contained_in (match_span m) (ignore_spans st) then ignore_spans st
    else if retracted X data note_type search_id search_tags (file st) m
         then ignore_spans st
         else ignore_spans st ++ [match_span m].
Proof.
  unfold search_step.
  destruct (contained_in (match_span m) (ignore_spans st)); [reflexivity|].
  apply search_body_spans.
Qed.

Lemma search_step_file note_type search_id search_tags st m :
  file (search_step X data note_type search_id search_tags st m) = file st.
Proof.
  unfold search_step, search_body, push, warn. destruct st; simpl.
  split_cases; reflexivity.
Qed.

Lemma accept_app c1 : forall seen c2,
  accept seen (c1 ++ c2) = accept seen c1 ++ accept (seen ++ accept seen c1) c2.
Proof.
  induction c1 as [|[sp r] c1 IH]; intros seen c2; simpl.
  - now rewrite app_nil_r.
  - destruct (contained_in sp seen); [apply IH|].
    destruct r; [apply IH|]. simpl. rewrite IH, <- app_assoc. reflexivity.
Qed.

Lemma accept_each_new cs : forall seen, each_new seen (accept seen cs).
Proof.
  induction cs as [|[sp r] cs IH]; intros seen; simpl; [exact I|].
  destruct (contained_in sp seen) eqn:E; [apply IH|].
  destruct r; [apply IH|]. simpl. split; [exact E|apply IH].
Qed.

(** A loop whose every turn accepts the candidates of its item leaves the
    ignore set extended by what the candidates of all items give. *)
Lemma fold_accept {A} (f : jstring) (step : AllFile -> A -> AllFile)
      (c : A -> list (span * bool)) :
  (forall st a, file st = f ->
                file (step st a) = f /\
                ignore_spans (step st a)
                = ignore_spans st ++ accept (ignore_spans st) (c a)) ->
  forall l st, file st = f ->
               file (fold_left step l st) = f /\
               ignore_spans (fold_left step l st)
               = ignore_spans st ++ accept (ignore_spans st) (flat_map c l).
Proof.
  intros Hstep l. induction l as [|a l IH]; intros st Hf; simpl.
  - now rewrite app_nil_r.
  - destruct (Hstep st a Hf) as (Hf1 & E1).
    destruct (IH (step st a) Hf1) as (Hf2 & E2).
    split; [exact Hf2|]. rewrite E2, E1, accept_app, app_assoc. reflexivity.
Qed.

Lemma search_step_accept f note_type search_id search_tags st m :
  file st = f ->
  file (search_step X data note_type search_id search_tags st m) = f /\
  ignore_spans (search_step X data note_type search_id search_tags st m)
  = ignore_spans st
    ++ accept (ignore_spans st)
              [(match_span m, retracted X data note_type search_id search_tags f m)].
Proof.
  intros Hf. split; [now rewrite search_step_file|].
  rewrite search_step_spans, Hf. simpl.
  destruct (contained_in (match_span m) (ignore_spans st)); [now rewrite app_nil_r|].
  destruct (retracted X data note_type search_id search_tags f m);
    [now rewrite app_nil_r|reflexivity].
Qed.

Lemma flat_map_singleton {A B} (g : A -> B) (l : list A) :
  flat_map (fun a => [g a]) l = map g l.
Proof. induction l as [|a l IH]; simpl; [reflexivity|now rewrite IH]. Qed.

Lemma search_variant_accept f note_type regexp_str st v :
  file st = f ->
  file (search_variant X data note_type regexp_str st v) = f /\
  ignore_spans (search_variant X data note_type regexp_str st v)
  = ignore_spans st
    ++ accept (ignore_spans st) (candidates_of_variant X data f note_type regexp_str v).
Proof.
  intros Hf. destruct v as [search_id search_tags].
  unfold search_variant, candidates_of_variant. cbn [fst snd]. rewrite Hf.
  rewrite <- flat_map_singleton.
  apply (fold_accept f (search_step X data note_type search_id search_tags)
           (fun m => [(match_span m,
                       retracted X data note_type search_id search_tags f m)]));
    [|exact Hf].
  intros st' m Hf'. now apply search_step_accept.
Qed.

Lemma scan_type_accept f st note_type :
  file st = f ->
  file (scan_type X data file_cache st note_type) = f /\
  ignore_spans (scan_type X data file_cache st note_type)
  = ignore_spans st
    ++ accept (ignore_spans st) (candidates_of_type X data file_cache f note_type).
Proof.
  intros Hf. unfold scan_type, candidates_of_type.
  destruct (lookup note_type (custom_regexps data)) as [regexp_str|];
    [|now rewrite app_nil_r].
  destruct (nonempty regexp_str); [|now rewrite app_nil_r].
  destruct (regex_required_tags data && negb _); [now rewrite app_nil_r|].
  unfold search. apply fold_accept; [|exact Hf].
  intros st' v Hf'. now apply search_variant_accept.
Qed.

Lemma scanFile_accept st0 :
  ignore_spans (scanFile X data file_cache st0)
  = ignore_spans (setupScan X data file_cache st0)
    ++ accept (ignore_spans (setupScan X data file_cache st0))
              (candidates X data file_cache (file st0)).
Proof.
  rewrite scanFile_ignore_spans.
  set (st1 := scanInlineNotes X data (scanNotes X data (setupScan X data file_cache st0))).
  assert (Hf : file st1 = file st0).
  { assert (H : scan_invariant (file st0) st1); [|now destruct H].
    unfold st1, scanInlineNotes. apply fold_left_invariant;
      [intros; now apply scanInlineNotes_step_invariant|].
    unfold scanNotes. apply fold_left_invariant;
      [intros; now apply scanNotes_step_invariant|].
    apply setupScan_invariant. }
  destruct (fold_accept (file st0) (scan_type X data file_cache)
              (candidates_of_type X data file_cache (file st0))
              (fun st a H => scan_type_accept (file st0) st a H) (note_types data) st1 Hf)
    as (_ & E).
  rewrite E. unfold st1. rewrite builtin_scans_ignore_spans. reflexivity.
Qed.

End Accepted.

(** C3, as stated, fails: the second note type's match [0, 21) is not
    contained in the accepted span [4, 9), so it is accepted too, and the two
    accepted spans share five characters. *)
Lemma accepted_spans_overlap_counterexample :
  let st := scanFile (Example.X Example.hello_table)
                     (Example.data [] false false None Example.hello_types)
                     Example.no_cache (new_AllFile Example.say_hello) in
  ignore_spans st = [(4, 9); (0, 21)] /\
  map modelName (regex_notes_to_add st) = [str "Basic"; str "Other"] /\
  ~ non_overlapping_tol (4, 9) (0, 21).
Proof.
  cbv zeta. split; [vm_compute; reflexivity|]. split; [vm_compute; reflexivity|].
  unfold non_overlapping_tol. simpl. lia.
Qed.


(** C3 (amended): a custom-regex match is accepted only if its span is not
    contained, with one character of leeway on each side, in any span already
    in [ignore_spans]; an accepted span is appended to [ignore_spans] at once,
    before any later match of the same or a later pass is tested, and is
    popped again only when the match turns out to be a cloze error.  Hence,
    after [scanFile], [ignore_spans] is the ignore set of [setupScan]
    followed by the accepted spans in order of acceptance: the spans that the
    candidates of the document, taken first come, first served, give.  Each of
    them is not contained (with the leeway) in any span before it; in
    particular no accepted span is contained in an earlier accepted span.
    (Accepted spans may still overlap: a later span may extend beyond an
    earlier one.) *)
Theorem accepted_spans_not_contained
        (X : imports) (data : FileData) (file_cache : CachedMetadata) (st0 : AllFile) :
  let base := ignore_spans (setupScan X data file_cache st0) in
  let accepted := OverlapProps.accept base
                    (OverlapProps.candidates X data file_cache (file st0)) in
  (forall note_type search_id search_tags st m,
     contained_in (match_span m) (ignore_spans st) = true ->
     search_step X data note_type search_id search_tags st m = st) /\
  (forall note_type search_id search_tags st m,
     contained_in (match_span m) (ignore_spans st) = false ->
     ignore_spans (search_step X data note_type search_id search_tags st m)
     = if OverlapProps.retracted X data note_type search_id search_tags (file st) m
       then ignore_spans st
       else ignore_spans st ++ [match_span m]) /\
  ignore_spans (scanFile X data file_cache st0) = base ++ accepted /\
  each_new base accepted /\
  (forall pre a mid b post,
     accepted = pre ++ a :: mid ++ b :: post -> ~ within a b).
Proof.
  cbv zeta. split; [|split; [|split; [|split]]].
  - intros note_type search_id search_tags st m H. unfold search_step. now rewrite H.
  - intros note_type search_id search_tags st m H.
    now rewrite search_step_spans, H.
  - apply scanFile_accept.
  - apply accept_each_new.
  - intros pre a mid b post.
    apply (each_new_pairwise (ignore_spans (setupScan X data file_cache st0))).
    apply accept_each_new.
Qed.

(** The accepted spans of the document above, by the rule alone. *)
Example accepted_spans_hello :
  OverlapProps.accept []
    (OverlapProps.candidates (Example.X Example.hello_table)
       (Example.data [] false false None Example.hello_types)
       Example.no_cache Example.say_hello)
  = [(4, 9); (0, 21)].
Proof. vm_compute. reflexivity. Qed.
End ScannerFacts.


Module BulkDeleteFacts.
Import Scanner BulkDelete.



(** A document with an inline marker, a comment-wrapped marker and a
    front-matter identifier. *)
Example bulk_delete_document :
  let content :=
    Example.lines ["---"; "title: x"; "nid: 12"; "---";
                   "START"; "Basic"; "Q"; "A"; "<!--ID: 1700000000001-->"; "END"; "";
                   "Text ID: 55"]%string in
  ids content = [1700000000001; 55; 12] /\
  newContent content
  = Example.lines ["---"; "title: x"; "---";
                   "START"; "Basic"; "Q"; "A"; "END"; ""; "Text "]%string /\
  checkAndBulkDelete (Example.lines ["---"; "title: x"; "---"; "Text"]%string)
  = Finished [Notice (str "No IDs found in this file.")].
Proof. cbv zeta. repeat split; vm_compute; reflexivity. Qed.

End BulkDeleteFacts.

(** ** The heading context of a position *)

Module ContextFacts.
Import AbstractFile ContextProps.

Lemma context_loop_visited position hs :
  forall ctx, context_loop position hs ctx = fold_left enter_heading (visited position hs) ctx.
Proof.
  induction hs as [|h r IH]; intros ctx; simpl.
  - reflexivity.
  - destruct (position <? offset h); [reflexivity|]. simpl. apply IH.
Qed.

Lemma insert_index_filter h ctx :
  nested ctx ->
  firstn (insert_index h ctx) ctx = filter (fun c => level c <? level h) ctx.
Proof.
  induction 1 as [|c r Hr IH Hc]; simpl.
  - reflexivity.
  - destruct (Z.ltb_spec (level c) (level h)).
    + simpl. now rewrite IH.
    + simpl. symmetry. rewrite <- (filter_false r). apply filter_ext_in.
      intros a Ha. rewrite Forall_forall in Hc. specialize (Hc a Ha). simpl in Hc.
      apply Z.ltb_ge. lia.
Qed.

Lemma enter_heading_filter ctx h :
  nested ctx ->
  enter_heading ctx h = filter (fun c => level c <? level h) ctx ++ [h].
Proof. intros H. unfold enter_heading. now rewrite insert_index_filter. Qed.

Lemma nested_filter f ctx : nested ctx -> nested (filter f ctx).
Proof.
  induction 1 as [|c r Hr IH Hc]; simpl.
  - constructor.
  - destruct (f c); [|exact IH]. constructor; [exact IH|].
    rewrite Forall_forall in Hc |- *. intros a Ha. apply filter_In in Ha. now apply Hc.
Qed.

Lemma enter_heading_nested ctx h : nested ctx -> nested (enter_heading ctx h).
Proof.
  intros H. rewrite enter_heading_filter by exact H.
  apply EditEngineFacts.StronglySorted_snoc.
  - now apply nested_filter.
  - rewrite Forall_forall. intros a Ha. apply filter_In in Ha. destruct Ha as (_ & Ha).
    now apply Z.ltb_lt.
Qed.

Lemma fold_enter_nested hs : forall ctx, nested ctx -> nested (fold_left enter_heading hs ctx).
Proof.
  induction hs as [|h r IH]; simpl; intros ctx H; [exact H|].
  apply IH. now apply enter_heading_nested.
Qed.

Lemma fold_enter_chain hs g :
  In g (fold_left enter_heading hs []) <->
  exists before after, hs = before ++ g :: after /\ Forall (fun h => level g < level h) after.
Proof.
  induction hs as [|h r IH] using rev_ind.
  - simpl. split; [contradiction|].
    intros (before & after & E & _). now destruct before.
  - rewrite fold_left_app. simpl.
    rewrite enter_heading_filter by (apply fold_enter_nested; constructor).
    rewrite in_app_iff, filter_In, IH. simpl. split.
    + intros [((before & after & E & F) & Hl)|[<-|[]]].
      * exists before, (after ++ [h]). split.
        -- rewrite E, <- app_assoc. reflexivity.
        -- apply Forall_app. split; [exact F|]. constructor; [|constructor].
           now apply Z.ltb_lt.
      * exists r, []. split; [reflexivity|constructor].
    + intros (before & after & E & F).
      destruct after as [|a after'] using rev_ind.
      * apply app_inj_tail in E. destruct E as (_ & <-). right. now left.
      * clear IHafter'. 
        rewrite app_comm_cons, app_assoc in E. apply app_inj_tail in E.
        destruct E as (E & <-). apply Forall_app in F. destruct F as (F & Fa).
        left. split.
        -- exists before, after'. now split.
        -- apply Z.ltb_lt. now inversion Fa.
Qed.

(** X1: whatever the headings of the file and the position, the headings
    that [getContextAtIndex] keeps as context have strictly increasing
    levels from first to last: no heading of the context is followed by one
    of the same or a shallower level. *)
Theorem heading_context_levels_increase position headings :
  nested (context_loop position headings []).
Proof.
  rewrite context_loop_visited. apply fold_enter_nested. constructor.
Qed.

(** X2: a heading is part of the context of a position exactly when the
    loop of [getContextAtIndex] visits it (it comes before the first heading
    that starts after the position) and every heading visited after it has a
    strictly greater level. *)
Theorem heading_context_is_enclosing_chain position headings g :
  In g (context_loop position headings []) <-> encloses position headings g.
Proof.
  rewrite context_loop_visited. apply fold_enter_chain.
Qed.

(** Without heading metadata, or before the first heading, the context is
    the path alone. *)
Lemma heading_context_edges path headings position :
  (headings = None \/ exists hs, headings = Some hs /\ visited position hs = []) ->
  getContextAtIndex path headings position = path.
Proof.
  intros [->|(hs & -> & H)]; [reflexivity|].
  unfold getContextAtIndex. rewrite context_loop_visited, H. reflexivity.
Qed.

(** X3: when a heading [h] is the last one that starts at or before the
    position, the context string is the path, then headings that come before
    [h] and are shallower than [h], then [h], joined by [ > ]. *)
Theorem heading_context_ends_with_nearest path hs position before h :
  visited position hs = before ++ [h] ->
  exists outer,
    Forall (fun g => In g before /\ level g < level h) outer /\
    getContextAtIndex path (Some hs) position
    = join (path :: map heading outer ++ [heading h]) (str " > ").
Proof.
  intros H. unfold getContextAtIndex. rewrite context_loop_visited, H, fold_left_app. simpl.
  rewrite enter_heading_filter by (apply fold_enter_nested; constructor).
  eexists. split; [|rewrite map_app; reflexivity].
  rewrite Forall_forall. intros g Hg. apply filter_In in Hg. destruct Hg as (Hg & Hl).
  split; [|now apply Z.ltb_lt].
  apply fold_enter_chain in Hg. destruct Hg as (b & a & -> & _).
  apply in_elt.
Qed.

Lemma heading_context_ends_with_nearest_witness :
  let h1 := mkHeading (str "Chapter") 1 0 in
  let h2 := mkHeading (str "Section") 2 10 in
  let h3 := mkHeading (str "Later") 1 40 in
  visited 15 [h1; h2; h3] = [h1] ++ [h2] /\
  exists outer,
    Forall (fun g => In g [h1] /\ level g < level h2) outer /\
    getContextAtIndex (str "a.md") (Some [h1; h2; h3]) 15
    = join (str "a.md" :: map heading outer ++ [heading h2]) (str " > ").
Proof.
  cbv zeta. split; [reflexivity|].
  apply (heading_context_ends_with_nearest
           (str "a.md")
           [mkHeading (str "Chapter") 1 0; mkHeading (str "Section") 2 10;
            mkHeading (str "Later") 1 40]
           15 [mkHeading (str "Chapter") 1 0] (mkHeading (str "Section") 2 10)).
  reflexivity.
Defined.

End ContextFacts.

(** ** More on the scan, the reconciliation and the write pass *)

Module ScanMoreFacts.
Import Scanner ScannerProps ScanMoreProps ScannerFacts.

(** *** The order of the custom-regex passes *)





(** *** Only known notes are edited *)

Section Known.

Variable X : imports.
Variable data : FileData.
Variable file_cache : CachedMetadata.

Lemma edits_known_push st p :
  edits_known data st -> includes (EXISTING_IDS data) (identifier p) = true ->
  Forall (fun p => includes (EXISTING_IDS data) (identifier p) = true)
         (push (notes_to_edit st) p).
Proof.
  intros H Hp. apply Forall_app. split; [exact H|]. now constructor.
Qed.

Lemma scanNotes_step_known st m :
  edits_known data st -> edits_known data (scanNotes_step X data st m).
Proof.
  intros H. unfold scanNotes_step.
  destruct (identifier (Note_parse X _ _)) as [n|] eqn:En; [|exact H].
  rewrite <- En.
  destruct (includes (EXISTING_IDS data) (identifier (Note_parse X _ _))) eqn:Ei; simpl.
  - now apply edits_known_push.
  - unfold warn. split_cases; exact H.
Qed.

Lemma scanInlineNotes_step_known st m :
  edits_known data st -> edits_known data (scanInlineNotes_step X data st m).
Proof.
  intros H. unfold scanInlineNotes_step.
  destruct (identifier (InlineNote_parse X _ _)) as [n|] eqn:En; [|exact H].
  rewrite <- En.
  assert (H' : edits_known data
                 match first_match (InlineNote_ID_REGEXP X) (group_text (file st) m 1) with
                 | Some idMatch =>
                     set_existingIDSpans
                       (push (existingIDSpans st)
                          (Z.of_nat (index m) + Z.of_nat (index idMatch),
                           Z.of_nat (index m) + Z.of_nat (index idMatch)
                           + Z.of_nat (length (matched (group_text (file st) m 1) idMatch))))
                       st
                 | None => st
                 end).
  { destruct (first_match _ _); exact H. }
  revert H'. generalize (match first_match (InlineNote_ID_REGEXP X) (group_text (file st) m 1) with
                 | Some idMatch =>
                     set_existingIDSpans
                       (push (existingIDSpans st)
                          (Z.of_nat (index m) + Z.of_nat (index idMatch),
                           Z.of_nat (index m) + Z.of_nat (index idMatch)
                           + Z.of_nat (length (matched (group_text (file st) m 1) idMatch))))
                       st
                 | None => st
                 end) as st1. intros st1 H1.
  destruct (includes (EXISTING_IDS data) (identifier (InlineNote_parse X _ _))) eqn:Ei; simpl.
  - now apply edits_known_push.
  - unfold warn. split_cases; exact H1.
Qed.

Lemma search_step_known note_type search_id search_tags st m :
  edits_known data st ->
  edits_known data (search_step X data note_type search_id search_tags st m).
Proof.
  intros H. unfold search_step.
  destruct (contained_in _ _); [exact H|]. unfold search_body.
  destruct search_id; simpl.
  - destruct (includes (EXISTING_IDS data) (identifier (RegexNote_parse X _ _ _ _ _))) eqn:Ei;
      simpl.
    + destruct (truthy _); simpl; now apply edits_known_push.
    + unfold warn. split_cases; exact H.
  - split_cases; exact H.
Qed.

Lemma scan_passes_known st : edits_known data (scan_passes X data file_cache st).
Proof.
  unfold scan_passes. cbv zeta.
  match goal with
  | |- edits_known _ (scanDeletions _ (set_all_notes_to_add _ ?s)) =>
      assert (H : edits_known data s)
  end.
  { apply fold_left_invariant.
    { intros s note_type Hs. unfold scan_type.
      destruct (lookup note_type (custom_regexps data)) as [regexp_str|]; [|exact Hs].
      destruct (nonempty regexp_str); [|exact Hs].
      destruct (regex_required_tags data && negb _); [exact Hs|].
      unfold search. apply fold_left_invariant; [|exact Hs].
      intros s' [search_id search_tags] Hs'. unfold search_variant.
      apply fold_left_invariant; [|exact Hs'].
      intros. now apply search_step_known. }
    unfold scanInlineNotes. apply fold_left_invariant;
      [intros; now apply scanInlineNotes_step_known|].
    unfold scanNotes. apply fold_left_invariant;
      [intros; now apply scanNotes_step_known|].
    unfold edits_known, setupScan, read_frontmatterID. simpl.
    split_cases; constructor. }
  exact H.
Qed.

Lemma postProcess_known st :
  edits_known data st -> edits_known data (postProcessFrontmatterID data st).
Proof.
  unfold edits_known. intros H. unfold postProcessFrontmatterID, promote, push.
  destruct (includes (EXISTING_IDS data) (frontmatterID st)) eqn:Ek;
    destruct st; simpl in *;
    repeat first [ progress (rewrite ?andb_false_r, ?andb_true_r; simpl)
                 | match goal with
                   | |- context [if ?c then _ else _] => destruct c; simpl
                   | |- context [match ?x with _ => _ end] => destruct x; simpl
                   end ];
    try exact H;
    try (apply Forall_app; split; [exact H|]; constructor; [exact Ek|constructor]).
  inversion H; subst; constructor; [exact Ek|assumption].
Qed.

End Known.

Lemma known_requests data (l : list AnkiConnectNoteAndID) :
  Forall (fun p => includes (EXISTING_IDS data) (identifier p) = true) l ->
  exists reqs : list (Z * list (jstring * jstring)),
    Forall (fun r => In (fst r) (EXISTING_IDS data)) reqs /\
    map (fun p => (identifier p, fields (note p))) l
    = map (fun r => (Some (fst r), snd r)) reqs.
Proof.
  induction 1 as [|p l Hp _ (reqs & Hreqs & E)].
  - now exists [].
  - destruct (identifier p) as [n|] eqn:Ep; [|discriminate].
    exists ((n, fields (note p)) :: reqs). split.
    + constructor; [now apply includes_In|exact Hreqs].
    + simpl. now rewrite Ep, E.
Qed.

(** X5: after [scanFile] every note queued for editing carries an identifier
    that is a number of [EXISTING_IDS]; so the [notesInfo] request of
    [getNoteInfo] and the [updateNoteFields] requests of [getUpdateFields]
    name known notes only, whatever the file, the settings and the parsers. *)
Theorem edited_notes_are_known
        (X : imports) (data : FileData) (file_cache : CachedMetadata) (st0 : AllFile)
        (R : Type) (notesInfo : list (option Z) -> R)
        (updateNoteFields : option Z -> list (jstring * jstring) -> R)
        (multi : list R -> R) :
  let st := scanFile X data file_cache st0 in
  Forall (fun parsed => exists n, identifier parsed = Some n /\ In n (EXISTING_IDS data))
         (notes_to_edit st) /\
  (exists ns, Forall (fun n => In n (EXISTING_IDS data)) ns /\
              AbstractFile.getNoteInfo R notesInfo st = notesInfo (map Some ns)) /\
  (exists reqs, Forall (fun r => In (fst r) (EXISTING_IDS data)) reqs /\
                AbstractFile.getUpdateFields R updateNoteFields multi st
                = multi (map (fun r => updateNoteFields (Some (fst r)) (snd r)) reqs)).
Proof.
  cbv zeta.
  assert (H : edits_known data (scanFile X data file_cache st0)).
  { unfold scanFile. apply postProcess_known, scan_passes_known. }
  unfold edits_known in H. split; [|split].
  - rewrite Forall_forall in H |- *. intros p Hp.
    specialize (H p Hp). destruct (identifier p) as [n|]; [|discriminate].
    exists n. split; [reflexivity|]. now apply includes_In.
  - destruct (known_requests data _ H) as (reqs & Hreqs & E).
    exists (map fst reqs). split.
    + rewrite Forall_forall in Hreqs |- *. intros n Hn. apply in_map_iff in Hn.
      destruct Hn as (r & <- & Hr). now apply Hreqs.
    + unfold AbstractFile.getNoteInfo. f_equal.
      apply (f_equal (map fst)) in E. rewrite !map_map in E. simpl in E.
      rewrite map_map. exact E.
  - destruct (known_requests data _ H) as (reqs & Hreqs & E).
    exists reqs. split; [exact Hreqs|].
    unfold AbstractFile.getUpdateFields. f_equal.
    apply (f_equal (map (fun x => updateNoteFields (fst x) (snd x)))) in E.
    rewrite !map_map in E. simpl in E. exact E.
Qed.

(** *** The reconciliation moves notes, it neither drops nor copies them *)

Lemma pop_spec {A} (l : list A) :
  match pop l with
  | Some n => exists a, l = a ++ [n] /\ after_pop l = a
  | None => l = []
  end.
Proof.
  destruct l as [|x l] using rev_ind; [reflexivity|].
  fold (push l x). rewrite pop_push, after_pop_push. now exists l.
Qed.

Ltac moved_to_end :=
  rewrite <- ?app_assoc; repeat apply Permutation_app_head; simpl;
  rewrite ?app_assoc; symmetry; apply Permutation_cons_append.

Lemma postProcess_notes data st :
  length (id_indexes st) = length (notes_to_add st) ->
  Permutation (notes_of (postProcessFrontmatterID data st)) (notes_of st).
Proof.
  intros Hl. unfold postProcessFrontmatterID.
  destruct (saveIDToFrontmatter data && (totalNotes st =? 1)%nat).
  - destruct (truthy _); [|reflexivity].
    destruct (length (notes_to_add _) =? 1)%nat.
    { destruct (includes _ _); [|reflexivity].
      destruct st; unfold notes_of; simpl in *.
      generalize (pop_spec notes_to_add0). destruct (pop notes_to_add0) as [n|]; simpl.
      - intros (a & -> & ->). unfold push. rewrite map_app. simpl.
        moved_to_end.
      - intros ->. reflexivity. }
    destruct (_ || _).
    { destruct (negb _).
      - destruct (includes _ _); [|reflexivity].
        destruct st; unfold notes_of; simpl in *.
        generalize (pop_spec inline_notes_to_add0).
        destruct (pop inline_notes_to_add0) as [n|]; simpl.
        + intros (a & -> & ->). unfold push. rewrite map_app. simpl.
          moved_to_end.
        + intros ->. reflexivity.
      - destruct (includes _ _); [|reflexivity].
        destruct st; unfold notes_of; simpl in *.
        generalize (pop_spec regex_notes_to_add0).
        destruct (pop regex_notes_to_add0) as [n|]; simpl.
        + intros (a & -> & ->). unfold push. rewrite map_app. simpl.
          moved_to_end.
        + intros ->. reflexivity. }
    destruct (length (notes_to_edit _) =? 1)%nat; [|reflexivity].
    destruct st; unfold notes_of; simpl in *.
    destruct notes_to_edit0 as [|p r]; [reflexivity|].
    destruct (_ && _); reflexivity.
  - destruct (truthy (frontmatterID _)) eqn:Et; [|reflexivity].
    destruct (includes _ _); [|reflexivity].
    destruct st; unfold notes_of; simpl in *.
    destruct notes_to_add0 as [|n r]; [reflexivity|]. simpl.
    destruct id_indexes0 as [|p ps]; [discriminate|]. simpl.
    destruct frontmatterID0 as [f|]; simpl; [|discriminate].
    unfold push. rewrite map_app. simpl.
    moved_to_end.
Qed.

Lemma postProcess_all_notes_to_add data st :
  all_notes_to_add (postProcessFrontmatterID data st) = all_notes_to_add st.
Proof.
  unfold postProcessFrontmatterID, promote. destruct st; simpl. split_cases; reflexivity.
Qed.

(** X6: the reconciliation with the front-matter identifier at the end of
    [scanFile] moves notes between the to-add lists and [notes_to_edit]; it
    neither drops nor duplicates one.  [all_notes_to_add], and with it the
    [addNote] requests of [getAddNotes], is fixed before the reconciliation:
    it is the to-add lists of the scan passes (block, inline, custom regex),
    including a note that the reconciliation then moves to [notes_to_edit]. *)
Theorem reconciliation_moves_notes
        (X : imports) (data : FileData) (file_cache : CachedMetadata) (st0 : AllFile)
        (R : Type) (addNote : AnkiConnectNote -> R) (multi : list R -> R) :
  let scanned := scan_passes X data file_cache st0 in
  let st := scanFile X data file_cache st0 in
  Permutation (notes_of st) (notes_of scanned) /\
  all_notes_to_add st
  = notes_to_add scanned ++ inline_notes_to_add scanned ++ regex_notes_to_add scanned /\
  AbstractFile.getAddNotes R addNote multi st
  = multi (map addNote (notes_to_add scanned ++ inline_notes_to_add scanned
                        ++ regex_notes_to_add scanned)).
Proof.
  cbv zeta.
  assert (E : all_notes_to_add (scanFile X data file_cache st0)
              = notes_to_add (scan_passes X data file_cache st0)
                ++ inline_notes_to_add (scan_passes X data file_cache st0)
                ++ regex_notes_to_add (scan_passes X data file_cache st0)).
  { unfold scanFile. rewrite postProcess_all_notes_to_add.
    unfold scan_passes, scanDeletions. reflexivity. }
  split; [|split; [exact E|]].
  - unfold scanFile. apply postProcess_notes.
    now destruct (scan_passes_invariant X data file_cache st0) as (_ & (H & _) & _).
  - unfold AbstractFile.getAddNotes. now rewrite E.
Qed.


(** *** Without a front-matter identifier *)

Lemma postProcess_same_plan data st :
  truthy (frontmatterID st) = false -> same_plan st (postProcessFrontmatterID data st).
Proof.
  intros Ht. unfold postProcessFrontmatterID, same_plan.
  destruct (saveIDToFrontmatter data && (totalNotes st =? 1)%nat);
    destruct st; simpl in *; rewrite Ht; simpl; repeat split; reflexivity.
Qed.

(** X7: when the file has no front-matter identifier in use (none, or the
    setting is off), the notes of the add request after [scanFile] are the
    three to-add lists in the order block, inline, custom regex, and each
    list has as many notes as the write pass has insertion points for it: the
    identifiers returned for the add request pair off with the insertion
    points. *)
Theorem add_requests_match_insertion_points
        (X : imports) (data : FileData) (file_cache : CachedMetadata) (st0 : AllFile) :
  let st := scanFile X data file_cache st0 in
  truthy (frontmatterID st) = false ->
  all_notes_to_add st
  = notes_to_add st ++ inline_notes_to_add st ++ regex_notes_to_add st /\
  length (id_indexes st) = length (notes_to_add st) /\
  length (inline_id_indexes st) = length (inline_notes_to_add st) /\
  length (regex_id_indexes st) = length (regex_notes_to_add st).
Proof.
  intros st Ht. split; [|exact (scanFile_lockstep X data file_cache st0)].
  unfold st, scanFile in *. rewrite postProcess_frontmatterID in Ht.
  rewrite postProcess_all_notes_to_add.
  destruct (postProcess_same_plan data _ Ht) as (-> & _ & -> & _ & -> & _).
  unfold scan_passes, scanDeletions. reflexivity.
Qed.

Lemma add_requests_match_insertion_points_witness :
  let X := Example.X [] in
  let data := Example.data [] false false None [] in
  let st := scanFile X data Example.no_cache (new_AllFile Example.two_new_inline_notes) in
  truthy (frontmatterID st) = false /\
  (all_notes_to_add st
   = notes_to_add st ++ inline_notes_to_add st ++ regex_notes_to_add st /\
   length (id_indexes st) = length (notes_to_add st) /\
   length (inline_id_indexes st) = length (inline_notes_to_add st) /\
   length (regex_id_indexes st) = length (regex_notes_to_add st)).
Proof.
  cbv zeta.
  set (data := Example.data [] false false None []).
  set (st0 := new_AllFile Example.two_new_inline_notes).
  assert (H : truthy (frontmatterID (scanFile (Example.X []) data Example.no_cache st0))
              = false) by (vm_compute; reflexivity).
  split; [exact H|].
  exact (add_requests_match_insertion_points (Example.X []) data Example.no_cache st0 H).
Defined.

(** *** The inline write pass *)

Lemma id_edits_In ids render e : forall positions offset,
  In e (id_edits ids offset positions render) <->
  exists j p id,
    nth_error positions j = Some p /\ nth_error ids (offset + j) = Some (Some id) /\
    id <> 0 /\ e = EditEngine.mkEdit p p (render id).
Proof.
  induction positions as [|p r IH]; intros offset; simpl.
  - split; [contradiction|]. intros (j & p & id & H & _). now destruct j.
  - rewrite in_app_iff, IH. split.
    + intros [H|(j & q & id & Hq & Hi & Hz & ->)].
      * destruct (nth_error ids offset) as [[id|]|] eqn:E; simpl in H; try contradiction.
        destruct (Z.eqb_spec id 0); simpl in H; [contradiction|].
        destruct H as [<-|[]]. exists 0%nat, p, id.
        rewrite Nat.add_0_r. now repeat split.
      * exists (S j), q, id. rewrite Nat.add_succ_r. now repeat split.
    + intros (j & q & id & Hq & Hi & Hz & ->). destruct j as [|j].
      * left. rewrite Nat.add_0_r in Hi. rewrite Hi. simpl in *. injection Hq as ->.
        destruct (Z.eqb_spec id 0); [contradiction|]. now left.
      * right. exists j, q, id. rewrite Nat.add_succ_r in Hi. now repeat split.
Qed.

Section NoFrontmatter.

Variable X : imports.
Variable data : FileData.
Variable file_cache : CachedMetadata.

Lemma scan_passes_frontmatterID st :
  saveIDToFrontmatter data = false ->
  frontmatterID (scan_passes X data file_cache st) = frontmatterID st.
Proof.
  intros Hs. unfold scan_passes. cbv zeta.
  match goal with
  | |- frontmatterID (scanDeletions _ (set_all_notes_to_add _ ?s)) = _ =>
      assert (H : frontmatterID s = frontmatterID st)
  end.
  { apply (fold_left_invariant (fun s => frontmatterID s = frontmatterID st)).
    { intros s note_type H. unfold scan_type.
      destruct (lookup note_type (custom_regexps data)) as [regexp_str|]; [|exact H].
      destruct (nonempty regexp_str); [|exact H].
      destruct (regex_required_tags data && negb _); [exact H|].
      unfold search.
      apply (fold_left_invariant (fun s => frontmatterID s = frontmatterID st)); [|exact H].
      intros s' [search_id search_tags] H'. unfold search_variant.
      apply (fold_left_invariant (fun s => frontmatterID s = frontmatterID st)); [|exact H'].
      intros s'' m H''. rewrite <- H''. unfold search_step, search_body, warn.
      destruct s''; simpl. split_cases; reflexivity. }
    unfold scanInlineNotes.
    apply (fold_left_invariant (fun s => frontmatterID s = frontmatterID st)).
    { intros s m H. rewrite <- H. unfold scanInlineNotes_step, warn.
      destruct s; simpl. split_cases; reflexivity. }
    unfold scanNotes.
    apply (fold_left_invariant (fun s => frontmatterID s = frontmatterID st)).
    { intros s m H. rewrite <- H. unfold scanNotes_step, warn.
      destruct s; simpl. split_cases; reflexivity. }
    unfold setupScan, read_frontmatterID. rewrite Hs. reflexivity. }
  exact H.
Qed.

End NoFrontmatter.

(** X8: with the setting [saveIDToFrontmatter] off, a file scanned from
    scratch never uses the front matter for an identifier, and every edit of
    the write pass is an insertion (an empty span) at one of the insertion
    points that the scan recorded; nothing of the file is removed or
    replaced by the edits. *)
Theorem setting_off_only_inserts
        (X : imports) (data : FileData) (file_cache : CachedMetadata)
        (file_contents : jstring) (ids : list (option Z)) :
  saveIDToFrontmatter data = false ->
  let st := scanFile X data file_cache (new_AllFile file_contents) in
  useFrontmatterID st = false /\ frontmatterID st = None /\
  forall e, In e (writeIDs_edits data (set_note_ids ids st)) ->
            EditEngine.start e = EditEngine.end_ e /\
            In (EditEngine.start e)
               (id_indexes st ++ inline_id_indexes st ++ regex_id_indexes st).
Proof.
  intros Hs st.
  assert (Hf : frontmatterID st = None).
  { unfold st, scanFile. rewrite postProcess_frontmatterID.
    now rewrite scan_passes_frontmatterID. }
  assert (Hu : useFrontmatterID st = false).
  { unfold st, scanFile, postProcessFrontmatterID. rewrite Hs. simpl.
    match goal with |- context [truthy ?x && _] => destruct (truthy x && _) end;
      [|reflexivity].
    split_cases; reflexivity. }
  assert (Hw : notesToWriteInline st = []).
  { apply scanFile_no_inline_write. fold st. now rewrite Hf. }
  repeat split; [exact Hu|exact Hf| |]; revert H; unfold writeIDs_edits; simpl;
    rewrite Hu, Hf, Hw; simpl; rewrite !in_app_iff, !id_edits_In;
    intros [H|[H|H]]; destruct H as (j & p & id & Hp & _ & _ & ->); simpl;
    try reflexivity; apply nth_error_In in Hp; auto.
Qed.

Lemma setting_off_only_inserts_witness :
  let X := Example.X [] in
  let data := Example.data [] false false None [] in
  let ids := [Some 7; Some 8] in
  saveIDToFrontmatter data = false /\
  let st := scanFile X data Example.no_cache (new_AllFile Example.two_new_inline_notes) in
  useFrontmatterID st = false /\ frontmatterID st = None /\
  forall e, In e (writeIDs_edits data (set_note_ids ids st)) ->
            EditEngine.start e = EditEngine.end_ e /\
            In (EditEngine.start e)
               (id_indexes st ++ inline_id_indexes st ++ regex_id_indexes st).
Proof.
  cbv zeta. split; [reflexivity|].
  apply (setting_off_only_inserts (Example.X []) (Example.data [] false false None [])
                                  Example.no_cache Example.two_new_inline_notes
                                  [Some 7; Some 8]).
  reflexivity.
Defined.


(** *** One known note with an inline marker and a front-matter identifier *)

Local Opaque truthy includes Z.eqb.

(** X9: front-matter mode on, and a file whose only note is a known one
    with an inline marker, in a file that also has a front-matter
    identifier.  The reconciliation switches to the front matter: the note is
    edited under the front-matter identifier when the remote store knows
    that one, and under its own otherwise; the write pass deletes every
    recorded marker span and writes the chosen identifier to the front
    matter, and does nothing else. *)
Theorem frontmatter_id_replaces_inline_id
        (data : FileData) (st : AllFile) (p : AnkiConnectNoteAndID) (f i : Z) :
  saveIDToFrontmatter data = true ->
  notes_to_add st = [] -> inline_notes_to_add st = [] -> regex_notes_to_add st = [] ->
  notes_to_edit st = [p] -> identifier p = Some i -> i <> 0 ->
  frontmatterID st = Some f -> f <> 0 ->
  let st' := postProcessFrontmatterID data st in
  let winner := if includes (EXISTING_IDS data) (Some f) then f else i in
  useFrontmatterID st' = true /\
  notes_to_edit st' = [mkParsed (note p) (Some winner)] /\
  forall ids,
    writeIDs_edits data (set_note_ids ids st')
    = map (fun sp : span => EditEngine.mkEdit (fst sp) (snd sp) []) (existingIDSpans st)
      ++ [write_frontmatter_nid (file st) winner].
Proof.
  intros Hs Ha Hi Hr He Hp Hi0 Hf Hf0. cbv zeta.
  destruct p as [n id]. destruct st; simpl in *; subst.
  unfold postProcessFrontmatterID, totalNotes, writeIDs_edits, getTargetID. simpl.
  rewrite Hs. simpl. rewrite (truthy_nonzero f Hf0). simpl.
  destruct (includes (EXISTING_IDS data) (Some f)) eqn:Ek; rewrite ?andb_false_r, ?andb_true_r.
  - destruct (Z.eqb_spec i f) as [->|Hne]; simpl;
      rewrite (truthy_nonzero f Hf0); repeat split.
  - simpl. rewrite (truthy_nonzero i Hi0). repeat split.
Qed.

Lemma frontmatter_id_replaces_inline_id_witness :
  let data := Example.data [12] true false None [] in
  let doc := Example.lines ["---"; "nid: 500"; "---";
                            "START"; "Basic"; "Q"; "A"; "ID: 12"; "END"; ""]%string in
  let st := scan_passes (Example.X []) data (Example.cache_nid 500) (new_AllFile doc) in
  let p := hd (mkParsed (mkNote [] [] [] []) None) (notes_to_edit st) in
  (saveIDToFrontmatter data = true /\
   notes_to_add st = [] /\ inline_notes_to_add st = [] /\ regex_notes_to_add st = [] /\
   notes_to_edit st = [p] /\ identifier p = Some 12 /\ 12 <> 0 /\
   frontmatterID st = Some 500 /\ 500 <> 0) /\
  let st' := postProcessFrontmatterID data st in
  let winner := if includes (EXISTING_IDS data) (Some 500) then 500 else 12 in
  useFrontmatterID st' = true /\
  notes_to_edit st' = [mkParsed (note p) (Some winner)] /\
  forall ids,
    writeIDs_edits data (set_note_ids ids st')
    = map (fun sp : span => EditEngine.mkEdit (fst sp) (snd sp) []) (existingIDSpans st)
      ++ [write_frontmatter_nid (file st) winner].
Proof.
  cbv zeta.
  set (data := Example.data [12] true false None []).
  set (st := scan_passes (Example.X []) data (Example.cache_nid 500) _).
  set (p := hd (mkParsed (mkNote [] [] [] []) None) (notes_to_edit st)).
  assert (H1 : saveIDToFrontmatter data = true) by reflexivity.
  assert (H2 : notes_to_add st = []) by (vm_compute; reflexivity).
  assert (H3 : inline_notes_to_add st = []) by (vm_compute; reflexivity).
  assert (H4 : regex_notes_to_add st = []) by (vm_compute; reflexivity).
  assert (H5 : notes_to_edit st = [p]) by (vm_compute; reflexivity).
  assert (H6 : identifier p = Some 12) by (vm_compute; reflexivity).
  assert (H7 : 12 <> 0) by lia.
  assert (H8 : frontmatterID st = Some 500) by (vm_compute; reflexivity).
  assert (H9 : 500 <> 0) by lia.
  split; [auto 12|].
  exact (frontmatter_id_replaces_inline_id data st p 500 12 H1 H2 H3 H4 H5 H6 H7 H8 H9).
Defined.

Local Transparent truthy includes Z.eqb.

End ScanMoreFacts.

(** ** Identifier markers: what the marker pattern reads *)

Module MarkerFacts.
Import Scanner RegexProps RegexFacts RegexSemantics RegexSemanticsFacts.

(** *** Digits *)

Lemma digit_cases c :
  is_digit c = true ->
  is_space c = false /\ is_line_terminator c = false /\
  Ascii.eqb c "-"%char = false /\ Ascii.eqb c "+"%char = false /\
  Ascii.eqb c "x"%char = false /\ Ascii.eqb c "X"%char = false /\
  0 <= digit_value c <= 9.
Proof.
  destruct c as [[] [] [] [] [] [] [] []]; intros H; try discriminate H;
    vm_compute; repeat split; congruence.
Qed.

Lemma take_while_all p t : forallb p t = true -> take_while p t = t.
Proof.
  induction t as [|c t IH]; simpl; [reflexivity|].
  destruct (p c); [|discriminate]. simpl. intros H. now rewrite IH.
Qed.

Lemma parse_digits_nonneg ds :
  forallb is_digit ds = true -> forall acc, 0 <= acc -> 0 <= fold_left (fun acc c => 10 * acc + digit_value c) ds acc.
Proof.
  induction ds as [|d ds IH]; intros H acc Ha; [exact Ha|].
  cbn [fold_left]. cbn [forallb] in H.
  apply andb_prop in H. destruct H as (Hd & H). apply IH; [exact H|].
  apply digit_cases in Hd. destruct Hd as (_ & _ & _ & _ & _ & _ & Hd). lia.
Qed.

(** [parseInt] reads a non-empty run of digits as a number, never as [NaN]. *)
Lemma parseInt_digits d ds :
  forallb is_digit (d :: ds) = true ->
  parseInt (d :: ds) = Some (parse_digits 10 (d :: ds)) /\ 0 <= parse_digits 10 (d :: ds).
Proof.
  intros H. split; [|now apply parse_digits_nonneg].
  assert (Hd : is_digit d = true) by (simpl in H; now apply andb_prop in H).
  destruct (digit_cases d Hd) as (Hs & _ & Hm & Hp & _).
  unfold parseInt. simpl trimStart. rewrite Hs, Hm, Hp.
  assert (E : parse_run 10 is_digit (d :: ds) = Some (parse_digits 10 (d :: ds))).
  { unfold parse_run. rewrite take_while_all by exact H. reflexivity. }
  unfold parse_unsigned. destruct ds as [|x r]; [exact E|].
  assert (Hx : is_digit x = true).
  { simpl in H. apply andb_prop in H. destruct H as (_ & H). now apply andb_prop in H. }
  destruct (digit_cases x Hx) as (_ & _ & _ & _ & Hx1 & Hx2 & _).
  rewrite Hx1, Hx2, andb_false_r. exact E.
Qed.

(** *** What the marker pattern consumes *)

Lemma matches_to_Opt_Str multiline lit s s' :
  matches_to multiline (Opt (Str lit)) s s' ->
  exists pre, rest s = pre ++ rest s' /\ pos s' = (pos s + length pre)%nat /\
              caps s' = caps s.
Proof.
  intros H. apply matches_to_Opt in H. destruct H as [H| ->].
  - apply matches_to_Str in H. now exists lit.
  - exists []. simpl. repeat split. lia.
Qed.

Lemma matches_to_Opt_Chr multiline c s s' :
  matches_to multiline (Opt (Chr (Lit c))) s s' ->
  exists pre, rest s = pre ++ rest s' /\ pos s' = (pos s + length pre)%nat /\
              caps s' = caps s.
Proof.
  intros H. apply matches_to_Opt in H. destruct H as [H| ->].
  - apply matches_to_Chr in H. destruct H as (c0 & r' & Hr & _ & ->).
    exists [c0]. simpl. repeat split; [exact Hr|lia].
  - exists []. simpl. repeat split. lia.
Qed.

(** The marker: some prefix, "ID: ", a non-empty run of digits recorded as
    group 1, and characters of the same line. *)
Lemma ID_REGEXP_consumes multiline s s' :
  matches_to multiline ID_REGEXP s s' ->
  exists pre d ds dots,
    rest s = pre ++ str "ID: " ++ (d :: ds) ++ dots ++ rest s' /\
    forallb is_digit (d :: ds) = true /\
    forallb (fun c => negb (is_line_terminator c)) dots = true /\
    caps s' = (1%nat, ((pos s + length pre + 4)%nat,
                       (pos s + length pre + 4 + S (length ds))%nat)) :: caps s.
Proof.
  unfold ID_REGEXP. intros H.
  apply matches_to_Seq in H. destruct H as (s1 & H1 & H).
  apply matches_to_Seq in H. destruct H as (s2 & H2 & H).
  apply matches_to_Seq in H. destruct H as (s3 & H3 & H).
  apply matches_to_Seq in H. destruct H as (s4 & H4 & H5).
  apply matches_to_Opt_Chr in H1. destruct H1 as (p1 & E1 & P1 & C1).
  apply matches_to_Opt_Str in H2. destruct H2 as (p2 & E2 & P2 & C2).
  apply matches_to_Str in H3. destruct H3 as (E3 & P3 & C3).
  apply matches_to_Group in H4. destruct H4 as (s4' & H4 & P4 & E4 & _ & C4).
  apply matches_to_class_plus in H4. destruct H4 as (d & ds & E4' & F4 & P4' & C4').
  apply matches_to_class_star in H5. destruct H5 as (dots & E5 & F5 & P5 & C5).
  exists (p1 ++ p2), d, ds, dots. repeat split.
  - rewrite E1, E2, E3, E4', <- E4, E5, <- !app_assoc. reflexivity.
  - exact F4.
  - exact F5.
  - rewrite C5, C4, C4', C3, C2, C1, P4', P3, P2, P1, length_app.
    f_equal. f_equal. f_equal; simpl; lia.
Qed.


Lemma substring_at t s pre w tail :
  cursor_in t s -> rest s = pre ++ w ++ tail ->
  substring t (pos s + length pre) (pos s + length pre + length w) = w.
Proof.
  intros (_ & Hr) E. unfold substring.
  replace (pos s + length pre + length w - (pos s + length pre))%nat
    with (length w) by lia.
  rewrite Nat.add_comm, <- skipn_skipn, <- Hr, E.
  rewrite skipn_app, Nat.sub_diag, skipn_all. simpl.
  rewrite firstn_app, Nat.sub_diag, firstn_all. simpl. apply app_nil_r.
Qed.

(** Group 1 of a match of the marker pattern is a non-empty run of digits. *)
Lemma marker_group_digits multiline t s s' :
  cursor_in t s -> caps s = [] -> matches_to multiline ID_REGEXP s s' ->
  exists d ds,
    forallb is_digit (d :: ds) = true /\
    match lookup_group 1 (caps s') with
    | Some (a, b) => substring t a b = d :: ds
    | None => False
    end.
Proof.
  intros Hc Hn H. apply ID_REGEXP_consumes in H.
  destruct H as (pre & d & ds & dots & E & F & _ & C).
  exists d, ds. split; [exact F|]. rewrite C. simpl.
  rewrite app_assoc in E.
  replace (pos s + length pre + 4)%nat with (pos s + length (pre ++ str "ID: "))%nat
    by (rewrite length_app; simpl; lia).
  apply (substring_at t s (pre ++ str "ID: ") (d :: ds) (dots ++ rest s') Hc).
  rewrite E, <- !app_assoc. reflexivity.
Qed.

Lemma numbers_all l :
  Forall (fun x => exists n, x = Some n /\ 0 <= n) l ->
  map Some (BulkDelete.numbers l) = l /\ Forall (fun n => 0 <= n) (BulkDelete.numbers l).
Proof.
  induction 1 as [|x l (n & -> & Hn) _ (IH1 & IH2)]; simpl.
  - split; constructor.
  - split; [now rewrite IH1|now constructor].
Qed.

Lemma matches_to_Bol multiline s s' : matches_to multiline Bol s s' -> s' = s.
Proof. intros H. now inversion H. Qed.

Lemma matches_to_Eol multiline s s' :
  matches_to multiline Eol s s' -> s' = s /\ at_eol multiline s = true.
Proof. intros H. inversion H; subst. now split. Qed.

Lemma nid_number_digits t m :
  first_match BulkDelete.nid_number t = Some m ->
  exists d ds, forallb is_digit (d :: ds) = true /\ group_text t m 1 = d :: ds.
Proof.
  unfold first_match. intros H. apply exec_Some in H.
  destruct H as (s & Hc & Hn & _ & H & _ & Hg).
  unfold BulkDelete.nid_number in H. cbn [pattern multiline] in H.
  apply matches_to_Seq in H. destruct H as (s1 & H1 & H).
  apply matches_to_Bol in H1. subst s1.
  apply matches_to_Seq in H. destruct H as (s2 & H2 & H).
  apply matches_to_Seq in H. destruct H as (s3 & H3 & H4).
  apply matches_to_Str in H2. destruct H2 as (E2 & P2 & C2).
  apply matches_to_class_star in H3. destruct H3 as (sp & E3 & _ & P3 & C3).
  apply matches_to_Group in H4. destruct H4 as (s4 & H4 & _ & E4 & _ & C4).
  apply matches_to_class_plus in H4. destruct H4 as (d & ds & E4' & F & P4 & _).
  exists d, ds. split; [exact F|].
  unfold group_text, group. rewrite Hg, C4. simpl.
  rewrite P4, P3, P2.
  replace (pos s + length (str "nid:") + length sp)%nat
    with (pos s + length (str "nid:" ++ sp))%nat by (rewrite length_app; lia).
  change (S (length ds)) with (length (d :: ds)).
  apply (substring_at t s (str "nid:" ++ sp) (d :: ds) (rest s4) Hc).
  rewrite E2, E3, E4', <- app_assoc. reflexivity.
Qed.

(** X10: in the bulk deletion the two [isNaN] tests never reject anything:
    every match of the marker pattern gives a number, and so does the [nid]
    line of the front matter when the pattern finds one; no identifier
    collected for deletion is negative. *)
Theorem bulk_delete_ids_are_numbers (content : jstring) :
  map Some (BulkDelete.inline_ids content)
  = map (fun m => parseInt (group_text content m 1))
        (matches BulkDelete.regex content) /\
  Forall (fun n => 0 <= n) (BulkDelete.ids content) /\
  BulkDelete.frontmatter_nid content <> Some None.
Proof.
  assert (Hin : Forall (fun x => exists n, x = Some n /\ 0 <= n)
                  (map (fun m => parseInt (group_text content m 1))
                       (matches BulkDelete.regex content))).
  { rewrite Forall_forall. intros x Hx. apply in_map_iff in Hx.
    destruct Hx as (m & <- & Hm). unfold matches in Hm. apply matchAll_In in Hm.
    destruct Hm as (s & Hc & Hn & _ & H & _ & Hg).
    destruct (marker_group_digits _ content s (after m) Hc Hn H) as (d & ds & F & Hl).
    unfold group_text, group. rewrite Hg.
    destruct (lookup_group 1 (caps (after m))) as [[a b]|]; [|contradiction].
    rewrite Hl. destruct (parseInt_digits d ds F) as (-> & Hp). eauto. }
  apply numbers_all in Hin. destruct Hin as (Hmap & Hpos).
  assert (Hfm : forall x, BulkDelete.frontmatter_nid content = Some x ->
                          exists n, x = Some n /\ 0 <= n).
  { unfold BulkDelete.frontmatter_nid. intros x.
    destruct (first_match frontmatterRegex content) as [fmMatch|]; [|discriminate].
    destruct (first_match BulkDelete.nid_number _) as [nidMatch|] eqn:E; [|discriminate].
    intros Hx. injection Hx as <-. apply nid_number_digits in E.
    destruct E as (d & ds & F & ->). destruct (parseInt_digits d ds F) as (-> & Hp). eauto. }
  split; [exact Hmap|]. split.
  - unfold BulkDelete.ids. apply Forall_app. split; [exact Hpos|].
    destruct (BulkDelete.frontmatter_nid content) as [[id|]|] eqn:E; try constructor.
    + destruct (Hfm _ eq_refl) as (n & Hn & Hp). injection Hn as ->. exact Hp.
    + constructor.
  - intros E. destruct (Hfm _ E) as (n & Hn & _). discriminate.
Qed.

(** *** The marker looked for at the end of a note *)

Lemma forallb_last {A} (p : A -> bool) l x :
  forallb p (l ++ [x]) = true -> p x = true.
Proof.
  rewrite forallb_app. simpl. intros H. apply andb_prop in H. destruct H as (_ & H).
  now apply andb_prop in H.
Qed.

Lemma ID_REGEXP_END_needs_marker_last t c :
  is_line_terminator c = true -> first_match ID_REGEXP_END (t ++ [c]) = None.
Proof.
  intros Hc. destruct (first_match ID_REGEXP_END (t ++ [c])) as [m|] eqn:E; [|reflexivity].
  exfalso. unfold first_match in E. apply exec_Some in E.
  destruct E as (s & Hs & _ & _ & H & _).
  unfold ID_REGEXP_END in H. cbn [pattern multiline] in H.
  apply matches_to_Seq in H. destruct H as (s1 & H & He).
  apply matches_to_Eol in He. destruct He as (<- & He).
  unfold at_eol in He. simpl in He.
  destruct (rest (after m)) as [|x r] eqn:Er; [|discriminate].
  apply ID_REGEXP_consumes in H. destruct H as (pre & d & ds & dots & E & F & Fd & _).
  rewrite Er, app_nil_r in E.
  (* the text from the cursor on ends with [c] *)
  destruct Hs as (Hp & Hr).
  assert (Hsuf : exists u, rest s = u ++ [c]).
  { rewrite Hr. destruct (Nat.eq_dec (pos s) (length (t ++ [c]))) as [Heq|Hne].
    - rewrite Heq, skipn_all in Hr. rewrite Hr in E.
      apply (f_equal (@length ascii)) in E. rewrite !length_app in E. simpl in E. lia.
    - rewrite length_app in Hp, Hne. simpl in Hp, Hne.
      rewrite skipn_app. replace (pos s - length t)%nat with 0%nat by lia.
      simpl. now exists (skipn (pos s) t). }
  destruct Hsuf as (u & Hu). rewrite Hu in E.
  assert (Hall : forallb (fun c => negb (is_line_terminator c)) ((d :: ds) ++ dots) = true).
  { rewrite forallb_app, Fd, andb_true_r.
    clear - F. induction (d :: ds) as [|x l IH]; simpl in *; [reflexivity|].
    apply andb_prop in F. destruct F as (Fx & F). rewrite (IH F), andb_true_r.
    apply digit_cases in Fx. destruct Fx as (_ & -> & _). reflexivity. }
  rewrite !app_assoc in E. rewrite <- (app_assoc _ (d :: ds)) in E.
  destruct ((d :: ds) ++ dots) as [|y l] eqn:El using rev_ind; [discriminate|].
  clear IHl. rewrite app_assoc in E. apply app_inj_tail in E. destruct E as (_ & <-).
  apply forallb_last in Hall. rewrite Hc in Hall. discriminate.
Qed.

(** X11: [scanNotes] looks for the identifier marker at the very end of
    the text of group 1 of the note match.  When that text ends in a line
    break (as it does whenever the note pattern takes the line break before
    its end marker into the group), the step records no marker span in
    [existingIDSpans], whatever identifier the parser returns. *)
Theorem no_marker_span_for_text_ending_in_line_break
        (X : imports) (data : FileData) (st : AllFile) (note_match : rmatch)
        (t : jstring) (c : ascii) :
  group_text (file st) note_match 1 = t ++ [c] -> is_line_terminator c = true ->
  existingIDSpans (scanNotes_step X data st note_match) = existingIDSpans st.
Proof.
  intros Hg Hc. unfold scanNotes_step, id_span_at_end. rewrite Hg.
  rewrite (ID_REGEXP_END_needs_marker_last t c Hc). unfold warn.
  destruct st; simpl. ScannerFacts.split_cases; simpl; rewrite ?app_nil_r; reflexivity.
Qed.

Lemma no_marker_span_for_text_ending_in_line_break_witness :
  let X := Example.X [] in
  let data := Example.data [12] false false None [] in
  let st := setupScan X data Example.no_cache (new_AllFile Example.scenario_A) in
  let note_match := Example.nth_match Example.NOTE_REGEXP Example.scenario_A 0 in
  let t := Example.lines ["Basic"; "Q"; "A"; "ID: 12"]%string in
  (group_text (file st) note_match 1 = t ++ [LF] /\ is_line_terminator LF = true) /\
  existingIDSpans (scanNotes_step X data st note_match) = existingIDSpans st.
Proof.
  cbv zeta.
  set (data := Example.data [12] false false None []).
  set (st := setupScan (Example.X []) data Example.no_cache _).
  set (note_match := Example.nth_match _ _ _).
  assert (H1 : group_text (file st) note_match 1
               = Example.lines ["Basic"; "Q"; "A"; "ID: 12"]%string ++ [LF])
    by (vm_compute; reflexivity).
  assert (H2 : is_line_terminator LF = true) by reflexivity.
  split; [split; assumption|].
  exact (no_marker_span_for_text_ending_in_line_break
           (Example.X []) data st note_match _ LF H1 H2).
Defined.

End MarkerFacts.

(** ** Matches from left to right, and replacement as edits *)

Module ReplaceFacts.
Import Scanner EditEngine EditEngineFacts RegexProps RegexFacts ReplaceProps.

Lemma matches_from_sorted multiline r fuel : forall p pv t,
  StronglySorted follows (matches_from fuel multiline r p pv t).
Proof.
  induction fuel as [|fuel IH]; intros p pv t; simpl; [constructor|].
  destruct (Regex.search multiline r p pv t) as [m|] eqn:E; [|constructor].
  apply search_inside in E. destruct E as (E1 & E2 & E3 & E4).
  destruct (Nat.ltb_spec (index m) (stop m)).
  - constructor; [apply IH|]. rewrite Forall_forall. intros m' Hm'.
    apply matches_from_inside in Hm'. unfold follows. lia.
  - destruct (rest (after m)) as [|c t'] eqn:Er; [repeat constructor|].
    constructor; [apply IH|]. rewrite Forall_forall. intros m' Hm'.
    apply matches_from_inside in Hm'. unfold follows. lia.
Qed.

Lemma matchAll_sorted multiline r t : StronglySorted follows (matchAll multiline r t).
Proof. apply matches_from_sorted. Qed.

Lemma match_span_stop m :
  (index m <= stop m)%nat -> match_span m = (Z.of_nat (index m), Z.of_nat (stop m)).
Proof. intros H. unfold match_span. f_equal. lia. Qed.

Lemma StronglySorted_map {A B} (R : A -> A -> Prop) (Q : B -> B -> Prop) (g : A -> B) l :
  (forall a b, In a l -> In b l -> R a b -> Q (g a) (g b)) ->
  StronglySorted R l -> StronglySorted Q (map g l).
Proof.
  intros Hg H. induction H as [|a l Hl IH Ha]; simpl; [constructor|].
  constructor.
  - apply IH. intros x y Hx Hy. apply Hg; now right.
  - rewrite Forall_forall in Ha |- *. intros y Hy. apply in_map_iff in Hy.
    destruct Hy as (b & <- & Hb). apply Hg; [now left|now right|now apply Ha].
Qed.

(** X12: for every pattern and text, [spans] returns its spans from left to
    right: each lies within the text, starts strictly after the start of
    every span before it and not before the end of any of them, so no two
    spans of one call overlap. *)
Theorem spans_left_to_right (re : RegExp) (t : jstring) :
  left_to_right (spans re t) /\
  Forall (fun sp => 0 <= fst sp <= snd sp /\ snd sp <= Z.of_nat (length t)) (spans re t).
Proof.
  unfold spans, matches. split.
  - apply (StronglySorted_map follows); [|apply matchAll_sorted].
    intros a b Ha Hb (H1 & H2). apply matchAll_inside in Ha, Hb.
    rewrite !match_span_stop by lia. simpl. lia.
  - rewrite Forall_forall. intros sp Hsp. apply in_map_iff in Hsp.
    destruct Hsp as (m & <- & Hm). apply matchAll_inside in Hm.
    rewrite match_span_stop by lia. simpl. lia.
Qed.

(** *** Replacing every match is applying one edit per match *)

Lemma ascending_edits t es :
  Forall (in_range t) es ->
  StronglySorted (fun a b => end_ a <= start b /\ start a < start b) es ->
  apply_edits t es = replace_spans t 0 es.
Proof.
  intros Hr Hs.
  assert (Hd : distinct_starts es).
  { unfold distinct_starts. clear Hr. induction Hs as [|a l Hl IH Ha]; simpl; constructor.
    - intros Hin. apply in_map_iff in Hin. destruct Hin as (b & Hb & Hin).
      rewrite Forall_forall in Ha. specialize (Ha b Hin). lia.
    - exact IH. }
  assert (Hn : non_overlapping es).
  { unfold non_overlapping. clear Hr Hd. induction Hs as [|a l Hl IH Ha]; constructor.
    - rewrite Forall_forall in Ha |- *. intros b Hb. specialize (Ha b Hb).
      unfold disjoint. lia.
    - exact IH. }
  rewrite apply_edits_replace_spans by assumption.
  f_equal. rewrite <- (rev_involutive es) at 2. f_equal. symmetry.
  apply sorted_is_sort_desc; [exact Hd|apply Permutation_rev|].
  unfold starts_descending. apply StronglySorted_rev.
  clear - Hs. induction Hs as [|a l Hl IH Ha]; constructor; [exact IH|].
  rewrite Forall_forall in Ha |- *. intros b Hb. specialize (Ha b Hb). simpl in Ha. lia.
Qed.


Lemma stitch_replace_spans t f ms : forall from,
  (from <= length t)%nat ->
  Forall (fun m => (from <= index m)%nat /\ (index m <= stop m)%nat
                   /\ (stop m <= length t)%nat) ms ->
  StronglySorted follows ms ->
  stitch t from f ms = replace_spans t (Z.of_nat from) (map (edit_of_match f) ms).
Proof.
  induction ms as [|m ms IH]; intros from Hf Hr Hs; simpl.
  - rewrite slice_from_inside by lia. now rewrite Nat2Z.id.
  - inversion Hr as [|? ? (H1 & H2 & H3) Hr']; subst.
    inversion Hs as [|? ? Hs' Hm]; subst.
    rewrite slice_inside by lia. unfold substring.
    replace (Z.to_nat (Z.of_nat (index m) - Z.of_nat from)) with (index m - from)%nat by lia.
    rewrite Nat2Z.id. do 2 f_equal. apply IH; [lia| |exact Hs'].
    rewrite Forall_forall in Hr', Hm |- *. intros m' Hm'.
    specialize (Hr' m' Hm'). specialize (Hm m' Hm'). unfold follows in Hm. lia.
Qed.

Lemma replaceAll_as_edits re f t :
  re_replaceAll re f t = apply_edits t (map (edit_of_match f) (matches re t)).
Proof.
  unfold re_replaceAll, replaceAll, matches.
  assert (Hin : Forall (fun m => (0 <= index m)%nat /\ (index m <= stop m)%nat
                                 /\ (stop m <= length t)%nat)
                       (matchAll (multiline re) (pattern re) t)).
  { rewrite Forall_forall. intros m Hm. apply matchAll_inside in Hm. lia. }
  rewrite ascending_edits.
  - apply (stitch_replace_spans t f _ 0%nat); [lia|exact Hin|apply matchAll_sorted].
  - rewrite Forall_forall in Hin |- *. intros e He. apply in_map_iff in He.
    destruct He as (m & <- & Hm). specialize (Hin m Hm).
    unfold in_range, edit_of_match. simpl. lia.
  - apply (StronglySorted_map follows); [|apply matchAll_sorted].
    intros a b _ _ (H1 & H2). unfold edit_of_match. simpl. lia.
Qed.

(** X13: [removeEmpties] gives the same text as [apply_edits] with one
    deletion for each span of the pattern for deleted notes, and
    [scanDeletions] adds exactly one entry to [notes_to_delete] for each of
    these spans. *)
Theorem removeEmpties_deletes_scanned_spans (data : FileData) (st : AllFile) :
  file (AbstractFile.removeEmpties data st)
  = apply_edits (file st)
      (map (fun sp : span => mkEdit (fst sp) (snd sp) [])
           (spans (EMPTY_REGEXP data) (file st))) /\
  length (notes_to_delete (scanDeletions data st))
  = (length (notes_to_delete st) + length (spans (EMPTY_REGEXP data) (file st)))%nat.
Proof.
  split.
  - unfold AbstractFile.removeEmpties. simpl. rewrite replaceAll_as_edits.
    f_equal. unfold spans. rewrite map_map. apply map_ext_in.
    intros m Hm. unfold matches in Hm. apply matchAll_inside in Hm.
    rewrite match_span_stop by lia. reflexivity.
  - unfold scanDeletions, spans. simpl. now rewrite length_app, !length_map.
Qed.

End ReplaceFacts.

(** ** The plugin class: settings upkeep, folder walk, Scan Tags filter, cloze numbers *)

Module PluginFacts.
Import Scanner Plugin PluginProps.

(** *** Strings as keys *)

Lemma jstring_eqb_eq a : forall b, jstring_eqb a b = true <-> a = b.
Proof.
  induction a as [|x a IH]; intros [|y b]; simpl; split; try congruence.
  - intros H. apply andb_prop in H. destruct H as (Hx & H).
    apply Ascii.eqb_eq in Hx. apply IH in H. congruence.
  - intros H. injection H as -> ->. rewrite Ascii.eqb_refl. simpl. now apply IH.
Qed.

Lemma jstring_eqb_refl a : jstring_eqb a a = true.
Proof. now apply jstring_eqb_eq. Qed.

Lemma jstring_eqb_neq a b : a <> b -> jstring_eqb a b = false.
Proof.
  intros H. destruct (jstring_eqb a b) eqn:E; [|reflexivity].
  apply jstring_eqb_eq in E. contradiction.
Qed.

Lemma jstring_eq_dec (a b : jstring) : {a = b} + {a <> b}.
Proof.
  destruct (jstring_eqb a b) eqn:E.
  - left. now apply jstring_eqb_eq.
  - right. intros H. apply jstring_eqb_eq in H. congruence.
Qed.

Lemma string_includes_In a x : string_includes a x = true <-> In x a.
Proof.
  unfold string_includes. rewrite existsb_exists. split.
  - intros (y & Hy & E). apply jstring_eqb_eq in E. now subst.
  - intros H. exists x. split; [exact H|apply jstring_eqb_refl].
Qed.


(** *** Records: what is read after an assignment or a deletion *)

Section RecordFacts.

Context {V : Type}.
Implicit Types o : list (jstring * V).

Lemma get_set_same key v o : get key (set key v o) = Some v.
Proof.
  induction o as [|[k x] o IH]; simpl.
  - now rewrite jstring_eqb_refl.
  - destruct (jstring_eqb k key) eqn:E; simpl; rewrite E; [reflexivity|exact IH].
Qed.

Lemma get_set_other key key' v o : key <> key' -> get key' (set key v o) = get key' o.
Proof.
  intros Hne. induction o as [|[k x] o IH]; simpl.
  - now rewrite jstring_eqb_neq.
  - destruct (jstring_eqb k key) eqn:E; simpl.
    + apply jstring_eqb_eq in E. subst k. now rewrite jstring_eqb_neq.
    + now rewrite IH.
Qed.

Lemma get_delete_same key o : get key (delete key o) = None.
Proof.
  induction o as [|[k x] o IH]; simpl; [reflexivity|].
  destruct (jstring_eqb k key) eqn:E; simpl; [exact IH|]. now rewrite E.
Qed.

Lemma get_delete_other key key' o : key <> key' -> get key' (delete key o) = get key' o.
Proof.
  intros Hne. induction o as [|[k x] o IH]; simpl; [reflexivity|].
  destruct (jstring_eqb k key) eqn:E; simpl.
  - apply jstring_eqb_eq in E. subst k. now rewrite jstring_eqb_neq.
  - now rewrite IH.
Qed.

Lemma get_None_keys key o : ~ In key (keys o) -> get key o = None.
Proof.
  induction o as [|[k x] o IH]; simpl; [reflexivity|].
  intros H. rewrite jstring_eqb_neq by tauto. apply IH. tauto.
Qed.

End RecordFacts.

(** *** [regenerateSettingsRegexps] *)

Lemma get_assign key v (o : record jstring) t :
  get t (assign key v o)
  = if jstring_eqb key t
    then if jstring_eqb key (str "__proto__") && negb (hasOwnProperty o key)
         then None else Some v
    else get t o.
Proof.
  unfold assign.
  destruct (jstring_eqb key (str "__proto__") && negb (hasOwnProperty o key)) eqn:Ep.
  - destruct (jstring_eqb key t) eqn:E; [|reflexivity].
    apply jstring_eqb_eq in E. subst t. apply andb_prop in Ep. destruct Ep as (_ & Ep).
    unfold hasOwnProperty in Ep. now destruct (get key o).
  - destruct (jstring_eqb key t) eqn:E.
    + apply jstring_eqb_eq in E. subst t. apply get_set_same.
    + apply get_set_other. intros ->. now rewrite jstring_eqb_refl in E.
Qed.

(** Without a shadowing property the call returns, and the table afterwards
    holds the kept entry under the note type. *)
Lemma keep_or_empty_get section note_type :
  no_shadow section ->
  exists section',
    keep_or_empty section note_type = Some section' /\
    forall t, get t section'
              = if jstring_eqb note_type t then kept_entry t (get t section)
                else get t section.
Proof.
  intros Hs. unfold keep_or_empty, call_hasOwnProperty. rewrite Hs.
  eexists. split; [reflexivity|]. intros t. rewrite get_assign.
  destruct (jstring_eqb note_type t) eqn:E; [|reflexivity].
  apply jstring_eqb_eq in E. subst t. unfold kept_entry, hasOwnProperty.
  destruct (jstring_eqb note_type (str "__proto__")); destruct (get note_type section);
    reflexivity.
Qed.

Lemma kept_entry_twice t entry : kept_entry t (kept_entry t entry) = kept_entry t entry.
Proof. unfold kept_entry. destruct (jstring_eqb t (str "__proto__")); now destruct entry. Qed.

Lemma no_shadow_kept section section' note_type :
  no_shadow section -> note_type <> str "hasOwnProperty" ->
  (forall t, get t section'
             = if jstring_eqb note_type t then kept_entry t (get t section)
               else get t section) ->
  no_shadow section'.
Proof.
  unfold no_shadow, hasOwnProperty. intros Hs Hne Hg. rewrite Hg.
  now rewrite jstring_eqb_neq.
Qed.

Lemma after_loop_step a r old mid new :
  (forall t, get t mid = if jstring_eqb a t then kept_entry t (get t old) else get t old) ->
  after_loop r mid new -> after_loop (a :: r) old new.
Proof.
  intros Hm Hn t. rewrite Hn, Hm. simpl.
  destruct (jstring_eqb a t) eqn:E.
  - apply jstring_eqb_eq in E. subst a. rewrite jstring_eqb_refl. simpl.
    rewrite kept_entry_twice. now destruct (string_includes r t).
  - assert (E' : jstring_eqb t a = false).
    { apply jstring_eqb_neq. intros ->. now rewrite jstring_eqb_refl in E. }
    now rewrite E'.
Qed.

Lemma fold_remove_get note_types t ks : forall section : record jstring,
  get t (fold_left (fun o note_type =>
                      if negb (string_includes note_types note_type)
                      then delete note_type o else o) ks section)
  = if negb (string_includes note_types t) && string_includes ks t then None
    else get t section.
Proof.
  induction ks as [|k ks IH]; intros section; simpl.
  - now rewrite andb_false_r.
  - rewrite IH. destruct (jstring_eq_dec k t) as [->|Hne].
    + rewrite jstring_eqb_refl. simpl. rewrite andb_true_r.
      destruct (string_includes note_types t); simpl; [reflexivity|].
      rewrite get_delete_same. now destruct (string_includes ks t).
    + rewrite (jstring_eqb_neq t k) by congruence. simpl.
      destruct (negb (string_includes note_types t) && string_includes ks t);
        [reflexivity|].
      destruct (negb (string_includes note_types k)); [|reflexivity].
      now apply get_delete_other.
Qed.

Lemma remove_old_get note_types section t :
  get t (remove_old note_types section)
  = if string_includes note_types t then get t section else None.
Proof.
  unfold remove_old. rewrite fold_remove_get.
  destruct (string_includes note_types t); simpl; [reflexivity|].
  destruct (string_includes (keys section) t) eqn:E; [reflexivity|].
  apply get_None_keys. intros H. apply string_includes_In in H. congruence.
Qed.

Lemma regenerate_loop_done note_types : forall s,
  ~ In (str "hasOwnProperty") note_types ->
  no_shadow (CUSTOM_REGEXPS s) ->
  (forall tags, REGEXP_TAGS s = Some tags -> no_shadow tags) ->
  exists s',
    regenerate_loop note_types s = Done s' /\
    after_loop note_types (CUSTOM_REGEXPS s) (CUSTOM_REGEXPS s') /\
    match REGEXP_TAGS s with
    | Some old => exists new, REGEXP_TAGS s' = Some new /\ after_loop note_types old new
    | None => REGEXP_TAGS s' = None
    end /\
    FILE_LINK_FIELDS s' = FILE_LINK_FIELDS s /\
    CONTEXT_FIELDS s' = CONTEXT_FIELDS s /\
    ALIAS_FIELDS s' = ALIAS_FIELDS s.
Proof.
  induction note_types as [|a r IH]; intros s Hn Hc Ht.
  - exists s. split; [reflexivity|]. split; [intros t; reflexivity|].
    split; [|repeat split].
    destruct (REGEXP_TAGS s) as [old|]; [|reflexivity].
    exists old. split; [reflexivity|intros t; reflexivity].
  - assert (Ha : a <> str "hasOwnProperty") by (intros ->; apply Hn; now left).
    assert (Hr : ~ In (str "hasOwnProperty") r) by (intros H; apply Hn; now right).
    cbn [regenerate_loop]. unfold regenerate_step.
    destruct (keep_or_empty_get (CUSTOM_REGEXPS s) a Hc) as (c1 & -> & Hc1).
    cbn [REGEXP_TAGS set_CUSTOM_REGEXPS].
    destruct (REGEXP_TAGS s) as [old|] eqn:Eo.
    + destruct (keep_or_empty_get old a (Ht old eq_refl)) as (t1 & -> & Ht1).
      assert (N1 : no_shadow c1) by exact (no_shadow_kept _ c1 a Hc Ha Hc1).
      assert (N2 : no_shadow t1) by exact (no_shadow_kept old t1 a (Ht old eq_refl) Ha Ht1).
      destruct (IH (set_REGEXP_TAGS (Some t1) (set_CUSTOM_REGEXPS c1 s)) Hr)
        as (s' & -> & Hcs & Hts & Hf & Hx & Hal).
      * exact N1.
      * intros tags E. cbn [REGEXP_TAGS set_REGEXP_TAGS] in E. injection E as <-. exact N2.
      * cbn [REGEXP_TAGS CUSTOM_REGEXPS FILE_LINK_FIELDS CONTEXT_FIELDS ALIAS_FIELDS
             set_REGEXP_TAGS set_CUSTOM_REGEXPS] in *.
        exists s'. split; [reflexivity|].
        split; [exact (after_loop_step a r _ c1 _ Hc1 Hcs)|].
        split; [|now repeat split].
        destruct Hts as (new & En & Hnew). exists new.
        split; [exact En|exact (after_loop_step a r _ t1 _ Ht1 Hnew)].
    + assert (N1 : no_shadow c1) by exact (no_shadow_kept _ c1 a Hc Ha Hc1).
      destruct (IH (set_CUSTOM_REGEXPS c1 s) Hr) as (s' & -> & Hcs & Hts & Hf & Hx & Hal).
      * exact N1.
      * cbn [REGEXP_TAGS set_CUSTOM_REGEXPS]. rewrite Eo. discriminate.
      * cbn [REGEXP_TAGS CUSTOM_REGEXPS FILE_LINK_FIELDS CONTEXT_FIELDS ALIAS_FIELDS
             set_REGEXP_TAGS set_CUSTOM_REGEXPS] in *.
        rewrite Eo in Hts. exists s'. split; [reflexivity|].
        split; [exact (after_loop_step a r _ c1 _ Hc1 Hcs)|]. now repeat split.
Qed.

(** X14: when no note type is named [hasOwnProperty] and neither
    [CUSTOM_REGEXPS] nor [REGEXP_TAGS] has an own property of that name,
    [regenerateSettingsRegexps] returns, and afterwards the pattern table,
    and the tag table when there is one, have the current note types as
    keys: a current note type keeps the entry it had and gets the empty
    string when it had none (under [__proto__] no entry is created), and
    every other key is gone.  A missing tag table stays missing. *)
Theorem regenerate_tables_follow_note_types
        (note_types : list jstring) (s : PluginSettings) :
  ~ In (str "hasOwnProperty") note_types ->
  no_shadow (CUSTOM_REGEXPS s) ->
  (forall tags, REGEXP_TAGS s = Some tags -> no_shadow tags) ->
  exists s',
    regenerateSettingsRegexps note_types s = Done s' /\
    forall t,
      let expected (old : record jstring) :=
        if string_includes note_types t then kept_entry t (get t old) else None in
      get t (CUSTOM_REGEXPS s') = expected (CUSTOM_REGEXPS s) /\
      match REGEXP_TAGS s with
      | Some old => exists new, REGEXP_TAGS s' = Some new /\ get t new = expected old
      | None => REGEXP_TAGS s' = None
      end.
Proof.
  intros Hn Hc Ht. unfold regenerateSettingsRegexps.
  destruct (regenerate_loop_done note_types s Hn Hc Ht) as (s1 & -> & Hcs & Hts & _).
  eexists. split; [reflexivity|]. intros t. cbv zeta. simpl. split.
  - rewrite remove_old_get, Hcs. now destruct (string_includes note_types t).
  - destruct (REGEXP_TAGS s) as [old|].
    + destruct Hts as (new & -> & Hnew). simpl. eexists. split; [reflexivity|].
      rewrite remove_old_get, Hnew. now destruct (string_includes note_types t).
    + now rewrite Hts.
Qed.

Lemma regenerate_tables_follow_note_types_witness :
  let note_types := [str "Basic"; str "Cloze"] in
  let s := mkSettings [(str "Basic", str "^Q: (.*)"); (str "Old", str "x")]
                      (Some [(str "Old", str "tag")]) None None None None in
  (~ In (str "hasOwnProperty") note_types /\
   no_shadow (CUSTOM_REGEXPS s) /\
   (forall tags, REGEXP_TAGS s = Some tags -> no_shadow tags)) /\
  exists s',
    regenerateSettingsRegexps note_types s = Done s' /\
    forall t,
      let expected (old : record jstring) :=
        if string_includes note_types t then kept_entry t (get t old) else None in
      get t (CUSTOM_REGEXPS s') = expected (CUSTOM_REGEXPS s) /\
      match REGEXP_TAGS s with
      | Some old => exists new, REGEXP_TAGS s' = Some new /\ get t new = expected old
      | None => REGEXP_TAGS s' = None
      end.
Proof.
  cbv zeta.
  set (s := mkSettings [(str "Basic", str "^Q: (.*)"); (str "Old", str "x")]
                       (Some [(str "Old", str "tag")]) None None None None).
  assert (H1 : ~ In (str "hasOwnProperty") [str "Basic"; str "Cloze"]).
  { intros [H|[H|[]]]; discriminate H. }
  assert (H2 : no_shadow (CUSTOM_REGEXPS s)) by reflexivity.
  assert (H3 : forall tags, REGEXP_TAGS s = Some tags -> no_shadow tags).
  { intros tags E. injection E as <-. reflexivity. }
  split; [exact (conj H1 (conj H2 H3))|].
  exact (regenerate_tables_follow_note_types [str "Basic"; str "Cloze"] s H1 H2 H3).
Defined.

(** X15: under the same conditions [regenerateSettingsRegexps] only prunes
    the three field tables ([FILE_LINK_FIELDS], [CONTEXT_FIELDS],
    [ALIAS_FIELDS]): the entry of a current note type is left as it was (also
    when there is none), the entries of all other keys are deleted, and a
    missing table stays missing. *)
Theorem regenerate_prunes_field_tables
        (note_types : list jstring) (s : PluginSettings) :
  ~ In (str "hasOwnProperty") note_types ->
  no_shadow (CUSTOM_REGEXPS s) ->
  (forall tags, REGEXP_TAGS s = Some tags -> no_shadow tags) ->
  exists s',
    regenerateSettingsRegexps note_types s = Done s' /\
    forall t,
      let pruned (old new : option (record jstring)) :=
        match old with
        | Some old =>
            exists table,
              new = Some table /\
              get t table = if string_includes note_types t then get t old else None
        | None => new = None
        end in
      pruned (FILE_LINK_FIELDS s) (FILE_LINK_FIELDS s') /\
      pruned (CONTEXT_FIELDS s) (CONTEXT_FIELDS s') /\
      pruned (ALIAS_FIELDS s) (ALIAS_FIELDS s').
Proof.
  intros Hn Hc Ht. unfold regenerateSettingsRegexps.
  destruct (regenerate_loop_done note_types s Hn Hc Ht)
    as (s1 & -> & _ & _ & Hf & Hx & Hal).
  eexists. split; [reflexivity|]. intros t. cbv zeta. simpl.
  rewrite Hf, Hx, Hal. repeat split.
  - destruct (FILE_LINK_FIELDS s); simpl; [|reflexivity].
    eexists. split; [reflexivity|apply remove_old_get].
  - destruct (CONTEXT_FIELDS s); simpl; [|reflexivity].
    eexists. split; [reflexivity|apply remove_old_get].
  - destruct (ALIAS_FIELDS s); simpl; [|reflexivity].
    eexists. split; [reflexivity|apply remove_old_get].
Qed.

Lemma regenerate_prunes_field_tables_witness :
  let note_types := [str "Basic"; str "Cloze"] in
  let s := mkSettings [(str "Basic", str "^Q: (.*)")] None
                      (Some [(str "Basic", str "Source"); (str "Old", str "Link")])
                      None (Some []) None in
  (~ In (str "hasOwnProperty") note_types /\
   no_shadow (CUSTOM_REGEXPS s) /\
   (forall tags, REGEXP_TAGS s = Some tags -> no_shadow tags)) /\
  exists s',
    regenerateSettingsRegexps note_types s = Done s' /\
    forall t,
      let pruned (old new : option (record jstring)) :=
        match old with
        | Some old =>
            exists table,
              new = Some table /\
              get t table = if string_includes note_types t then get t old else None
        | None => new = None
        end in
      pruned (FILE_LINK_FIELDS s) (FILE_LINK_FIELDS s') /\
      pruned (CONTEXT_FIELDS s) (CONTEXT_FIELDS s') /\
      pruned (ALIAS_FIELDS s) (ALIAS_FIELDS s').
Proof.
  cbv zeta.
  set (s := mkSettings [(str "Basic", str "^Q: (.*)")] None
                       (Some [(str "Basic", str "Source"); (str "Old", str "Link")])
                       None (Some []) None).
  assert (H1 : ~ In (str "hasOwnProperty") [str "Basic"; str "Cloze"]).
  { intros [H|[H|[]]]; discriminate H. }
  assert (H2 : no_shadow (CUSTOM_REGEXPS s)) by reflexivity.
  assert (H3 : forall tags, REGEXP_TAGS s = Some tags -> no_shadow tags).
  { intros tags E. discriminate E. }
  split; [exact (conj H1 (conj H2 H3))|].
  exact (regenerate_prunes_field_tables [str "Basic"; str "Cloze"] s H1 H2 H3).
Defined.

(** X26: a table with an own property named [hasOwnProperty] makes
    [regenerateSettingsRegexps] throw at its first call of the method, the
    settings untouched; and a note type of that name, followed by another
    one, creates such a property in [CUSTOM_REGEXPS] and makes the next turn
    of the loop throw, the settings left with that one entry added. *)
Theorem regenerate_throws_on_shadowed_method
        (note_types : list jstring) (s : PluginSettings) (a : jstring) :
  (hasOwnProperty (CUSTOM_REGEXPS s) (str "hasOwnProperty") = true ->
   regenerateSettingsRegexps (a :: note_types) s = TypeError s) /\
  (no_shadow (CUSTOM_REGEXPS s) -> REGEXP_TAGS s = None ->
   regenerateSettingsRegexps (str "hasOwnProperty" :: a :: note_types) s
   = TypeError (set_CUSTOM_REGEXPS (set (str "hasOwnProperty") [] (CUSTOM_REGEXPS s)) s)).
Proof.
  split.
  - intros H. unfold regenerateSettingsRegexps. cbn [regenerate_loop].
    unfold regenerate_step, keep_or_empty, call_hasOwnProperty. now rewrite H.
  - intros Hs Ht. unfold no_shadow in Hs.
    assert (E1 : keep_or_empty (CUSTOM_REGEXPS s) (str "hasOwnProperty")
                 = Some (set (str "hasOwnProperty") [] (CUSTOM_REGEXPS s))).
    { unfold keep_or_empty, call_hasOwnProperty. rewrite Hs. reflexivity. }
    assert (E2 : keep_or_empty (set (str "hasOwnProperty") [] (CUSTOM_REGEXPS s)) a = None).
    { unfold keep_or_empty, call_hasOwnProperty, hasOwnProperty.
      now rewrite get_set_same. }
    unfold regenerateSettingsRegexps. cbn [regenerate_loop].
    unfold regenerate_step at 1. rewrite E1.
    cbn [REGEXP_TAGS set_CUSTOM_REGEXPS]. rewrite Ht.
    unfold regenerate_step. cbn [CUSTOM_REGEXPS set_CUSTOM_REGEXPS]. now rewrite E2.
Qed.

(** *** [validateSelectedFields] *)






Lemma validated_nil fields_dict t entry : validated fields_dict [] t entry = entry.
Proof. reflexivity. Qed.








(** X17: when one of the three field tables is missing from the settings
    and some note type has a non-empty field list in [fields_dict],
    [validateSelectedFields] does not return: it throws on reading a property
    of the missing table. *)
Theorem validation_throws_without_table
        (note_types : list jstring) (fields_dict : record (list jstring))
        (s : PluginSettings) (t first : jstring) (r : list jstring) :
  In t note_types -> get t fields_dict = Some (first :: r) ->
  FILE_LINK_FIELDS s = None \/ CONTEXT_FIELDS s = None \/ ALIAS_FIELDS s = None ->
  exists s', validateSelectedFields note_types fields_dict s = TypeError s'.
Proof.
  unfold validateSelectedFields. intros Hin Hf.
  revert s. induction note_types as [|a l IH]; intros s Hmiss; [contradiction|].
  cbn [validate_loop].
  assert (Hkeep : forall s1, validate_step fields_dict s a = Done s1 ->
             FILE_LINK_FIELDS s1 = None \/ CONTEXT_FIELDS s1 = None
             \/ ALIAS_FIELDS s1 = None).
  { unfold validate_step. intros s1.
    destruct (get a fields_dict) as [[|f0 r0]|]; try (intros H; injection H as <-; exact Hmiss).
    destruct s as [c tg [lk|] [cx|] [al|]]; simpl; try discriminate;
      destruct Hmiss as [H|[H|H]]; discriminate. }
  destruct (validate_step fields_dict s a) as [s1|s1] eqn:E; [|now exists s1].
  destruct Hin as [->|Hin].
  - exfalso. unfold validate_step in E. rewrite Hf in E.
    destruct s as [c tg [lk|] [cx|] [al|]]; simpl in *; try discriminate;
      destruct Hmiss as [H|[H|H]]; discriminate.
  - apply (IH Hin). now apply Hkeep.
Qed.

Lemma validation_throws_without_table_witness :
  let fields_dict := [(str "Basic", [str "Front"; str "Back"])] in
  let s := mkSettings [] None (Some []) None (Some []) None in
  (In (str "Basic") [str "Cloze"; str "Basic"] /\
   get (str "Basic") fields_dict = Some [str "Front"; str "Back"] /\
   (FILE_LINK_FIELDS s = None \/ CONTEXT_FIELDS s = None \/ ALIAS_FIELDS s = None)) /\
  exists s', validateSelectedFields [str "Cloze"; str "Basic"] fields_dict s = TypeError s'.
Proof.
  cbv zeta.
  assert (H1 : In (str "Basic") [str "Cloze"; str "Basic"]) by (right; now left).
  assert (H2 : get (str "Basic") [(str "Basic", [str "Front"; str "Back"])]
               = Some [str "Front"; str "Back"]) by reflexivity.
  assert (H3 : FILE_LINK_FIELDS (mkSettings [] None (Some []) None (Some []) None) = None
               \/ CONTEXT_FIELDS (mkSettings [] None (Some []) None (Some []) None) = None
               \/ ALIAS_FIELDS (mkSettings [] None (Some []) None (Some []) None) = None)
    by (right; now left).
  split; [auto|].
  exact (validation_throws_without_table _ _ _ _ _ _ H1 H2 H3).
Defined.


(** *** The Scan Tags filter and [hasRequiredTag] *)

Lemma has_scan_tag_required cache tags_str :
  nonempty tags_str = true -> (0 <? length (trim tags_str))%nat = true ->
  (0 <? length (required_tag_list tags_str))%nat = true ->
  has_scan_tag (required_tag_list tags_str) (Some cache)
  = hasRequiredTag cache (Some tags_str).
Proof.
  intros H1 H2 H3. unfold hasRequiredTag, has_scan_tag. rewrite H1. simpl.
  apply Nat.ltb_lt in H2, H3.
  destruct (Nat.eqb_spec (length (trim tags_str)) 0); [lia|].
  destruct (Nat.eqb_spec (length (required_tag_list tags_str)) 0); [lia|].
  destruct (frontmatter cache) as [fm|]; [|reflexivity].
  destruct (fm_tags fm) as [[a|s0]|]; reflexivity.
Qed.

(** X18: a file that has a metadata cache passes the Scan Tags filter of
    [syncFiles] exactly when it is one of the files to sync and
    [hasRequiredTag] of [file.ts] accepts its cache for the same tag list:
    the filter in [main.ts] and the method in [file.ts] decide alike. *)
Theorem scan_tags_filter_is_hasRequiredTag
        {F : Type} (scanTagsSetting : jstring) (getFileCache : F -> option CachedMetadata)
        (filesToSync : list F) (file : F) (cache : CachedMetadata) :
  getFileCache file = Some cache ->
  (In file (filter_by_scan_tags (Some scanTagsSetting) getFileCache filesToSync)
   <-> In file filesToSync /\ hasRequiredTag cache (Some scanTagsSetting) = true).
Proof.
  intros Hc. unfold filter_by_scan_tags.
  fold (required_tag_list scanTagsSetting).
  destruct (nonempty scanTagsSetting) eqn:H1; simpl.
  - destruct (0 <? length (trim scanTagsSetting))%nat eqn:H2.
    + destruct (0 <? length (required_tag_list scanTagsSetting))%nat eqn:H3.
      * rewrite filter_In, Hc. now rewrite has_scan_tag_required.
      * unfold hasRequiredTag. rewrite H1. simpl.
        apply Nat.ltb_ge in H3.
        destruct (Nat.eqb_spec (length (trim scanTagsSetting)) 0); [tauto|].
        destruct (Nat.eqb_spec (length (required_tag_list scanTagsSetting)) 0); [tauto|lia].
    + unfold hasRequiredTag. rewrite H1. simpl. apply Nat.ltb_ge in H2.
      destruct (Nat.eqb_spec (length (trim scanTagsSetting)) 0); [tauto|lia].
  - unfold hasRequiredTag. rewrite H1. simpl. tauto.
Qed.

Lemma scan_tags_filter_is_hasRequiredTag_witness :
  let tagged := mkCache (Some (mkFrontMatter (Some (TagString (str "anki, todo"))) None)) None in
  let plain := mkCache None None in
  let getFileCache (file : nat) :=
    match file with 0%nat => Some tagged | 1%nat => Some plain | _ => None end in
  getFileCache 0%nat = Some tagged /\
  (In 0%nat (filter_by_scan_tags (Some (str "anki")) getFileCache [0; 1; 2]%nat)
   <-> In 0%nat [0; 1; 2]%nat /\ hasRequiredTag tagged (Some (str "anki")) = true).
Proof.
  cbv zeta. split; [reflexivity|].
  apply (scan_tags_filter_is_hasRequiredTag
           (str "anki")
           (fun file : nat =>
              match file with
              | 0%nat => Some (mkCache (Some (mkFrontMatter (Some (TagString (str "anki, todo")))
                                                           None)) None)
              | 1%nat => Some (mkCache None None)
              | _ => None
              end)
           [0; 1; 2]%nat 0%nat).
  reflexivity.
Defined.

(** *** [applyCloze]: the number chosen *)

Lemma has_In existing n : has existing n = true <-> In (Some n) existing.
Proof.
  unfold has. rewrite existsb_exists. split.
  - intros ([k|] & Hk & E); [|discriminate]. apply Z.eqb_eq in E. now subst.
  - intros H. exists (Some n). split; [exact H|apply Z.eqb_refl].
Qed.

Lemma count_up_spec existing fuel : forall n,
  let r := count_up fuel existing n in
  n <= r <= n + Z.of_nat fuel /\
  (forall k, n <= k < r -> has existing k = true) /\
  (r < n + Z.of_nat fuel -> has existing r = false).
Proof.
  induction fuel as [|fuel IH]; intros n; cbn [count_up].
  - cbv zeta. repeat split; try lia.
  - destruct (has existing n) eqn:E.
    + specialize (IH (n + 1)). cbv zeta in *. destruct IH as (H1 & H2 & H3).
      repeat split; try lia.
      * intros k Hk. destruct (Z.eq_dec k n) as [->|]; [exact E|]. apply H2. lia.
      * intros Hr. apply H3. lia.
    + cbv zeta. repeat split; try lia. intros _. exact E.
Qed.

Lemma NoDup_map_injective {A B} (g : A -> B) l :
  (forall x y, g x = g y -> x = y) -> NoDup l -> NoDup (map g l).
Proof.
  intros Hg H. induction H as [|x l Hx Hl IH]; simpl; constructor; [|exact IH].
  intros Hin. apply in_map_iff in Hin. destruct Hin as (y & Hy & Hin).
  apply Hg in Hy. now subst.
Qed.

Lemma run_of_numbers_fits existing n len :
  (forall k, n <= k < n + Z.of_nat len -> In (Some k) existing) ->
  (len <= length existing)%nat.
Proof.
  intros H.
  set (ks := map (fun i => Some (n + Z.of_nat i)) (seq 0 len)).
  assert (Hlen : length ks = len) by (unfold ks; now rewrite length_map, length_seq).
  rewrite <- Hlen. apply NoDup_incl_length.
  - unfold ks. apply NoDup_map_injective; [|apply seq_NoDup].
    intros i j Hij. injection Hij. lia.
  - intros x Hx. unfold ks in Hx. apply in_map_iff in Hx.
    destruct Hx as (i & <- & Hi). apply in_seq in Hi. apply H. lia.
Qed.

(** X19: the number that [applyCloze] gives to a new cloze is the least
    positive number that no cloze opener in the lines of the selection
    carries, and the loop that looks for it ends by its own test (within one
    round more than there are openers); the replacement is the selection
    wrapped in an opener with that number and two closing braces. *)
Theorem applyCloze_takes_least_free_number
        (lines : list jstring) (startLine endLine : nat) (selection : jstring) :
  let existing := existingNumbers (contextContent lines startLine endLine) in
  let n := nextNumber existing in
  1 <= n /\ has existing n = false /\
  (forall k, 1 <= k < n -> has existing k = true) /\
  applyCloze lines startLine endLine selection
  = str "{{c" ++ number_to_string n ++ str "::" ++ selection ++ str "}}".
Proof.
  intros existing n. unfold n, nextNumber.
  destruct (count_up_spec existing (S (length existing)) 1) as (H1 & H2 & H3).
  cbv zeta in *. repeat split; try lia; try exact H2.
  apply H3.
  destruct (Z.eq_dec (count_up (S (length existing)) existing 1)
                     (1 + Z.of_nat (S (length existing)))) as [E|]; [|lia].
  exfalso.
  assert (Hfit := run_of_numbers_fits existing 1 (S (length existing))).
  assert (S (length existing) <= length existing)%nat; [|lia].
  apply Hfit. intros k Hk. apply has_In, H2. lia.
Qed.

(** *** [getAllTFilesInFolder] *)

Lemma files_of_children children f :
  In f (getAllTFilesInFolder (TFolder children)) <->
  exists child, In child children /\
    match child with
    | TFile _ => f = child
    | TFolder _ => In f (getAllTFilesInFolder child)
    | OtherFile => False
    end.
Proof.
  cbn [getAllTFilesInFolder]. rewrite in_flat_map. split.
  - intros (child & Hc & Hf). exists child. split; [exact Hc|].
    destruct child; simpl in Hf; [|exact Hf|contradiction].
    destruct Hf as [<-|[]]. reflexivity.
  - intros (child & Hc & Hf). exists child. split; [exact Hc|].
    destruct child; [|exact Hf|contradiction]. subst f. now left.
Qed.

Lemma depth_child children child :
  In child children -> (depth child < depth (TFolder children))%nat.
Proof.
  cbn [depth]. induction children as [|c r IH]; [contradiction|].
  intros [->|H]; simpl; [lia|]. specialize (IH H). lia.
Qed.

(** X20: [getAllTFilesInFolder] returns exactly the files that lie
    somewhere under the folder, at any depth, and nothing else; given
    anything that is not a folder it returns no file. *)
Theorem folder_walk_finds_the_files_under_it (tfolder f : TAbstractFile) :
  In f (getAllTFilesInFolder tfolder) <-> file_under tfolder f.
Proof.
  remember (depth tfolder) as d eqn:Hd. revert tfolder f Hd.
  induction d as [d IH] using lt_wf_ind. intros tfolder f Hd.
  destruct tfolder as [p|children|].
  - split; [contradiction|]. intros H. inversion H.
  - rewrite files_of_children. split.
    + intros (child & Hc & Hf). destruct child as [p|sub|]; [| |contradiction].
      * subst f. now constructor.
      * apply (under_folder children sub); [exact Hc|].
        apply (IH (depth (TFolder sub))); [|reflexivity|exact Hf].
        subst d. now apply depth_child.
    + intros H. inversion H as [ch p Hc|ch sub f' Hc Hs]; subst.
      * exists (TFile p). now split.
      * exists (TFolder sub). split; [exact Hc|].
        apply (IH (depth (TFolder sub))); [|reflexivity|exact Hs].
        now apply depth_child.
  - split; [contradiction|]. intros H. inversion H.
Qed.

End PluginFacts.

(** ** What is written is what is read: identifier markers and the
    front-matter identifier *)

Module MatcherFacts.
Import RegexProps RegexFacts MatcherProps.

Lemma advance_pos w : forall s, pos (advance s w) = (pos s + length w)%nat.
Proof. induction w as [|c w IH]; intros s; simpl; [lia|]. rewrite IH. simpl. lia. Qed.

Lemma advance_caps w : forall s, caps (advance s w) = caps s.
Proof. induction w as [|c w IH]; intros s; simpl; [reflexivity|]. now rewrite IH. Qed.

Lemma advance_rest w : forall s tail, rest s = w ++ tail -> rest (advance s w) = tail.
Proof.
  induction w as [|c w IH]; intros s tail H; simpl; [exact H|].
  apply IH. simpl. now rewrite H.
Qed.

Lemma advance_app w1 w2 s : advance s (w1 ++ w2) = advance (advance s w1) w2.
Proof. revert s. induction w1 as [|c w IH]; intros s; simpl; [reflexivity|]. apply IH. Qed.

(** A literal that is there is consumed. *)
Lemma run_Str_there multiline lit : forall s tail k,
  rest s = lit ++ tail -> run multiline (Str lit) s k = k (advance s lit).
Proof.
  induction lit as [|c lit IH]; intros s tail k H; simpl; [reflexivity|].
  rewrite H. simpl. rewrite Ascii.eqb_refl. apply (IH _ tail). reflexivity.
Qed.

(** A greedy repetition of a character class takes the whole run when the
    continuation accepts after it. *)
Lemma run_greedy_class multiline cl w : forall s tail k res,
  rest s = w ++ tail -> forallb (cmatch cl) w = true ->
  match tail with [] => True | c :: _ => cmatch cl c = false end ->
  k (advance s w) = Some res ->
  run multiline (Star true (Chr cl)) s k = Some res.
Proof.
  induction w as [|c w IH]; intros s tail k res Hr Hw Ht Hk; rewrite run_Star.
  - simpl in Hr, Hk. destruct (length (rest s)) eqn:El; simpl; [exact Hk|].
    rewrite Hr. destruct tail as [|c t']; [exact Hk|]. now rewrite Ht.
  - simpl in Hw. apply andb_prop in Hw. destruct Hw as (Hc & Hw).
    rewrite Hr. cbn [length app star_loop run]. rewrite Hr. cbn [app]. rewrite Hc.
    cbn [pos]. replace (pos s <? S (pos s))%nat with true
      by (symmetry; apply Nat.ltb_lt; lia).
    change (star_loop multiline true (Chr cl) k (length (w ++ tail)) ?x)
      with (star_loop multiline true (Chr cl) k
              (length (rest (mkCursor (S (pos s)) (Some c) (w ++ tail) (caps s))))
              (mkCursor (S (pos s)) (Some c) (w ++ tail) (caps s))).
    rewrite <- run_Star.
    rewrite (IH _ tail k res); [reflexivity|reflexivity|exact Hw|exact Ht|].
    simpl in Hk. now rewrite Hr in Hk.
Qed.


(** *** Decimal numerals *)

Lemma uint_digits d :
  forallb is_digit (str (NilEmpty.string_of_uint d)) = true.
Proof. induction d; simpl; try reflexivity; exact IHd. Qed.

Lemma uint_value_acc d : forall acc,
  fold_left (fun a c => 10 * a + digit_value c) (str (NilEmpty.string_of_uint d)) (Z.pos acc)
  = Z.pos (Pos.of_uint_acc d acc).
Proof.
  induction d; intros acc; cbn [NilEmpty.string_of_uint str list_ascii_of_string fold_left
                                Pos.of_uint_acc];
    try reflexivity; unfold str in IHd; rewrite <- IHd; f_equal;
    match goal with
    | |- context [digit_value ?c] =>
        let v := eval vm_compute in (digit_value c) in change (digit_value c) with v
    end; lia.
Qed.

Lemma uint_value d :
  fold_left (fun a c => 10 * a + digit_value c) (str (NilEmpty.string_of_uint d)) 0
  = Z.of_N (Pos.of_uint d).
Proof.
  induction d; cbn [NilEmpty.string_of_uint str list_ascii_of_string fold_left Pos.of_uint];
    try reflexivity; try exact IHd;
    match goal with
    | |- fold_left _ _ ?z = _ =>
        let p := eval vm_compute in z in change z with p
    end;
    apply (uint_value_acc d).
Qed.

(** The decimal numeral of a natural number: a non-empty run of digits that
    reads back as the number. *)
Lemma number_to_string_digits n :
  0 <= n ->
  exists d ds, number_to_string n = d :: ds /\ forallb is_digit (d :: ds) = true /\
               parse_digits 10 (d :: ds) = n.
Proof.
  intros Hn. destruct n as [|p|p]; [| |lia].
  - exists "0"%char, []. repeat split.
  - unfold number_to_string. cbn [Z.to_int NilZero.string_of_int].
    assert (Hnn := DecimalPos.Unsigned.to_uint_nonnil p).
    assert (E : NilZero.string_of_uint (Pos.to_uint p)
                = NilEmpty.string_of_uint (Pos.to_uint p)).
    { unfold NilZero.string_of_uint. destruct (Pos.to_uint p); try reflexivity.
      contradiction. }
    rewrite E.
    assert (Hd := uint_digits (Pos.to_uint p)).
    assert (Hv := uint_value (Pos.to_uint p)).
    rewrite DecimalPos.Unsigned.of_to in Hv. simpl Z.of_N in Hv.
    destruct (str (NilEmpty.string_of_uint (Pos.to_uint p))) as [|d ds] eqn:Es.
    + exfalso. destruct (Pos.to_uint p); try contradiction; discriminate Es.
    + exists d, ds. repeat split; assumption.
Qed.


Lemma run_Str_differs multiline c lit s k x r :
  rest s = x :: r -> Ascii.eqb c x = false -> run multiline (Str (c :: lit)) s k = None.
Proof. intros H E. simpl. rewrite H. simpl. now rewrite E. Qed.

Lemma search_here multiline r p pv t m :
  match_here multiline r (mkCursor p pv t []) = Some m ->
  Regex.search multiline r p pv t = Some m.
Proof. intros H. destruct t; simpl; now rewrite H. Qed.

(** A lazy repetition of a character class stops at the first place where
    the continuation accepts. *)
Lemma run_lazy_class multiline cl w : forall s tail k res,
  rest s = w ++ tail -> forallb (cmatch cl) w = true ->
  (forall w1 c w2, w = w1 ++ c :: w2 -> k (advance s w1) = None) ->
  k (advance s w) = Some res ->
  run multiline (Star false (Chr cl)) s k = Some res.
Proof.
  induction w as [|c w IH]; intros s tail k res Hr Hw Hno Hk; rewrite run_Star.
  - simpl in Hk. destruct (length (rest s)); simpl; now rewrite Hk.
  - simpl in Hw. apply andb_prop in Hw. destruct Hw as (Hc & Hw).
    rewrite Hr. cbn [length app star_loop run]. rewrite Hr. cbn [app]. rewrite Hc.
    assert (Hks : k s = None) by apply (Hno [] c w eq_refl).
    rewrite Hks. cbn [orelse pos].
    replace (pos s <? S (pos s))%nat with true
      by (symmetry; apply Nat.ltb_lt; lia).
    change (star_loop multiline false (Chr cl) k (length (w ++ tail)) ?x)
      with (star_loop multiline false (Chr cl) k
              (length (rest (mkCursor (S (pos s)) (Some c) (w ++ tail) (caps s))))
              (mkCursor (S (pos s)) (Some c) (w ++ tail) (caps s))).
    rewrite <- run_Star.
    apply (IH _ tail k res); [reflexivity|exact Hw| |].
    + intros w1 c' w2 E. specialize (Hno (c :: w1) c' w2). simpl in Hno.
      rewrite Hr in Hno. apply Hno. now rewrite E.
    + simpl in Hk. now rewrite Hr in Hk.
Qed.

End MatcherFacts.

Module RoundTripFacts.
Import Scanner RegexProps RegexFacts MatcherProps MatcherFacts MarkerFacts.

(** The marker pattern at a marker: an optional comment opener, "ID: ", the
    digits, and [dots], the rest of the line. *)
Lemma ID_REGEXP_at_marker multiline s (opener : bool) d ds dots tail :
  let pre := if opener then str "<!--" else [] in
  rest s = pre ++ str "ID: " ++ (d :: ds) ++ dots ++ tail ->
  forallb is_digit (d :: ds) = true ->
  forallb (fun c => negb (is_line_terminator c)) dots = true ->
  match dots ++ tail with [] => True | c :: _ => is_digit c = false end ->
  match tail with [] => True | c :: _ => is_line_terminator c = true end ->
  exists s',
    run multiline ID_REGEXP s Some = Some s' /\
    pos s' = (pos s + length pre + 4 + S (length ds) + length dots)%nat /\
    rest s' = tail /\
    caps s' = (1%nat, ((pos s + length pre + 4)%nat,
                       (pos s + length pre + 4 + S (length ds))%nat)) :: caps s.
Proof.
  intros pre Hr Hd Hdots Hnd Htail.
  cbn [forallb] in Hd. apply andb_prop in Hd. destruct Hd as (Hd0 & Hds).
  (* from "ID: " on *)
  set (marker := Seq (Str (str "ID: "))
                     (Seq (Group 1 (Plus (Chr Digit))) (Star true (Chr Dot)))).
  assert (Hk2 : forall s2, rest s2 = str "ID: " ++ (d :: ds) ++ dots ++ tail ->
            exists s',
              run multiline marker s2 Some = Some s' /\
              pos s' = (pos s2 + 4 + S (length ds) + length dots)%nat /\
              rest s' = tail /\
              caps s' = (1%nat, ((pos s2 + 4)%nat, (pos s2 + 4 + S (length ds))%nat))
                        :: caps s2).
  { intros s2 H2. unfold marker.
    change (run multiline (Seq ?a ?b) s2 Some)
      with (run multiline a s2 (fun s3 => run multiline b s3 Some)).
    rewrite (run_Str_there _ _ s2 ((d :: ds) ++ dots ++ tail)) by exact H2.
    set (s3 := advance s2 (str "ID: ")).
    assert (H3 : rest s3 = (d :: ds) ++ dots ++ tail) by (apply advance_rest; exact H2).
    assert (P3 : pos s3 = (pos s2 + 4)%nat) by (unfold s3; now rewrite advance_pos).
    assert (C3 : caps s3 = caps s2) by (unfold s3; now rewrite advance_caps).
    cbn [run Plus]. rewrite H3. cbn [app cmatch]. rewrite Hd0.
    set (s3' := mkCursor (S (pos s3)) (Some d) (ds ++ dots ++ tail) (caps s3)).
    set (s4 := advance s3' ds).
    assert (H4 : rest s4 = dots ++ tail) by (apply advance_rest; reflexivity).
    assert (P4 : pos s4 = (pos s2 + 4 + S (length ds))%nat).
    { unfold s4. rewrite advance_pos. unfold s3'. cbn [pos]. lia. }
    assert (C4 : caps s4 = caps s2).
    { unfold s4. rewrite advance_caps. unfold s3'. cbn [caps]. exact C3. }
    set (s4g := mkCursor (pos s4) (prev s4) (rest s4) ((1%nat, (pos s3, pos s4)) :: caps s4)).
    exists (advance s4g dots). split; [|split; [|split]].
    - eapply (run_greedy_class multiline Digit ds s3' (dots ++ tail));
        [reflexivity|exact Hds|exact Hnd|].
      fold s4. fold s4g.
      eapply (run_greedy_class multiline Dot dots s4g tail); [exact H4|exact Hdots| |reflexivity].
      destruct tail as [|c t']; [exact I|]. simpl. now rewrite Htail.
    - rewrite advance_pos. unfold s4g. cbn [pos]. lia.
    - apply advance_rest. exact H4.
    - rewrite advance_caps. unfold s4g. cbn [caps]. now rewrite C4, P4, P3. }
  change (run multiline ID_REGEXP s Some)
    with (orelse (run multiline (Chr (Lit LF)) s
                    (fun s1 => orelse (run multiline (Str (str "<!--")) s1
                                         (fun s2 => run multiline marker s2 Some))
                                      (run multiline marker s1 Some)))
                 (orelse (run multiline (Str (str "<!--")) s
                            (fun s2 => run multiline marker s2 Some))
                         (run multiline marker s Some))).
  assert (Hlf : forall k, run multiline (Chr (Lit LF)) s k = None).
  { intros k. cbn [run]. rewrite Hr. destruct opener; reflexivity. }
  rewrite Hlf. cbn [orelse].
  destruct opener; unfold pre in *; cbn [app] in Hr.
  - (* comment opener *)
    rewrite (run_Str_there _ (str "<!--") s (str "ID: " ++ (d :: ds) ++ dots ++ tail))
      by exact Hr.
    set (s2 := advance s (str "<!--")).
    assert (H2 : rest s2 = str "ID: " ++ (d :: ds) ++ dots ++ tail)
      by (apply advance_rest; exact Hr).
    destruct (Hk2 s2 H2) as (s' & E & P & R & C). rewrite E. cbn [orelse].
    exists s'. split; [reflexivity|].
    unfold s2 in P, C. rewrite advance_pos in P. rewrite advance_caps in C.
    change (length (str "<!--")) with 4%nat in *. repeat split; [lia|exact R|].
    rewrite C, advance_pos. reflexivity.
  - (* no opener *)
    change (str "<!--") with ("<"%char :: str "!--").
    rewrite (run_Str_differs multiline "<"%char _ s _ "I"%char _ Hr eq_refl).
    cbn [orelse]. destruct (Hk2 s Hr) as (s' & E & P & R & C). rewrite E.
    exists s'. split; [reflexivity|]. cbn [length]. repeat split; [lia|exact R|].
    rewrite C, !Nat.add_0_r. reflexivity.
Qed.


Lemma no_marker_after tail fuel p pv :
  tail = [] \/ tail = [LF] ->
  matches_from fuel false ID_REGEXP p pv tail = [].
Proof. intros [-> | ->]; destruct fuel; reflexivity. Qed.

(** X21: what [id_to_str] writes is what the marker pattern reads.  For
    every identifier [n] from 0 to [Number.MAX_SAFE_INTEGER], in each of the
    four forms (inline or block, comment or plain), the bulk deletion finds
    in the written marker exactly one identifier, and it is [n]. *)
Theorem written_marker_reads_back (n : Z) (inline comment : bool) :
  0 <= n <= MAX_SAFE_INTEGER ->
  BulkDelete.inline_ids (id_to_str n inline comment) = [n].
Proof.
  intros (Hn & _). destruct (number_to_string_digits n Hn) as (d & ds & E & Hd & Hv).
  set (pre := if comment then str "<!--" else []).
  set (dots := (if comment then str "-->" else []) ++ (if inline then str " " else [])).
  set (tail := if inline then [] else [LF]).
  assert (Et : id_to_str n inline comment
               = pre ++ str "ID: " ++ (d :: ds) ++ dots ++ tail).
  { unfold id_to_str, pre, dots, tail. rewrite E.
    destruct comment, inline; cbn [app]; rewrite <- ?app_assoc; reflexivity. }
  set (text := id_to_str n inline comment) in *.
  set (s0 := mkCursor 0 None text []).
  assert (Hdots : forallb (fun c => negb (is_line_terminator c)) dots = true)
    by (unfold dots; destruct comment, inline; reflexivity).
  assert (Hnd : match dots ++ tail with [] => True | c :: _ => is_digit c = false end)
    by (unfold dots, tail; destruct comment, inline; simpl; auto).
  assert (Htail : match tail with [] => True | c :: _ => is_line_terminator c = true end)
    by (unfold tail; destruct inline; simpl; auto).
  destruct (ID_REGEXP_at_marker false s0 comment d ds dots tail Et Hd Hdots Hnd Htail)
    as (s' & Hrun & P & R & C).
  fold pre in P, C. cbn [pos caps s0] in P, C.
  unfold BulkDelete.inline_ids, matches, BulkDelete.regex. cbn [multiline pattern].
  unfold matchAll. cbn [matches_from].
  rewrite (search_here false ID_REGEXP 0 None text (mkMatch 0 (pos s') (caps s') s')).
  2:{ unfold match_here. fold s0. now rewrite Hrun. }
  cbn [index stop after].
  replace (0 <? pos s')%nat with true by (symmetry; apply Nat.ltb_lt; lia).
  rewrite R, no_marker_after by (unfold tail; destruct inline; auto).
  cbn [map]. unfold group_text, group. cbn [groups]. rewrite C.
  cbn [lookup_group Nat.eqb].
  assert (Hsub : substring text (0 + length pre + 4) (0 + length pre + 4 + S (length ds))
                 = d :: ds).
  { replace (0 + length pre + 4)%nat with (pos s0 + length (pre ++ str "ID: "))%nat
      by (rewrite length_app; reflexivity).
    apply (substring_at text s0 (pre ++ str "ID: ") (d :: ds) (dots ++ tail)).
    - split; [cbn; lia|reflexivity].
    - cbn [rest s0]. rewrite Et, <- !app_assoc. reflexivity. }
  rewrite Hsub. destruct (parseInt_digits d ds Hd) as (-> & _).
  cbn [BulkDelete.numbers]. now rewrite Hv.
Qed.

Lemma written_marker_reads_back_witness :
  0 <= 1700000000000 <= MAX_SAFE_INTEGER /\
  BulkDelete.inline_ids (id_to_str 1700000000000 false true) = [1700000000000].
Proof.
  assert (H : 0 <= 1700000000000 <= MAX_SAFE_INTEGER) by (unfold MAX_SAFE_INTEGER; lia).
  split; [exact H|]. exact (written_marker_reads_back 1700000000000 false true H).
Defined.



(** *** The front-matter identifier *)

Lemma digits_no_line_feed ds :
  forallb is_digit ds = true -> Forall (fun c => Ascii.eqb LF c = false) ds.
Proof.
  induction ds as [|c ds IH]; simpl; intros H; constructor.
  - apply andb_prop in H. destruct H as (Hc & _).
    destruct c as [[] [] [] [] [] [] [] []]; try discriminate Hc; reflexivity.
  - apply IH. apply andb_prop in H. tauto.
Qed.

(** The front-matter pattern on a text that starts with a block holding the
    one line [line]: group 1 is that line. *)
Lemma frontmatter_block_found line body :
  Forall (fun c => Ascii.eqb LF c = false) line ->
  exists m,
    first_match frontmatterRegex
      (str "---" ++ [LF] ++ line ++ [LF] ++ str "---" ++ [LF] ++ body) = Some m /\
    group_text (str "---" ++ [LF] ++ line ++ [LF] ++ str "---" ++ [LF] ++ body) m 1 = line.
Proof.
  intros Hline.
  set (text := str "---" ++ [LF] ++ line ++ [LF] ++ str "---" ++ [LF] ++ body).
  set (s0 := mkCursor 0 None text []).
  set (k := fun s' : cursor =>
              run false (Str (LF :: str "---"))
                  (mkCursor (pos s') (prev s') (rest s') ((1%nat, (4%nat, pos s')) :: caps s'))
                  Some).
  set (s1 := advance s0 (str "---" ++ [LF])).
  assert (H1 : rest s1 = line ++ [LF] ++ str "---" ++ [LF] ++ body)
    by (apply advance_rest; reflexivity).
  assert (Hend : exists res, k (advance s1 line) = Some res /\
                             caps res = [(1%nat, (4%nat, (4 + length line)%nat))]).
  { unfold k.
    assert (Hr := advance_rest line s1 _ H1).
    assert (Hp := advance_pos line s1). assert (Hc := advance_caps line s1).
    eexists. split.
    - erewrite (run_Str_there false (LF :: str "---") _ ([LF] ++ body));
        [reflexivity|exact Hr].
    - rewrite advance_caps. cbn [caps]. rewrite Hc, Hp. reflexivity. }
  destruct Hend as (res & Hk & Hcaps).
  assert (Hrun : run false (pattern frontmatterRegex) s0 Some = Some res).
  { unfold frontmatterRegex. cbn [pattern].
    change (run false (Seq Bol ?r) s0 Some) with (run false r s0 Some).
    change (run false (Seq (Str ?a) (Seq (Group 1 ?g) ?b)) s0 Some)
      with (run false (Str a) s0
              (fun s1 => run false g s1
                 (fun s' => run false b
                    (mkCursor (pos s') (prev s') (rest s') ((1%nat, (pos s1, pos s')) :: caps s'))
                    Some))).
    rewrite (run_Str_there false _ s0 (line ++ [LF] ++ str "---" ++ [LF] ++ body))
      by reflexivity.
    fold s1. change (pos s1) with 4%nat.
    apply (run_lazy_class false AnyChar line s1 ([LF] ++ str "---" ++ [LF] ++ body) k res H1).
    - clear. induction line; simpl; auto.
    - intros w1 c w2 E. unfold k. 
      assert (Hr : rest (advance s1 w1) = c :: w2 ++ [LF] ++ str "---" ++ [LF] ++ body).
      { apply advance_rest. rewrite H1, E, <- app_assoc. reflexivity. }
      apply (run_Str_differs false LF _ _ _ c (w2 ++ [LF] ++ str "---" ++ [LF] ++ body)).
      + exact Hr.
      + rewrite E in Hline. apply Forall_app in Hline. destruct Hline as (_ & Hline).
        now inversion Hline.
    - exact Hk. }
  exists (mkMatch 0 (pos res) (caps res) res). split.
  - unfold first_match, exec. apply search_here. unfold match_here.
    change (multiline frontmatterRegex) with false. fold s0. now rewrite Hrun.
  - unfold group_text, group. cbn [groups]. rewrite Hcaps. cbn [lookup_group Nat.eqb].
    change 4%nat with (pos s0 + length (str "---" ++ [LF]))%nat at 1.
    change (4 + length line)%nat with (pos s0 + length (str "---" ++ [LF]) + length line)%nat.
    apply (substring_at text s0 (str "---" ++ [LF]) line ([LF] ++ str "---" ++ [LF] ++ body)).
    + split; [cbn; lia|reflexivity].
    + reflexivity.
Qed.

(** The pattern of the bulk deletion on the line "nid: " and digits. *)
Lemma nid_number_reads d ds :
  forallb is_digit (d :: ds) = true ->
  exists m,
    first_match BulkDelete.nid_number (str "nid: " ++ d :: ds) = Some m /\
    group_text (str "nid: " ++ d :: ds) m 1 = d :: ds.
Proof.
  intros Hd. set (text := str "nid: " ++ d :: ds).
  set (s0 := mkCursor 0 None text []).
  assert (Hd' := Hd). cbn [forallb] in Hd'. apply andb_prop in Hd'.
  destruct Hd' as (Hd0 & Hds).
  set (s1 := advance s0 (str "nid:")).
  set (s2 := advance s1 (str " ")).
  set (s3 := mkCursor (S (pos s2)) (Some d) ds (caps s2)).
  set (s4 := advance s3 ds).
  set (res := mkCursor (pos s4) (prev s4) (rest s4) ((1%nat, (pos s2, pos s4)) :: caps s4)).
  assert (Hrun : run true (pattern BulkDelete.nid_number) s0 Some = Some res).
  { unfold BulkDelete.nid_number. cbn [pattern].
    change (run true (Seq Bol ?r) s0 Some) with (run true r s0 Some).
    change (run true (Seq (Str ?a) (Seq ?sp (Group 1 ?g))) s0 Some)
      with (run true (Str a) s0
              (fun s1 => run true sp s1
                 (fun s2 => run true g s2
                    (fun s' => Some (mkCursor (pos s') (prev s') (rest s')
                                            ((1%nat, (pos s2, pos s')) :: caps s')))))).
    rewrite (run_Str_there true _ s0 (str " " ++ d :: ds)) by reflexivity.
    fold s1.
    apply (run_greedy_class true Space (str " ") s1 (d :: ds)); [reflexivity|reflexivity| |].
    - simpl. now destruct (digit_cases d Hd0) as (-> & _).
    - fold s2. cbn [run Plus].
      assert (H2 : rest s2 = d :: ds) by reflexivity.
      rewrite H2. cbn [cmatch]. rewrite Hd0. fold s3.
      apply (run_greedy_class true Digit ds s3 []);
        [cbn [rest s3]; now rewrite app_nil_r|exact Hds|exact I|reflexivity]. }
  exists (mkMatch 0 (pos res) (caps res) res). split.
  - unfold first_match, exec. apply search_here. unfold match_here.
    change (multiline BulkDelete.nid_number) with true. fold s0. now rewrite Hrun.
  - unfold group_text, group. cbn [groups caps res]. cbn [lookup_group Nat.eqb].
    unfold s4. rewrite advance_pos. cbn [pos s3 s2 s1 s0 advance str list_ascii_of_string].
    change (substring text 5 (S 5 + length ds) = d :: ds).
    change 5%nat with (pos s0 + length (str "nid: "))%nat at 1.
    change (S 5 + length ds)%nat
      with (pos s0 + length (str "nid: ") + length (d :: ds))%nat.
    apply (substring_at text s0 (str "nid: ") (d :: ds) []).
    + split; [cbn; lia|reflexivity].
    + cbn [rest s0]. unfold text. now rewrite app_nil_r.
Qed.


(** X22: front-matter mode on a file without a front-matter block and
    without recorded marker spans, the target identifier [n] being a
    positive number up to [Number.MAX_SAFE_INTEGER]: [writeIDs] puts a block
    with the one line [nid: n] before the text and changes nothing else, and
    the bulk deletion reads the identifier [n] back from the file that was
    written. *)
Theorem frontmatter_nid_written_then_read (data : FileData) (st : AllFile) (n : Z) :
  useFrontmatterID st = true -> existingIDSpans st = [] ->
  getTargetID st = Some n -> 0 < n <= MAX_SAFE_INTEGER ->
  first_match frontmatterRegex (file st) = None ->
  file (writeIDs data st)
  = str "---" ++ [LF] ++ str "nid: " ++ number_to_string n ++ [LF]
    ++ str "---" ++ [LF] ++ file st /\
  BulkDelete.frontmatter_nid (file (writeIDs data st)) = Some (Some n).
Proof.
  intros Hu He Ht (Hn & _) Hf.
  assert (Hfile : file (writeIDs data st)
                  = str "---" ++ [LF] ++ str "nid: " ++ number_to_string n ++ [LF]
                    ++ str "---" ++ [LF] ++ file st).
  { unfold writeIDs, writeIDs_edits. rewrite Hu, He, Ht.
    rewrite (ScannerFacts.truthy_nonzero n) by lia.
    cbn [map app]. unfold write_frontmatter_nid. rewrite Hf.
    cbn [file set_file useFrontmatterID negb].
    unfold EditEngine.apply_edits. cbn [EditEngine.sort_desc EditEngine.insert_desc fold_left].
    unfold EditEngine.splice. cbn [EditEngine.start EditEngine.end_ EditEngine.text].
    rewrite EditEngineFacts.slice_empty by lia.
    rewrite EditEngineFacts.slice_from_inside by lia.
    cbn [Z.to_nat skipn app]. rewrite Hu. cbn [negb file set_file].
    repeat (rewrite <- app_assoc || rewrite <- app_comm_cons). reflexivity. }
  split; [exact Hfile|]. rewrite Hfile.
  destruct (number_to_string_digits n) as (d & ds & E & Hd & Hv); [lia|].
  rewrite E.
  assert (Hline : Forall (fun c => Ascii.eqb LF c = false) (str "nid: " ++ d :: ds)).
  { apply Forall_app. split; [repeat constructor|now apply digits_no_line_feed]. }
  destruct (frontmatter_block_found (str "nid: " ++ d :: ds) (file st) Hline)
    as (m & Hm & Hg).
  repeat (rewrite <- app_assoc in Hm, Hg || rewrite <- app_comm_cons in Hm, Hg).
  unfold BulkDelete.frontmatter_nid. cbn [app] in *. rewrite Hm, Hg.
  destruct (nid_number_reads d ds Hd) as (m' & Hm' & Hg').
  cbn [app] in Hm', Hg'. rewrite Hm', Hg'.
  destruct (parseInt_digits d ds Hd) as (-> & _). now rewrite Hv.
Qed.

Lemma frontmatter_nid_written_then_read_witness :
  let data := Example.data [] true false None [] in
  let doc := Example.lines ["START"; "Basic"; "Q"; "A"; "END"; ""]%string in
  let st := set_note_ids [Some 77]
              (scanFile (Example.X []) data Example.no_cache (new_AllFile doc)) in
  (useFrontmatterID st = true /\ existingIDSpans st = [] /\
   getTargetID st = Some 77 /\ 0 < 77 <= MAX_SAFE_INTEGER /\
   first_match frontmatterRegex (file st) = None) /\
  file (writeIDs data st)
  = str "---" ++ [LF] ++ str "nid: " ++ number_to_string 77 ++ [LF]
    ++ str "---" ++ [LF] ++ file st /\
  BulkDelete.frontmatter_nid (file (writeIDs data st)) = Some (Some 77).
Proof.
  cbv zeta.
  set (data := Example.data [] true false None []).
  set (st := set_note_ids [Some 77] _).
  assert (H1 : useFrontmatterID st = true) by (vm_compute; reflexivity).
  assert (H2 : existingIDSpans st = []) by (vm_compute; reflexivity).
  assert (H3 : getTargetID st = Some 77) by (vm_compute; reflexivity).
  assert (H4 : 0 < 77 <= MAX_SAFE_INTEGER) by (unfold MAX_SAFE_INTEGER; lia).
  assert (H5 : first_match frontmatterRegex (file st) = None) by (vm_compute; reflexivity).
  split; [auto 10|].
  exact (frontmatter_nid_written_then_read data st 77 H1 H2 H3 H4 H5).
Defined.


End RoundTripFacts.

(** ** The reading-view renderer *)

Module RendererFacts.
Import Scanner Renderer RegexProps RegexFacts RegexSemantics RegexSemanticsFacts.

(** A match of the cloze pattern is never empty. *)
Lemma cloze_match_nonempty p pv t m :
  Regex.search (multiline cloze) (pattern cloze) p pv t = Some m ->
  (index m < stop m)%nat.
Proof.
  intros H. apply search_Some in H. destruct H as (pre & suf & pv' & _ & H).
  unfold match_here in H.
  destruct (run _ _ _ Some) as [s'|] eqn:E; [|discriminate]. injection H as <-.
  cbn [index stop pos].
  apply run_sound in E. destruct E as (s1 & M & E). injection E as ->.
  unfold cloze in M. cbn [pattern multiline] in M.
  apply matches_to_Seq in M. destruct M as (s2 & M1 & M2).
  apply matches_to_Str in M1. destruct M1 as (_ & P1 & _).
  apply matches_to_reaches in M2. destruct M2 as (w & _ & P2).
  cbn [pos] in P1. cbn [length str list_ascii_of_string] in P1. lia.
Qed.

(** So the [exec] loop finds the matches of [matchAll]. *)
Lemma exec_loop_matches_from fuel : forall p pv t,
  exec_loop fuel cloze p pv t
  = matches_from fuel (multiline cloze) (pattern cloze) p pv t.
Proof.
  induction fuel as [|fuel IH]; intros p pv t; cbn [exec_loop matches_from];
    [reflexivity|].
  destruct (Regex.search (multiline cloze) (pattern cloze) p pv t) as [m|] eqn:E;
    [|reflexivity].
  apply cloze_match_nonempty in E.
  replace (index m <? stop m)%nat with true by (symmetry; now apply Nat.ltb_lt).
  f_equal. apply IH.
Qed.

Lemma exec_loop_matchAll t :
  exec_loop (S (length t)) cloze 0 None t = matches cloze t.
Proof. apply exec_loop_matches_from. Qed.

Lemma textContent_mark s : textContent (mark s) = s.
Proof. unfold mark. destruct s; simpl; [reflexivity|now rewrite app_nil_r]. Qed.

Lemma fragment_text t ms : forall from,
  Forall (fun m => (index m <= stop m)%nat /\ (stop m <= length t)%nat) ms ->
  flat_map textContent (fragment t from ms)
  = stitch t from (fun m => group_text t m 1) ms.
Proof.
  induction ms as [|m ms IH]; intros from Hr; simpl.
  - unfold substring. destruct (Nat.ltb_spec from (length t)); simpl.
    + rewrite app_nil_r. apply firstn_all2. rewrite length_skipn. lia.
    + symmetry. apply skipn_all2. lia.
  - inversion Hr as [|? ? (H1 & H2) Hr']; subst.
    rewrite flat_map_app. cbn [flat_map]. rewrite textContent_mark.
    assert (Hlen : (index m + length (matched t m) = stop m)%nat).
    { unfold matched, substring. rewrite length_firstn, length_skipn. lia. }
    rewrite Hlen, IH by exact Hr'. f_equal.
    destruct (Nat.ltb_spec from (index m)); simpl.
    + apply app_nil_r.
    + unfold substring. replace (index m - from)%nat with 0%nat by lia. reflexivity.
Qed.


Lemma node_induction (P : node -> Prop) :
  (forall t, P (Text t)) ->
  (forall tag children, Forall P children -> P (Element tag children)) ->
  P OtherNode ->
  forall n, P n.
Proof.
  intros HT HE HO. fix IH 1. intros [t|tag children|].
  - apply HT.
  - apply HE. induction children as [|c r IHr]; constructor; [apply IH|exact IHr].
  - exact HO.
Qed.

Lemma flat_map_flat_map {A B C} (f : A -> list B) (g : B -> list C) l :
  flat_map g (flat_map f l) = flat_map (fun x => flat_map g (f x)) l.
Proof.
  induction l as [|x l IH]; simpl; [reflexivity|]. now rewrite flat_map_app, IH.
Qed.

(** The text of a text node after the replacement, with or without
    highlighting: every cloze replaced by its answer. *)
Lemma replaceText_text highlight text :
  flat_map textContent (replaceText highlight (Text text))
  = re_replaceAll cloze (fun m => group_text text m 1) text.
Proof.
  assert (Hnone : matches cloze text = [] ->
                  re_replaceAll cloze (fun m => group_text text m 1) text = text).
  { intros H. unfold re_replaceAll, replaceAll. unfold matches in H. now rewrite H. }
  cbn [replaceText]. destruct (nonempty text) eqn:N; cbn [negb].
  - destruct highlight; cbn [negb].
    + rewrite exec_loop_matchAll.
      destruct (matches cloze text) as [|m ms] eqn:E.
      * cbn [flat_map textContent app]. rewrite app_nil_r. symmetry. now apply Hnone.
      * rewrite fragment_text.
        -- unfold re_replaceAll, replaceAll. unfold matches in E. now rewrite E.
        -- rewrite <- E. rewrite Forall_forall. intros x Hx. unfold matches in Hx.
           now apply matchAll_inside in Hx.
    + unfold re_test, test.
      destruct (exec (multiline cloze) (pattern cloze) text) as [m|] eqn:E;
        cbn [flat_map textContent app]; rewrite app_nil_r; [reflexivity|].
      symmetry. apply Hnone. unfold matches, matchAll. cbn [matches_from].
      unfold exec in E. now rewrite E.
  - destruct text; [|discriminate]. reflexivity.
Qed.

Lemma replaceText_same_text n :
  flat_map textContent (replaceText true n) = flat_map textContent (replaceText false n).
Proof.
  induction n as [t|tag children IH|] using node_induction.
  - now rewrite !replaceText_text.
  - cbn [replaceText flat_map textContent]. rewrite !app_nil_r, !flat_map_flat_map.
    induction IH as [|c r Hc _ IHr]; simpl; [reflexivity|]. now rewrite Hc, IHr.
  - reflexivity.
Qed.

(** X23: with or without highlighting the reader sees the same text.  For
    every element, the text content of what [clozeRenderer] leaves under it
    when highlighting is on (cloze answers wrapped in [mark] elements) equals
    the text content when highlighting is off (cloze syntax replaced by the
    answer), at every depth of the tree. *)
Theorem highlight_shows_the_same_text (tag : jstring) (children : list node) :
  textContent (clozeRenderer (Element tag children) true true)
  = textContent (clozeRenderer (Element tag children) true false).
Proof.
  unfold clozeRenderer. cbn [negb textContent]. rewrite !flat_map_flat_map.
  induction children as [|c r IH]; simpl; [reflexivity|].
  now rewrite replaceText_same_text, IH.
Qed.

End RendererFacts.

(** ** Groups of a match, and the span recorded for an inline marker *)

Module GroupFacts.
Import Scanner RegexProps RegexFacts RegexSemantics RegexSemanticsFacts.

(** The groups a pattern records lie between the cursors it goes from and
    to. *)
Lemma matches_to_caps multiline r s s' :
  matches_to multiline r s s' ->
  exists new,
    caps s' = new ++ caps s /\
    Forall (fun e => (pos s <= fst (snd e))%nat /\ (fst (snd e) <= snd (snd e))%nat
                     /\ (snd (snd e) <= pos s')%nat) new.
Proof.
  induction 1 as [s|cl s c r' Hr Hc|r1 r2 s s1 s2 H1 IH1 H2 IH2|r1 r2 s s' H1 IH1
                  |r1 r2 s s' H1 IH1|g r s|g r s s1 s2 H1 IH1 Hlt H2 IH2
                  |n r s s1 H1 IH1|s Hb|s He].
  - exists []. split; [reflexivity|constructor].
  - exists []. split; [reflexivity|constructor].
  - destruct IH1 as (n1 & C1 & F1). destruct IH2 as (n2 & C2 & F2).
    apply matches_to_reaches in H1, H2.
    destruct H1 as (w1 & _ & P1). destruct H2 as (w2 & _ & P2).
    exists (n2 ++ n1). split; [now rewrite C2, C1, app_assoc|].
    apply Forall_app. split.
    + eapply Forall_impl; [|exact F2]. simpl. intros e He. lia.
    + eapply Forall_impl; [|exact F1]. simpl. intros e He. lia.
  - exact IH1.
  - exact IH1.
  - exists []. split; [reflexivity|constructor].
  - destruct IH1 as (n1 & C1 & F1). destruct IH2 as (n2 & C2 & F2).
    apply matches_to_reaches in H1, H2.
    destruct H1 as (w1 & _ & P1). destruct H2 as (w2 & _ & P2).
    exists (n2 ++ n1). split; [now rewrite C2, C1, app_assoc|].
    apply Forall_app. split.
    + eapply Forall_impl; [|exact F2]. simpl. intros e He. lia.
    + eapply Forall_impl; [|exact F1]. simpl. intros e He. lia.
  - destruct IH1 as (n1 & C1 & F1).
    apply matches_to_reaches in H1. destruct H1 as (w1 & _ & P1).
    exists ((n, (pos s, pos s1)) :: n1). split; [simpl; now rewrite C1|].
    constructor; [simpl; lia|]. exact F1.
  - exists []. split; [reflexivity|constructor].
  - exists []. split; [reflexivity|constructor].
Qed.

Lemma lookup_group_In n g sp : lookup_group n g = Some sp -> In (n, sp) g.
Proof.
  induction g as [|[k x] g IH]; simpl; [discriminate|].
  destruct (Nat.eqb_spec k n) as [->|]; [|now right; apply IH].
  intros H. injection H as ->. now left.
Qed.

(** A group of a match of [matchAll] lies inside the match. *)
Lemma group_inside_match re t m n a b :
  In m (matches re t) -> lookup_group n (groups m) = Some (a, b) ->
  (index m <= a)%nat /\ (a <= b)%nat /\ (b <= stop m)%nat /\ (stop m <= length t)%nat.
Proof.
  intros Hm Hg. unfold matches in Hm. assert (Hin := matchAll_inside _ _ _ _ Hm).
  apply matchAll_In in Hm. destruct Hm as (s & _ & Hn & Hi & M & Hs & Hc).
  apply matches_to_caps in M. destruct M as (new & C & F).
  rewrite Hn, app_nil_r in C. rewrite Hc, C in Hg. apply lookup_group_In in Hg.
  rewrite Forall_forall in F. specialize (F _ Hg). simpl in F. lia.
Qed.

Lemma exec_inside multiline r t m :
  exec multiline r t = Some m -> (index m <= stop m)%nat /\ (stop m <= length t)%nat.
Proof. unfold exec. intros H. apply search_inside in H. lia. Qed.

Lemma substring_substring t a b i j :
  (a <= b)%nat -> (b <= length t)%nat -> (i <= j)%nat -> (j <= b - a)%nat ->
  substring (substring t a b) i j = substring t (a + i) (a + j).
Proof.
  intros Hab Hb Hij Hj. unfold substring.
  rewrite skipn_firstn_comm, firstn_firstn, skipn_skipn.
  replace (Nat.min (j - i) (b - a - i)) with (j - i)%nat by lia.
  replace (a + j - (a + i))%nat with (j - i)%nat by lia.
  now rewrite (Nat.add_comm i a).
Qed.

(** X24: for an inline note with an identifier marker, [scanInlineNotes]
    records as marker span the offsets of the marker within the text of
    group 1, counted from the start of the whole match; the marker itself
    stands that far from the start of group 1, which does not come before the
    start of the match.  The recorded span is thus short of the marker by
    the length of what the note pattern matches before its group 1. *)
Theorem inline_marker_span_counts_from_match_start
        (X : imports) (data : FileData) (st : AllFile) (note_match idMatch : rmatch)
        (a b : nat) (n : Z) :
  In note_match (matches (INLINE_REGEXP data) (file st)) ->
  lookup_group 1 (groups note_match) = Some (a, b) ->
  identifier (InlineNote_parse X (group_text (file st) note_match 1)
                               (Z.of_nat (index note_match))) = Some n ->
  first_match (InlineNote_ID_REGEXP X) (group_text (file st) note_match 1) = Some idMatch ->
  existingIDSpans (scanInlineNotes_step X data st note_match)
  = existingIDSpans st
    ++ [(Z.of_nat (index note_match + index idMatch),
         Z.of_nat (index note_match + stop idMatch))] /\
  (index note_match <= a)%nat /\
  substring (file st) (a + index idMatch) (a + stop idMatch)
  = matched (group_text (file st) note_match 1) idMatch.
Proof.
  intros Hm Hg Hid Hmk.
  destruct (group_inside_match _ _ _ _ _ _ Hm Hg) as (H1 & H2 & H3 & H4).
  assert (Hnote : group_text (file st) note_match 1 = substring (file st) a b).
  { unfold group_text, group. now rewrite Hg. }
  assert (Hin := Hmk). unfold first_match in Hin. apply exec_inside in Hin.
  destruct Hin as (I1 & I2).
  assert (Hlen : length (group_text (file st) note_match 1) = (b - a)%nat).
  { rewrite Hnote. unfold substring. rewrite length_firstn, length_skipn. lia. }
  rewrite Hlen in I2.
  split; [|split; [exact H1|]].
  - unfold scanInlineNotes_step. rewrite Hid, Hmk.
    assert (Hl : length (matched (group_text (file st) note_match 1) idMatch)
                 = (stop idMatch - index idMatch)%nat).
    { unfold matched, substring. rewrite length_firstn, length_skipn. lia. }
    rewrite Hl. unfold push, warn.
    replace (Z.of_nat (index note_match) + Z.of_nat (index idMatch))
      with (Z.of_nat (index note_match + index idMatch)) by lia.
    replace (Z.of_nat (index note_match + index idMatch)
             + Z.of_nat (stop idMatch - index idMatch))
      with (Z.of_nat (index note_match + stop idMatch)) by lia.
    destruct st; simpl. ScannerFacts.split_cases; reflexivity.
  - unfold matched. rewrite Hnote. symmetry. apply substring_substring; lia.
Qed.

Lemma inline_marker_span_counts_from_match_start_witness :
  let X := Example.X [] in
  let data := Example.data [12] false false None [] in
  let doc := Example.lines ["STARTI [Basic] q Back: a ID: 12 ENDI"; ""]%string in
  let st := setupScan X data Example.no_cache (new_AllFile doc) in
  let note_match := Example.nth_match Example.INLINE_REGEXP doc 0 in
  let note := group_text (file st) note_match 1 in
  let idMatch := Example.nth_match (InlineNote_ID_REGEXP X) note 0 in
  (In note_match (matches (INLINE_REGEXP data) (file st)) /\
   lookup_group 1 (groups note_match) = Some (6, 32)%nat /\
   identifier (InlineNote_parse X note (Z.of_nat (index note_match))) = Some 12 /\
   first_match (InlineNote_ID_REGEXP X) note = Some idMatch) /\
  existingIDSpans (scanInlineNotes_step X data st note_match)
  = existingIDSpans st
    ++ [(Z.of_nat (index note_match + index idMatch),
         Z.of_nat (index note_match + stop idMatch))] /\
  (index note_match <= 6)%nat /\
  substring (file st) (6 + index idMatch) (6 + stop idMatch) = matched note idMatch.
Proof.
  cbv zeta.
  set (data := Example.data [12] false false None []).
  set (st := setupScan (Example.X []) data Example.no_cache _).
  set (note_match := Example.nth_match Example.INLINE_REGEXP _ 0).
  set (idMatch := Example.nth_match (InlineNote_ID_REGEXP (Example.X [])) _ 0).
  assert (H1 : In note_match (matches (INLINE_REGEXP data) (file st)))
    by (vm_compute; now left).
  assert (H2 : lookup_group 1 (groups note_match) = Some (6, 32)%nat)
    by (vm_compute; reflexivity).
  assert (H3 : identifier (InlineNote_parse (Example.X []) (group_text (file st) note_match 1)
                                            (Z.of_nat (index note_match))) = Some 12)
    by (vm_compute; reflexivity).
  assert (H4 : first_match (InlineNote_ID_REGEXP (Example.X []))
                           (group_text (file st) note_match 1) = Some idMatch)
    by (vm_compute; reflexivity).
  split; [exact (conj H1 (conj H2 (conj H3 H4)))|].
  exact (inline_marker_span_counts_from_match_start
           (Example.X []) data st note_match idMatch 6 32 12 H1 H2 H3 H4).
Defined.

End GroupFacts.

(** ** The two removals of the front-matter identifier *)

Module RemovalFacts.
Import Scanner RegexProps RegexFacts MatcherProps MatcherFacts MarkerFacts RemovalProps.

Lemma starts_with_app lit : forall t,
  starts_with lit t = true -> exists tail, t = lit ++ tail.
Proof.
  induction lit as [|c lit IH]; intros t H; simpl in *.
  - now exists t.
  - destruct t as [|x t]; [discriminate|]. apply andb_prop in H. destruct H as (Hc & H).
    apply Ascii.eqb_eq in Hc. subst x. destruct (IH t H) as (tail & ->). now exists tail.
Qed.

(** A literal is consumed when the text starts with it, and fails otherwise. *)
Lemma run_Str multiline lit : forall s k,
  run multiline (Str lit) s k
  = if starts_with lit (rest s) then k (advance s lit) else None.
Proof.
  induction lit as [|c lit IH]; intros s k; simpl; [reflexivity|].
  destruct (rest s) as [|x r] eqn:E; [reflexivity|]. simpl.
  destruct (Ascii.eqb c x) eqn:Ec; [|reflexivity]. simpl.
  apply Ascii.eqb_eq in Ec. subst x. rewrite IH. simpl. reflexivity.
Qed.

Lemma take_while_split p t :
  exists tail, t = take_while p t ++ tail /\
               match tail with [] => True | c :: _ => p c = false end /\
               forallb p (take_while p t) = true.
Proof.
  induction t as [|c t (tail & E & Ht & Hw)]; simpl.
  - exists []. repeat split.
  - destruct (p c) eqn:Hc.
    + exists tail. simpl. rewrite Hc, Hw. repeat split; [now f_equal|exact Ht].
    + exists (c :: t). repeat split. exact Hc.
Qed.

(** A greedy repetition of a class before the end of the pattern takes the
    longest run. *)
Lemma run_greedy_class_last multiline cl s :
  run multiline (Star true (Chr cl)) s Some
  = Some (advance s (take_while (cmatch cl) (rest s))).
Proof.
  destruct (take_while_split (cmatch cl) (rest s)) as (tail & E & Ht & Hw).
  apply (run_greedy_class multiline cl _ s tail Some _ E Hw Ht eq_refl).
Qed.


Lemma take_while_no_CR t :
  no_CR t -> take_while (cmatch Dot) t = take_while (cmatch (NoneOf [LF])) t.
Proof.
  induction 1 as [|c t Hc Ht IH]; simpl; [reflexivity|].
  unfold is_line_terminator. rewrite Hc, IH. reflexivity.
Qed.

(** With [nid:] at the start of a line both patterns match up to the end of
    the line, and nowhere else. *)
Lemma nid_value_here s :
  match_here true (pattern nid_value) s
  = if at_bol true s && starts_with (str "nid:") (rest s)
    then let s1 := advance s (str "nid:") in
         let s' := advance s1 (take_while (cmatch (NoneOf [LF])) (rest s1)) in
         Some (mkMatch (pos s) (pos s') (caps s') s')
    else None.
Proof.
  unfold match_here, nid_value. cbn [pattern].
  change (run true (Seq Bol (Seq (Str ?a) ?b)) s Some)
    with (if at_bol true s then run true (Str a) s (fun s1 => run true b s1 Some) else None).
  destruct (at_bol true s); [|reflexivity]. cbn [andb].
  rewrite run_Str. destruct (starts_with (str "nid:") (rest s)); [|reflexivity].
  now rewrite run_greedy_class_last.
Qed.

Lemma nid_rest_here s :
  match_here true (pattern BulkDelete.nid_rest) s
  = if at_bol true s && starts_with (str "nid:") (rest s)
    then let s1 := advance s (str "nid:") in
         let sg := mkCursor (pos s1) (prev s1) (rest s1)
                            ((1%nat, (pos s, pos s1)) :: caps s1) in
         let s' := advance sg (take_while (cmatch Dot) (rest s1)) in
         Some (mkMatch (pos s) (pos s') (caps s') s')
    else None.
Proof.
  unfold match_here, BulkDelete.nid_rest. cbn [pattern].
  change (run true (Seq Bol (Seq (Group 1 (Str ?a)) ?b)) s Some)
    with (if at_bol true s
          then run true (Str a) s
                 (fun s1 => run true b
                              (mkCursor (pos s1) (prev s1) (rest s1)
                                        ((1%nat, (pos s, pos s1)) :: caps s1)) Some)
          else None).
  destruct (at_bol true s); [|reflexivity]. cbn [andb].
  rewrite run_Str. destruct (starts_with (str "nid:") (rest s)); [|reflexivity].
  now rewrite run_greedy_class_last.
Qed.

(** The two searches find the same place, and group 1 of the second is the
    key [nid:]. *)
Lemma nid_searches_agree t : forall p pv,
  no_CR t ->
  match Regex.search true (pattern nid_value) p pv t,
        Regex.search true (pattern BulkDelete.nid_rest) p pv t with
  | Some m1, Some m2 =>
      index m1 = index m2 /\ stop m1 = stop m2 /\
      exists pre suf, t = pre ++ str "nid:" ++ suf /\ index m2 = (p + length pre)%nat /\
                      lookup_group 1 (groups m2) = Some (index m2, (index m2 + 4)%nat)
  | None, None => True
  | _, _ => False
  end.
Proof.
  induction t as [|c t IH]; intros p pv Hcr.
  - cbn [Regex.search]. rewrite nid_value_here, nid_rest_here.
    cbn [rest starts_with str list_ascii_of_string]. rewrite andb_false_r. exact I.
  - cbn [Regex.search]. rewrite nid_value_here, nid_rest_here. cbn [rest].
    set (s := mkCursor p pv (c :: t) []).
    destruct (at_bol true s && starts_with (str "nid:") (c :: t)) eqn:E.
    + apply andb_prop in E. destruct E as (_ & E). apply starts_with_app in E.
      destruct E as (suf & E). cbv zeta. cbn [index stop groups].
      assert (H1 : rest (advance s (str "nid:")) = suf) by (apply advance_rest; exact E).
      rewrite H1.
      assert (Hsuf : no_CR suf).
      { rewrite E in Hcr. unfold no_CR in *. rewrite Forall_app in Hcr. tauto. }
      rewrite (take_while_no_CR suf Hsuf). rewrite !advance_pos, !advance_caps.
      cbn [pos caps]. rewrite ?advance_pos, ?advance_caps. cbn [pos caps length].
      split; [reflexivity|]. split; [reflexivity|].
      exists [], suf. split; [exact E|]. split; [cbn; lia|].
      cbn [lookup_group Nat.eqb]. reflexivity.
    + inversion Hcr as [|? ? Hc Ht]; subst. specialize (IH (S p) (Some c) Ht).
      destruct (Regex.search true (pattern nid_value) (S p) (Some c) t) as [m1|];
        destruct (Regex.search true (pattern BulkDelete.nid_rest) (S p) (Some c) t) as [m2|];
        try exact IH.
      destruct IH as (Hi & Hs & pre & suf & E' & Hp & Hg).
      repeat split; [exact Hi|exact Hs|].
      exists (c :: pre), suf. repeat split; [simpl; now rewrite E'|simpl; lia|exact Hg].
Qed.

(** X25: the bulk deletion and the inline fallback of [writeIDs] remove the
    identifier from a front-matter block in the same way.  For every
    front-matter text without a carriage return, the block that the callback
    of the bulk deletion returns is the block that [writeIDs] writes: the
    [nid] line dropped when it is the last property, its value cleared
    otherwise. *)
Theorem nid_removal_is_the_same_in_both_files (fmContent : jstring) :
  no_CR fmContent ->
  BulkDelete.strip_nid fmContent
  = str "---" ++ [LF] ++ demote_frontmatter fmContent ++ [LF] ++ str "---".
Proof.
  intros Hcr. unfold BulkDelete.strip_nid, demote_frontmatter.
  destruct (re_test nid_last (trim fmContent)); [reflexivity|].
  do 2 f_equal. f_equal.
  unfold re_replace, replace, exec.
  change (multiline BulkDelete.nid_rest) with true.
  change (multiline nid_value) with true.
  assert (H := nid_searches_agree fmContent 0 None Hcr).
  destruct (Regex.search true (pattern BulkDelete.nid_rest) 0 None fmContent) as [m2|];
    destruct (Regex.search true (pattern nid_value) 0 None fmContent) as [m1|];
    try contradiction; [|reflexivity].
  destruct H as (Hi & Hs & pre & suf & E & Hp & Hg).
  rewrite Hi, Hs. do 2 f_equal.
  unfold group_text, group. rewrite Hg. rewrite Hp. cbn [Nat.add].
  rewrite E. unfold substring. replace (length pre + 4 - length pre)%nat with 4%nat by lia.
  rewrite skipn_app, Nat.sub_diag, skipn_all. reflexivity.
Qed.

Lemma nid_removal_is_the_same_in_both_files_witness :
  let fmContent := Example.lines ["title: x"; "nid: 12"; "tags: a"]%string in
  no_CR fmContent /\
  BulkDelete.strip_nid fmContent
  = str "---" ++ [LF] ++ demote_frontmatter fmContent ++ [LF] ++ str "---".
Proof.
  cbv zeta.
  assert (H : no_CR (Example.lines ["title: x"; "nid: 12"; "tags: a"]%string))
    by (vm_compute; repeat constructor).
  split; [exact H|].
  exact (nid_removal_is_the_same_in_both_files _ H).
Defined.

End RemovalFacts.

(** * Where a search finds its match

    The search of a pattern in a text tries the positions from left to
    right.  The lemmas say when it passes over a prefix and when it finds a
    match, in terms of the text. *)

Module SearchFacts.
Import Scanner RegexProps RegexSemantics RegexFacts RegexSemanticsFacts MatcherProps MatcherFacts MarkerFacts RemovalFacts SearchProps.

Lemma prev_after_snoc pre c pv : prev_after (pre ++ [c]) pv = Some c.
Proof. unfold prev_after. now rewrite rev_app_distr. Qed.

Lemma prev_after_cons c pre pv : prev_after (c :: pre) pv = prev_after pre (Some c).
Proof.
  unfold prev_after. simpl. destruct (rev pre) as [|x r] eqn:E; simpl; reflexivity.
Qed.

(** The search passes over a stretch of text in which the pattern matches
    nowhere. *)
Lemma search_skip multiline r pre : forall t p pv,
  (forall a c b p' pv', pre = a ++ c :: b ->
     match_here multiline r (mkCursor p' pv' (c :: b ++ t) []) = None) ->
  Regex.search multiline r p pv (pre ++ t)
  = Regex.search multiline r (p + length pre) (prev_after pre pv) t.
Proof.
  induction pre as [|c pre IH]; intros t p pv H.
  - simpl. now rewrite Nat.add_0_r.
  - cbn [app Regex.search]. rewrite (H [] c pre p pv eq_refl).
    rewrite IH.
    + rewrite prev_after_cons. f_equal. simpl. lia.
    + intros a c' b p' pv' E. apply (H (c :: a) c' b p' pv'). now rewrite E.
Qed.

Lemma search_None multiline r t : forall p pv,
  (forall a b p' pv', t = a ++ b ->
     match_here multiline r (mkCursor p' pv' b []) = None) ->
  Regex.search multiline r p pv t = None.
Proof.
  induction t as [|c t IH]; intros p pv H.
  - cbn [Regex.search]. now rewrite (H [] [] p pv eq_refl).
  - cbn [Regex.search]. rewrite (H [] (c :: t) p pv eq_refl).
    apply IH. intros a b p' pv' E. apply (H (c :: a) b p' pv'). now rewrite E.
Qed.

(** A pattern that matches somewhere is found. *)
Lemma search_finds multiline r pre : forall t p pv,
  match_here multiline r (mkCursor (p + length pre) (prev_after pre pv) t []) <> None ->
  Regex.search multiline r p pv (pre ++ t) <> None.
Proof.
  induction pre as [|c pre IH]; intros t p pv H.
  - simpl in *. rewrite Nat.add_0_r in H. unfold prev_after in H. simpl in H.
    destruct t; cbn [Regex.search];
      destruct (match_here multiline r _); congruence.
  - cbn [app Regex.search].
    destruct (match_here multiline r (mkCursor p pv (c :: pre ++ t) [])); [discriminate|].
    apply IH. rewrite prev_after_cons in H.
    replace (S p + length pre)%nat with (p + length (c :: pre))%nat by (simpl; lia).
    exact H.
Qed.

Lemma match_here_sound multiline r s m :
  match_here multiline r s = Some m ->
  matches_to multiline r s (after m) /\ index m = pos s /\
  stop m = pos (after m) /\ groups m = caps (after m).
Proof.
  unfold match_here. destruct (run multiline r s Some) as [s'|] eqn:E; [|discriminate].
  intros H. injection H as <-. apply run_sound in E. destruct E as (s'' & Hm & E).
  injection E as ->. now repeat split.
Qed.


Lemma ends_line_prev pre : ends_line pre -> at_bol true (mkCursor (length pre) (prev_after pre None) [] []) = true.
Proof.
  intros [->|(b & c & -> & Hc)]; [reflexivity|].
  unfold at_bol. cbn [prev]. now rewrite prev_after_snoc, Hc.
Qed.

(** In front of a line start no [nid:] begins, when none occurs before. *)
Lemma nid_not_before before t :
  ~ occurs (str "nid:") before -> ends_line before ->
  forall a c b, before = a ++ c :: b -> starts_with (str "nid:") (c :: b ++ t) = false.
Proof.
  intros Hno Hend a c b E.
  destruct (starts_with (str "nid:") (c :: b ++ t)) eqn:Es; [exfalso|reflexivity].
  destruct Hend as [->|(b0 & x & Eb & Hx)]; [now destruct a|].
  assert (Hrev : rev (c :: b) ++ rev a = x :: rev b0).
  { rewrite <- rev_app_distr, <- E, Eb, rev_app_distr. reflexivity. }
  apply starts_with_app in Es. destruct Es as (tail & Et).
  destruct b as [|c2 [|c3 [|c4 b']]]; cbn in Et, Hrev.
  - injection Et as -> _. injection Hrev as <- _. discriminate Hx.
  - injection Et as -> -> _. injection Hrev as <- _. discriminate Hx.
  - injection Et as -> -> -> _. injection Hrev as <- _. discriminate Hx.
  - injection Et as -> -> -> -> _. apply Hno. exists a, b'. exact E.
Qed.


(** The tests that decide [occurs] and [first_fence] on a given text. *)
Lemma occurs_occursb lit : forall t, occurs lit t -> occursb lit t = true.
Proof.
  intros t (a & b & ->). induction a as [|c a IH]; cbn [app].
  - assert (H : starts_with lit (lit ++ b) = true).
    { clear. induction lit as [|c lit IH]; [reflexivity|].
      simpl. now rewrite Ascii.eqb_refl. }
    destruct (lit ++ b); simpl in *; now rewrite H.
  - simpl. rewrite IH. apply orb_true_r.
Qed.

Lemma not_occurs lit t : occursb lit t = false -> ~ occurs lit t.
Proof. intros H Ho. apply occurs_occursb in Ho. congruence. Qed.

Lemma no_fence_in_first fm more : no_fence_in fm more = true -> first_fence fm more.
Proof.
  intros H w1. revert fm H. induction w1 as [|x w1 IH]; intros fm H c w2 ->.
  - cbn [app no_fence_in] in H. apply andb_prop in H. destruct H as (H & _).
    now apply negb_true_iff in H.
  - cbn [app no_fence_in] in H. apply andb_prop in H. destruct H as (_ & H).
    now apply (IH _ H).
Qed.

End SearchFacts.

(** * Bulk deletion: from the content to the request *)

Module BulkContentFacts.
Import Scanner RegexProps RegexSemantics RegexFacts RegexSemanticsFacts MatcherProps MatcherFacts MarkerFacts RoundTripFacts RemovalFacts SearchProps SearchFacts BulkDelete BulkDeleteFacts.

Lemma In_numbers l n : In n (numbers l) <-> In (Some n) l.
Proof.
  induction l as [|[x|] l IH]; simpl.
  - tauto.
  - rewrite IH. split; intros [H|H]; auto; left; congruence.
  - rewrite IH. split; [auto|]. intros [H|H]; [discriminate|exact H].
Qed.




(** The pattern matches where [ID: ] and a digit stand. *)
Lemma marker_here multiline s d b :
  rest s = str "ID: " ++ d :: b -> is_digit d = true ->
  run multiline ID_REGEXP s Some <> None.
Proof.
  intros E Hd.
  destruct (take_while_split is_digit b) as (b1 & E1 & H1 & F1).
  destruct (take_while_split (fun c => negb (is_line_terminator c)) b1)
    as (tail & E2 & H2 & F2).
  set (ds := take_while is_digit b) in *.
  set (dots := take_while (fun c => negb (is_line_terminator c)) b1) in *.
  destruct (ID_REGEXP_at_marker multiline s false d ds dots tail) as (s' & Hrun & _).
  - cbn [app]. rewrite E. cbn [app]. rewrite <- E2, <- E1. reflexivity.
  - cbn [forallb]. now rewrite Hd, F1.
  - exact F2.
  - rewrite <- E2. exact H1.
  - destruct tail as [|c tail]; [exact I|]. now apply negb_false_iff in H2.
  - now rewrite Hrun.
Qed.

Lemma marker_found content a d b :
  content = a ++ str "ID: " ++ d :: b -> is_digit d = true ->
  matches regex content <> [].
Proof.
  intros E Hd. unfold matches, regex, matchAll. cbn [pattern multiline matches_from].
  destruct (Regex.search false ID_REGEXP 0 None content) as [m|] eqn:Es; [discriminate|].
  exfalso. revert Es. rewrite E. apply search_finds.
  unfold match_here.
  destruct (run false ID_REGEXP (mkCursor (0 + length a) (prev_after a None)
                                          (str "ID: " ++ d :: b) []) Some) eqn:Er;
    [discriminate|].
  exfalso. revert Er. now apply (marker_here false _ d b).
Qed.





(** The front-matter pattern on a text that starts with a block: group 1 is
    the text up to the first closing fence. *)
Lemma frontmatter_block fm more :
  first_fence fm more ->
  exists m,
    first_match frontmatterRegex
      (str "---" ++ [LF] ++ fm ++ LF :: str "---" ++ more) = Some m /\
    group_text (str "---" ++ [LF] ++ fm ++ LF :: str "---" ++ more) m 1 = fm /\
    index m = 0%nat /\ stop m = (length fm + 8)%nat.
Proof.
  intros Hfirst.
  set (text := str "---" ++ [LF] ++ fm ++ LF :: str "---" ++ more).
  set (s0 := mkCursor 0 None text []).
  set (k := fun s' : cursor =>
              run false (Str (LF :: str "---"))
                  (mkCursor (pos s') (prev s') (Regex.rest s') ((1%nat, (4%nat, pos s')) :: caps s'))
                  Some).
  set (s1 := advance s0 (str "---" ++ [LF])).
  assert (H1 : Regex.rest s1 = fm ++ LF :: str "---" ++ more)
    by (apply advance_rest; reflexivity).
  assert (Hend : exists res, k (advance s1 fm) = Some res /\
                             caps res = [(1%nat, (4%nat, (4 + length fm)%nat))] /\
                             pos res = (length fm + 8)%nat).
  { unfold k.
    assert (Hr := advance_rest fm s1 _ H1).
    assert (Hp := advance_pos fm s1). assert (Hc := advance_caps fm s1).
    eexists. split; [|split].
    - erewrite (run_Str_there false (LF :: str "---") _ more);
        [reflexivity|exact Hr].
    - rewrite advance_caps. cbn [caps]. rewrite Hc, Hp. reflexivity.
    - rewrite advance_pos. cbn [pos]. rewrite Hp. cbn. lia. }
  destruct Hend as (res & Hk & Hcaps & Hpos).
  assert (Hrun : run false (pattern frontmatterRegex) s0 Some = Some res).
  { unfold frontmatterRegex. cbn [pattern].
    change (run false (Seq Bol ?r) s0 Some) with (run false r s0 Some).
    change (run false (Seq (Str ?a) (Seq (Group 1 ?g) ?b)) s0 Some)
      with (run false (Str a) s0
              (fun s1 => run false g s1
                 (fun s' => run false b
                    (mkCursor (pos s') (prev s') (Regex.rest s') ((1%nat, (pos s1, pos s')) :: caps s'))
                    Some))).
    rewrite (run_Str_there false _ s0 (fm ++ LF :: str "---" ++ more))
      by reflexivity.
    fold s1. change (pos s1) with 4%nat.
    apply (run_lazy_class false AnyChar fm s1 (LF :: str "---" ++ more) k res H1).
    - clear. induction fm; simpl; auto.
    - intros w1 c w2 E. unfold k. rewrite run_Str. cbn [Regex.rest].
      assert (Hr : Regex.rest (advance s1 w1) = c :: w2 ++ LF :: str "---" ++ more).
      { apply advance_rest. rewrite H1, E, <- app_assoc. reflexivity. }
      rewrite Hr. now rewrite (Hfirst w1 c w2 E).
    - exact Hk. }
  exists (mkMatch 0 (pos res) (caps res) res). split; [|split; [|split]].
  - unfold first_match, exec. apply search_here. unfold match_here.
    change (multiline frontmatterRegex) with false. fold s0. now rewrite Hrun.
  - unfold group_text, group. cbn [groups]. rewrite Hcaps. cbn [lookup_group Nat.eqb].
    change 4%nat with (pos s0 + length (str "---" ++ [LF]))%nat at 1.
    change (4 + length fm)%nat with (pos s0 + length (str "---" ++ [LF]) + length fm)%nat.
    apply (substring_at text s0 (str "---" ++ [LF]) fm (LF :: str "---" ++ more)).
    + split; [cbn; lia|reflexivity].
    + reflexivity.
  - reflexivity.
  - exact Hpos.
Qed.

(** The pattern of the bulk deletion finds the first line that starts with
    [nid:], white space and digits. *)
Lemma nid_number_found before ws d ds after :
  ends_line before -> ~ occurs (str "nid:") before ->
  forallb is_space ws = true -> forallb is_digit (d :: ds) = true ->
  match after with [] => True | c :: _ => is_digit c = false end ->
  exists m,
    first_match nid_number (before ++ str "nid:" ++ ws ++ d :: ds ++ after) = Some m /\
    group_text (before ++ str "nid:" ++ ws ++ d :: ds ++ after) m 1 = d :: ds.
Proof.
  intros Hend Hno Hws Hd Hafter.
  set (t := str "nid:" ++ ws ++ d :: ds ++ after).
  set (text := before ++ t).
  assert (Hd' := Hd). cbn [forallb] in Hd'. apply andb_prop in Hd'.
  destruct Hd' as (Hd0 & Hds).
  set (s0 := mkCursor (0 + length before) (prev_after before None) t []).
  set (s1 := advance s0 (str "nid:")).
  set (s2 := advance s1 ws).
  set (s3 := mkCursor (S (pos s2)) (Some d) (ds ++ after) (caps s2)).
  set (s4 := advance s3 ds).
  set (res := mkCursor (pos s4) (prev s4) (Regex.rest s4) ((1%nat, (pos s2, pos s4)) :: caps s4)).
  assert (R1 : Regex.rest s1 = ws ++ d :: ds ++ after) by (apply advance_rest; reflexivity).
  assert (R2 : Regex.rest s2 = d :: ds ++ after) by (apply advance_rest; exact R1).
  assert (Hbol : at_bol true s0 = true).
  { unfold at_bol, s0. cbn [prev]. destruct Hend as [->|(b & c & -> & Hc)]; [reflexivity|].
    now rewrite prev_after_snoc, Hc. }
  assert (Hrun : run true (pattern nid_number) s0 Some = Some res).
  { unfold nid_number. cbn [pattern].
    change (run true (Seq Bol ?r) s0 Some) with (if at_bol true s0 then run true r s0 Some else None).
    rewrite Hbol.
    change (run true (Seq (Str ?a) (Seq ?sp (Group 1 ?g))) s0 Some)
      with (run true (Str a) s0
              (fun s1 => run true sp s1
                 (fun s2 => run true g s2
                    (fun s' => Some (mkCursor (pos s') (prev s') (Regex.rest s')
                                            ((1%nat, (pos s2, pos s')) :: caps s')))))).
    rewrite (run_Str_there true _ s0 (ws ++ d :: ds ++ after)) by reflexivity.
    fold s1.
    apply (run_greedy_class true Space ws s1 (d :: ds ++ after)); [exact R1|exact Hws| |].
    - simpl. now destruct (digit_cases d Hd0) as (-> & _).
    - fold s2. cbn [run Plus]. rewrite R2. cbn [cmatch]. rewrite Hd0. fold s3.
      apply (run_greedy_class true Digit ds s3 after);
        [reflexivity|exact Hds|exact Hafter|reflexivity]. }
  exists (mkMatch (pos s0) (pos res) (caps res) res). split.
  - unfold first_match, exec. change (multiline nid_number) with true.
    change (Regex.search true (pattern nid_number) 0 None (before ++ t)
            = Some (mkMatch (pos s0) (pos res) (caps res) res)).
    rewrite search_skip.
    + apply search_here. unfold match_here. fold s0. now rewrite Hrun.
    + intros a c b p' pv' E. unfold match_here, nid_number. cbn [pattern].
      change (run true (Seq Bol (Seq (Str ?x) ?r)) ?s Some)
        with (if at_bol true s then run true (Str x) s (fun s1 => run true r s1 Some) else None).
      destruct (at_bol true (mkCursor p' pv' (c :: b ++ t) [])); [|reflexivity].
      rewrite run_Str. cbn [Regex.rest].
      now rewrite (nid_not_before before t Hno Hend a c b E).
  - unfold group_text, group. cbn [groups caps res]. cbn [lookup_group Nat.eqb].
    assert (P2 : pos s2 = (pos s0 + length (str "nid:" ++ ws))%nat).
    { unfold s2, s1. rewrite !advance_pos, length_app. lia. }
    assert (P4 : pos s4 = (pos s0 + length (str "nid:" ++ ws) + length (d :: ds))%nat).
    { unfold s4. rewrite advance_pos. cbn [pos s3 length]. rewrite P2. lia. }
    rewrite P2, P4.
    apply (substring_at text s0 (str "nid:" ++ ws) (d :: ds) after).
    + unfold s0. cbn [Nat.add]. apply cursor_in_suffix.
    + cbn [Regex.rest s0]. unfold t. now rewrite <- !app_assoc.
Qed.






Lemma frontmatter_nid_found before ws d ds after more :
  first_fence (before ++ str "nid:" ++ ws ++ d :: ds ++ after) more ->
  ends_line before -> ~ occurs (str "nid:") before ->
  forallb is_space ws = true -> forallb is_digit (d :: ds) = true ->
  match after with [] => True | c :: _ => is_digit c = false end ->
  frontmatter_nid (str "---" ++ [LF] ++ (before ++ str "nid:" ++ ws ++ d :: ds ++ after)
                   ++ LF :: str "---" ++ more)
  = Some (Some (parse_digits 10 (d :: ds))).
Proof.
  intros Hf He Hn Hw Hd Ha. unfold frontmatter_nid.
  destruct (frontmatter_block _ more Hf) as (m & -> & -> & _).
  destruct (nid_number_found before ws d ds after He Hn Hw Hd Ha) as (m' & -> & ->).
  now destruct (parseInt_digits d ds Hd) as (-> & _).
Qed.


(** *** Every first marker of a line is found *)

(** The first match of a search is at or before every place where the
    pattern matches. *)
Lemma search_leftmost multiline r pre : forall t p pv m,
  Regex.search multiline r p pv (pre ++ t) = Some m ->
  match_here multiline r (mkCursor (p + length pre) (prev_after pre pv) t []) <> None ->
  (index m <= p + length pre)%nat.
Proof.
  induction pre as [|c pre IH]; intros t p pv m H Hm.
  - simpl in *. rewrite Nat.add_0_r in *. unfold prev_after in Hm. simpl in Hm.
    destruct (match_here multiline r (mkCursor p pv t [])) as [m0|] eqn:E; [|congruence].
    rewrite (search_here _ _ _ _ _ _ E) in H. injection H as <-.
    apply match_here_inside in E. destruct E as (-> & _). simpl. lia.
  - cbn [app Regex.search] in H.
    destruct (match_here multiline r (mkCursor p pv (c :: pre ++ t) [])) as [m0|] eqn:E.
    + injection H as <-. apply match_here_inside in E. destruct E as (-> & _). simpl. lia.
    + apply IH in H.
      * simpl. lia.
      * rewrite prev_after_cons in Hm. simpl in Hm.
        now replace (S p + length pre)%nat with (p + S (length pre))%nat by lia.
Qed.

(** What a match of the marker pattern consumes, with the two optional
    parts apart. *)
Lemma ID_REGEXP_shape multiline s s' :
  matches_to multiline ID_REGEXP s s' ->
  exists p1 p2 d ds dots,
    rest s = p1 ++ p2 ++ str "ID: " ++ (d :: ds) ++ dots ++ rest s' /\
    (p1 = [] \/ p1 = [LF]) /\ (p2 = [] \/ p2 = str "<!--") /\
    forallb is_digit (d :: ds) = true /\
    forallb (fun c => negb (is_line_terminator c)) dots = true /\
    pos s' = (pos s + length (p1 ++ p2 ++ str "ID: " ++ (d :: ds) ++ dots))%nat.
Proof.
  unfold ID_REGEXP. intros H.
  apply matches_to_Seq in H. destruct H as (s1 & H1 & H).
  apply matches_to_Seq in H. destruct H as (s2 & H2 & H).
  apply matches_to_Seq in H. destruct H as (s3 & H3 & H).
  apply matches_to_Seq in H. destruct H as (s4 & H4 & H5).
  assert (G1 : exists p1, rest s = p1 ++ rest s1 /\ pos s1 = (pos s + length p1)%nat /\
                          (p1 = [] \/ p1 = [LF])).
  { apply matches_to_Opt in H1. destruct H1 as [H1| ->].
    - apply matches_to_Chr in H1. destruct H1 as (c0 & r' & Hr & Hc & ->).
      cbn [cmatch] in Hc. apply Ascii.eqb_eq in Hc. subst c0.
      exists [LF]. simpl. repeat split; [exact Hr|lia|now right].
    - exists []. simpl. repeat split; [lia|now left]. }
  assert (G2 : exists p2, rest s1 = p2 ++ rest s2 /\ pos s2 = (pos s1 + length p2)%nat /\
                          (p2 = [] \/ p2 = str "<!--")).
  { apply matches_to_Opt in H2. destruct H2 as [H2| ->].
    - apply matches_to_Str in H2. destruct H2 as (E & P & _).
      exists (str "<!--"). repeat split; [exact E|exact P|now right].
    - exists []. simpl. repeat split; [lia|now left]. }
  destruct G1 as (p1 & E1 & P1 & S1). destruct G2 as (p2 & E2 & P2 & S2).
  apply matches_to_Str in H3. destruct H3 as (E3 & P3 & C3).
  apply matches_to_Group in H4. destruct H4 as (s4' & H4 & P4 & E4 & _ & C4).
  apply matches_to_class_plus in H4. destruct H4 as (d & ds & E4' & F4 & P4' & C4').
  apply matches_to_class_star in H5. destruct H5 as (dots & E5 & F5 & P5 & C5).
  exists p1, p2, d, ds, dots. repeat split; try assumption.
  - rewrite E1, E2, E3, E4', <- E4, E5, <- ?app_assoc. reflexivity.
  - rewrite P5, P4, P4', P3, P2, P1. repeat (rewrite length_app || cbn [length str]). simpl. lia.
Qed.


(** The match of the marker pattern at a marker, whatever optional parts
    come before it: group 1 is the whole run of digits. *)
Lemma marker_run multiline s p1 p2 d ds b :
  rest s = p1 ++ p2 ++ str "ID: " ++ (d :: ds) ++ b ->
  p1 = [] \/ p1 = [LF] -> p2 = [] \/ p2 = str "<!--" ->
  forallb is_digit (d :: ds) = true ->
  match b with [] => True | c :: _ => is_digit c = false end ->
  exists s',
    run multiline ID_REGEXP s Some = Some s' /\
    caps s' = (1%nat, ((pos s + length (p1 ++ p2) + 4)%nat,
                       (pos s + length (p1 ++ p2) + 4 + S (length ds))%nat)) :: caps s.
Proof.
  intros Hr H1 H2 Hd Hb.
  destruct (take_while_split (fun c => negb (is_line_terminator c)) b)
    as (tail & Eb & Ht & Fd).
  set (dots := take_while (fun c => negb (is_line_terminator c)) b) in *.
  assert (Hnd : match dots ++ tail with [] => True | c :: _ => is_digit c = false end)
    by (now rewrite <- Eb).
  assert (Htail : match tail with [] => True | c :: _ => is_line_terminator c = true end).
  { destruct tail as [|c tail]; [exact I|]. now apply negb_false_iff in Ht. }
  assert (Hat : forall s1 : cursor,
            rest s1 = p2 ++ str "ID: " ++ (d :: ds) ++ b ->
            exists s',
              run multiline ID_REGEXP s1 Some = Some s' /\
              caps s' = (1%nat, ((pos s1 + length p2 + 4)%nat,
                                 (pos s1 + length p2 + 4 + S (length ds))%nat)) :: caps s1).
  { intros s1 E1. rewrite Eb in E1.
    destruct H2 as [-> | ->].
    - destruct (ID_REGEXP_at_marker multiline s1 false d ds dots tail E1 Hd Fd Hnd Htail)
        as (s' & E & _ & _ & C).
      exists s'. split; [exact E|exact C].
    - destruct (ID_REGEXP_at_marker multiline s1 true d ds dots tail E1 Hd Fd Hnd Htail)
        as (s' & E & _ & _ & C).
      exists s'. split; [exact E|exact C]. }
  destruct H1 as [-> | ->].
  - cbn [app length] in *. destruct (Hat s Hr) as (s' & E & C).
    exists s'. split; [exact E|exact C].
  - cbn [app] in Hr.
    set (s1 := mkCursor (S (pos s)) (Some LF) (p2 ++ str "ID: " ++ (d :: ds) ++ b) (caps s)).
    destruct (Hat s1 eq_refl) as (s' & E & C).
    exists s'. split.
    + set (marker := Seq (Str (str "ID: "))
                         (Seq (Group 1 (Plus (Chr Digit))) (Star true (Chr Dot)))).
      set (k := fun s1 : cursor =>
                  orelse (run multiline (Str (str "<!--")) s1
                            (fun s2 => run multiline marker s2 Some))
                         (run multiline marker s1 Some)).
      change (run multiline ID_REGEXP s Some)
        with (orelse (run multiline (Chr (Lit LF)) s k) (k s)).
      assert (E1 : run multiline (Chr (Lit LF)) s k = k s1).
      { cbn [run]. rewrite Hr. cbn [cmatch]. now rewrite Ascii.eqb_refl. }
      assert (E2 : run multiline ID_REGEXP s1 Some = k s1).
      { change (run multiline ID_REGEXP s1 Some)
          with (orelse (run multiline (Chr (Lit LF)) s1 k) (k s1)).
        assert (E3 : run multiline (Chr (Lit LF)) s1 k = None).
        { cbn [run rest s1]. destruct H2 as [-> | ->]; reflexivity. }
        now rewrite E3. }
      rewrite E1, <- E2, E. reflexivity.
    + rewrite C. unfold s1. cbn [pos caps]. rewrite length_app. cbn [length].
      f_equal. f_equal. f_equal; lia.
Qed.


Lemma split_at_length {A} (a b c d : list A) :
  a ++ b = c ++ d -> (length a <= length c)%nat -> exists x, c = a ++ x /\ b = x ++ d.
Proof.
  intros E H. apply app_eq_app in E. destruct E as (l & [(E1 & E2)|(E1 & E2)]).
  - assert (l = []).
    { apply (f_equal (@length A)) in E1. rewrite length_app in E1.
      destruct l; [reflexivity|simpl in E1; lia]. }
    subst l. exists []. rewrite app_nil_r in *. now subst.
  - now exists l.
Qed.

(** A marker that starts before another one lies before it entirely. *)
Lemma marker_before e R l d R' :
  str "ID: " ++ e :: R = l ++ str "ID: " ++ d :: R' -> l <> [] -> is_digit e = true ->
  exists l5, l = str "ID: " ++ e :: l5.
Proof.
  intros E Hl He.
  destruct l as [|c1 l]; [congruence|]. injection E as <- E.
  destruct l as [|c2 l]; [discriminate E|]. injection E as <- E.
  destruct l as [|c3 l]; [discriminate E|]. injection E as <- E.
  destruct l as [|c4 l]; [discriminate E|]. injection E as <- E.
  destruct l as [|c5 l].
  - injection E as -> _. discriminate He.
  - injection E as <- _. now exists l.
Qed.

Lemma not_in_prefix p1 p2 :
  p1 = [] \/ p1 = [LF] -> p2 = [] \/ p2 = str "<!--" -> ~ In "I"%char (p1 ++ p2).
Proof.
  intros [-> | ->] [-> | ->]; simpl; intros H;
    repeat (destruct H as [H|H]; [discriminate H|]); exact H.
Qed.

Lemma marker_no_terminator d ds dots :
  forallb is_digit (d :: ds) = true ->
  forallb (fun c => negb (is_line_terminator c)) dots = true ->
  forall c, In c (str "ID: " ++ (d :: ds) ++ dots) -> is_line_terminator c = false.
Proof.
  intros Hd Hdots c Hc. apply in_app_or in Hc. destruct Hc as [Hc|Hc].
  - simpl in Hc. repeat (destruct Hc as [<-|Hc]; [reflexivity|]). contradiction.
  - apply in_app_or in Hc. destruct Hc as [Hc|Hc].
    + rewrite forallb_forall in Hd. now destruct (digit_cases c (Hd c Hc)) as (_ & H & _).
    + rewrite forallb_forall in Hdots. apply negb_true_iff. now apply Hdots.
Qed.

Section FirstOnLine.

Variables (before line : jstring) (d : ascii) (ds b : jstring).

Let marker : jstring := str "ID: " ++ (d :: ds) ++ b.
Let content : jstring := before ++ line ++ marker.
Let P : nat := length (before ++ line).

Hypothesis Hbefore : ends_line before.
Hypothesis Hfirst : no_marker_in line.
Hypothesis Hd : forallb is_digit (d :: ds) = true.
Hypothesis Hb : match b with [] => True | c :: _ => is_digit c = false end.

(** The successive matches from any place at or before the marker reach
    it: one of them has the digits of the marker as its group 1. *)
Lemma marker_reached fuel : forall pfx pv t,
  content = pfx ++ t -> (length pfx <= P)%nat -> (length t < fuel)%nat ->
  exists m, In m (matches_from fuel false ID_REGEXP (length pfx) pv t) /\
            groups m = [(1%nat, ((P + 4)%nat, (P + 4 + S (length ds))%nat))].
Proof.
  induction fuel as [|fuel IH]; intros pfx pv t Ec Hp Hf; [lia|].
  assert (Ec' : pfx ++ t = (before ++ line) ++ marker).
  { rewrite <- Ec. unfold content. now rewrite app_assoc. }
  destruct (split_at_length _ _ _ _ Ec' Hp) as (x & Ex & Et).
  cbn [matches_from].
  destruct (Regex.search false ID_REGEXP (length pfx) pv t) as [m|] eqn:Es.
  2:{ exfalso. revert Es. rewrite Et. apply search_finds.
      unfold match_here.
      destruct (run false ID_REGEXP _ Some) eqn:Er; [discriminate|].
      exfalso. revert Er. apply (marker_here false _ d (ds ++ b)); [reflexivity|].
      cbn [forallb] in Hd. now apply andb_prop in Hd. }
  assert (Hleft : (index m <= P)%nat).
  { rewrite Et in Es.
    assert (H := search_leftmost false ID_REGEXP x marker (length pfx) pv m Es).
    unfold P. rewrite Ex, length_app. apply H. unfold match_here.
    destruct (run false ID_REGEXP _ Some) eqn:Er; [discriminate|].
    exfalso. revert Er. apply (marker_here false _ d (ds ++ b)); [reflexivity|].
    cbn [forallb] in Hd. now apply andb_prop in Hd. }
  destruct (search_Some _ _ _ _ _ _ Es) as (pre0 & suf & pv' & Et0 & Hm).
  set (s := mkCursor (length pfx + length pre0) pv' suf []) in *.
  destruct (match_here_sound _ _ _ _ Hm) as (Hto & Hi & Hs & Hg).
  cbn [pos s] in Hi.
  destruct (ID_REGEXP_shape _ _ _ Hto) as (p1 & p2 & e & es & dots & Er & S1 & S2 & Fe & Fd & Ps).
  cbn [rest pos s] in Er, Ps.
  assert (He : is_digit e = true) by (cbn [forallb] in Fe; now apply andb_prop in Fe).
  (* the text before the match *)
  assert (EU : (pfx ++ pre0) ++ suf = (before ++ line) ++ marker).
  { rewrite <- Ec', Et0, app_assoc. reflexivity. }
  assert (HU : (length (pfx ++ pre0) <= length (before ++ line))%nat).
  { rewrite length_app. fold P. lia. }
  destruct (split_at_length _ _ _ _ EU HU) as (y & Ey & Esuf).
  assert (E2 : (p1 ++ p2) ++ str "ID: " ++ e :: (es ++ dots ++ rest (after m))
               = y ++ str "ID: " ++ d :: (ds ++ b)).
  { transitivity suf; [rewrite Er, <- app_assoc; reflexivity|exact Esuf]. }
  apply app_eq_app in E2. destruct E2 as (l & [(E3 & E4)|(E3 & E4)]).
  - (* the marker of the match is not before the marker of the text *)
    destruct l as [|c l].
    + rewrite app_nil_r in E3. subst y.
      exists m. split; [now left|].
      destruct (marker_run false s p1 p2 d ds b) as (s' & Hrun & Hc);
        [cbn [rest s]; rewrite Esuf, <- app_assoc; reflexivity
        |exact S1|exact S2|exact Hd|exact Hb|].
      unfold match_here in Hm. rewrite Hrun in Hm. injection Hm as <-.
      cbn [groups]. rewrite Hc. cbn [pos caps s].
      assert (EP : (length pfx + length pre0 + length (p1 ++ p2))%nat = P).
      { unfold P. rewrite Ey, !length_app. lia. }
      now rewrite EP.
    + exfalso. injection E4 as <- _.
      apply (not_in_prefix p1 p2 S1 S2). rewrite E3. apply in_or_app. right. now left.
  - destruct l as [|c l0].
    + (* the match is at the marker *)
      rewrite app_nil_r in E3. subst y.
      exists m. split; [now left|].
      destruct (marker_run false s p1 p2 d ds b) as (s' & Hrun & Hc);
        [cbn [rest s]; rewrite Esuf, <- app_assoc; reflexivity
        |exact S1|exact S2|exact Hd|exact Hb|].
      unfold match_here in Hm. rewrite Hrun in Hm. injection Hm as <-.
      cbn [groups]. rewrite Hc. cbn [pos caps s].
      assert (EP : (length pfx + length pre0 + length (p1 ++ p2))%nat = P).
      { unfold P. rewrite Ey, !length_app. lia. }
      now rewrite EP.
    + (* the match is at an earlier marker *)
      destruct (marker_before e _ (c :: l0) d _ E4) as (l5 & El); [discriminate|exact He|].
      rewrite El in E3. clear E4 El c l0.
      set (V := (pfx ++ pre0) ++ p1 ++ p2).
      set (W := str "ID: " ++ (e :: es) ++ dots).
      assert (EA : V ++ str "ID: " ++ e :: l5 = before ++ line).
      { unfold V. rewrite Ey, E3, <- !app_assoc. reflexivity. }
      apply app_eq_app in EA. destruct EA as (z & [(E5 & E6)|(E5 & E6)]).
      * (* it begins in the line *)
        exfalso. assert (H := Hfirst z e (l5 ++ str "ID: ")).
        rewrite E6, <- app_assoc in H. cbn [app] in H.
        rewrite <- app_assoc in H. cbn [app] in H.
        specialize (H eq_refl). congruence.
      * destruct z as [|c z].
        { exfalso. cbn [app] in E6. assert (H := Hfirst [] e (l5 ++ str "ID: ")).
          rewrite <- E6 in H. cbn [app] in H. specialize (H eq_refl). congruence. }
        (* it begins before the line: it ends before the line, too *)
        destruct Hbefore as [Hnil|(b0 & t0 & Eb & Ht0)].
        { rewrite Hnil in E5. now destruct V. }
        assert (Econt : (V ++ W) ++ rest (after m) = b0 ++ t0 :: line ++ marker).
        { unfold V, W. rewrite <- !app_assoc.
          transitivity (pfx ++ pre0 ++ suf).
          - rewrite Er. rewrite <- ?app_assoc. reflexivity.
          - rewrite <- Et0, <- Ec. unfold content. rewrite Eb, <- app_assoc. reflexivity. }
        assert (HV : (length V <= length b0)%nat).
        { apply (f_equal (@length ascii)) in E5. rewrite Eb, !length_app in E5.
          cbn [length] in E5. lia. }
        assert (Hb0 : exists l2, b0 = (V ++ W) ++ l2).
        { assert (Econt' := Econt).
          apply app_eq_app in Econt'. destruct Econt' as (l2 & [(E7 & E8)|(E7 & E8)]).
          - destruct l2 as [|c2 l2];
              [exists []; rewrite app_nil_r in *; exact (eq_sym E7)|exfalso].
            injection E8 as <- _.
            destruct (split_at_length _ _ _ _ E7 HV) as (w1 & Ew1 & Ew2).
            assert (Hin : In t0 W) by (rewrite Ew2; apply in_or_app; right; now left).
            apply (marker_no_terminator e es dots Fe Fd) in Hin. congruence.
          - now exists l2. }
        destruct Hb0 as (l2 & Eb0).
        assert (Hlt : (index m <? stop m)%nat = true).
        { apply Nat.ltb_lt. rewrite Hs, Ps, Hi, !length_app. cbn [length]. lia. }
        rewrite Hlt.
        assert (Hpos : pos (after m) = length (V ++ W)).
        { rewrite Ps. unfold V, W. rewrite !length_app. cbn [length]. lia. }
        rewrite Hpos.
        destruct (IH (V ++ W) (prev (after m)) (rest (after m))) as (m' & Hin & Hg').
        -- rewrite Econt. unfold content. rewrite Eb, <- app_assoc. reflexivity.
        -- unfold P. rewrite Eb, Eb0, !length_app. lia.
        -- apply (f_equal (@length ascii)) in Et0, Er. rewrite length_app in Et0.
           rewrite !length_app in Er. cbn [length] in Er. lia.
        -- exists m'. split; [now right|exact Hg'].
Qed.


(** The integer of a marker that is the first one of its line is among the
    identifiers found. *)
Lemma marker_included :
  In (parse_digits 10 (d :: ds)) (inline_ids content).
Proof.
  destruct (marker_reached (S (length content)) [] None content eq_refl) as (m & Hin & Hg);
    [simpl; lia|lia|].
  unfold inline_ids. apply In_numbers. apply in_map_iff. exists m. split; [|exact Hin].
  unfold group_text, group. rewrite Hg. cbn [lookup_group Nat.eqb].
  destruct (parseInt_digits d ds Hd) as (<- & _). f_equal.
  unfold substring.
  replace (P + 4 + S (length ds) - (P + 4))%nat with (length (d :: ds)) by (simpl; lia).
  assert (E : content = ((before ++ line) ++ str "ID: ") ++ (d :: ds) ++ b).
  { unfold content, marker. rewrite <- !app_assoc. reflexivity. }
  assert (EP : (P + 4)%nat = length ((before ++ line) ++ str "ID: ")).
  { unfold P. rewrite (length_app (before ++ line)). reflexivity. }
  rewrite E, EP, skipn_app, skipn_all, Nat.sub_diag. cbn [skipn app].
  change (d :: ds ++ b) with ((d :: ds) ++ b).
  now rewrite firstn_app, firstn_all, Nat.sub_diag, app_nil_r.
Qed.

End FirstOnLine.

Lemma markerb_none t :
  markerb t = false -> forall x e y, t = x ++ str "ID: " ++ e :: y -> is_digit e = false.
Proof.
  intros H x. revert t H. induction x as [|c x IH]; intros t H e y ->.
  - cbn [app str list_ascii_of_string markerb] in H.
    apply orb_false_iff in H. destruct H as (H & _).
    cbn -[is_digit] in H. exact H.
  - cbn [app markerb] in H. apply orb_false_iff in H. destruct H as (_ & H).
    now apply (IH _ H e y).
Qed.

Lemma no_marker_check line : markerb (line ++ str "ID: ") = false -> no_marker_in line.
Proof. intros H x e y E. now apply (markerb_none _ H x e y). Qed.




(** The content-level statements at work on a file with a comment-wrapped
    marker and a front-matter identifier: their hypotheses hold of it, and the
    identifiers are the ones the operation computes. *)
Example bulk_delete_found :
  let content :=
    Example.lines ["---"; "title: x"; "nid: 1700000000012"; "---";
                   "START"; "Basic"; "Q"; "A"; "<!--ID: 1700000000001-->"; "END"; ""]%string in
  matches regex content <> [] /\
  In 1700000000001 (inline_ids content) /\
  frontmatter_nid content = Some (Some 1700000000012) /\
  ids content = [1700000000001; 1700000000012] /\
  checkAndBulkDelete content = AwaitConfirmation 2 (onConfirm content).
Proof.
  cbv zeta.
  set (content := Example.lines _).
  split; [|split; [|split; [|split; vm_compute; reflexivity]]].
  - apply (marker_found content
             (Example.lines ["---"; "title: x"; "nid: 1700000000012"; "---";
                             "START"; "Basic"; "Q"; "A"; "<!--"]%string)
             "1"%char (str "700000000001-->" ++ [LF] ++ str "END" ++ [LF]));
      vm_compute; reflexivity.
  - change 1700000000001 with (parse_digits 10 ("1"%char :: str "700000000001")).
    change content
      with (Example.lines ["---"; "title: x"; "nid: 1700000000012"; "---";
                           "START"; "Basic"; "Q"; "A"; ""]%string
            ++ str "<!--" ++ str "ID: " ++ ("1"%char :: str "700000000001")
            ++ str "-->" ++ [LF] ++ str "END" ++ [LF]).
    apply marker_included.
    + right. exists (Example.lines ["---"; "title: x"; "nid: 1700000000012"; "---";
                                    "START"; "Basic"; "Q"; "A"]%string), LF.
      split; reflexivity.
    + apply no_marker_check. vm_compute. reflexivity.
    + reflexivity.
    + reflexivity.
  - change content
      with (str "---" ++ [LF]
            ++ ((str "title: x" ++ [LF]) ++ str "nid:" ++ str " "
                ++ "1"%char :: str "700000000012" ++ [])
            ++ LF :: str "---"
            ++ (LF :: Example.lines ["START"; "Basic"; "Q"; "A";
                                     "<!--ID: 1700000000001-->"; "END"; ""]%string)).
    rewrite frontmatter_nid_found.
    + vm_compute. reflexivity.
    + apply no_fence_in_first. vm_compute. reflexivity.
    + right. exists (str "title: x"), LF. split; reflexivity.
    + apply not_occurs. vm_compute. reflexivity.
    + reflexivity.
    + reflexivity.
    + exact I.
Qed.

End BulkContentFacts.

(** * The fallback of the front-matter identifier *)

Module FallbackFacts.
Import Scanner ScannerProps ScannerFacts RegexProps RegexSemantics RegexFacts RegexSemanticsFacts MatcherProps MatcherFacts MarkerFacts RoundTripFacts RemovalFacts SearchProps SearchFacts BulkContentFacts.

Lemma no_LF_class v : ~ In LF v -> forallb (cmatch (NoneOf [LF])) v = true.
Proof.
  induction v as [|c v IH]; intros H; simpl; [reflexivity|].
  rewrite IH by (intros Hin; apply H; now right).
  destruct (Ascii.eqb_spec c LF) as [->|_]; [exfalso; apply H; now left|reflexivity].
Qed.

Lemma class_no_LF v : forallb (cmatch (NoneOf [LF])) v = true -> ~ In LF v.
Proof.
  induction v as [|c v IH]; simpl; intros H; [tauto|].
  apply andb_prop in H. destruct H as (Hc & Hv). intros [->|Hin].
  - now rewrite Ascii.eqb_refl in Hc.
  - now apply IH.
Qed.

(** *** The test for the last property: [nid:] with nothing but the rest of
    its line after it *)

Lemma nid_last_here s m :
  match_here false (pattern nid_last) s = Some m ->
  exists w, rest s = str "nid:" ++ w /\ ~ In LF w.
Proof.
  intros H. apply match_here_sound in H. destruct H as (H & _).
  unfold nid_last in H. cbn [pattern] in H.
  apply matches_to_Seq in H. destruct H as (s1 & H1 & H).
  apply matches_to_Seq in H. destruct H as (s2 & H2 & H3).
  apply matches_to_Str in H1. destruct H1 as (E1 & _).
  apply matches_to_class_star in H2. destruct H2 as (w & E2 & F & _).
  apply matches_to_Eol in H3. destruct H3 as (_ & He).
  unfold at_eol in He. destruct (rest s2) as [|c r] eqn:Er; [|discriminate].
  exists w. split; [|now apply class_no_LF].
  rewrite E1, E2, app_nil_r. reflexivity.
Qed.

(** The test fails when a further line follows and holds no [nid:]. *)
Lemma nid_last_test_false pre v after :
  ~ In LF v -> ~ occurs (str "nid:") after ->
  re_test nid_last (pre ++ str "nid:" ++ v ++ LF :: after) = false.
Proof.
  intros Hv Hafter. unfold re_test, test, exec.
  rewrite search_None; [reflexivity|].
  intros a b p' pv' E.
  destruct (match_here (multiline nid_last) (pattern nid_last)
                       (mkCursor p' pv' b [])) as [m|] eqn:Em; [exfalso|reflexivity].
  apply nid_last_here in Em. cbn [rest] in Em. destruct Em as (w & -> & Hw).
  replace (pre ++ str "nid:" ++ v ++ LF :: after)
    with ((pre ++ str "nid:" ++ v) ++ LF :: after) in E
    by (rewrite <- !app_assoc; reflexivity).
  apply app_eq_app in E. destruct E as (l & [(E1 & E2)|(E1 & E2)]).
  - (* the match starts before the line feed *)
    assert (Hin : In LF (str "nid:" ++ w)).
    { rewrite E2. apply in_or_app. right. now left. }
    apply in_app_or in Hin. destruct Hin as [Hin|Hin]; [|contradiction].
    simpl in Hin. repeat (destruct Hin as [Hin|Hin]; [discriminate Hin|]). exact Hin.
  - destruct l as [|c l]; [discriminate E2|].
    injection E2 as _ E2. apply Hafter. exists l, w. exact E2.
Qed.

(** The test succeeds when the text ends with [nid:] and the rest of a
    line. *)
Lemma nid_last_test_true x v :
  ~ In LF v -> re_test nid_last (x ++ str "nid:" ++ v) = true.
Proof.
  intros Hv. unfold re_test, test, exec.
  destruct (Regex.search (multiline nid_last) (pattern nid_last) 0 None
                         (x ++ str "nid:" ++ v)) eqn:E; [reflexivity|exfalso].
  revert E. apply search_finds. unfold match_here, nid_last. cbn [pattern multiline].
  set (s0 := mkCursor (0 + length x) (prev_after x None) (str "nid:" ++ v) []).
  change (run false (Seq (Str ?a) ?r) s0 Some)
    with (run false (Str a) s0 (fun s1 => run false r s1 Some)).
  rewrite (run_Str_there false _ s0 v) by reflexivity.
  change (run false (Seq (Star true (Chr ?cl)) Eol) ?s Some)
    with (run false (Star true (Chr cl)) s (fun s1 => run false Eol s1 Some)).
  erewrite (run_greedy_class false (NoneOf [LF]) v _ []); [discriminate| | |exact I|].
  - rewrite app_nil_r. now apply advance_rest.
  - now apply no_LF_class.
  - cbn [run]. unfold at_eol.
    rewrite (advance_rest v (advance s0 (str "nid:")) []); [reflexivity|].
    rewrite app_nil_r. now apply advance_rest.
Qed.


(** *** Clearing the value *)

Lemma take_while_prefix p w tail :
  forallb p w = true -> match tail with [] => True | c :: _ => p c = false end ->
  take_while p (w ++ tail) = w.
Proof.
  intros Hw Ht. induction w as [|c w IH]; simpl.
  - destruct tail as [|c tail]; [reflexivity|]. simpl. now rewrite Ht.
  - simpl in Hw. apply andb_prop in Hw. destruct Hw as (-> & Hw). now rewrite IH.
Qed.

(** The first line that starts with [nid:] loses what follows the key. *)
Lemma nid_value_cleared pre v after :
  ends_line pre -> ~ occurs (str "nid:") pre -> ~ In LF v ->
  re_replace nid_value (fun _ => str "nid:") (pre ++ str "nid:" ++ v ++ LF :: after)
  = pre ++ str "nid:" ++ LF :: after.
Proof.
  intros Hend Hno Hv. unfold re_replace, replace, exec.
  change (multiline nid_value) with true.
  set (t := str "nid:" ++ v ++ LF :: after).
  set (s0 := mkCursor (0 + length pre) (prev_after pre None) t []).
  assert (Hbol : at_bol true s0 = true).
  { unfold at_bol, s0. cbn [prev]. destruct Hend as [->|(b & c & -> & Hc)]; [reflexivity|].
    now rewrite prev_after_snoc, Hc. }
  assert (Hhere : match_here true (pattern nid_value) s0
                  = Some (let s1 := advance s0 (str "nid:") in
                          let s' := advance s1 v in
                          mkMatch (pos s0) (pos s') (caps s') s')).
  { rewrite nid_value_here. rewrite Hbol. cbn [rest s0 andb].
    change (starts_with (str "nid:") t) with true. cbv zeta.
    assert (R1 : rest (advance s0 (str "nid:")) = v ++ LF :: after)
      by (apply advance_rest; reflexivity).
    rewrite R1, take_while_prefix; [reflexivity| |reflexivity].
    now apply no_LF_class. }
  rewrite search_skip.
  - rewrite (search_here _ _ _ _ _ _ Hhere). cbv zeta. cbn [index stop].
    rewrite !advance_pos. cbn [pos s0 Nat.add].
    rewrite firstn_app, firstn_all, Nat.sub_diag. cbn [firstn]. rewrite app_nil_r.
    f_equal. f_equal.
    rewrite skipn_app.
    replace (length pre + length (str "nid:") + length v - length pre)%nat
      with (length (str "nid:" ++ v)) by (rewrite length_app; lia).
    rewrite skipn_all2 by lia. cbn [app]. unfold t.
    rewrite app_assoc, skipn_app, skipn_all, Nat.sub_diag. reflexivity.
  - intros a c b p' pv' E. rewrite nid_value_here. cbn [rest].
    rewrite (nid_not_before pre t Hno Hend a c b E). now rewrite andb_false_r.
Qed.


(** *** Deleting the line *)

(** Where the pattern of the deletion matches: an optional line feed with
    white space, then [nid:]; and the match ends with the text. *)
Lemma nid_last_line_here s m :
  match_here false (pattern nid_last_line) s = Some m ->
  (exists g x, rest s = g ++ str "nid:" ++ x /\
               (g = [] \/ exists w, g = LF :: w /\ forallb is_space w = true)) /\
  rest (after m) = [].
Proof.
  intros H. apply match_here_sound in H. destruct H as (H & _).
  unfold nid_last_line in H. cbn [pattern] in H.
  apply matches_to_Seq in H. destruct H as (s1 & H1 & H).
  apply matches_to_Seq in H. destruct H as (s2 & H2 & H).
  apply matches_to_Seq in H. destruct H as (s3 & H3 & H).
  apply matches_to_Seq in H. destruct H as (s4 & H4 & H5).
  apply matches_to_Str in H2. destruct H2 as (E2 & _).
  apply matches_to_Eol in H5. destruct H5 as (E5 & He).
  split.
  - apply matches_to_Opt in H1. destruct H1 as [H1| ->].
    + apply matches_to_Group in H1. destruct H1 as (s1' & H1 & _ & Er & _).
      apply matches_to_Seq in H1. destruct H1 as (sa & Ha & Hb).
      apply matches_to_Chr in Ha. destruct Ha as (c & r' & Hr & Hc & ->).
      apply matches_to_class_star in Hb. destruct Hb as (w & Hw & F & _).
      cbn [rest] in Hw. cbn [cmatch] in Hc. apply Ascii.eqb_eq in Hc. subst c.
      exists (LF :: w), (rest s2). split.
      * rewrite Hr, Hw, <- Er, E2. reflexivity.
      * right. now exists w.
    + exists [], (rest s2). split; [exact E2|now left].
  - subst s4. unfold at_eol in He. now destruct (rest (after m)).
Qed.

Lemma nid_last_line_found s sep v :
  rest s = sep ++ str "nid:" ++ v -> sep = [] \/ sep = [LF] -> ~ In LF v ->
  match_here false (pattern nid_last_line) s <> None.
Proof.
  intros E Hsep Hv.
  set (R := Seq (Str (str "nid:"))
                (Seq (Star true (Chr (NoneOf [LF]))) (Seq (Star true (Chr Space)) Eol))).
  assert (Htail : forall s1, rest s1 = str "nid:" ++ v -> run false R s1 Some <> None).
  { intros s1 E1. unfold R.
    change (run false (Seq (Str ?a) ?r) s1 Some)
      with (run false (Str a) s1 (fun s2 => run false r s2 Some)).
    rewrite (run_Str_there false _ s1 v) by exact E1.
    change (run false (Seq (Star true (Chr ?cl)) ?r) ?s2 Some)
      with (run false (Star true (Chr cl)) s2 (fun s3 => run false r s3 Some)).
    assert (R2 : rest (advance s1 (str "nid:")) = v ++ []).
    { rewrite app_nil_r. now apply advance_rest. }
    erewrite (run_greedy_class false (NoneOf [LF]) v _ [] _ _ R2);
      [discriminate|now apply no_LF_class|exact I|].
    change (run false (Seq (Star true (Chr ?cl)) ?r) ?s2 Some)
      with (run false (Star true (Chr cl)) s2 (fun s3 => run false r s3 Some)).
    assert (R3 : rest (advance (advance s1 (str "nid:")) v) = [] ++ []).
    { now apply advance_rest. }
    erewrite (run_greedy_class false Space [] _ [] _ _ R3); [reflexivity|reflexivity|exact I|].
    cbn [advance run]. unfold at_eol. now rewrite R3. }
  unfold match_here, nid_last_line. cbn [pattern]. fold R.
  set (G := Group 1 (Seq (Chr (Lit LF)) (Star true (Chr Space)))).
  change (run false (Seq (Opt G) R) s Some)
    with (orelse (run false G s (fun s1 => run false R s1 Some)) (run false R s Some)).
  destruct Hsep as [-> | ->].
  - destruct (run false G s (fun s1 => run false R s1 Some)); cbn [orelse]; [discriminate|].
    destruct (run false R s Some) eqn:Er; [discriminate|].
    exfalso. revert Er. now apply Htail.
  - assert (Hx : run false G s (fun s1 => run false R s1 Some) <> None).
    { set (sa := mkCursor (S (pos s)) (Some LF) (str "nid:" ++ v) (caps s)).
      set (k := fun s' : cursor =>
                  run false R (mkCursor (pos s') (prev s') (rest s')
                                        ((1%nat, (pos s, pos s')) :: caps s')) Some).
      assert (Eg : run false G s (fun s1 => run false R s1 Some)
                   = run false (Star true (Chr Space)) sa k).
      { unfold G. cbn [run]. rewrite E. cbn [app cmatch]. rewrite Ascii.eqb_refl.
        reflexivity. }
      rewrite Eg.
      assert (Ra : rest sa = [] ++ str "nid:" ++ v) by reflexivity.
      destruct (k (advance sa [])) as [res|] eqn:Eres.
      - erewrite (run_greedy_class false Space [] sa _ k res Ra);
          [discriminate|reflexivity|reflexivity|exact Eres].
      - exfalso. revert Eres. unfold k. apply Htail. reflexivity. }
    destruct (run false G s (fun s1 => run false R s1 Some)); [discriminate|congruence].
Qed.


Lemma forallb_last_char {A} (p : A -> bool) l x : forallb p (l ++ [x]) = true -> p x = true.
Proof.
  rewrite forallb_app. intros H. apply andb_prop in H. destruct H as (_ & H).
  simpl in H. now rewrite andb_true_r in H.
Qed.

(** The last line, when it is [nid:] and a value, goes with the line feed
    before it. *)
Lemma nid_line_deleted body sep v :
  ~ occurs (str "nid:") body -> no_blank_end body -> ~ In LF v ->
  sep = [LF] \/ (sep = [] /\ body = []) ->
  re_replace nid_last_line (fun _ => []) (body ++ sep ++ str "nid:" ++ v) = body.
Proof.
  intros Hno Hend Hv Hsep. unfold re_replace, replace.
  set (text := body ++ sep ++ str "nid:" ++ v).
  destruct (exec (multiline nid_last_line) (pattern nid_last_line) text) as [m|] eqn:Ex.
  2:{ exfalso. revert Ex. unfold exec, text. apply search_finds.
      apply (nid_last_line_found _ sep v); [reflexivity| |exact Hv].
      destruct Hsep as [->|(-> & _)]; auto. }
  assert (E0 : match_here false (pattern nid_last_line)
                 (mkCursor (length body) (prev_after body None)
                           (sep ++ str "nid:" ++ v) []) = Some m).
  { unfold exec, text in Ex. change (multiline nid_last_line) with false in Ex.
    rewrite search_skip in Ex.
    - cbn [Nat.add] in Ex.
      destruct (match_here false (pattern nid_last_line)
                  (mkCursor (length body) (prev_after body None)
                            (sep ++ str "nid:" ++ v) [])) as [m0|] eqn:E0.
      + rewrite (search_here _ _ _ _ _ _ E0) in Ex. exact Ex.
      + exfalso. revert E0. apply (nid_last_line_found _ sep v); [reflexivity| |exact Hv].
        destruct Hsep as [->|(-> & _)]; auto.
    - intros a c b p' pv' E.
      destruct (match_here false (pattern nid_last_line)
                  (mkCursor p' pv' (c :: b ++ sep ++ str "nid:" ++ v) [])) as [m0|] eqn:E0;
        [exfalso|reflexivity].
      apply nid_last_line_here in E0. destruct E0 as ((g & x & Eg & Hg) & _).
      cbn [rest] in Eg.
      destruct Hsep as [->|(_ & ->)]; [|now destruct a].
      change (c :: b ++ [LF] ++ str "nid:" ++ v)
        with ((c :: b) ++ LF :: str "nid:" ++ v) in Eg.
      apply app_eq_app in Eg. destruct Eg as (l & [(E1 & E2)|(E1 & E2)]).
      + (* [nid:] starts inside the body *)
        destruct l as [|c1 [|c2 [|c3 [|c4 l']]]]; cbn in E2; try discriminate E2.
        injection E2 as <- <- <- <- _. apply Hno.
        exists (a ++ g), l'. rewrite E, E1, <- !app_assoc. reflexivity.
      + (* the body ends in the white space of the group *)
        destruct Hg as [->|(w & -> & Fw)]; [discriminate E1|].
        destruct Hend as [->|(b0 & x0 & Eb & Hx0)]; [now destruct a|].
        destruct (exists_last (l := c :: b)) as (b1 & x1 & Eb1); [discriminate|].
        rewrite Eb1 in E, E1.
        assert (x1 = x0).
        { rewrite Eb, app_assoc in E. now apply app_inj_tail in E. }
        subst x1.
        assert (Hsp : forallb is_space ((b1 ++ [x0]) ++ l) = true).
        { rewrite <- E1. cbn [forallb]. now rewrite Fw. }
        rewrite forallb_app in Hsp. apply andb_prop in Hsp. destruct Hsp as (Hsp & _).
        apply forallb_last_char in Hsp. congruence. }
  destruct (match_here_sound _ _ _ _ E0) as (Hm & Hindex & Hs & _).
  cbn [pos] in Hindex.
  assert (Hstop : skipn (stop m) text = []).
  { destruct (nid_last_line_here _ _ E0) as (_ & Hr). rewrite <- Hr, Hs.
    symmetry.
    apply (reaches_cursor_in text _ (after m) (cursor_in_suffix body _ _)
             (matches_to_reaches _ _ _ _ Hm)). }
  rewrite Hstop, Hindex, app_nil_r. unfold text.
  rewrite firstn_app, firstn_all, Nat.sub_diag. cbn [firstn]. apply app_nil_r.
Qed.


(** *** The block *)

(** A line that starts with [nid:] is found by the test of the removal. *)
Lemma nid_line_feed_found pre t :
  ends_line pre -> re_test nid_line_feed (pre ++ str "nid:" ++ t) = true.
Proof.
  intros Hend. unfold re_test, test, exec.
  destruct (Regex.search (multiline nid_line_feed) (pattern nid_line_feed) 0 None
                         (pre ++ str "nid:" ++ t)) eqn:E; [reflexivity|exfalso].
  revert E. apply search_finds. unfold match_here, nid_line_feed. cbn [pattern multiline].
  set (s0 := mkCursor (0 + length pre) (prev_after pre None) (str "nid:" ++ t) []).
  assert (Hbol : at_bol true s0 = true).
  { unfold at_bol, s0. cbn [prev]. destruct Hend as [->|(b & c & -> & Hc)]; [reflexivity|].
    now rewrite prev_after_snoc, Hc. }
  change (run true (Seq Bol ?r) s0 Some)
    with (if at_bol true s0 then run true r s0 Some else None).
  rewrite Hbol.
  change (run true (Seq (Str ?a) ?r) s0 Some)
    with (run true (Str a) s0 (fun s1 => run true r s1 Some)).
  rewrite (run_Str_there true _ s0 t) by reflexivity.
  change (run true (Seq (Star true (Chr ?cl)) ?r) ?s Some)
    with (run true (Star true (Chr cl)) s (fun s1 => run true r s1 Some)).
  set (s1 := advance s0 (str "nid:")).
  destruct (take_while_split (cmatch Dot) (rest s1)) as (tail & Et & Ht & Hw).
  set (k := fun s2 : cursor => run true (Opt (Chr (Lit LF))) s2 Some).
  assert (Hk : exists res, k (advance s1 (take_while (cmatch Dot) (rest s1))) = Some res).
  { unfold k.
    change (run true (Opt ?r) ?s Some) with (orelse (run true r s Some) (Some s)).
    destruct (run true (Chr (Lit LF)) _ Some) as [r|]; [exists r|eexists]; reflexivity. }
  destruct Hk as (res & Hk).
  now rewrite (run_greedy_class true Dot _ s1 tail k res Et Hw Ht Hk).
Qed.

Lemma length_block fm : length (str "---" ++ [LF] ++ fm ++ LF :: str "---") = (length fm + 8)%nat.
Proof. simpl. rewrite length_app. simpl. lia. Qed.

(** The edit of the fallback: the block from the first character to the
    closing fence is replaced by the block around the rewritten front
    matter. *)
Lemma remove_frontmatter_nid_block fm more :
  first_fence fm more -> re_test nid_line_feed fm = true ->
  remove_frontmatter_nid (str "---" ++ [LF] ++ fm ++ LF :: str "---" ++ more)
  = [EditEngine.mkEdit 0 (len (str "---" ++ [LF] ++ fm ++ LF :: str "---"))
       (str "---" ++ [LF] ++ demote_frontmatter fm ++ [LF] ++ str "---")].
Proof.
  intros Hf Ht. unfold remove_frontmatter_nid.
  destruct (frontmatter_block fm more Hf) as (m & -> & -> & Hi & Hs).
  rewrite Ht. f_equal. f_equal. unfold len. f_equal.
  unfold matched, substring. rewrite Hi, Hs, Nat.sub_0_r. cbn [skipn].
  rewrite length_block.
  replace (str "---" ++ [LF] ++ fm ++ LF :: str "---" ++ more)
    with ((str "---" ++ [LF] ++ fm ++ LF :: str "---") ++ more)
    by (simpl; rewrite <- app_assoc; reflexivity).
  rewrite <- (length_block fm), firstn_app, firstn_all, Nat.sub_diag.
  cbn [firstn]. now rewrite app_nil_r.
Qed.


Lemma fenced_app fm more :
  fenced fm ++ more = str "---" ++ [LF] ++ fm ++ LF :: str "---" ++ more.
Proof. unfold fenced. simpl. now rewrite <- app_assoc. Qed.

(** The [nid] line is the last property: the edit leaves the properties
    before it. *)
Lemma remove_frontmatter_nid_last body sep v more :
  let fm := body ++ sep ++ str "nid:" ++ v in
  trim fm = fm -> ~ occurs (str "nid:") body -> no_blank_end body -> ~ In LF v ->
  sep = [LF] \/ (sep = [] /\ body = []) -> first_fence fm more ->
  remove_frontmatter_nid (fenced fm ++ more)
  = [EditEngine.mkEdit 0 (len (fenced fm)) (fenced body)].
Proof.
  intros fm Ht Hno Hend Hv Hsep Hf.
  assert (Hline : re_test nid_line_feed fm = true).
  { unfold fm. destruct Hsep as [->|(-> & ->)].
    - rewrite app_assoc. apply nid_line_feed_found. right. now exists body, LF.
    - apply (nid_line_feed_found [] v). now left. }
  rewrite fenced_app, (remove_frontmatter_nid_block fm more Hf Hline).
  unfold demote_frontmatter. rewrite Ht.
  assert (Hlast : re_test nid_last fm = true).
  { unfold fm. rewrite app_assoc. now apply nid_last_test_true. }
  rewrite Hlast. unfold fm. now rewrite (nid_line_deleted body sep v Hno Hend Hv Hsep).
Qed.

(** A property follows the [nid] line: the edit keeps the key and clears
    its value. *)
Lemma remove_frontmatter_nid_not_last pre v after more :
  let fm := pre ++ str "nid:" ++ v ++ LF :: after in
  trim fm = fm -> ends_line pre -> ~ occurs (str "nid:") pre -> ~ In LF v ->
  ~ occurs (str "nid:") after -> first_fence fm more ->
  remove_frontmatter_nid (fenced fm ++ more)
  = [EditEngine.mkEdit 0 (len (fenced fm)) (fenced (pre ++ str "nid:" ++ LF :: after))].
Proof.
  intros fm Ht Hend Hno Hv Hafter Hf.
  assert (Hline : re_test nid_line_feed fm = true)
    by (now apply nid_line_feed_found).
  rewrite fenced_app, (remove_frontmatter_nid_block fm more Hf Hline).
  unfold demote_frontmatter. rewrite Ht.
  unfold fm. rewrite (nid_last_test_false pre v after Hv Hafter).
  now rewrite (nid_value_cleared pre v after Hend Hno Hv).
Qed.

(** C6, as stated, fails by design in two ways; the front matter of the
    documents holds the identifier [known_nid], which the remote store knows,
    and the store answers with new identifiers for the notes still to add.
    (i) The fallback looks for the new note in [notes_to_add] only: in a
    document whose new notes are inline notes, the front-matter identifier is
    given to no note.  (ii) The write pass deletes the [nid] line only when
    it is the last property; here it comes first, and the key stays with its
    value cleared. *)
Lemma frontmatter_fallback_counterexample :
  let data := Example.data [Example.known_nid] true false None [] in
  let cache := Example.cache_nid Example.known_nid in
  let st1 := scanFile (Example.X []) data cache
                      (new_AllFile Example.nid_last_two_inline_notes) in
  let st2 := scanFile (Example.X []) data cache
                      (new_AllFile Example.nid_first_two_notes) in
  (frontmatterID st1 = Some Example.known_nid /\
   In Example.known_nid (EXISTING_IDS data) /\
   length (inline_notes_to_add st1) = 2%nat /\ useFrontmatterID st1 = false /\
   notes_to_edit st1 = [] /\ notesToWriteInline st1 = [] /\
   file (writeIDs data (set_note_ids [Some 1700000000013; Some 1700000000014] st1))
   = Example.lines ["---"; "title: x"; "---";
                    "STARTI [Basic] q1 Back: a1 <!--ID: 1700000000013--> ENDI";
                    "STARTI [Basic] q2 Back: a2 <!--ID: 1700000000014--> ENDI";
                    ""]%string) /\
  (useFrontmatterID st2 = false /\
   map identifier (notes_to_edit st2) = [Some Example.known_nid] /\
   length (notes_to_add st2) = 1%nat /\
   file (writeIDs data (set_note_ids [Some 1700000000013] st2))
   = Example.lines ["---"; "nid:"; "title: x"; "---";
                    "START"; "Basic"; "Q1"; "A1"; "<!--ID: 1700000000012-->"; "END";
                    "START"; "Basic"; "Q2"; "A2"; "<!--ID: 1700000000013-->"; "END";
                    ""]%string).
Proof.
  cbv zeta. split.
  - repeat split; try (vm_compute; reflexivity). now left.
  - repeat split; vm_compute; reflexivity.
Qed.

(** The text [nid:] inside another key: the test of the last property is not
    tied to a line start, and the deletion takes the end of the other key. *)
Example nid_inside_another_key :
  demote_frontmatter (Example.lines ["nid: 12"; "mynid: 5"]%string)
  = Example.lines ["nid: 12"; "my"]%string.
Proof. vm_compute. reflexivity. Qed.

Local Opaque Z.eqb truthy includes.

(** C6 (amended): if front-matter mode is disabled or the document holds more
    than one note in total, [postProcessFrontmatterID] turns front-matter
    mode off for the document.  If moreover a front-matter identifier was
    read (a non-zero number) that the remote store knows, and the document
    has a new block note, the first note of [notes_to_add] is moved to
    [notes_to_edit] under the front-matter identifier and an inline insertion
    of that identifier at the note's insertion position is scheduled; the
    write pass emits that insertion ([ID: n] and a line feed,
    comment-wrapped when configured) together with the edit of the
    front-matter block.  That edit is stated for a block [fenced fm] at the
    start of the file whose closing fence is the first one, [fm] having no
    white space at its ends and holding the text [nid:] once, at a line
    start, with no line feed in the value [v].  When the [nid] line is the
    last property (the only one, or after a line feed that follows a character
    that is no white space) the edit replaces the block by the block of the
    properties before it: the line is deleted.  When a line feed and more
    text follow the value, the edit replaces the block by the block with the
    value deleted: the key [nid:] stays. *)
Theorem frontmatter_id_falls_back_inline (data : FileData) (st : AllFile) :
  saveIDToFrontmatter data = false \/ (1 < totalNotes st)%nat ->
  let st' := postProcessFrontmatterID data st in
  useFrontmatterID st' = false /\
  (forall f n rest p prest,
     frontmatterID st = Some f -> f <> 0 -> In f (EXISTING_IDS data) ->
     notes_to_add st = n :: rest -> id_indexes st = p :: prest ->
     notes_to_add st' = rest /\ id_indexes st' = prest /\
     notes_to_edit st' = notes_to_edit st ++ [mkParsed n (Some f)] /\
     notesToWriteInline st' = notesToWriteInline st ++ [(p, f)] /\
     forall ids,
       In (EditEngine.mkEdit p p (id_to_str f false (comment data)))
          (writeIDs_edits data (set_note_ids ids st')) /\
       (forall e, In e (remove_frontmatter_nid (file st)) ->
                  In e (writeIDs_edits data (set_note_ids ids st')))) /\
  (forall body sep v more,
     let fm := body ++ sep ++ str "nid:" ++ v in
     trim fm = fm -> ~ occurs (str "nid:") body -> no_blank_end body -> ~ In LF v ->
     sep = [LF] \/ (sep = [] /\ body = []) -> first_fence fm more ->
     remove_frontmatter_nid (fenced fm ++ more)
     = [EditEngine.mkEdit 0 (len (fenced fm)) (fenced body)]) /\
  (forall pre v after more,
     let fm := pre ++ str "nid:" ++ v ++ LF :: after in
     trim fm = fm -> ends_line pre -> ~ occurs (str "nid:") pre -> ~ In LF v ->
     ~ occurs (str "nid:") after -> first_fence fm more ->
     remove_frontmatter_nid (fenced fm ++ more)
     = [EditEngine.mkEdit 0 (len (fenced fm))
          (fenced (pre ++ str "nid:" ++ LF :: after))]).
Proof.
  intros Hmode. cbv zeta.
  assert (Hcond : saveIDToFrontmatter data && (totalNotes st =? 1)%nat = false).
  { destruct Hmode as [-> | Hgt]; [reflexivity|].
    apply andb_false_iff. right. apply Nat.eqb_neq. lia. }
  split; [|split; [|split]].
  - unfold postProcessFrontmatterID. rewrite Hcond.
    repeat match goal with
           | |- context [if ?c then _ else _] => destruct c; simpl
           | |- context [match ?x with _ => _ end] => destruct x; simpl
           end; reflexivity.
  - intros f n rest p prest Hf Hnz Hk Ha Hi.
    apply includes_In in Hk.
    assert (Hst' : postProcessFrontmatterID data st
                   = set_notesToWriteInline (notesToWriteInline st ++ [(p, f)])
                       (set_notes_to_edit (notes_to_edit st ++ [mkParsed n (Some f)])
                          (set_id_indexes prest
                             (set_notes_to_add rest (set_useFrontmatterID false st))))).
    { unfold postProcessFrontmatterID. rewrite Hcond.
      destruct st; simpl in *; subst.
      rewrite (truthy_nonzero f Hnz), Hk. reflexivity. }
    rewrite Hst'. simpl. repeat split; try reflexivity.
    + apply (writeIDs_edits_inline data) with (item := (p, f)); [reflexivity|].
      simpl. apply in_or_app. right. now left.
    + intros e He. apply writeIDs_edits_frontmatter; [reflexivity| |exact He].
      simpl. rewrite Hf. now apply truthy_nonzero.
  - exact remove_frontmatter_nid_last.
  - exact remove_frontmatter_nid_not_last.
Qed.

Local Transparent Z.eqb truthy includes.

Lemma frontmatter_id_falls_back_inline_witness :
  let data := Example.data [Example.known_nid] true false None [] in
  let st := scan_passes (Example.X []) data (Example.cache_nid Example.known_nid)
                        (new_AllFile Example.nid_last_two_notes) in
  (saveIDToFrontmatter data = false \/ (1 < totalNotes st)%nat) /\
  let st' := postProcessFrontmatterID data st in
  useFrontmatterID st' = false /\
  (forall f n rest p prest,
     frontmatterID st = Some f -> f <> 0 -> In f (EXISTING_IDS data) ->
     notes_to_add st = n :: rest -> id_indexes st = p :: prest ->
     notes_to_add st' = rest /\ id_indexes st' = prest /\
     notes_to_edit st' = notes_to_edit st ++ [mkParsed n (Some f)] /\
     notesToWriteInline st' = notesToWriteInline st ++ [(p, f)] /\
     forall ids,
       In (EditEngine.mkEdit p p (id_to_str f false (comment data)))
          (writeIDs_edits data (set_note_ids ids st')) /\
       (forall e, In e (remove_frontmatter_nid (file st)) ->
                  In e (writeIDs_edits data (set_note_ids ids st')))) /\
  (forall body sep v more,
     let fm := body ++ sep ++ str "nid:" ++ v in
     trim fm = fm -> ~ occurs (str "nid:") body -> no_blank_end body -> ~ In LF v ->
     sep = [LF] \/ (sep = [] /\ body = []) -> first_fence fm more ->
     remove_frontmatter_nid (fenced fm ++ more)
     = [EditEngine.mkEdit 0 (len (fenced fm)) (fenced body)]) /\
  (forall pre v after more,
     let fm := pre ++ str "nid:" ++ v ++ LF :: after in
     trim fm = fm -> ends_line pre -> ~ occurs (str "nid:") pre -> ~ In LF v ->
     ~ occurs (str "nid:") after -> first_fence fm more ->
     remove_frontmatter_nid (fenced fm ++ more)
     = [EditEngine.mkEdit 0 (len (fenced fm))
          (fenced (pre ++ str "nid:" ++ LF :: after))]).
Proof.
  cbv zeta.
  set (data := Example.data [Example.known_nid] true false None []).
  set (st := scan_passes (Example.X []) data (Example.cache_nid Example.known_nid)
                         (new_AllFile Example.nid_last_two_notes)).
  assert (H : saveIDToFrontmatter data = false \/ (1 < totalNotes st)%nat).
  { right. vm_compute. repeat constructor. }
  split; [exact H|].
  exact (frontmatter_id_falls_back_inline data st H).
Defined.

Lemma no_LF_check v : forallb (fun c => negb (Ascii.eqb LF c)) v = true -> ~ In LF v.
Proof.
  induction v as [|c v IH]; cbn [forallb In]; [tauto|].
  intros H. apply andb_prop in H. destruct H as (Hc & H).
  intros [E|E]; [|now apply IH]. subst c. now rewrite Ascii.eqb_refl in Hc.
Qed.

(** The fallback at work on the two documents: the edits of the write pass
    are the edit of the block, as the lemmas above give it, and the
    insertions; the remote store has answered with one identifier for the
    note still to add. *)
Example fallback_last_property :
  let data := Example.data [Example.known_nid] true false None [] in
  let st := scanFile (Example.X []) data (Example.cache_nid Example.known_nid)
                     (new_AllFile Example.nid_last_two_notes) in
  file st = fenced (str "title: x" ++ [LF] ++ str "nid: 1700000000012")
            ++ skipn 35 (file st) /\
  remove_frontmatter_nid (file st) = [EditEngine.mkEdit 0 35 (fenced (str "title: x"))] /\
  writeIDs_edits data (set_note_ids [Some 1700000000013] st)
  = [EditEngine.mkEdit 0 35 (fenced (str "title: x"));
     EditEngine.mkEdit 54 54 (str "<!--ID: 1700000000012-->" ++ [LF]);
     EditEngine.mkEdit 76 76 (str "<!--ID: 1700000000013-->" ++ [LF])] /\
  file (writeIDs data (set_note_ids [Some 1700000000013] st))
  = Example.lines ["---"; "title: x"; "---";
                   "START"; "Basic"; "Q1"; "A1"; "<!--ID: 1700000000012-->"; "END";
                   "START"; "Basic"; "Q2"; "A2"; "<!--ID: 1700000000013-->"; "END";
                   ""]%string.
Proof.
  cbv zeta.
  set (st := scanFile _ _ _ _).
  assert (E : file st = fenced (str "title: x" ++ [LF] ++ str "nid:" ++ str " 1700000000012")
                        ++ skipn 35 (file st)) by (vm_compute; reflexivity).
  split; [exact E|]. split; [|split; vm_compute; reflexivity].
  rewrite E at 1.
  rewrite (remove_frontmatter_nid_last (str "title: x") [LF] (str " 1700000000012")).
  - reflexivity.
  - vm_compute. reflexivity.
  - apply not_occurs. vm_compute. reflexivity.
  - right. exists (str "title: "), "x"%char. split; reflexivity.
  - apply no_LF_check. vm_compute. reflexivity.
  - now left.
  - apply no_fence_in_first. vm_compute. reflexivity.
Qed.

Example fallback_first_property :
  let data := Example.data [Example.known_nid] true false None [] in
  let st := scanFile (Example.X []) data (Example.cache_nid Example.known_nid)
                     (new_AllFile Example.nid_first_two_notes) in
  file st = fenced (str "nid: 1700000000012" ++ [LF] ++ str "title: x")
            ++ skipn 35 (file st) /\
  remove_frontmatter_nid (file st)
  = [EditEngine.mkEdit 0 35 (fenced (str "nid:" ++ [LF] ++ str "title: x"))].
Proof.
  cbv zeta.
  set (st := scanFile _ _ _ _).
  assert (E : file st = fenced ([] ++ str "nid:" ++ str " 1700000000012" ++ LF :: str "title: x")
                        ++ skipn 35 (file st)) by (vm_compute; reflexivity).
  split; [exact E|].
  rewrite E at 1.
  rewrite (remove_frontmatter_nid_not_last [] (str " 1700000000012") (str "title: x")).
  - reflexivity.
  - vm_compute. reflexivity.
  - now left.
  - apply not_occurs. vm_compute. reflexivity.
  - apply no_LF_check. vm_compute. reflexivity.
  - apply not_occurs. vm_compute. reflexivity.
  - apply no_fence_in_first. vm_compute. reflexivity.
Qed.

End FallbackFacts.

(** * The write pass and the identifiers of the remote store *)

Module WriteCallFacts.
Import Scanner ScannerProps ScannerFacts.

Section Call.

Variable X : imports.
Variable data : FileData.
Variable file_cache : CachedMetadata.

Lemma promote_total st n :
  totalNotes (promote st (Some n)) = S (totalNotes st).
Proof. unfold promote, totalNotes, push. simpl. rewrite length_app. simpl. lia. Qed.

Lemma promote_mode st n : useFrontmatterID (promote st n) = useFrontmatterID st.
Proof. now destruct n. Qed.

Lemma pop_one {A} (l : list A) : length l = 1%nat -> exists a, l = [a] /\ pop l = Some a.
Proof. destruct l as [|a [|b l]]; try discriminate. intros _. now exists a. Qed.

(** Front-matter mode is on after the reconciliation only for a document
    with one note in all, and the reconciliation keeps that count. *)
Lemma postProcess_single st :
  useFrontmatterID (postProcessFrontmatterID data st) = true ->
  totalNotes (postProcessFrontmatterID data st) = 1%nat.
Proof.
  unfold postProcessFrontmatterID.
  destruct (saveIDToFrontmatter data && (totalNotes st =? 1)%nat) eqn:Hc.
  - apply andb_prop in Hc. destruct Hc as (_ & Ht). apply Nat.eqb_eq in Ht.
    intros _. cbv zeta.
    change (frontmatterID (set_useFrontmatterID true st)) with (frontmatterID st).
    change (notes_to_add (set_useFrontmatterID true st)) with (notes_to_add st).
    change (inline_notes_to_add (set_useFrontmatterID true st)) with (inline_notes_to_add st).
    change (regex_notes_to_add (set_useFrontmatterID true st)) with (regex_notes_to_add st).
    change (notes_to_edit (set_useFrontmatterID true st)) with (notes_to_edit st).
    assert (H0 : totalNotes (set_useFrontmatterID true st) = 1%nat) by exact Ht.
    destruct (truthy (frontmatterID st)); [|exact H0].
    unfold totalNotes in Ht.
    destruct (Nat.eqb_spec (length (notes_to_add st)) 1) as [E1|E1].
    { destruct (includes _ _); [|exact H0].
      destruct (pop_one _ E1) as (a & Ea & ->). rewrite promote_total.
      unfold totalNotes. simpl. rewrite Ea. simpl. lia. }
    destruct ((length (inline_notes_to_add st) =? 1)%nat
              || (length (regex_notes_to_add st) =? 1)%nat) eqn:E2.
    { destruct (Nat.eqb_spec (length (inline_notes_to_add st)) 0) as [E3|E3]; cbn [negb].
      - destruct (includes _ _); [|exact H0].
        assert (E4 : length (regex_notes_to_add st) = 1%nat).
        { rewrite E3 in E2. simpl in E2. now apply Nat.eqb_eq in E2. }
        destruct (pop_one _ E4) as (a & Ea & ->). rewrite promote_total.
        unfold totalNotes. simpl. rewrite Ea. simpl. lia.
      - destruct (includes _ _); [|exact H0].
        assert (E4 : length (inline_notes_to_add st) = 1%nat) by lia.
        destruct (pop_one _ E4) as (a & Ea & ->). rewrite promote_total.
        unfold totalNotes. simpl. rewrite Ea. simpl. lia. }
    destruct (length (notes_to_edit st) =? 1)%nat; [|exact H0].
    destruct (notes_to_edit st) as [|parsed r] eqn:Ee; [exact H0|].
    destruct (negb _ && _); [|exact H0].
    unfold totalNotes in *. simpl in *. rewrite ?Ee in *. simpl in *. lia.
  - cbv zeta. intros H. exfalso. revert H.
    destruct st; simpl. split_cases; discriminate.
Qed.

Lemma app3_nil {A} (a b c : list A) :
  a ++ b ++ c = [] <-> (length a + length b + length c = 0)%nat.
Proof.
  split.
  - intros H. apply app_eq_nil in H. destruct H as (-> & H).
    apply app_eq_nil in H. now destruct H as (-> & ->).
  - destruct a, b, c; simpl; intros H; try discriminate; reflexivity.
Qed.

(** After the scan the write pass reads [note_ids] exactly when a note is
    left to add. *)
Lemma reads_note_ids_scanFile st0 :
  let st := scanFile X data file_cache st0 in
  reads_note_ids st = true
  <-> notes_to_add st ++ inline_notes_to_add st ++ regex_notes_to_add st <> [].
Proof.
  cbv zeta. set (st := scanFile X data file_cache st0).
  destruct (scanFile_lockstep X data file_cache st0) as (L1 & L2 & L3). fold st in L1, L2, L3.
  rewrite app3_nil. unfold reads_note_ids.
  destruct (useFrontmatterID st) eqn:Hu.
  - assert (Ht : totalNotes st = 1%nat) by (apply postProcess_single; exact Hu).
    unfold totalNotes in Ht. rewrite Nat.eqb_eq. lia.
  - rewrite negb_true_iff, !andb_false_iff, !Nat.eqb_neq. lia.
Qed.

(** Without insertion point, and in front-matter mode with a note to edit,
    the edits of the write pass do not depend on [note_ids]. *)
Lemma writeIDs_edits_unread st ids :
  reads_note_ids st = false ->
  writeIDs_edits data (set_note_ids ids st) = writeIDs_edits data st.
Proof.
  unfold reads_note_ids, writeIDs_edits.
  change (useFrontmatterID (set_note_ids ids st)) with (useFrontmatterID st).
  destruct (useFrontmatterID st).
  - intros H. apply Nat.eqb_neq in H. unfold getTargetID.
    change (notes_to_edit (set_note_ids ids st)) with (notes_to_edit st).
    destruct (notes_to_edit st); [now elim H|reflexivity].
  - intros H. apply negb_false_iff in H.
    apply andb_prop in H. destruct H as (H & H3). apply andb_prop in H. destruct H as (H1 & H2).
    apply Nat.eqb_eq, length_zero_iff_nil in H1, H2, H3.
    change (id_indexes (set_note_ids ids st)) with (id_indexes st).
    change (inline_id_indexes (set_note_ids ids st)) with (inline_id_indexes st).
    change (regex_id_indexes (set_note_ids ids st)) with (regex_id_indexes st).
    now rewrite H1, H2, H3.
Qed.

End Call.

(** X27: [writeIDs] called after [scanFile] before the caller has assigned
    [note_ids] throws exactly when the scan has left a note to add, in either
    mode; when no note is left to add it returns, and it writes the same text
    whatever the field holds.  With [note_ids] assigned it returns. *)
Theorem write_pass_before_assignment
        (X : imports) (data : FileData) (file_cache : CachedMetadata) (st0 : AllFile) :
  let st := scanFile X data file_cache st0 in
  let to_add := notes_to_add st ++ inline_notes_to_add st ++ regex_notes_to_add st in
  (writeIDs_call data None st = None <-> to_add <> []) /\
  (to_add = [] ->
   writeIDs_call data None st = Some (writeIDs data st) /\
   forall ids, file (writeIDs data (set_note_ids ids st)) = file (writeIDs data st)) /\
  (forall ids, writeIDs_call data (Some ids) st = Some (writeIDs data (set_note_ids ids st))).
Proof.
  cbv zeta. set (st := scanFile X data file_cache st0).
  assert (H := reads_note_ids_scanFile X data file_cache st0). cbv zeta in H. fold st in H.
  split; [|split; [|reflexivity]].
  - rewrite <- H. unfold writeIDs_call. destruct (reads_note_ids st); split; congruence.
  - intros E.
    assert (Hr : reads_note_ids st = false).
    { destruct (reads_note_ids st); [|reflexivity]. exfalso. now apply H. }
    split; [unfold writeIDs_call; now rewrite Hr|].
    intros ids. unfold writeIDs. rewrite (writeIDs_edits_unread data st ids Hr).
    cbn [file set_file useFrontmatterID set_note_ids].
    change (file (set_note_ids ids st)) with (file st).
    change (useFrontmatterID (set_file ?f (set_note_ids ids st))) with (useFrontmatterID st).
    change (useFrontmatterID (set_file ?f st)) with (useFrontmatterID st).
    now destruct (useFrontmatterID st).
Qed.

(** The call at work: a document with a new note, and scenario A where the
    note is known. *)
Example write_pass_throws_on_new_note :
  let data := Example.data [12] false false None [] in
  let doc := Example.lines ["START"; "Basic"; "Q"; "A"; "END"; ""]%string in
  writeIDs_call data None (scanFile (Example.X []) data Example.no_cache (new_AllFile doc))
  = None /\
  option_map file
    (writeIDs_call data (Some [Some 1700000000013])
       (scanFile (Example.X []) data Example.no_cache (new_AllFile doc)))
  = Some (Example.lines ["START"; "Basic"; "Q"; "A"; "<!--ID: 1700000000013-->"; "END"; ""]%string) /\
  option_map file
    (writeIDs_call data None
       (scanFile (Example.X []) data Example.no_cache (new_AllFile Example.scenario_A)))
  = Some Example.scenario_A.
Proof. cbv zeta. repeat split; vm_compute; reflexivity. Qed.

End WriteCallFacts.
